(** * The gang time-slicing scheduler of SLURM (plugins/sched/gang/gang.c)

    A shallow embedding of the scheduler's data structures and functions,
    followed by the properties of them that are proved.

    Conventions of the embedding.
    - C integers are [Z]; where the C type can wrap (uint16_t sums of CPU
      counts, the uint32_t counter [jobs_active], the [int] position of
      [_get_phys_res_cnt]) the wrap-around is written out.
    - A C array is a list; a read or write outside it, the use of a NULL
      array and the use of a pointer to a released job are undefined in C
      and end the run of the model with a [gs_fault].
    - A [struct gs_job] is owned by the one [job_list] that holds it, so a
      job list is a list of job records; the address of the struct is kept
      in [job_addr], and a shadow entry (a [struct gs_job *] into another
      partition's list) is such an address.
    - A [struct gs_part *] is the position of the partition in
      [gs_part_list]. *)

From stdpp Require Import base list strings numbers sorting relations.
From Stdlib Require Import ZArith Lia.

Local Open Scope Z_scope.

(** ** Flags and structures *)

Inductive entity_type := GS_NODE | GS_SOCKET | GS_CORE | GS_CPU.

Inductive gs_flags :=
  | GS_SUSPEND | GS_RESUME | GS_NO_PART | GS_SUCCESS
  | GS_ACTIVE | GS_NO_ACTIVE | GS_FILLER.

#[global] Instance entity_type_eq_dec : EqDecision entity_type.
Proof. solve_decision. Defined.

#[global] Instance gs_flags_eq_dec : EqDecision gs_flags.
Proof. solve_decision. Defined.

(** A [bitstr_t] is its sequence of bits. *)
Abbreviation bitstr := (list bool).

Record gs_job := mk_gs_job {
  job_addr : nat;
  job_id : Z;
  sig_state : gs_flags;
  row_state : gs_flags;
  resmap : bitstr;
  alloc_cpus : option (list Z)
}.

Record gs_part := mk_gs_part {
  part_name : string;
  priority : Z;
  job_list : list gs_job;
  shadow : list nat;
  jobs_active : Z;
  active_resmap : option bitstr;
  active_cpus : option (list Z)
}.

(** [num_jobs] and [num_shadows] are the lengths of the two arrays: the C
    code keeps [shadow] NULL-terminated right after its [num_shadows]
    entries, which is what the loop of [_update_active_row] relies on. *)
Definition num_jobs (p : gs_part) : nat := length (job_list p).
Definition num_shadows (p : gs_part) : nat := length (shadow p).

Definition set_sig_state (v : gs_flags) (j : gs_job) : gs_job :=
  mk_gs_job (job_addr j) (job_id j) v (row_state j) (resmap j) (alloc_cpus j).

Definition set_row_state (v : gs_flags) (j : gs_job) : gs_job :=
  mk_gs_job (job_addr j) (job_id j) (sig_state j) v (resmap j) (alloc_cpus j).

Definition set_job_list (l : list gs_job) (p : gs_part) : gs_part :=
  mk_gs_part (part_name p) (priority p) l (shadow p) (jobs_active p)
    (active_resmap p) (active_cpus p).

Definition set_shadow (l : list nat) (p : gs_part) : gs_part :=
  mk_gs_part (part_name p) (priority p) (job_list p) l (jobs_active p)
    (active_resmap p) (active_cpus p).

Definition set_jobs_active (n : Z) (p : gs_part) : gs_part :=
  mk_gs_part (part_name p) (priority p) (job_list p) (shadow p) n
    (active_resmap p) (active_cpus p).

(** ** What the plugin takes from slurmctld *)

Record node_record := mk_node_record {
  cpus : Z; sockets : Z; cores : Z;
  config_cpus : Z; config_sockets : Z; config_cores : Z
}.

Inductive job_states :=
  | JOB_PENDING | JOB_RUNNING | JOB_SUSPENDED | JOB_COMPLETE
  | JOB_CANCELLED | JOB_FAILED | JOB_TIMEOUT | JOB_NODE_FAIL.

#[global] Instance job_states_eq_dec : EqDecision job_states.
Proof. solve_decision. Defined.

Record job_record := mk_job_record {
  jr_job_id : Z;
  jr_partition : string;
  jr_job_state : job_states;
  jr_node_bitmap : bitstr
}.

Record part_record := mk_part_record {
  pr_name : string;
  pr_priority : Z
}.

(** The two operations of a [suspend_msg_t]; a message is a job id with
    one of them. *)
Inductive suspend_opts := SUSPEND_JOB | RESUME_JOB.

#[global] Instance suspend_opts_eq_dec : EqDecision suspend_opts.
Proof. solve_decision. Defined.

Abbreviation suspend_msg := (Z * suspend_opts)%type.

(** ** Faults and results *)

Inductive gs_fault :=
  | NullArray      (* an array that is NULL is indexed *)
  | OutOfBounds    (* an array is indexed outside its allocation *)
  | Dangling       (* a job or partition pointer that refers to nothing *)
  | FatalError.    (* the code called fatal() *)

Inductive outcome (A : Type) :=
  | Ok (a : A)
  | Fault (e : gs_fault).
Arguments Ok {A} a.
Arguments Fault {A} e.

Definition obind {A B} (m : outcome A) (k : A → outcome B) : outcome B :=
  match m with
  | Ok a => k a
  | Fault e => Fault e
  end.

Notation "x <~ m ;; k" := (obind m (fun x => k))
  (at level 100, m at next level, right associativity).

Definition array_get {A} (l : list A) (i : nat) : outcome A :=
  match l !! i with
  | Some x => Ok x
  | None => Fault OutOfBounds
  end.

Definition array_set {A} (l : list A) (i : nat) (x : A) : outcome (list A) :=
  if decide (i < length l)%nat then Ok (<[i:=x]> l) else Fault OutOfBounds.

Definition non_null {A} (o : option A) : outcome A :=
  match o with
  | Some x => Ok x
  | None => Fault NullArray
  end.

(** ** Integer conversions *)

Definition to_uint16 (z : Z) : Z := z mod 65536.
Definition to_uint32 (z : Z) : Z := z mod 4294967296.
Definition to_int (z : Z) : Z := (z + 2147483648) mod 4294967296 - 2147483648.

(** ** Bit strings

    Modelled from the spec: src/common/bitstring.c is not among the sources;
    the spec names the operations the scheduler uses (bit-AND, OR into,
    clone, overwrite in place, popcount, test of a bit). The strings the
    scheduler combines all have the same size; the model keeps the size of
    the string that is written and reads an absent bit as clear. *)

Definition bit_size (b : bitstr) : nat := length b.

Definition bit_test (b : bitstr) (i : nat) : bool :=
  match b !! i with
  | Some x => x
  | None => false
  end.

Definition bit_set_count (b : bitstr) : nat := length (filter (λ x, x = true) b).

Definition bit_copy (b : bitstr) : bitstr := b.

Definition bit_and (b1 b2 : bitstr) : bitstr :=
  imap (λ i x, x && bit_test b2 i) b1.

Definition bit_or (b1 b2 : bitstr) : bitstr :=
  imap (λ i x, x || bit_test b2 i) b1.

Definition bit_copybits (dest src : bitstr) : bitstr :=
  imap (λ i _, bit_test src i) dest.

Definition bit_alloc (n : nat) : bitstr := replicate n false.

(** ** The physical-resource table *)

(** The loop [while (res_index >= pos) pos += gs_cpu_count_reps[i++];]
    entered with [i] entries of the table already read and [rest] the
    entries after them; it returns the final [i]. *)
Fixpoint _get_phys_res_cnt_loop (rest : list Z) (res_index pos : Z) (i : nat)
  : outcome nat :=
  if res_index >=? pos then
    match rest with
    | [] => Fault OutOfBounds
    | r :: rest' => _get_phys_res_cnt_loop rest' res_index (to_int (pos + r)) (S i)
    end
  else Ok i.

Definition _get_phys_res_cnt (gs_cpus_per_res gs_cpu_count_reps : list Z)
    (res_index : Z) : outcome Z :=
  match gs_cpu_count_reps with
  | [] => Fault OutOfBounds
  | r0 :: rest =>
      i <~ _get_phys_res_cnt_loop rest res_index (to_int r0) 1 ;;
      array_get gs_cpus_per_res (i - 1)
  end.

(** ** The global variables of the plugin

    [gs_part_sorted] is the allocated array of partition pointers (empty
    while the C pointer is NULL) and [num_sorted_part] the count kept with
    it; [next_job_addr] is the address the next [xmalloc] of a
    [struct gs_job] returns.
    [signals_sent] records the messages given to [job_suspend] (oldest
    first) and [errors_logged] the [error()] lines of [_signal_job], each
    with the return code, the signal and the job id it prints. *)

Record gs_state := mk_gs_state {
  gr_type : entity_type;
  gs_fast_schedule : Z;
  gs_resmap_size : nat;
  gs_cpus_per_res : list Z;
  gs_cpu_count_reps : list Z;
  gs_part_list : list gs_part;
  gs_part_sorted : list nat;
  num_sorted_part : nat;
  next_job_addr : nat;
  signals_sent : list suspend_msg;
  errors_logged : list (Z * gs_flags * Z)
}.

Definition set_part_list (l : list gs_part) (s : gs_state) : gs_state :=
  mk_gs_state (gr_type s) (gs_fast_schedule s) (gs_resmap_size s)
    (gs_cpus_per_res s) (gs_cpu_count_reps s) l (gs_part_sorted s)
    (num_sorted_part s) (next_job_addr s) (signals_sent s) (errors_logged s).

Definition set_part_sorted (l : list nat) (n : nat) (s : gs_state) : gs_state :=
  mk_gs_state (gr_type s) (gs_fast_schedule s) (gs_resmap_size s)
    (gs_cpus_per_res s) (gs_cpu_count_reps s) (gs_part_list s) l
    n (next_job_addr s) (signals_sent s) (errors_logged s).

Definition cap (s : gs_state) (i : nat) : outcome Z :=
  _get_phys_res_cnt (gs_cpus_per_res s) (gs_cpu_count_reps s) (Z.of_nat i).

(** ** The fit engine *)

(** The [for] loop of [_can_cpus_fit] with [n] turns left, at bit [i] and
    with [a] entries of the job's CPU array passed. *)
Fixpoint _can_cpus_fit_loop (s : gs_state) (setmap jmap : bitstr)
    (p_cpus j_cpus : list Z) (n i a : nat) : outcome bool :=
  match n with
  | O => Ok true
  | S n' =>
      fit <~ (if bit_test setmap i then
                pc <~ array_get p_cpus i ;;
                jc <~ array_get j_cpus a ;;
                lim <~ cap s i ;;
                Ok (negb (pc + jc >? lim))
              else Ok true) ;;
      if (fit : bool) then
        _can_cpus_fit_loop s setmap jmap p_cpus j_cpus n' (S i)
          (if bit_test jmap i then S a else a)
      else Ok false
  end.

Definition _can_cpus_fit (s : gs_state) (setmap : bitstr) (j : gs_job)
    (p : gs_part) : outcome bool :=
  match active_cpus p, alloc_cpus j with
  | Some p_cpus, Some j_cpus =>
      _can_cpus_fit_loop s setmap (resmap j) p_cpus j_cpus (bit_size setmap) 0 0
  | _, _ => Ok false
  end.

Definition _job_fits_in_active_row (s : gs_state) (j : gs_job) (p : gs_part)
  : outcome bool :=
  match active_resmap p with
  | None => Ok true
  | Some amap =>
      if jobs_active p =? 0 then Ok true
      else
        let tmpmap := bit_and (bit_copy (resmap j)) amap in
        let count := bit_set_count tmpmap in
        if (count =? 0)%nat then Ok true
        else
          match gr_type s with
          | GS_NODE | GS_SOCKET => Ok false
          | GS_CORE | GS_CPU => _can_cpus_fit s tmpmap j p
          end
  end.

(** The loop of [_add_job_to_active] that overwrites [active_cpus]. *)
Fixpoint _overwrite_cpus_loop (jmap : bitstr) (j_cpus : option (list Z))
    (n i a : nat) (arr : list Z) : outcome (list Z) :=
  match n with
  | O => Ok arr
  | S n' =>
      if bit_test jmap i then
        jarr <~ non_null j_cpus ;;
        jc <~ array_get jarr a ;;
        arr' <~ array_set arr i jc ;;
        _overwrite_cpus_loop jmap j_cpus n' (S i) (S a) arr'
      else
        arr' <~ array_set arr i 0 ;;
        _overwrite_cpus_loop jmap j_cpus n' (S i) a arr'
  end.

(** The loop of [_add_job_to_active] that adds to [active_cpus]. *)
Fixpoint _add_cpus_loop (s : gs_state) (jmap : bitstr)
    (j_cpus : option (list Z)) (n i a : nat) (arr : list Z)
  : outcome (list Z) :=
  match n with
  | O => Ok arr
  | S n' =>
      if bit_test jmap i then
        limit <~ cap s i ;;
        jarr <~ non_null j_cpus ;;
        jc <~ array_get jarr a ;;
        pc <~ array_get arr i ;;
        let sum := to_uint16 (pc + jc) in
        arr' <~ array_set arr i (if sum >? limit then limit else sum) ;;
        _add_cpus_loop s jmap j_cpus n' (S i) (S a) arr'
      else _add_cpus_loop s jmap j_cpus n' (S i) a arr
  end.

Definition _add_job_to_active (s : gs_state) (j : gs_job) (p : gs_part)
  : outcome gs_part :=
  let amap :=
    match active_resmap p with
    | None => bit_copy (resmap j)
    | Some m =>
        if jobs_active p =? 0 then bit_copybits m (resmap j)
        else bit_or m (resmap j)
    end in
  acpus <~ match gr_type s with
           | GS_CPU | GS_CORE =>
               let sz := bit_size amap in
               let arr := match active_cpus p with
                          | None => replicate sz 0
                          | Some arr => arr
                          end in
               arr' <~ (if jobs_active p =? 0
                        then _overwrite_cpus_loop (resmap j) (alloc_cpus j) sz 0 0 arr
                        else _add_cpus_loop s (resmap j) (alloc_cpus j) sz 0 0 arr) ;;
               Ok (Some arr')
           | GS_NODE | GS_SOCKET => Ok (active_cpus p)
           end ;;
  Ok (mk_gs_part (part_name p) (priority p) (job_list p) (shadow p)
        (to_uint32 (jobs_active p + 1)) (Some amap) acpus).

(** ** The state monad of the stateful functions *)

Definition M (A : Type) : Type := gs_state → outcome (A * gs_state).

Definition ret {A} (a : A) : M A := λ s, Ok (a, s).

Definition bind {A B} (m : M A) (k : A → M B) : M B :=
  λ s, match m s with
       | Ok (a, s') => k a s'
       | Fault e => Fault e
       end.

Notation "x <- m ;; k" := (bind m (fun x => k))
  (at level 100, m at next level, right associativity).
Notation "m ;;; k" := (bind m (fun _ => k))
  (at level 100, right associativity).

Definition lift {A} (o : outcome A) : M A :=
  λ s, match o with
       | Ok a => Ok (a, s)
       | Fault e => Fault e
       end.

Definition gets {A} (f : gs_state → A) : M A := λ s, Ok (f s, s).

Definition get_state : M gs_state := λ s, Ok (s, s).

Definition modify (f : gs_state → gs_state) : M unit := λ s, Ok (tt, f s).

Fixpoint for_each {A} (l : list A) (body : A → M unit) : M unit :=
  match l with
  | [] => ret tt
  | x :: l' => body x ;;; for_each l' body
  end.

(** [for (i = 0; i < n; i++) body(i)] *)
Definition for_index (n : nat) (body : nat → M unit) : M unit :=
  for_each (seq 0 n) body.

(** Reading and writing through a [struct gs_part *]. *)
Definition get_part (p_ptr : nat) : M gs_part :=
  λ s, match gs_part_list s !! p_ptr with
       | Some p => Ok (p, s)
       | None => Fault Dangling
       end.

Definition put_part (p_ptr : nat) (p : gs_part) : M unit :=
  modify (λ s, set_part_list (<[p_ptr:=p]> (gs_part_list s)) s).

(** Reading and writing [p_ptr->job_list[i]]. *)
Definition get_job (p_ptr i : nat) : M gs_job :=
  p <- get_part p_ptr ;;
  lift (array_get (job_list p) i).

Definition modify_job (p_ptr i : nat) (f : gs_job → gs_job) : M unit :=
  p <- get_part p_ptr ;;
  j <- lift (array_get (job_list p) i) ;;
  put_part p_ptr (set_job_list (<[i:=f j]> (job_list p)) p).

(** Reading through a [struct gs_job *] kept in a shadow array: the job
    lives in the job list of some partition. *)
Definition find_job_addr (parts : list gs_part) (a : nat) : option gs_job :=
  snd <$> list_find (λ j, job_addr j = a) (concat (map job_list parts)).

Definition deref_job (a : nat) : M gs_job :=
  λ s, match find_job_addr (gs_part_list s) a with
       | Some j => Ok (j, s)
       | None => Fault Dangling
       end.

Definition job_fits (j : gs_job) (p_ptr : nat) : M bool :=
  p <- get_part p_ptr ;;
  s <- get_state ;;
  lift (_job_fits_in_active_row s j p).

Definition add_active (j : gs_job) (p_ptr : nat) : M unit :=
  p <- get_part p_ptr ;;
  s <- get_state ;;
  p' <- lift (_add_job_to_active s j p) ;;
  put_part p_ptr p'.

(** ** The shadow propagator *)

Definition _cast_shadow_part (j_ptr : nat) (prio : Z) (p : gs_part) : gs_part :=
  if priority p >=? prio then p
  else if bool_decide (j_ptr ∈ shadow p) then p
  else set_shadow (shadow p ++ [j_ptr]) p.

Definition _cast_shadow (j_ptr : nat) (prio : Z) : M unit :=
  modify (λ s, set_part_list (map (_cast_shadow_part j_ptr prio) (gs_part_list s)) s).

(** The first entry equal to [j_ptr] is dropped and the later ones move
    down. *)
Fixpoint shadow_remove (j_ptr : nat) (l : list nat) : list nat :=
  match l with
  | [] => []
  | x :: l' => if decide (x = j_ptr) then l' else x :: shadow_remove j_ptr l'
  end.

Definition _clear_shadow_part (j_ptr : nat) (p : gs_part) : gs_part :=
  set_shadow (shadow_remove j_ptr (shadow p)) p.

Definition _clear_shadow (j_ptr : nat) : M unit :=
  modify (λ s, set_part_list (map (_clear_shadow_part j_ptr) (gs_part_list s)) s).

(** ** Sorting the partitions *)

Definition part_priority (parts : list gs_part) (p_ptr : nat) : outcome Z :=
  match parts !! p_ptr with
  | Some p => Ok (priority p)
  | None => Fault Dangling
  end.

(** The inner loop [for (i = ...; i < size; i++)] with [n] turns left. *)
Fixpoint _sort_inner (parts : list gs_part) (n i j : nat) (a : list nat)
  : outcome (list nat) :=
  match n with
  | O => Ok a
  | S n' =>
      pi <~ array_get a i ;;
      pj <~ array_get a j ;;
      qi <~ part_priority parts pi ;;
      qj <~ part_priority parts pj ;;
      a' <~ (if qi >? qj then
               a1 <~ array_set a j pi ;;
               array_set a1 i pj
             else Ok a) ;;
      _sort_inner parts n' (S i) j a'
  end.

(** The outer loop [for (j = ...; j < size; j++)] with [n] turns left. *)
Fixpoint _sort_outer (parts : list gs_part) (size n j : nat) (a : list nat)
  : outcome (list nat) :=
  match n with
  | O => Ok a
  | S n' =>
      a' <~ _sort_inner parts (size - (j + 1)) (j + 1) j a ;;
      _sort_outer parts size n' (S j) a'
  end.

Definition _sort_partitions : M unit :=
  λ s,
    let size := length (gs_part_list s) in
    let loaded :=
      if decide (size ≠ num_sorted_part s) then seq 0 size
      else gs_part_sorted s in
    sorted <~ (if decide (size ≤ 1)%nat then array_set loaded 0 0%nat
               else _sort_outer (gs_part_list s) size size 0 loaded) ;;
    Ok (tt, set_part_sorted sorted size s).

(** ** The scheduler proper

    The three things the functions below take from outside the plugin:
    the node table of slurmctld, the allocation plugin's count of the cores
    a job holds on a socket, and the return code of [job_suspend], which
    may depend on the messages sent before. *)

Section Scheduler.

Variable node_record_table_ptr : list node_record.
Variable select_g_get_job_cores : Z → nat → nat → Z.
Variable job_suspend : list suspend_msg → suspend_msg → Z.

Definition node_record_count : nat := length node_record_table_ptr.

Definition _signal_job (id : Z) (sig : gs_flags) : M unit :=
  λ s,
    let msg : suspend_msg :=
      (id, if decide (sig = GS_SUSPEND) then SUSPEND_JOB else RESUME_JOB) in
    let rc := job_suspend (signals_sent s) msg in
    Ok (tt, mk_gs_state (gr_type s) (gs_fast_schedule s) (gs_resmap_size s)
              (gs_cpus_per_res s) (gs_cpu_count_reps s) (gs_part_list s)
              (gs_part_sorted s) (num_sorted_part s) (next_job_addr s)
              (signals_sent s ++ [msg])
              (if rc =? 0 then errors_logged s
               else errors_logged s ++ [(rc, sig, id)])).

(** Return resource data for the given node. *)
Definition _compute_resources (s : gs_state) (i : nat) (socket_count : bool)
  : outcome Z :=
  match gr_type s with
  | GS_NODE => Ok 1
  | GS_CPU =>
      if socket_count then Ok 1
      else
        n <~ array_get node_record_table_ptr i ;;
        Ok (to_uint16 (if gs_fast_schedule s =? 0 then cpus n else config_cpus n))
  | GS_SOCKET =>
      n <~ array_get node_record_table_ptr i ;;
      Ok (to_uint16 (if gs_fast_schedule s =? 0 then sockets n
                     else config_sockets n))
  | GS_CORE =>
      n <~ array_get node_record_table_ptr i ;;
      Ok (to_uint16
            (if socket_count then
               if gs_fast_schedule s =? 0 then sockets n else config_sockets n
             else if gs_fast_schedule s =? 0 then cores n else config_cores n))
  end.

(** The loop over the sockets of one allocated node in [_get_resmap]. *)
Fixpoint _get_resmap_sockets (id : Z) (alloc_index : nat) (n j map_index : nat)
    (newmap : bitstr) : outcome (nat * bitstr) :=
  match n with
  | O => Ok (map_index, newmap)
  | S n' =>
      newmap' <~ (if to_uint16 (select_g_get_job_cores id alloc_index j) >? 0
                  then array_set newmap map_index true
                  else Ok newmap) ;;
      _get_resmap_sockets id alloc_index n' (S j) (S map_index) newmap'
  end.

(** The loop over the nodes in [_get_resmap]. *)
Fixpoint _get_resmap_nodes (s : gs_state) (origmap : bitstr) (id : Z)
    (n i alloc_index map_index : nat) (newmap : bitstr) : outcome bitstr :=
  match n with
  | O => Ok newmap
  | S n' =>
      nsockets <~ _compute_resources s i true ;;
      if bit_test origmap i then
        r <~ _get_resmap_sockets id alloc_index (Z.to_nat nsockets) 0
               map_index newmap ;;
        _get_resmap_nodes s origmap id n' (S i) (S alloc_index) (fst r) (snd r)
      else
        _get_resmap_nodes s origmap id n' (S i) alloc_index
          (map_index + Z.to_nat nsockets) newmap
  end.

(** Return an appropriate resmap given the granularity. *)
Definition _get_resmap (s : gs_state) (origmap : bitstr) (id : Z)
  : outcome bitstr :=
  if decide (bit_size origmap ≠ node_record_count) then Fault FatalError
  else
    match gr_type s with
    | GS_NODE | GS_CPU => Ok (bit_copy origmap)
    | GS_SOCKET | GS_CORE =>
        _get_resmap_nodes s origmap id node_record_count 0 0 0
          (bit_alloc (gs_resmap_size s))
    end.

(** The loop over the sockets of one allocated node in [_load_alloc_cpus]. *)
Fixpoint _load_alloc_cpus_sockets (id : Z) (alloc_index : nat) (n j a : nat)
    (arr : list Z) : outcome (nat * list Z) :=
  match n with
  | O => Ok (a, arr)
  | S n' =>
      let ncores := to_uint16 (select_g_get_job_cores id alloc_index j) in
      if ncores >? 0 then
        arr' <~ array_set arr a ncores ;;
        _load_alloc_cpus_sockets id alloc_index n' (S j) (S a) arr'
      else _load_alloc_cpus_sockets id alloc_index n' (S j) a arr
  end.

(** The loop over the nodes in [_load_alloc_cpus]. *)
Fixpoint _load_alloc_cpus_nodes (s : gs_state) (nodemap : bitstr) (id : Z)
    (n i a alloc_index : nat) (arr : list Z) : outcome (list Z) :=
  match n with
  | O => Ok arr
  | S n' =>
      nsockets <~ _compute_resources s i true ;;
      if bit_test nodemap i then
        r <~ _load_alloc_cpus_sockets id alloc_index (Z.to_nat nsockets) 0 a arr ;;
        _load_alloc_cpus_nodes s nodemap id n' (S i) (fst r) (S alloc_index) (snd r)
      else _load_alloc_cpus_nodes s nodemap id n' (S i) a alloc_index arr
  end.

(** Load the CPU array of a job whose resmap is [jmap]. *)
Definition _load_alloc_cpus (s : gs_state) (jmap nodemap : bitstr) (id : Z)
  : outcome (list Z) :=
  _load_alloc_cpus_nodes s nodemap id node_record_count 0 0 0
    (replicate (bit_set_count jmap) 0).

(** ** The row updater *)

(** One turn of the loops of [_update_active_row] over the jobs that are
    already seated; the loop for the 'active' jobs and the loop for the
    'filler' jobs have the same body, [which] is the row state they select. *)
Definition _update_seated_job (p_ptr : nat) (which : gs_flags) (i : nat)
  : M unit :=
  j <- get_job p_ptr i ;;
  if decide (row_state j ≠ which) then ret tt
  else
    fits <- job_fits j p_ptr ;;
    if (fits : bool) then
      add_active j p_ptr ;;;
      p <- get_part p_ptr ;;
      _cast_shadow (job_addr j) (priority p)
    else
      (if decide (sig_state j ≠ GS_SUSPEND) then
         _signal_job (job_id j) GS_SUSPEND ;;;
         modify_job p_ptr i (set_sig_state GS_SUSPEND) ;;;
         _clear_shadow (job_addr j)
       else ret tt) ;;;
      modify_job p_ptr i (set_row_state GS_NO_ACTIVE).

(** One turn of the loop of [_update_active_row] over the new jobs. *)
Definition _update_new_job (p_ptr : nat) (i : nat) : M unit :=
  j <- get_job p_ptr i ;;
  if decide (row_state j ≠ GS_NO_ACTIVE) then ret tt
  else
    fits <- job_fits j p_ptr ;;
    if (fits : bool) then
      add_active j p_ptr ;;;
      p <- get_part p_ptr ;;
      _cast_shadow (job_addr j) (priority p) ;;;
      modify_job p_ptr i (set_row_state GS_FILLER) ;;;
      if decide (sig_state j = GS_SUSPEND) then
        _signal_job (job_id j) GS_RESUME ;;;
        modify_job p_ptr i (set_sig_state GS_RESUME)
      else ret tt
    else ret tt.

(** Rebuild the active row BUT preserve the order of existing jobs. *)
Definition _update_active_row (p_ptr : nat) (add_new_jobs : bool) : M unit :=
  p <- get_part p_ptr ;;
  put_part p_ptr (set_jobs_active 0 p) ;;;
  for_each (shadow p) (λ sh, j <- deref_job sh ;; add_active j p_ptr) ;;;
  for_index (num_jobs p) (_update_seated_job p_ptr GS_ACTIVE) ;;;
  for_index (num_jobs p) (_update_seated_job p_ptr GS_FILLER) ;;;
  if add_new_jobs then for_index (num_jobs p) (_update_new_job p_ptr)
  else ret tt.

(** Rebuild all active rows without reordering jobs. *)
Definition _update_all_active_rows : M unit :=
  _sort_partitions ;;;
  n <- gets num_sorted_part ;;
  for_index n (λ i,
    sorted <- gets gs_part_sorted ;;
    p_ptr <- lift (array_get sorted i) ;;
    _update_active_row p_ptr true).

(** ** Adding and removing jobs *)

(** Find the job_list index of the given job_id in the given partition;
    [None] stands for the -1 of the C function. *)
Fixpoint _find_job_index_from (l : list gs_job) (id : Z) (i : nat) : option nat :=
  match l with
  | [] => None
  | j :: l' => if job_id j =? id then Some i else _find_job_index_from l' id (S i)
  end.

Definition _find_job_index (p : gs_part) (id : Z) : option nat :=
  _find_job_index_from (job_list p) id 0.

(** Remove the given job from the given partition; [None] is the NULL
    partition pointer. *)
Definition _remove_job_from_part (id : Z) (p_ptr : option nat) : M unit :=
  match p_ptr with
  | None => ret tt
  | Some p_ptr =>
      if id =? 0 then ret tt
      else
        p <- get_part p_ptr ;;
        match _find_job_index p id with
        | None => ret tt
        | Some i =>
            j <- get_job p_ptr i ;;
            _clear_shadow (job_addr j) ;;;
            p' <- get_part p_ptr ;;
            put_part p_ptr (set_job_list (delete i (job_list p')) p') ;;;
            if decide (sig_state j = GS_SUSPEND)
            then _signal_job (job_id j) GS_RESUME
            else ret tt
        end
  end.

Definition xmalloc_job : M nat :=
  λ s, Ok (next_job_addr s,
           mk_gs_state (gr_type s) (gs_fast_schedule s) (gs_resmap_size s)
             (gs_cpus_per_res s) (gs_cpu_count_reps s) (gs_part_list s)
             (gs_part_sorted s) (num_sorted_part s) (S (next_job_addr s))
             (signals_sent s) (errors_logged s)).

(** Add the given job to the given partition, and if it remains running
    then cast its shadow over the active row of any partition with a lower
    priority. Return the sig state of the job. *)
Definition _add_job_to_part (p_ptr : nat) (jid : Z) (job_bitmap : bitstr)
  : M gs_flags :=
  p <- get_part p_ptr ;;
  match _find_job_index p jid with
  | Some _ =>
      _remove_job_from_part jid (Some p_ptr) ;;;
      _update_active_row p_ptr false
  | None => ret tt
  end ;;;
  addr <- xmalloc_job ;;
  s <- get_state ;;
  jmap <- lift (_get_resmap s job_bitmap jid) ;;
  jcpus <- match gr_type s with
           | GS_CORE | GS_CPU =>
               arr <- lift (_load_alloc_cpus s jmap job_bitmap jid) ;;
               ret (Some arr)
           | GS_NODE | GS_SOCKET => ret None
           end ;;
  let j := mk_gs_job addr jid GS_RESUME GS_NO_ACTIVE jmap jcpus in
  p <- get_part p_ptr ;;
  let i := num_jobs p in
  put_part p_ptr (set_job_list (job_list p ++ [j]) p) ;;;
  fits <- job_fits j p_ptr ;;
  (if (fits : bool) then
     add_active j p_ptr ;;;
     modify_job p_ptr i (set_row_state GS_FILLER) ;;;
     p <- get_part p_ptr ;;
     _cast_shadow (job_addr j) (priority p)
   else
     _signal_job (job_id j) GS_SUSPEND ;;;
     modify_job p_ptr i (set_sig_state GS_SUSPEND)) ;;;
  j' <- get_job p_ptr i ;;
  ret (sig_state j').

(** ** The time slicer *)

(** Build the active row from the job_list. *)
Definition _build_active_row (p_ptr : nat) : M unit :=
  p <- get_part p_ptr ;;
  put_part p_ptr (set_jobs_active 0 p) ;;;
  if decide (num_jobs p = 0%nat) then ret tt
  else
    for_index (num_shadows p) (λ i,
      sh <- lift (array_get (shadow p) i) ;;
      j <- deref_job sh ;;
      add_active j p_ptr) ;;;
    for_index (num_jobs p) (λ i,
      j <- get_job p_ptr i ;;
      fits <- job_fits j p_ptr ;;
      if (fits : bool) then
        add_active j p_ptr ;;;
        modify_job p_ptr i (set_row_state GS_ACTIVE)
      else ret tt).

(** The loop [while (p_ptr->job_list[i]->row_state == GS_ACTIVE)] of
    [_cycle_job_list]: the job at [i] is de-activated and moved to the back
    of the list. Every turn de-activates one job, so a list of [n] jobs
    allows at most [n] turns; [fuel] counts the turns that are left, and the
    loop is entered with more of it than the list has jobs. *)
Fixpoint _cycle_move_back (fuel : nat) (i : nat) (l : list gs_job)
  : outcome (list gs_job) :=
  j <~ array_get l i ;;
  if decide (row_state j = GS_ACTIVE) then
    match fuel with
    | O => Ok l
    | S fuel' =>
        _cycle_move_back fuel' i (delete i l ++ [set_row_state GS_NO_ACTIVE j])
    end
  else Ok l.

(** The loop [for (i = 0; i < p_ptr->num_jobs; i++)] of [_cycle_job_list]
    that re-prioritizes the job_list, with [n] turns left. *)
Fixpoint _cycle_reorder_loop (n i : nat) (l : list gs_job)
  : outcome (list gs_job) :=
  match n with
  | O => Ok l
  | S n' =>
      l1 <~ _cycle_move_back (length l) i l ;;
      j <~ array_get l1 i ;;
      _cycle_reorder_loop n' (S i)
        (if decide (row_state j = GS_FILLER)
         then <[i:=set_row_state GS_NO_ACTIVE j]> l1 else l1)
  end.

Definition _cycle_job_list (p_ptr : nat) : M unit :=
  p <- get_part p_ptr ;;
  l <- lift (_cycle_reorder_loop (num_jobs p) 0 (job_list p)) ;;
  put_part p_ptr (set_job_list l p) ;;;
  _build_active_row p_ptr ;;;
  for_index (num_jobs p) (λ i,
    j <- get_job p_ptr i ;;
    if decide (row_state j = GS_NO_ACTIVE ∧ sig_state j = GS_RESUME) then
      _signal_job (job_id j) GS_SUSPEND ;;;
      modify_job p_ptr i (set_sig_state GS_SUSPEND) ;;;
      _clear_shadow (job_addr j)
    else ret tt) ;;;
  for_index (num_jobs p) (λ i,
    j <- get_job p_ptr i ;;
    if decide (row_state j = GS_ACTIVE ∧ sig_state j = GS_SUSPEND) then
      _signal_job (job_id j) GS_RESUME ;;;
      modify_job p_ptr i (set_sig_state GS_RESUME) ;;;
      p' <- get_part p_ptr ;;
      _cast_shadow (job_addr j) (priority p')
    else ret tt).

(** One turn of the loop of [_timeslicer_thread], between taking and
    releasing the data mutex. *)
Definition _timeslicer_turn : M unit :=
  _sort_partitions ;;;
  n <- gets num_sorted_part ;;
  for_index n (λ i,
    sorted <- gets gs_part_sorted ;;
    p_ptr <- lift (array_get sorted i) ;;
    p <- get_part p_ptr ;;
    if jobs_active p <? to_uint32 (Z.of_nat (num_jobs p) + Z.of_nat (num_shadows p))
    then _cycle_job_list p_ptr
    else ret tt).

(** ** The hooks *)

(** Find the gs_part entity with the given name. *)
Fixpoint _find_gs_part_from (l : list gs_part) (name : string) (i : nat)
  : option nat :=
  match l with
  | [] => None
  | p :: l' =>
      if String.eqb name (part_name p) then Some i
      else _find_gs_part_from l' name (S i)
  end.

Definition _find_gs_part (name : string) : M (option nat) :=
  gets (λ s, _find_gs_part_from (gs_part_list s) name 0).

Definition gs_job_start (job_ptr : job_record) : M unit :=
  p_ptr <- _find_gs_part (jr_partition job_ptr) ;;
  match p_ptr with
  | Some p =>
      job_state <- _add_job_to_part p (jr_job_id job_ptr) (jr_node_bitmap job_ptr) ;;
      if decide (job_state = GS_RESUME) then _update_all_active_rows
      else ret tt
  | None => ret tt
  end.

Definition gs_job_fini (job_ptr : job_record) : M unit :=
  p_ptr <- _find_gs_part (jr_partition job_ptr) ;;
  match p_ptr with
  | None => ret tt
  | Some p =>
      _remove_job_from_part (jr_job_id job_ptr) (Some p) ;;;
      _update_all_active_rows
  end.

(** One turn of the loop of [_scan_slurm_job_list]. *)
Definition _scan_slurm_job (job_ptr : job_record) : M unit :=
  if decide (jr_job_state job_ptr = JOB_PENDING) then ret tt
  else if decide (jr_job_state job_ptr = JOB_SUSPENDED ∨
                  jr_job_state job_ptr = JOB_RUNNING) then
    p_ptr <- _find_gs_part (jr_partition job_ptr) ;;
    match p_ptr with
    | None => ret tt
    | Some pi =>
        p <- get_part pi ;;
        match _find_job_index p (jr_job_id job_ptr) with
        | Some _ => ret tt
        | None =>
            (if decide (jr_job_state job_ptr = JOB_SUSPENDED)
             then _signal_job (jr_job_id job_ptr) GS_RESUME
             else ret tt) ;;;
            _add_job_to_part pi (jr_job_id job_ptr) (jr_node_bitmap job_ptr) ;;;
            ret tt
        end
    end
  else
    p_ptr <- _find_gs_part (jr_partition job_ptr) ;;
    match p_ptr with
    | None => ret tt
    | Some pi => _remove_job_from_part (jr_job_id job_ptr) (Some pi)
    end.

(** Ensure that all jobs running in SLURM are accounted for; the argument
    is the job list of slurmctld, [None] when there is none. *)
Definition _scan_slurm_job_list (slurm_job_list : option (list job_record))
  : M unit :=
  match slurm_job_list with
  | None => ret tt
  | Some l =>
      for_each l _scan_slurm_job ;;;
      _update_all_active_rows
  end.

Definition gs_job_scan (slurm_job_list : option (list job_record)) : M unit :=
  _scan_slurm_job_list slurm_job_list.

(** Build the gs_part_list from the partition list of slurmctld; the old
    list is destroyed and the sorted array is reset. *)
Definition _build_parts (part_list : list part_record) : M unit :=
  modify (λ s,
    mk_gs_state (gr_type s) (gs_fast_schedule s) (gs_resmap_size s)
      (gs_cpus_per_res s) (gs_cpu_count_reps s)
      (map (λ r, mk_gs_part (pr_name r) (to_uint16 (pr_priority r)) [] [] 0
                   None None) part_list)
      (gs_part_sorted s) 0 (next_job_addr s) (signals_sent s)
      (errors_logged s)).

Definition find_job_record (slurm_job_list : option (list job_record)) (jid : Z)
  : option job_record :=
  match slurm_job_list with
  | None => None
  | Some l => snd <$> list_find (λ r, jr_job_id r = jid) l
  end.

(** One turn of the loop of [gs_reconfig] over the old partitions. *)
Definition _reconfig_part (slurm_job_list : option (list job_record))
    (p : gs_part) : M unit :=
  newp_ptr <- _find_gs_part (part_name p) ;;
  match newp_ptr with
  | None =>
      for_each (job_list p) (λ j,
        if decide (sig_state j = GS_SUSPEND)
        then _signal_job (job_id j) GS_RESUME
        else ret tt)
  | Some newp =>
      for_each (job_list p) (λ j,
        match find_job_record slurm_job_list (job_id j) with
        | None => ret tt
        | Some job_ptr =>
            (if decide (jr_job_state job_ptr = JOB_SUSPENDED)
             then _signal_job (jr_job_id job_ptr) GS_RESUME
             else ret tt) ;;;
            if decide (jr_job_state job_ptr = JOB_SUSPENDED ∨
                       jr_job_state job_ptr = JOB_RUNNING) then
              _add_job_to_part newp (jr_job_id job_ptr)
                (jr_node_bitmap job_ptr) ;;;
              ret tt
            else ret tt
        end)
  end.

(** Rebuild from scratch. *)
Definition gs_reconfig (part_list : list part_record)
    (slurm_job_list : option (list job_record)) : M unit :=
  old_part_list <- gets gs_part_list ;;
  _build_parts part_list ;;;
  for_each old_part_list (_reconfig_part slurm_job_list) ;;;
  _scan_slurm_job_list slurm_job_list.

End Scheduler.

(** ** Observations used in the statements *)

Definition running (j : gs_job) : Prop := sig_state j = GS_RESUME.
Definition suspended (j : gs_job) : Prop := sig_state j = GS_SUSPEND.

(** The job with the given id in the partition [p_ptr] of a state. *)
Definition tracked_job (s : gs_state) (p_ptr : nat) (jid : Z) : option gs_job :=
  p ← gs_part_list s !! p_ptr;
  i ← _find_job_index p jid;
  job_list p !! i.

(** The state an operation ends in, when it ends. *)
Definition final_state {A} (r : outcome (A * gs_state)) : option gs_state :=
  match r with
  | Ok (_, s) => Some s
  | Fault _ => None
  end.

(** ** Scenario S1: node granularity, two nodes, one partition, two jobs
    that both hold node 0 *)

Module S1.

Definition nodes : list node_record :=
  [mk_node_record 1 1 1 1 1 1; mk_node_record 1 1 1 1 1 1].

Definition init : gs_state :=
  mk_gs_state GS_NODE 0 2 [] [] [mk_gs_part "batch" 1 [] [] 0 None None]
    [] 0 0 [] [].

Definition job_A : job_record := mk_job_record 1 "batch" JOB_RUNNING [true; false].
Definition job_B : job_record := mk_job_record 2 "batch" JOB_RUNNING [true; false].

Section Runs.
Variable select_g_get_job_cores : Z → nat → nat → Z.
Variable job_suspend : list suspend_msg → suspend_msg → Z.

Definition start_both : M unit :=
  gs_job_start nodes select_g_get_job_cores job_suspend job_A ;;;
  gs_job_start nodes select_g_get_job_cores job_suspend job_B.

Definition cycle : M unit := _cycle_job_list job_suspend 0.

(** The sig states of A and of B in the state a run ends in. *)
Definition sig_states (r : outcome (unit * gs_state))
  : option (gs_flags * gs_flags) :=
  s ← final_state r;
  a ← tracked_job s 0 1;
  b ← tracked_job s 0 2;
  Some (sig_state a, sig_state b).

End Runs.

End S1.

(** ** The runs of the capacity table *)

(** The number of bits that lie before run [k] of the table. *)
Definition run_start (reps : list Z) (k : nat) : Z := foldr Z.add 0 (take k reps).

(** ** Reading the fit test *)

(** Bit [i] is set both in the resmap of the job and in the active resmap. *)
Definition shared_bit (j : gs_job) (amap : bitstr) (i : nat) : Prop :=
  bit_test (resmap j) i = true ∧ bit_test amap i = true.

(** The alignment index of bit [i] in the CPU array of a job: the number of
    set bits of its resmap strictly below [i]. *)
Definition alignment (jmap : bitstr) (i : nat) : nat := bit_set_count (take i jmap).

(** At bit [i] the CPUs of the active row and of the job are within the
    capacity of the resource. *)
Definition cpus_fit_at (s : gs_state) (jmap : bitstr) (p_cpus j_cpus : list Z)
    (i : nat) : Prop :=
  ∃ pc jc lim,
    p_cpus !! i = Some pc ∧ j_cpus !! alignment jmap i = Some jc ∧
    cap s i = Ok lim ∧ pc + jc ≤ lim.

(** The three reads the test makes at bit [i] stay inside the arrays. *)
Definition cpus_readable_at (s : gs_state) (jmap : bitstr) (p_cpus j_cpus : list Z)
    (i : nat) : Prop :=
  is_Some (p_cpus !! i) ∧ is_Some (j_cpus !! alignment jmap i) ∧
  ∃ lim, cap s i = Ok lim.

(** One socket of four cores at core granularity: the active row holds
    three cores of the socket and the job asks for two. *)
Definition one_socket_state : gs_state :=
  mk_gs_state GS_CORE 0 1 [4] [1] [] [] 0 0 [] [].

Definition one_socket_job : gs_job :=
  mk_gs_job 1 2 GS_RESUME GS_NO_ACTIVE [true] (Some [2]).

Definition one_socket_part (active_cpus : option (list Z)) : gs_part :=
  mk_gs_part "batch" 1 [] [] 1 (Some [true]) active_cpus.

(** ** A state with two partitions and jobs in place

    Two nodes at node granularity; partition "high" (priority 100) runs job
    7 on node 0 and casts its shadow on partition "low" (priority 10), where
    job 8 holds node 0 and is suspended and job 9 runs on node 1. *)
Definition two_parts_state : gs_state :=
  mk_gs_state GS_NODE 0 2 [] []
    [ mk_gs_part "high" 100
        [mk_gs_job 0 7 GS_RESUME GS_FILLER [true; false] None]
        [] 1 (Some [true; false]) None;
      mk_gs_part "low" 10
        [mk_gs_job 1 8 GS_SUSPEND GS_NO_ACTIVE [true; false] None;
         mk_gs_job 2 9 GS_RESUME GS_FILLER [false; true] None]
        [0%nat] 2 (Some [true; true]) None ]
    [0%nat; 1%nat] 2 3 [] [].

(** ** Reading the sorted array *)

(** The priority behind a partition pointer. *)
Definition prio_of (parts : list gs_part) (p_ptr : nat) : Z :=
  match parts !! p_ptr with
  | Some p => priority p
  | None => 0
  end.

(** Every partition of the array has at least the priority of the
    partitions after it. *)
Definition priority_descending (parts : list gs_part) (sorted : list nat) : Prop :=
  StronglySorted (λ p q, prio_of parts q ≤ prio_of parts p) sorted.

(** Partitions of equal priority stand in the array in the order they have
    in [gs_part_list]. *)
Definition stable_order (parts : list gs_part) (sorted : list nat) : Prop :=
  ∀ i1 i2 p q,
    (i1 < i2)%nat → sorted !! i1 = Some p → sorted !! i2 = Some q →
    prio_of parts p = prio_of parts q → (p < q)%nat.

(** The array that [_sort_partitions] starts from holds every partition
    once: it is loaded afresh when the number of partitions differs from
    [num_sorted_part], and is the result of an earlier sort otherwise. *)
Definition sorted_array_ok (s : gs_state) : Prop :=
  num_sorted_part s = length (gs_part_list s) →
  gs_part_sorted s ≡ₚ seq 0 (length (gs_part_list s)).

(** What the inner loop of the sort does to the entry [x] at [j] and the
    entries [todo] after it: the entry of highest priority comes to [j] and
    each entry it displaces takes the place of the one that displaced it. *)
Fixpoint sort_select (parts : list gs_part) (x : nat) (todo : list nat)
  : nat * list nat :=
  match todo with
  | [] => (x, [])
  | y :: todo' =>
      if prio_of parts y >? prio_of parts x then
        let r := sort_select parts y todo' in (fst r, x :: snd r)
      else
        let r := sort_select parts x todo' in (fst r, y :: snd r)
  end.

(** What the outer loop does to the entries from [j] on, in [n] turns. *)
Fixpoint sort_selection (parts : list gs_part) (n : nat) (l : list nat)
  : list nat :=
  match n, l with
  | S n', x :: rest =>
      let r := sort_select parts x rest in
      fst r :: sort_selection parts n' (snd r)
  | _, _ => l
  end.

(** Three partitions, the first two of the same priority, before the
    first sort. *)
Definition tied_parts_state : gs_state :=
  mk_gs_state GS_NODE 0 2 [] []
    [ mk_gs_part "a" 1 [] [] 0 None None;
      mk_gs_part "b" 1 [] [] 0 None None;
      mk_gs_part "c" 2 [] [] 0 None None ]
    [] 0 0 [] [].

(** ** The changes a function makes to the state, one at a time *)

Definition job_addrs (q : gs_part) : list nat := job_addr <$> job_list q.

Definition set_log (msgs : list suspend_msg) (errs : list (Z * gs_flags * Z))
    (s : gs_state) : gs_state :=
  mk_gs_state (gr_type s) (gs_fast_schedule s) (gs_resmap_size s)
    (gs_cpus_per_res s) (gs_cpu_count_reps s) (gs_part_list s)
    (gs_part_sorted s) (num_sorted_part s) (next_job_addr s) msgs errs.

Definition set_next_job_addr (n : nat) (s : gs_state) : gs_state :=
  mk_gs_state (gr_type s) (gs_fast_schedule s) (gs_resmap_size s)
    (gs_cpus_per_res s) (gs_cpu_count_reps s) (gs_part_list s)
    (gs_part_sorted s) (num_sorted_part s) n (signals_sent s)
    (errors_logged s).

(** [q'] is [q] with its active row or the states and the order of its jobs
    changed: the same name, priority and shadows, and the same job structs. *)
Definition same_frame (q q' : gs_part) : Prop :=
  part_name q' = part_name q ∧ priority q' = priority q ∧
  shadow q' = shadow q ∧ job_addrs q' ≡ₚ job_addrs q.

(** One change made while the row of the partition [p_ptr] is worked on:
    to the partition itself, by casting or clearing the shadow of one of
    its jobs, or by a signal. *)
Inductive row_step (p_ptr : nat) (s : gs_state) : gs_state → Prop :=
  | row_step_part q q' :
      gs_part_list s !! p_ptr = Some q → same_frame q q' →
      row_step p_ptr s (set_part_list (<[p_ptr:=q']> (gs_part_list s)) s)
  | row_step_cast q a :
      gs_part_list s !! p_ptr = Some q → a ∈ job_addrs q →
      row_step p_ptr s
        (set_part_list (map (_cast_shadow_part a (priority q)) (gs_part_list s)) s)
  | row_step_clear q a :
      gs_part_list s !! p_ptr = Some q → a ∈ job_addrs q →
      row_step p_ptr s
        (set_part_list (map (_clear_shadow_part a) (gs_part_list s)) s)
  | row_step_signal msgs errs :
      row_step p_ptr s (set_log msgs errs s).

(** One change made by any of the functions: a row step, a new sorted
    array, the allocation of a job struct, a job appended to or taken from a
    job list, or the partition list built anew. *)
Inductive gs_step (s : gs_state) : gs_state → Prop :=
  | gs_step_row p_ptr s' : row_step p_ptr s s' → gs_step s s'
  | gs_step_sorted l n : gs_step s (set_part_sorted l n s)
  | gs_step_alloc : gs_step s (set_next_job_addr (S (next_job_addr s)) s)
  | gs_step_append p_ptr q j :
      gs_part_list s !! p_ptr = Some q →
      (job_addr j < next_job_addr s)%nat →
      (∀ q', q' ∈ gs_part_list s → job_addr j ∉ job_addrs q') →
      gs_step s (set_part_list
                   (<[p_ptr:=set_job_list (job_list q ++ [j]) q]> (gs_part_list s)) s)
  | gs_step_remove p_ptr q i j :
      gs_part_list s !! p_ptr = Some q →
      job_list q !! i = Some j →
      (∀ q', q' ∈ gs_part_list s → job_addr j ∉ shadow q') →
      gs_step s (set_part_list
                   (<[p_ptr:=set_job_list (delete i (job_list q)) q]> (gs_part_list s)) s)
  | gs_step_build (names : list (string * Z)) :
      gs_step s
        (mk_gs_state (gr_type s) (gs_fast_schedule s) (gs_resmap_size s)
           (gs_cpus_per_res s) (gs_cpu_count_reps s)
           (map (λ r, mk_gs_part r.1 r.2 [] [] 0 None None) names)
           (gs_part_sorted s) 0 (next_job_addr s) (signals_sent s)
           (errors_logged s)).

(** The partition [p_ptr] holds the job struct at address [a]. *)
Definition has_job (p_ptr a : nat) (s : gs_state) : Prop :=
  ∃ q, gs_part_list s !! p_ptr = Some q ∧ a ∈ job_addrs q.

(** The globals that only [gs_init], the sort and the allocation of a job
    struct write. *)
Definition same_globals (s s' : gs_state) : Prop :=
  gr_type s' = gr_type s ∧ gs_fast_schedule s' = gs_fast_schedule s ∧
  gs_resmap_size s' = gs_resmap_size s ∧
  gs_cpus_per_res s' = gs_cpus_per_res s ∧
  gs_cpu_count_reps s' = gs_cpu_count_reps s ∧
  gs_part_sorted s' = gs_part_sorted s ∧
  num_sorted_part s' = num_sorted_part s ∧
  next_job_addr s' = next_job_addr s.

(** A partition pointer that points into [gs_part_list]. *)
Definition valid_ptr (parts : list gs_part) (p : nat) : Prop :=
  (p < length parts)%nat.

(** ** The operations of the scheduler *)

Inductive gs_op :=
  | OpRebuild (p_ptr : nat) (add_new_jobs : bool)
  | OpRebuildAll
  | OpCycle (p_ptr : nat)
  | OpTimeslice
  | OpAddJob (p_ptr : nat) (jid : Z) (job_bitmap : bitstr)
  | OpRemoveJob (jid : Z) (p_ptr : option nat)
  | OpJobStart (job_ptr : job_record)
  | OpJobFini (job_ptr : job_record)
  | OpJobScan (slurm_job_list : option (list job_record))
  | OpReconfig (part_list : list part_record)
      (slurm_job_list : option (list job_record)).

(** The run of an operation; the sig state that [_add_job_to_part] returns
    is kept, the other operations return nothing. *)
Definition run_op (node_record_table_ptr : list node_record)
    (select_g_get_job_cores : Z → nat → nat → Z)
    (job_suspend : list suspend_msg → suspend_msg → Z) (op : gs_op)
  : M (option gs_flags) :=
  match op with
  | OpRebuild p_ptr add_new_jobs =>
      _update_active_row job_suspend p_ptr add_new_jobs ;;; ret None
  | OpRebuildAll => _update_all_active_rows job_suspend ;;; ret None
  | OpCycle p_ptr => _cycle_job_list job_suspend p_ptr ;;; ret None
  | OpTimeslice => _timeslicer_turn job_suspend ;;; ret None
  | OpAddJob p_ptr jid job_bitmap =>
      st <- _add_job_to_part node_record_table_ptr select_g_get_job_cores
              job_suspend p_ptr jid job_bitmap ;;
      ret (Some st)
  | OpRemoveJob jid p_ptr => _remove_job_from_part job_suspend jid p_ptr ;;; ret None
  | OpJobStart job_ptr =>
      gs_job_start node_record_table_ptr select_g_get_job_cores job_suspend
        job_ptr ;;; ret None
  | OpJobFini job_ptr => gs_job_fini job_suspend job_ptr ;;; ret None
  | OpJobScan l =>
      gs_job_scan node_record_table_ptr select_g_get_job_cores job_suspend l ;;;
      ret None
  | OpReconfig part_list l =>
      gs_reconfig node_record_table_ptr select_g_get_job_cores job_suspend
        part_list l ;;; ret None
  end.

(** ** Two runs that differ in the answers of [job_suspend] *)

(** The state without the lines that [_signal_job] logged. *)
Definition clear_errors (s : gs_state) : gs_state := set_log (signals_sent s) [] s.




(** ** The shadows and their owners *)

(** Every job struct is held by one job list, once, and was allocated;
    no shadow array holds a job twice. *)
Definition well_formed (s : gs_state) : Prop :=
  (∀ p q, gs_part_list s !! p = Some q → NoDup (job_addrs q)) ∧
  (∀ p1 p2 q1 q2 a,
     gs_part_list s !! p1 = Some q1 → gs_part_list s !! p2 = Some q2 →
     a ∈ job_addrs q1 → a ∈ job_addrs q2 → p1 = p2) ∧
  (∀ p q a, gs_part_list s !! p = Some q → a ∈ job_addrs q →
            (a < next_job_addr s)%nat) ∧
  (∀ p q, gs_part_list s !! p = Some q → NoDup (shadow q)).

(** Priority monotonicity: a job in the shadow array of a partition is
    held by the job list of some partition, and whichever partition holds
    it has a higher priority. *)
Definition priority_monotone (s : gs_state) : Prop :=
  ∀ p q a, gs_part_list s !! p = Some q → a ∈ shadow q →
    (∃ p' q', gs_part_list s !! p' = Some q' ∧ a ∈ job_addrs q') ∧
    (∀ p' q', gs_part_list s !! p' = Some q' → a ∈ job_addrs q' →
              priority q < priority q').

(** The same with one owner named. *)
Definition shadows_owned (parts : list gs_part) : Prop :=
  ∀ p q a, parts !! p = Some q → a ∈ shadow q →
    ∃ p' q', parts !! p' = Some q' ∧ a ∈ job_addrs q' ∧ priority q < priority q'.

(** What a change may do to one partition without harm to the shadows:
    its priority and its job structs stay, and a job that is new in its
    shadow array is held by a partition of higher priority. *)
Definition part_kept (parts : list gs_part) (q q' : gs_part) : Prop :=
  priority q' = priority q ∧ job_addrs q' ≡ₚ job_addrs q ∧
  NoDup (shadow q') ∧
  ∀ a, a ∈ shadow q' →
    a ∈ shadow q ∨
    ∃ p0 q0, parts !! p0 = Some q0 ∧ a ∈ job_addrs q0 ∧ priority q < priority q0.

(** The invariant of the shadows. *)
Definition gs_inv (s : gs_state) : Prop :=
  well_formed s ∧ shadows_owned (gs_part_list s).

(** A program keeps the invariant of the shadows. *)
Definition keeps_inv {A} (m : M A) : Prop :=
  ∀ s a s', gs_inv s → m s = Ok (a, s') → gs_inv s'.

(** ** Counting the active row *)

(** The number of jobs of a list with the given row state. *)
Definition row_count (w : gs_flags) (l : list gs_job) : nat :=
  length (filter (λ j, row_state j = w) l).

(** The number of jobs of a partition that are seated: their row state is
    GS_ACTIVE or GS_FILLER. *)
Definition seated_count (q : gs_part) : nat :=
  length (filter (λ j, row_state j = GS_ACTIVE ∨ row_state j = GS_FILLER)
            (job_list q)).

(** The count of the active row is the number of seated jobs plus the
    number of shadows. *)
Definition active_count_ok (q : gs_part) : Prop :=
  jobs_active q = Z.of_nat (seated_count q + num_shadows q).

(** The same, as far as the 32 bits of the counter go. *)
Definition active_count_ok32 (q : gs_part) : Prop :=
  jobs_active q = to_uint32 (Z.of_nat (seated_count q + num_shadows q)).

(** No job of the partition is among its own shadows. *)
Definition own_disjoint (q : gs_part) : Prop :=
  ∀ a, a ∈ job_addrs q → a ∉ shadow q.

(** Two partitions, "high" of priority 100 and "low" of priority 10, on
    two nodes, with no job yet. *)
Definition two_empty_parts_state : gs_state :=
  mk_gs_state GS_NODE 0 2 [] []
    [ mk_gs_part "high" 100 [] [] 0 None None;
      mk_gs_part "low" 10 [] [] 0 None None ]
    [] 0 0 [] [].

(** A job that is not seated in the active row. *)
Definition unseated (j : gs_job) : Prop :=
  row_state j ≠ GS_ACTIVE ∧ row_state j ≠ GS_FILLER.

(** The partition [p_ptr] has the shadows [sh], the jobs [l] and the
    counter [n]. *)
Definition row_is (p_ptr : nat) (sh : list nat) (l : list gs_job) (n : Z)
    (s : gs_state) : Prop :=
  ∃ q, gs_part_list s !! p_ptr = Some q ∧
       shadow q = sh ∧ job_list q = l ∧ jobs_active q = n.

(** The number of the partitions and the sorted array. *)
Definition shape (s : gs_state) : nat * list nat * nat :=
  (length (gs_part_list s), gs_part_sorted s, num_sorted_part s).

(** A program leaves the number of the partitions and the sorted array as
    they are. *)
Definition keeps_shape {A} (m : M A) : Prop :=
  ∀ s a s', m s = Ok (a, s') → shape s' = shape s.

(** The job of a job record is not in the job list of its partition. *)
Definition new_job (s : gs_state) (job_ptr : job_record) : Prop :=
  ∀ p q, _find_gs_part_from (gs_part_list s) (jr_partition job_ptr) 0 = Some p →
         gs_part_list s !! p = Some q →
         _find_job_index q (jr_job_id job_ptr) = None.

(** Every counter is right, as far as 32 bits go. *)
Definition all_counts_ok (s : gs_state) : Prop :=
  ∀ p q, gs_part_list s !! p = Some q → active_count_ok32 q.

(** What an operation leaves of the counters. [_update_all_active_rows] and
    [gs_reconfig] leave every counter right; [gs_job_fini] and [gs_job_scan]
    keep every counter right; [gs_job_start] does so for a job that is new
    in its partition; [_update_active_row] and [_cycle_job_list] leave the
    counter of their partition right, the latter when the partition has a
    job. Nothing is said of the counters after [_timeslicer_turn],
    [_add_job_to_part] and [_remove_job_from_part]. *)
Definition counters_after (op : gs_op) (s s' : gs_state) : Prop :=
  match op with
  | OpRebuild p_ptr _ =>
      ∀ q, gs_part_list s' !! p_ptr = Some q → active_count_ok32 q
  | OpCycle p_ptr =>
      ∀ q0, gs_part_list s !! p_ptr = Some q0 → job_list q0 ≠ [] →
      ∀ q, gs_part_list s' !! p_ptr = Some q → active_count_ok32 q
  | OpRebuildAll => all_counts_ok s'
  | OpReconfig _ _ => all_counts_ok s'
  | OpJobFini _ => all_counts_ok s → all_counts_ok s'
  | OpJobScan _ => all_counts_ok s → all_counts_ok s'
  | OpJobStart job_ptr => all_counts_ok s → new_job s job_ptr → all_counts_ok s'
  | OpTimeslice => True
  | OpAddJob _ _ _ => True
  | OpRemoveJob _ _ => True
  end.

(** ** The active row as the sum of what is seated *)

(** What a job holds: its resmap and its CPU array. *)
Definition job_res : Type := bitstr * option (list Z).

Definition res_of (j : gs_job) : job_res := (resmap j, alloc_cpus j).

(** GS_NODE and GS_SOCKET tell by the bits alone whether a job fits. *)
Definition by_bits (s : gs_state) : bool :=
  match gr_type s with
  | GS_NODE | GS_SOCKET => true
  | GS_CORE | GS_CPU => false
  end.

(** The CPUs a job holds on bit [i], read at the alignment index. *)
Definition cpus_at (r : job_res) (i : nat) : Z :=
  match r.2 with
  | Some arr => default 0 (arr !! alignment r.1 i)
  | None => 0
  end.

(** What a job asks of bit [i]: its CPUs there, or the whole resource when
    the bits alone decide. *)
Definition demand (s : gs_state) (r : job_res) (i : nat) : Z :=
  if bit_test r.1 i then (if by_bits s then 1 else cpus_at r i) else 0.

(** What bit [i] can hold. *)
Definition limit (s : gs_state) (i : nat) : Z :=
  if by_bits s then 1
  else match cap s i with
       | Ok c => c
       | Fault _ => 0
       end.

(** The sum that [_add_job_to_active] stores. *)
Definition clamp (s : gs_state) (i : nat) (x : Z) : Z :=
  let sum := to_uint16 x in
  if sum >? limit s i then limit s i else sum.

(** What bit [i] holds after the jobs [J] were added in their order,
    starting from [x]. *)
Fixpoint occupancy_from (s : gs_state) (x : Z) (J : list job_res) (i : nat) : Z :=
  match J with
  | [] => x
  | r :: J' =>
      occupancy_from s
        (if bit_test r.1 i then clamp s i (x + demand s r i) else x) J' i
  end.

Definition occupancy (s : gs_state) (J : list job_res) (i : nat) : Z :=
  occupancy_from s 0 J i.

(** Bit [i] is held by one of the jobs. *)
Definition cover (J : list job_res) (i : nat) : bool :=
  existsb (λ r, bit_test r.1 i) J.

(** The sum of what the jobs ask of bit [i]. *)
Definition load (s : gs_state) (J : list job_res) (i : nat) : Z :=
  foldr (λ r acc, demand s r i + acc) 0 J.

(** A job the scheduler can handle: its resmap has the size of the
    resmaps, and where CPUs are counted it has a CPU array with an entry
    for each of its bits, none above what the bit can hold. *)
Definition res_ok (s : gs_state) (r : job_res) : Prop :=
  length r.1 = gs_resmap_size s ∧
  (by_bits s = false →
   ∃ arr, r.2 = Some arr ∧
     ∀ i, bit_test r.1 i = true →
       ∃ c, arr !! alignment r.1 i = Some c ∧ 0 ≤ c ≤ limit s i).

(** The capacity table covers every bit, with capacities of 16 bits. *)
Definition cap_ok (s : gs_state) : Prop :=
  by_bits s = false →
  ∀ i, (i < gs_resmap_size s)%nat → ∃ c, cap s i = Ok c ∧ 0 ≤ c < 65536.

(** The arrays of the active row have the size of the resmaps. *)
Definition sizes_ok (s : gs_state) (q : gs_part) : Prop :=
  (∀ m, active_resmap q = Some m → length m = gs_resmap_size s) ∧
  (∀ arr, active_cpus q = Some arr → length arr = gs_resmap_size s).

(** The active row of [q] is what the adding of the jobs [J], in their
    order, leaves. *)
Definition repr (s : gs_state) (J : list job_res) (q : gs_part) : Prop :=
  jobs_active q = Z.of_nat (length J) ∧ sizes_ok s q ∧
  (J ≠ [] →
   ∃ m, active_resmap q = Some m ∧
        (∀ i, bit_test m i = cover J i) ∧
        (by_bits s = false →
         ∃ arr, active_cpus q = Some arr ∧
                ∀ i, (i < gs_resmap_size s)%nat → arr !! i = Some (occupancy s J i))).

(** The job fits on top of the jobs [J]: at each of its bits the row has
    room for what it asks. *)
Definition fits_on (s : gs_state) (J : list job_res) (r : job_res) : Prop :=
  ∀ i, bit_test r.1 i = true → occupancy s J i + demand s r i ≤ limit s i.

(** The jobs [X] can all be seated on top of the jobs [S]. *)
Definition admissible (s : gs_state) (S X : list job_res) : Prop :=
  ∀ i, cover X i = true → occupancy s S i + load s X i ≤ limit s i.

(** ** States on which a rebuild changes nothing *)

(** The globals that the fit engine reads. *)
Definition core (s : gs_state) : gs_state :=
  mk_gs_state (gr_type s) (gs_fast_schedule s) (gs_resmap_size s)
    (gs_cpus_per_res s) (gs_cpu_count_reps s) [] [] 0 0 [] [].

(** What the jobs behind the shadow pointers hold. *)
Definition shadow_res (parts : list gs_part) (sh : list nat) : list job_res :=
  (λ a, match find_job_addr parts a with
        | Some j => res_of j
        | None => ([], None)
        end) <$> sh.

(** What the jobs of a list with the given row state hold. *)
Definition row_res (w : gs_flags) (l : list gs_job) : list job_res :=
  res_of <$> filter (λ j, row_state j = w) l.

Definition seated_res (l : list gs_job) : list job_res :=
  row_res GS_ACTIVE l ++ row_res GS_FILLER l.

(** The job struct at [a] is a shadow in every partition of a priority
    below [prio]. *)
Definition present (parts : list gs_part) (prio : Z) (a : nat) : Prop :=
  ∀ q', q' ∈ parts → priority q' < prio → a ∈ shadow q'.

(** The partition is settled: its active row holds its shadows and its
    seated jobs, which can be seated together; none of its other jobs
    fits; and its seated jobs have cast their shadows. *)
Definition settled_by (g : gs_state) (S : list job_res) (parts : list gs_part)
    (q : gs_part) : Prop :=
  let X := seated_res (job_list q) in
  repr g (S ++ X) q ∧ admissible g S X ∧
  (∀ x, x ∈ job_list q → row_state x = GS_NO_ACTIVE →
        ¬ fits_on g (S ++ X) (res_of x)) ∧
  (∀ x, x ∈ job_list q → row_state x = GS_ACTIVE ∨ row_state x = GS_FILLER →
        present parts (priority q) (job_addr x)).

Definition settled (s : gs_state) (q : gs_part) : Prop :=
  settled_by (core s) (shadow_res (gs_part_list s) (shadow q)) (gs_part_list s) q.

(** The states that the rebuild is made for: the invariant of the shadows
    holds, the capacity table covers the bits, every job is one the
    scheduler can handle, the arrays of the active rows have the size of
    the resmaps, and fewer than 2^30 job structs were allocated, so that
    no counter of an active row wraps. *)
Definition rebuild_ready (s : gs_state) : Prop :=
  gs_inv s ∧ cap_ok (core s) ∧
  (∀ q j, q ∈ gs_part_list s → j ∈ job_list q → res_ok (core s) (res_of j)) ∧
  (∀ q, q ∈ gs_part_list s → sizes_ok (core s) q) ∧
  Z.of_nat (next_job_addr s) < 1073741824.

(** ** The rebuild of one row, followed from the state [t0] it starts in *)

(** The program runs from [s] to a result and a state that satisfy [Q]. *)
Definition runs {A} (m : M A) (s : gs_state) (Q : A → gs_state → Prop) : Prop :=
  ∃ a s', m s = Ok (a, s') ∧ Q a s'.

(** Where the rebuild of the row of [p_ptr] stands: the partition has its
    shadows, priority and name, the jobs [l], which hold what the jobs at
    the start held, and an active row made of the jobs [J]; and the job
    structs [As] are shadows in all the partitions of lower priority. *)
Definition run_inv (t0 : gs_state) (p_ptr : nat) (q0 : gs_part)
    (J : list job_res) (l : list gs_job) (As : list nat) (t : gs_state) : Prop :=
  core t = core t0 ∧
  (∃ q, gs_part_list t !! p_ptr = Some q ∧
        shadow q = shadow q0 ∧ job_list q = l ∧ priority q = priority q0 ∧
        part_name q = part_name q0 ∧ repr (core t0) J q ∧
        (by_bits (core t0) = true → active_cpus q = active_cpus q0) ∧
        (J = [] → active_resmap q = active_resmap q0 ∧
                  active_cpus q = active_cpus q0)) ∧
  res_of <$> l = res_of <$> job_list q0 ∧
  job_addr <$> l = job_addr <$> job_list q0 ∧
  (∀ a, a ∈ As → present (gs_part_list t) (priority q0) a).

(** Nothing but the active row of [p_ptr] differs from [t0]. *)
Definition row_only (t0 : gs_state) (p_ptr : nat) (t : gs_state) : Prop :=
  ∃ q0 q, gs_part_list t0 !! p_ptr = Some q0 ∧
          t = set_part_list (<[p_ptr:=q]> (gs_part_list t0)) t0 ∧
          part_name q = part_name q0 ∧ priority q = priority q0 ∧
          job_list q = job_list q0 ∧ shadow q = shadow q0.

(** Where a loop of [_update_active_row] over the seated jobs stands
    before turn [k]. The loop started with the jobs [ls], with the jobs
    [Xb] in the row on top of the shadows and the shadows [Ab] cast; the
    jobs are [l] now. *)
Definition seated_inv (t0 : gs_state) (p_ptr : nat) (q0 : gs_part)
    (which : gs_flags) (Xb : list job_res) (Ab : list nat) (ls : list gs_job)
    (k : nat) (l : list gs_job) (t : gs_state) : Prop :=
  let S0 := shadow_res (gs_part_list t0) (shadow q0) in
  run_inv t0 p_ptr q0 (S0 ++ Xb ++ row_res which (take k l)) l
    (Ab ++ (job_addr <$> filter (λ j, row_state j = which) (take k l))) t ∧
  admissible (core t0) S0 (Xb ++ row_res which (take k l)) ∧
  length l = length ls ∧ drop k l = drop k ls ∧
  (∀ w, w ≠ which → w ≠ GS_NO_ACTIVE →
        filter (λ j, row_state j = w) l = filter (λ j, row_state j = w) ls).

(** Where the loop of [_update_active_row] over the new jobs stands before
    turn [k]: the jobs [X] are in the row on top of the shadows, they are
    the seated jobs of [l], and none of the jobs before [k] that are left
    out fits. *)
Definition new_inv (t0 : gs_state) (p_ptr : nat) (q0 : gs_part)
    (k : nat) (l : list gs_job) (X : list job_res) (As : list nat)
    (t : gs_state) : Prop :=
  let S0 := shadow_res (gs_part_list t0) (shadow q0) in
  run_inv t0 p_ptr q0 (S0 ++ X) l As t ∧
  X ≡ₚ seated_res l ∧ admissible (core t0) S0 X ∧
  length l = length (job_list q0) ∧
  (∀ x, x ∈ l → row_state x = GS_ACTIVE ∨ row_state x = GS_FILLER →
        job_addr x ∈ As) ∧
  (∀ i x, (i < k)%nat → l !! i = Some x → row_state x = GS_NO_ACTIVE →
          ¬ fits_on (core t0) (S0 ++ X) (res_of x)).

(** ** A job that holds more CPUs than its node has

    CPU granularity, two nodes of 4 CPUs each and one partition. Job 1,
    suspended and out of the row, is recorded with 9 CPUs on node 0; job 2
    is a filler with 1 CPU on node 1. *)
Definition overcommitted_state : gs_state :=
  mk_gs_state GS_CPU 0 2 [4] [2]
    [ mk_gs_part "p" 1
        [mk_gs_job 0 1 GS_SUSPEND GS_NO_ACTIVE [true; false] (Some [9]);
         mk_gs_job 1 2 GS_RESUME GS_FILLER [false; true] (Some [1])]
        [] 0 None None ]
    [] 0 2 [] [].

(** ** Two partitions where CPUs are counted

    CPU granularity, two nodes of 4 CPUs each; partition "high" (priority
    100) runs job 7 with 3 CPUs on node 0 and casts its shadow on partition
    "low" (priority 10), where job 8 asks for 1 CPU on node 0 and is
    suspended and job 9 runs with 1 CPU on node 1. *)
Definition two_parts_cpu_state : gs_state :=
  mk_gs_state GS_CPU 0 2 [4] [2]
    [ mk_gs_part "high" 100
        [mk_gs_job 0 7 GS_RESUME GS_FILLER [true; false] (Some [3])]
        [] 1 (Some [true; false]) (Some [3; 0]);
      mk_gs_part "low" 10
        [mk_gs_job 1 8 GS_SUSPEND GS_NO_ACTIVE [true; false] (Some [1]);
         mk_gs_job 2 9 GS_RESUME GS_FILLER [false; true] (Some [1])]
        [0%nat] 2 (Some [true; true]) (Some [3; 1]) ]
    [0%nat; 1%nat] 2 3 [] [].

(** ** Setting up the plugin

    The functions that [gs_init] runs before the partitions are built.
    [xmalloc] and [xrealloc] (src/common/xmalloc.c, not among the sources)
    hand out memory filled with zeros, as the comments of gang.c say of
    [xmalloc] where it relies on it; a C array is the list of its
    allocated cells. *)

Section Setup.

Variable node_record_table_ptr : list node_record.

(** The cells that [xrealloc] adds to the two arrays of the table. *)
Definition GS_CPU_ARRAY_INCREMENT : nat := 8.

(** The [adder] of [_load_phys_res_cnt]: the bits that node [i] takes in a
    resmap. *)
Definition _load_phys_res_adder (s : gs_state) (i : nat) : outcome Z :=
  match gr_type s with
  | GS_CORE => _compute_resources node_record_table_ptr s i true
  | _ => Ok 1
  end.

(** The loop over the nodes in [_load_phys_res_cnt], with [n] turns left
    at node [i]; [g] is [gs_num_groups]. *)
Fixpoint _load_phys_res_cnt_loop (s : gs_state) (n i : nat)
    (cpus_per_res count_reps : list Z) (g : nat)
  : outcome (list Z * list Z * nat) :=
  match n with
  | O => Ok (cpus_per_res, count_reps, g)
  | S n' =>
      res <~ _compute_resources node_record_table_ptr s i false ;;
      cur <~ array_get cpus_per_res g ;;
      if cur =? res then
        adder <~ _load_phys_res_adder s i ;;
        r <~ array_get count_reps g ;;
        reps' <~ array_set count_reps g (to_uint32 (r + adder)) ;;
        _load_phys_res_cnt_loop s n' (S i) cpus_per_res reps' g
      else
        let grown :=
          if cur =? 0 then (cpus_per_res, count_reps, g)
          else if decide (length cpus_per_res ≤ S g)%nat
               then (cpus_per_res ++ replicate GS_CPU_ARRAY_INCREMENT 0,
                     count_reps ++ replicate GS_CPU_ARRAY_INCREMENT 0, S g)
               else (cpus_per_res, count_reps, S g) in
        cpus' <~ array_set grown.1.1 grown.2 res ;;
        adder <~ _load_phys_res_adder s i ;;
        reps' <~ array_set grown.1.2 grown.2 adder ;;
        _load_phys_res_cnt_loop s n' (S i) cpus' reps' grown.2
  end.

(** Load the physical-resource table: the two arrays and
    [gs_num_groups]; the arrays stay NULL (empty) where CPUs are not
    counted. *)
Definition _load_phys_res_cnt (s : gs_state)
  : outcome (list Z * list Z * nat) :=
  match gr_type s with
  | GS_NODE | GS_SOCKET => Ok ([], [], 0%nat)
  | GS_CORE | GS_CPU =>
      r <~ _load_phys_res_cnt_loop s (length node_record_table_ptr) 0
             (replicate GS_CPU_ARRAY_INCREMENT 0)
             (replicate GS_CPU_ARRAY_INCREMENT 0) 0 ;;
      Ok (r.1.1, r.1.2, S r.2)
  end.

(** The loop of [_get_resmap_size], with [n] turns left at node [i]. *)
Fixpoint _get_resmap_size_loop (s : gs_state) (n i : nat) (count : Z)
  : outcome Z :=
  match n with
  | O => Ok count
  | S n' =>
      r <~ _compute_resources node_record_table_ptr s i true ;;
      _get_resmap_size_loop s n' (S i) (to_uint32 (count + r))
  end.

Definition _get_resmap_size (s : gs_state) : outcome Z :=
  match gr_type s with
  | GS_NODE | GS_CPU => Ok (to_uint32 (Z.of_nat (length node_record_table_ptr)))
  | GS_SOCKET | GS_CORE =>
      _get_resmap_size_loop s (length node_record_table_ptr) 0 0
  end.

End Setup.

(** What [_compute_resources] counts on a node when it is not asked for
    sockets, and the bits that [_load_phys_res_cnt] gives the node. Where
    CPUs are counted, a node takes one bit that holds its CPUs (GS_CPU), or
    one bit per socket that holds the cores of a socket (GS_CORE). *)
Definition node_res (s : gs_state) (n : node_record) : Z :=
  match gr_type s with
  | GS_NODE => 1
  | GS_CPU => to_uint16 (if gs_fast_schedule s =? 0 then cpus n else config_cpus n)
  | GS_SOCKET =>
      to_uint16 (if gs_fast_schedule s =? 0 then sockets n else config_sockets n)
  | GS_CORE => to_uint16 (if gs_fast_schedule s =? 0 then cores n else config_cores n)
  end.

Definition node_width (s : gs_state) (n : node_record) : Z :=
  match gr_type s with
  | GS_CORE =>
      to_uint16 (if gs_fast_schedule s =? 0 then sockets n else config_sockets n)
  | _ => 1
  end.

(** The bits that a list of runs stands for. *)
Definition phys_expand (runs : list (Z * Z)) : list Z :=
  flat_map (λ cr, replicate (Z.to_nat cr.2) cr.1) runs.

(** The runs of the [n] nodes from node [i] on, one run for each node. *)
Definition node_runs_from (nodes : list node_record) (s : gs_state) (n i : nat)
  : list (Z * Z) :=
  (λ nd, (node_res s nd, node_width s nd)) <$> take n (drop i nodes).

Definition bit_capacities (s : gs_state) (nodes : list node_record) : list Z :=
  phys_expand (node_runs_from nodes s (length nodes) 0).

(** What one turn of the loop of [_load_phys_res_cnt] does to the runs
    written so far: a node with the resources of the last run makes that
    run longer, and any other node starts a run of its own, in a new cell
    when the last run has resources and in the cell of the last run when
    it has none. *)
Definition phys_step (runs : list (Z * Z)) (cr : Z * Z) : list (Z * Z) :=
  match last runs with
  | None => [cr]
  | Some (c, r) =>
      if c =? cr.1 then removelast runs ++ [(c, to_uint32 (r + cr.2))]
      else if c =? 0 then removelast runs ++ [cr]
      else runs ++ [cr]
  end.

(** ** Three nodes for the setup

    Two nodes of 4 CPUs on 2 sockets of 2 cores and one node of 8 CPUs on
    2 sockets of 4 cores; the counts of the configuration are those of the
    nodes. [blank_state] is the state of the globals before [gs_init], at
    granularity [g]. *)
Definition three_nodes : list node_record :=
  [mk_node_record 4 2 2 4 2 2; mk_node_record 4 2 2 4 2 2;
   mk_node_record 8 2 4 8 2 4].

Definition blank_state (g : entity_type) : gs_state :=
  mk_gs_state g 0 0 [] [] [] [] 0 0 [] [].

(** ** The sockets of a job

    The bits that node [i] takes in a resmap, as [_compute_resources]
    counts them when it is asked for sockets. *)
Definition node_sockets (s : gs_state) (nd : node_record) : Z :=
  match gr_type s with
  | GS_NODE | GS_CPU => 1
  | GS_SOCKET | GS_CORE =>
      to_uint16 (if gs_fast_schedule s =? 0 then sockets nd else config_sockets nd)
  end.

(** The cores that the allocation plugin reports for job [id] on the bits
    of node [i]: none on a node that is not in the node bitmap of the job;
    the nodes of the bitmap are numbered in their order. *)
Definition job_cores_of_node (select_g_get_job_cores : Z → nat → nat → Z)
    (s : gs_state) (nodemap : bitstr) (id : Z) (i : nat) (nd : node_record)
  : list Z :=
  if bit_test nodemap i then
    (λ j, to_uint16 (select_g_get_job_cores id (alignment nodemap i) j))
      <$> seq 0 (Z.to_nat (node_sockets s nd))
  else replicate (Z.to_nat (node_sockets s nd)) 0.

Fixpoint job_cores_from (select_g_get_job_cores : Z → nat → nat → Z)
    (s : gs_state) (nodemap : bitstr) (id : Z) (i : nat)
    (nodes : list node_record) : list Z :=
  match nodes with
  | [] => []
  | nd :: rest =>
      job_cores_of_node select_g_get_job_cores s nodemap id i nd ++
      job_cores_from select_g_get_job_cores s nodemap id (S i) rest
  end.

(** The first bit of node [i]. *)
Definition socket_offset (s : gs_state) (nodes : list node_record) (i : nat)
  : nat :=
  foldr (λ nd acc, (Z.to_nat (node_sockets s nd) + acc)%nat) 0%nat (take i nodes).

(** The globals at core granularity for [three_nodes], which have six
    sockets: four of 2 cores and two of 4 cores; and a job with cores on
    the first socket of its first node and on both sockets of its second
    node. *)
Definition three_nodes_state : gs_state :=
  mk_gs_state GS_CORE 0 6 [2; 4; 0; 0; 0; 0; 0; 0] [4; 2; 0; 0; 0; 0; 0; 0]
    [] [] 0 0 [] [].

Definition first_socket_cores : Z → nat → nat → Z :=
  λ _ alloc_index j,
    match alloc_index, j with
    | O, O => 2
    | O, _ => 0
    | _, _ => 4
    end.

(** ** Starting the plugin *)

(** The values of [slurmctld_conf.select_type_param] that [_get_gr_type]
    tells apart. slurm.h, which declares them, is not among the sources;
    [CR_OTHER] stands for every value that the switch has no case for. *)
Inductive select_type_plugin_info :=
  | CR_CORE | CR_CORE_MEMORY | CR_CPU | CR_CPU_MEMORY
  | CR_SOCKET | CR_SOCKET_MEMORY | CR_MEMORY | CR_OTHER.

Definition _get_gr_type (select_type_param : select_type_plugin_info)
  : entity_type :=
  match select_type_param with
  | CR_CORE | CR_CORE_MEMORY => GS_CORE
  | CR_CPU | CR_CPU_MEMORY => GS_CPU
  | CR_SOCKET | CR_SOCKET_MEMORY => GS_SOCKET
  | CR_MEMORY | CR_OTHER => GS_NODE
  end.

Section Init.
Variable node_record_table_ptr : list node_record.
Variable select_g_get_job_cores : Z → nat → nat → Z.
Variable job_suspend : list suspend_msg → suspend_msg → Z.

(** [gs_init], from the setting of the globals to the scan of the jobs
    that run already. [fast_schedule] is what [slurm_get_fast_schedule]
    returns, and [part_list] and [slurm_job_list] are the partitions and
    the jobs of slurmctld. The time slice is not part of the state, the
    number of groups is only printed, and the time slicer thread that is
    started at the end takes its turns as [_timeslicer_turn]. *)
Definition gs_init (select_type_param : select_type_plugin_info)
    (fast_schedule : Z) (part_list : list part_record)
    (slurm_job_list : option (list job_record)) : M unit :=
  modify (λ s,
    mk_gs_state (_get_gr_type select_type_param) (to_uint16 fast_schedule)
      (gs_resmap_size s) (gs_cpus_per_res s) (gs_cpu_count_reps s)
      (gs_part_list s) (gs_part_sorted s) (num_sorted_part s)
      (next_job_addr s) (signals_sent s) (errors_logged s)) ;;;
  s <- get_state ;;
  size <- lift (_get_resmap_size node_record_table_ptr s) ;;
  modify (λ s,
    mk_gs_state (gr_type s) (gs_fast_schedule s) (Z.to_nat size)
      (gs_cpus_per_res s) (gs_cpu_count_reps s)
      (gs_part_list s) (gs_part_sorted s) (num_sorted_part s)
      (next_job_addr s) (signals_sent s) (errors_logged s)) ;;;
  s <- get_state ;;
  table <- lift (_load_phys_res_cnt node_record_table_ptr s) ;;
  modify (λ s,
    mk_gs_state (gr_type s) (gs_fast_schedule s) (gs_resmap_size s)
      table.1.1 table.1.2
      (gs_part_list s) (gs_part_sorted s) (num_sorted_part s)
      (next_job_addr s) (signals_sent s) (errors_logged s)) ;;;
  _build_parts part_list ;;;
  _scan_slurm_job_list node_record_table_ptr select_g_get_job_cores job_suspend
    slurm_job_list.

End Init.

(** The globals as [gs_init] sets them first, in a state with nothing
    else. *)
Definition init_globals (select_type_param : select_type_plugin_info)
    (fast_schedule : Z) : gs_state :=
  mk_gs_state (_get_gr_type select_type_param) (to_uint16 fast_schedule)
    0 [] [] [] [] 0 0 [] [].

(** ** The resmap and the CPU array of a new job

    What [_add_job_to_part] stores in the struct of a new job: the resmap
    that [_get_resmap] returns and, where CPUs are counted, the CPU array
    that [_load_alloc_cpus] loads for it. *)
Definition built_job (node_record_table_ptr : list node_record)
    (select_g_get_job_cores : Z → nat → nat → Z) (s : gs_state)
    (job_bitmap : bitstr) (jid : Z) : outcome job_res :=
  jmap <~ _get_resmap node_record_table_ptr select_g_get_job_cores s job_bitmap jid ;;
  match gr_type s with
  | GS_CORE | GS_CPU =>
      arr <~ _load_alloc_cpus node_record_table_ptr select_g_get_job_cores s
               jmap job_bitmap jid ;;
      Ok (jmap, Some arr)
  | GS_NODE | GS_SOCKET => Ok (jmap, None)
  end.

(** ** The order of the jobs after a time slice *)

(** What the loop of [_cycle_job_list] that re-prioritizes the job list
    does to the row state of a job: a job of the active row, GS_ACTIVE or
    GS_FILLER, leaves it. *)
Definition unseat (j : gs_job) : gs_job :=
  if decide (row_state j = GS_ACTIVE ∨ row_state j = GS_FILLER)
  then set_row_state GS_NO_ACTIVE j else j.

(** The job list with the jobs that were GS_ACTIVE moved to the back, in
    their order, behind the other jobs in theirs. *)
Definition rotated (l : list gs_job) : list gs_job :=
  (unseat <$> filter (λ j, row_state j ≠ GS_ACTIVE) l) ++
  (unseat <$> filter (λ j, row_state j = GS_ACTIVE) l).

(** ** An allocation above the capacity of a node

    CPU granularity, two nodes of 4 CPUs each and one partition "p". The
    allocation plugin answers 9 CPUs for job 1 on its node, 3 and 1 for job
    3 on its two nodes, 1 and 0 for job 5 on its two nodes and 1 CPU for any
    other job. [started] is [gs_init] followed by the start of job 3 on both
    nodes, of job 1 on node 1, of job 2 on node 0 and of job 5 on both
    nodes: jobs 3 and 2 share the row, and jobs 1 and 5 do not fit beside
    job 3 and are suspended. *)
Module Overcommit.

Definition nodes : list node_record :=
  [mk_node_record 4 1 4 4 1 4; mk_node_record 4 1 4 4 1 4].

Definition cores (job_id : Z) (alloc_index socket : nat) : Z :=
  if job_id =? 1 then 9
  else if job_id =? 3 then (if decide (alloc_index = 0%nat) then 3 else 1)
  else if job_id =? 5 then (if decide (alloc_index = 0%nat) then 1 else 0)
  else 1.

Definition job (id : Z) (node_bitmap : bitstr) : job_record :=
  mk_job_record id "p" JOB_RUNNING node_bitmap.

Definition started : M unit :=
  gs_init nodes cores (λ _ _, 0) CR_CPU 0 [mk_part_record "p" 1] None ;;;
  gs_job_start nodes cores (λ _ _, 0) (job 3 [true; true]) ;;;
  gs_job_start nodes cores (λ _ _, 0) (job 1 [false; true]) ;;;
  gs_job_start nodes cores (λ _ _, 0) (job 2 [true; false]) ;;;
  gs_job_start nodes cores (λ _ _, 0) (job 5 [true; true]).

End Overcommit.

(** ** Two partitions whose jobs are all seated

    Two nodes at node granularity; partition "low" (priority 10) comes
    first in the list and runs job 9 on node 1 under the shadow of job 7,
    which partition "high" (priority 100) runs on node 0. Each counter is
    the number of the jobs and shadows of its partition. *)
Definition two_parts_full_state : gs_state :=
  mk_gs_state GS_NODE 0 2 [] []
    [ mk_gs_part "low" 10
        [mk_gs_job 1 9 GS_RESUME GS_FILLER [false; true] None]
        [0%nat] 2 (Some [true; true]) None;
      mk_gs_part "high" 100
        [mk_gs_job 0 7 GS_RESUME GS_FILLER [true; false] None]
        [] 1 (Some [true; false]) None ]
    [0%nat; 1%nat] 2 2 [] [].

(** * Properties *)

(** ** Scenario S1 *)

(** C1, as the scenario is written: after both starts A runs and B is
    suspended, and after one cycle B runs and A is suspended. This fails:
    [_add_job_to_part] seats A as a filler, and [_cycle_job_list] only
    moves the jobs that are GS_ACTIVE to the back of the list, so the first
    cycle leaves A at the head, where it is seated again. *)
Lemma S1_one_cycle_counterexample :
  ¬ (S1.sig_states (S1.start_both (λ _ _ _, 0) (λ _ _, 0) S1.init)
       = Some (GS_RESUME, GS_SUSPEND) ∧
     S1.sig_states ((S1.start_both (λ _ _ _, 0) (λ _ _, 0) ;;;
                     S1.cycle (λ _ _, 0)) S1.init)
       = Some (GS_SUSPEND, GS_RESUME)).
Proof. intros [_ H]. vm_compute in H. discriminate H. Qed.

(** C1, amended: in scenario S1, whatever the allocation plugin and
    [job_suspend] answer, after both starts A runs and B is suspended; one
    cycle of the partition leaves A running and B suspended; after a
    second cycle B runs and A is suspended. *)
Theorem S1_two_cycles (cores : Z → nat → nat → Z)
    (rc : list suspend_msg → suspend_msg → Z) :
  S1.sig_states (S1.start_both cores rc S1.init)
    = Some (GS_RESUME, GS_SUSPEND) ∧
  S1.sig_states ((S1.start_both cores rc ;;; S1.cycle rc) S1.init)
    = Some (GS_RESUME, GS_SUSPEND) ∧
  S1.sig_states ((S1.start_both cores rc ;;; S1.cycle rc ;;; S1.cycle rc) S1.init)
    = Some (GS_SUSPEND, GS_RESUME).
Proof. repeat split; vm_compute; reflexivity. Qed.

(** ** The capacity lookup *)

Lemma to_int_small (z : Z) : -2147483648 ≤ z ≤ 2147483647 → to_int z = z.
Proof. intros H. unfold to_int. rewrite Z.mod_small; lia. Qed.

Lemma run_start_0 (reps : list Z) : run_start reps 0 = 0.
Proof. reflexivity. Qed.

Lemma run_start_cons (r : Z) (reps : list Z) (k : nat) :
  run_start (r :: reps) (S k) = r + run_start reps k.
Proof. reflexivity. Qed.

Lemma run_start_nonneg (reps : list Z) (k : nat) :
  Forall (λ r, 0 ≤ r) reps → 0 ≤ run_start reps k.
Proof.
  intros H. revert k. induction H as [|r reps Hr _ IH]; intros [|k];
    unfold run_start; simpl; try lia.
  specialize (IH k). unfold run_start in IH. lia.
Qed.

Lemma run_start_step (reps : list Z) (k : nat) :
  Forall (λ r, 0 ≤ r) reps → run_start reps k ≤ run_start reps (S k).
Proof.
  intros H. revert k. induction H as [|r reps Hr Hall IH]; intros k.
  - unfold run_start. rewrite !take_nil. lia.
  - destruct k as [|k].
    + rewrite run_start_cons, !run_start_0. lia.
    + rewrite !run_start_cons. specialize (IH k). lia.
Qed.

Lemma run_start_mono (reps : list Z) (k1 k2 : nat) :
  Forall (λ r, 0 ≤ r) reps → (k1 ≤ k2)%nat → run_start reps k1 ≤ run_start reps k2.
Proof.
  intros H Hle. induction Hle as [|k2 _ IH]; [lia|].
  pose proof (run_start_step reps k2 H). lia.
Qed.

Lemma _get_phys_res_cnt_loop_stop (rest : list Z) (i pos : Z) (idx : nat) :
  i < pos → _get_phys_res_cnt_loop rest i pos idx = Ok idx.
Proof.
  intros H. destruct rest; simpl; destruct (Z.geb_spec i pos); (lia || reflexivity).
Qed.

Lemma _get_phys_res_cnt_loop_run (rest : list Z) (i : Z) :
  Forall (λ r, 0 ≤ r) rest →
  ∀ (pos : Z) (idx m : nat),
    0 ≤ pos →
    pos + run_start rest (S m) ≤ 2147483647 →
    pos + run_start rest m ≤ i < pos + run_start rest (S m) →
    _get_phys_res_cnt_loop rest i pos idx = Ok (idx + S m)%nat.
Proof.
  induction 1 as [|r rest Hr Hall IH]; intros pos idx m Hpos Hmax Hin.
  - unfold run_start in Hin. rewrite !take_nil in Hin. simpl in Hin. lia.
  - pose proof (run_start_nonneg rest m Hall) as Hm.
    rewrite run_start_cons in Hmax, Hin.
    cbn [_get_phys_res_cnt_loop]. destruct (Z.geb_spec i pos) as [_|Hlt].
    2:{ destruct m as [|m'];
          [rewrite run_start_0 in Hin|rewrite run_start_cons in Hin];
          [|pose proof (run_start_nonneg rest m' Hall)]; lia. }
    rewrite to_int_small by lia.
    destruct m as [|m].
    + rewrite !run_start_0 in Hin. rewrite _get_phys_res_cnt_loop_stop by lia.
      f_equal. lia.
    + rewrite run_start_cons in Hin.
      pose proof (run_start_nonneg rest (S m) Hall).
      rewrite (IH (pos + r) (S idx) m) by lia. f_equal. lia.
Qed.

(** C8: for a bit index [i] that lies in run [k] of the table (a table of
    nonnegative repeat counts whose bits up to the end of run [k] can be
    counted in an [int]), [_get_phys_res_cnt] returns the capacity of run
    [k], and [k] is the only run that holds [i]. *)
Theorem get_phys_res_cnt_run (cpus_per_res reps : list Z) (i : Z) (k : nat) (c : Z) :
  Forall (λ r, 0 ≤ r) reps →
  run_start reps (S k) ≤ 2147483647 →
  run_start reps k ≤ i < run_start reps (S k) →
  cpus_per_res !! k = Some c →
  _get_phys_res_cnt cpus_per_res reps i = Ok c ∧
  ∀ k', run_start reps k' ≤ i < run_start reps (S k') → k' = k.
Proof.
  intros Hall Hmax Hin Hc. split.
  - destruct reps as [|r0 rest].
    { unfold run_start in Hin. rewrite !take_nil in Hin. simpl in Hin. lia. }
    inversion Hall as [|? ? Hr0 Hall']; subst. clear Hall. rename Hall' into Hall.
    unfold _get_phys_res_cnt.
    rewrite run_start_cons in Hmax, Hin.
    pose proof (run_start_nonneg rest k Hall) as Hk.
    destruct k as [|k].
    + pose proof (run_start_0 rest) as H0. rewrite run_start_0 in Hin.
      rewrite to_int_small by lia.
      rewrite _get_phys_res_cnt_loop_stop by lia. simpl.
      unfold array_get. replace (1 - 0)%nat with 1%nat by lia. simpl.
      now rewrite Hc.
    + rewrite run_start_cons in Hin. rewrite to_int_small by lia.
      rewrite (_get_phys_res_cnt_loop_run rest i Hall r0 1 k) by lia.
      simpl. unfold array_get.
      replace (k + 1 - 0)%nat with (S k) by lia. now rewrite Hc.
  - intros k' Hin'.
    destruct (decide (k' < k)%nat) as [Hlt|Hge].
    { pose proof (run_start_mono reps (S k') k Hall ltac:(lia)). lia. }
    destruct (decide (k < k')%nat) as [Hlt|Hge'].
    { pose proof (run_start_mono reps (S k) k' Hall ltac:(lia)). lia. }
    lia.
Qed.

Lemma get_phys_res_cnt_run_witness :
  _get_phys_res_cnt [4; 8] [3; 2] 4 = Ok 8 ∧
  ∀ k', run_start [3; 2] k' ≤ 4 < run_start [3; 2] (S k') → k' = 1%nat.
Proof.
  apply (get_phys_res_cnt_run [4; 8] [3; 2] 4 1 8).
  - repeat constructor; lia.
  - vm_compute. discriminate.
  - vm_compute. split; [discriminate | reflexivity].
  - reflexivity.
Defined.

(** ** The fit test *)

Lemma bit_test_lookup (b : bitstr) (i : nat) :
  bit_test b i = true ↔ b !! i = Some true.
Proof.
  unfold bit_test. destruct (b !! i) as [[]|]; split; congruence.
Qed.

Lemma bit_test_ge (b : bitstr) (i : nat) :
  (length b ≤ i)%nat → bit_test b i = false.
Proof.
  intros H. unfold bit_test. now rewrite (proj2 (lookup_ge_None b i) H).
Qed.

Lemma bit_test_and (b1 b2 : bitstr) (i : nat) :
  bit_test (bit_and b1 b2) i = bit_test b1 i && bit_test b2 i.
Proof.
  unfold bit_and, bit_test. rewrite list_lookup_imap.
  destruct (b1 !! i); reflexivity.
Qed.

Lemma bit_size_and (b1 b2 : bitstr) : bit_size (bit_and b1 b2) = bit_size b1.
Proof. apply length_imap. Qed.

Lemma bit_set_count_cons (x : bool) (b : bitstr) :
  bit_set_count (x :: b) = ((if x then 1 else 0) + bit_set_count b)%nat.
Proof.
  unfold bit_set_count. rewrite filter_cons.
  destruct x; case_decide; simpl; try congruence; reflexivity.
Qed.

Lemma bit_set_count_app (b1 b2 : bitstr) :
  bit_set_count (b1 ++ b2) = (bit_set_count b1 + bit_set_count b2)%nat.
Proof.
  induction b1 as [|x b1 IH]; [reflexivity|].
  change ((x :: b1) ++ b2) with (x :: (b1 ++ b2)).
  rewrite !bit_set_count_cons, IH. lia.
Qed.

Lemma bit_set_count_0 (b : bitstr) :
  bit_set_count b = 0%nat ↔ ∀ i, bit_test b i = false.
Proof.
  induction b as [|x b IH].
  - split; [intros _ i; reflexivity | reflexivity].
  - rewrite bit_set_count_cons. split.
    + intros H i. destruct x; [simpl in H; lia|].
      destruct i as [|i]; [reflexivity|]. apply IH. simpl in H. lia.
    + intros H. pose proof (H 0%nat) as H0. unfold bit_test in H0. simpl in H0.
      subst x. simpl. apply IH. intros i. apply (H (S i)).
Qed.

Lemma alignment_0 (jmap : bitstr) : alignment jmap 0 = 0%nat.
Proof. reflexivity. Qed.

Lemma alignment_S (jmap : bitstr) (i : nat) :
  alignment jmap (S i) =
  if bit_test jmap i then S (alignment jmap i) else alignment jmap i.
Proof.
  unfold alignment, bit_test. destruct (jmap !! i) as [x|] eqn:Hi.
  - rewrite (take_S_r _ _ _ Hi), bit_set_count_app, bit_set_count_cons.
    change (bit_set_count []) with 0%nat. destruct x; lia.
  - apply lookup_ge_None_1 in Hi. now rewrite !take_ge by lia.
Qed.

Section Fit.
Context (s : gs_state) (setmap jmap : bitstr) (p_cpus j_cpus : list Z).

Lemma _can_cpus_fit_loop_spec (n i : nat) :
  (∀ i', (i ≤ i' < i + n)%nat → bit_test setmap i' = true →
         cpus_readable_at s jmap p_cpus j_cpus i') →
  ∃ b, _can_cpus_fit_loop s setmap jmap p_cpus j_cpus n i (alignment jmap i) = Ok b ∧
       (b = true ↔
        ∀ i', (i ≤ i' < i + n)%nat → bit_test setmap i' = true →
              cpus_fit_at s jmap p_cpus j_cpus i').
Proof.
  revert i. induction n as [|n IH]; intros i Hread.
  - exists true. split; [reflexivity|]. split; [intros _ i' Hi'; lia | reflexivity].
  - cbn [_can_cpus_fit_loop].
    destruct (IH (S i)) as (b & Hb & Hbiff).
    { intros i' Hi'. apply Hread. lia. }
    rewrite alignment_S in Hb.
    destruct (bit_test setmap i) eqn:Hset.
    + destruct (Hread i ltac:(lia) Hset) as ([pc Hpc] & [jc Hjc] & [lim Hlim]).
      unfold array_get. rewrite Hpc, Hjc. cbn [obind]. rewrite Hlim. cbn [obind].
      destruct (Z.gtb_spec (pc + jc) lim) as [Hgt|Hle]; cbn [negb].
      * exists false. split; [reflexivity|]. split; [discriminate|].
        intros Hall.
        destruct (Hall i ltac:(lia) Hset) as (pc' & jc' & lim' & Hpc' & Hjc' & Hlim' & Hle).
        assert (pc' = pc) as -> by congruence.
        assert (jc' = jc) as -> by congruence.
        assert (lim' = lim) as -> by congruence. lia.
      * exists b. split; [exact Hb|]. rewrite Hbiff. split.
        -- intros Hall i' Hi' Hset'. destruct (decide (i' = i)) as [->|Hne].
           ++ exists pc, jc, lim. auto.
           ++ apply Hall; [lia | assumption].
        -- intros Hall i' Hi'. apply Hall. lia.
    + cbn [obind]. exists b. split; [exact Hb|]. rewrite Hbiff. split.
      * intros Hall i' Hi' Hset'. destruct (decide (i' = i)) as [->|Hne].
        -- congruence.
        -- apply Hall; [lia | assumption].
      * intros Hall i' Hi'. apply Hall. lia.
Qed.

End Fit.

(** C3: [_job_fits_in_active_row] returns true when the partition has no
    active resmap or no job in its active row; otherwise it returns true
    when the job and the active resmap share no set bit; with a shared bit
    it returns false for GS_NODE and GS_SOCKET; and for GS_CORE and GS_CPU
    (both CPU arrays present, the reads at the shared bits inside the arrays
    and the capacity table) it returns true exactly when at every shared
    bit [i] the active CPU count plus the job's count at the alignment
    index of [i] is at most the capacity of [i]. *)
Theorem job_fits_in_active_row_spec (s : gs_state) (j : gs_job) (p : gs_part) :
  (active_resmap p = None ∨ jobs_active p = 0 →
   _job_fits_in_active_row s j p = Ok true) ∧
  ∀ amap, active_resmap p = Some amap → jobs_active p ≠ 0 →
    ((∀ i, ¬ shared_bit j amap i) → _job_fits_in_active_row s j p = Ok true) ∧
    ((∃ i, shared_bit j amap i) → gr_type s = GS_NODE ∨ gr_type s = GS_SOCKET →
     _job_fits_in_active_row s j p = Ok false) ∧
    (gr_type s = GS_CORE ∨ gr_type s = GS_CPU →
     ∀ p_cpus j_cpus,
       active_cpus p = Some p_cpus → alloc_cpus j = Some j_cpus →
       (∀ i, shared_bit j amap i → cpus_readable_at s (resmap j) p_cpus j_cpus i) →
       ∃ b, _job_fits_in_active_row s j p = Ok b ∧
            (b = true ↔
             ∀ i, shared_bit j amap i → cpus_fit_at s (resmap j) p_cpus j_cpus i)).
Proof.
  assert (Hshared : ∀ amap i,
    bit_test (bit_and (bit_copy (resmap j)) amap) i = true ↔ shared_bit j amap i).
  { intros amap i. rewrite bit_test_and. unfold shared_bit, bit_copy.
    destruct (bit_test (resmap j) i), (bit_test amap i); simpl; intuition congruence. }
  split.
  { unfold _job_fits_in_active_row. intros [Hnone|Hzero].
    - now rewrite Hnone.
    - destruct (active_resmap p); [|reflexivity]. now rewrite Hzero. }
  intros amap Hamap Hact.
  unfold _job_fits_in_active_row. rewrite Hamap.
  destruct (Z.eqb_spec (jobs_active p) 0) as [|_]; [contradiction|].
  cbv zeta. set (tmpmap := bit_and (bit_copy (resmap j)) amap).
  split; [|split].
  - intros Hnone. destruct (Nat.eqb_spec (bit_set_count tmpmap) 0) as [|Hne]; [reflexivity|].
    exfalso. apply Hne. apply bit_set_count_0. intros i.
    destruct (bit_test tmpmap i) eqn:Hi; [|reflexivity].
    apply (proj1 (Hshared amap i)) in Hi. now apply Hnone in Hi.
  - intros [i Hi] Hgr.
    destruct (Nat.eqb_spec (bit_set_count tmpmap) 0) as [H0|_].
    { apply (proj2 (Hshared amap i)) in Hi. fold tmpmap in Hi.
      rewrite (proj1 (bit_set_count_0 tmpmap) H0 i) in Hi. discriminate. }
    destruct Hgr as [-> | ->]; reflexivity.
  - intros Hgr p_cpus j_cpus Hp Hj Hread.
    destruct (Nat.eqb_spec (bit_set_count tmpmap) 0) as [H0|_].
    { exists true. split; [reflexivity|]. split; [|reflexivity].
      intros _ i Hi. apply (proj2 (Hshared amap i)) in Hi. fold tmpmap in Hi.
      rewrite (proj1 (bit_set_count_0 tmpmap) H0 i) in Hi. discriminate. }
    assert (_can_cpus_fit s tmpmap j p =
            _can_cpus_fit_loop s tmpmap (resmap j) p_cpus j_cpus (bit_size tmpmap) 0
              (alignment (resmap j) 0)) as Hcan.
    { unfold _can_cpus_fit. now rewrite Hp, Hj. }
    destruct (_can_cpus_fit_loop_spec s tmpmap (resmap j) p_cpus j_cpus
                (bit_size tmpmap) 0) as (b & Hb & Hbiff).
    { intros i' _ Hset. apply Hread. now apply Hshared. }
    exists b. split.
    { destruct Hgr as [-> | ->]; now rewrite Hcan. }
    rewrite Hbiff. split.
    + intros Hall i Hi. apply Hall; [|now apply Hshared].
      split; [lia|]. simpl.
      destruct (decide (i < bit_size tmpmap)%nat) as [|Hge]; [assumption|].
      apply (proj2 (Hshared amap i)) in Hi. fold tmpmap in Hi.
      rewrite bit_test_ge in Hi by (unfold bit_size in Hge; lia).
      discriminate.
    + intros Hall i _ Hset. apply Hall. now apply Hshared.
Qed.

(** C10: for GS_CORE and GS_CPU, with a job in the active row and a bit
    shared by the job and the active resmap, the fit test answers false
    when the CPU array of the partition or the one of the job is NULL. *)
Theorem job_fits_null_cpus (s : gs_state) (j : gs_job) (p : gs_part)
    (amap : bitstr) (i : nat) :
  gr_type s = GS_CORE ∨ gr_type s = GS_CPU →
  active_resmap p = Some amap →
  0 < jobs_active p →
  shared_bit j amap i →
  active_cpus p = None ∨ alloc_cpus j = None →
  _job_fits_in_active_row s j p = Ok false.
Proof.
  intros Hgr Hamap Hact [Hj Ha] Hnull.
  unfold _job_fits_in_active_row. rewrite Hamap.
  destruct (Z.eqb_spec (jobs_active p) 0) as [|_]; [lia|].
  cbv zeta. set (tmpmap := bit_and (bit_copy (resmap j)) amap).
  destruct (Nat.eqb_spec (bit_set_count tmpmap) 0) as [H0|_].
  { pose proof (proj1 (bit_set_count_0 tmpmap) H0 i) as Hi.
    unfold tmpmap, bit_copy in Hi. rewrite bit_test_and, Hj, Ha in Hi.
    discriminate. }
  unfold _can_cpus_fit.
  destruct Hgr as [-> | ->], Hnull as [-> | ->];
    try reflexivity; destruct (active_cpus p); reflexivity.
Qed.

Lemma job_fits_in_active_row_spec_witness :
  ∃ b, _job_fits_in_active_row one_socket_state one_socket_job
         (one_socket_part (Some [3])) = Ok b ∧
       (b = true ↔
        ∀ i, shared_bit one_socket_job [true] i →
             cpus_fit_at one_socket_state [true] [3] [2] i).
Proof.
  refine (proj2 (proj2 (proj2 (job_fits_in_active_row_spec one_socket_state
            one_socket_job (one_socket_part (Some [3]))) [true] eq_refl _))
            (or_introl eq_refl) [3] [2] eq_refl eq_refl _).
  - simpl. lia.
  - intros [|i] [Hj _]; [|discriminate Hj].
    repeat split; [exists 3 | exists 2 | exists 4]; reflexivity.
Defined.

Lemma job_fits_null_cpus_witness :
  _job_fits_in_active_row one_socket_state one_socket_job (one_socket_part None)
  = Ok false.
Proof.
  apply (job_fits_null_cpus one_socket_state one_socket_job (one_socket_part None)
           [true] 0).
  - left. reflexivity.
  - reflexivity.
  - simpl. lia.
  - split; reflexivity.
  - left. reflexivity.
Defined.

(** ** Removing a job that is not there *)

Lemma _find_job_index_from_None (l : list gs_job) (jid : Z) (i : nat) :
  _find_job_index_from l jid i = None ↔ ∀ j, j ∈ l → job_id j ≠ jid.
Proof.
  revert i. induction l as [|j l IH]; intros i; simpl.
  - split; [intros _ j Hj; inversion Hj | reflexivity].
  - destruct (Z.eqb_spec (job_id j) jid) as [Heq|Hne].
    + split; [discriminate|]. intros H. exfalso. apply (H j); [left | exact Heq].
    + rewrite IH. split.
      * intros H j' Hj'. inversion Hj'; subst; [exact Hne | now apply H].
      * intros H j' Hj'. apply H. now right.
Qed.

(** C9: [_remove_job_from_part] called with a NULL partition, with job id
    0, or with an id that no job of the partition's list carries returns
    with the whole state as it was: no job list, shadow list or active row
    has changed and no signal was sent. *)
Theorem remove_absent_job_frame (job_suspend : list suspend_msg → suspend_msg → Z)
    (s : gs_state) (jid : Z) (p_ptr : option nat) :
  (p_ptr = None ∨ jid = 0 ∨
   ∃ pi p, p_ptr = Some pi ∧ gs_part_list s !! pi = Some p ∧
           ∀ j, j ∈ job_list p → job_id j ≠ jid) →
  _remove_job_from_part job_suspend jid p_ptr s = Ok (tt, s).
Proof.
  intros [-> | [-> | (pi & p & -> & Hp & Habsent)]].
  - reflexivity.
  - destruct p_ptr; reflexivity.
  - unfold _remove_job_from_part.
    destruct (Z.eqb_spec jid 0) as [|_]; [reflexivity|].
    unfold bind, get_part. rewrite Hp.
    unfold _find_job_index.
    now rewrite (proj2 (_find_job_index_from_None (job_list p) jid 0) Habsent).
Qed.

Lemma remove_absent_job_frame_witness :
  _remove_job_from_part (λ _ _, 1) 7 (Some 1%nat) two_parts_state
  = Ok (tt, two_parts_state).
Proof.
  apply remove_absent_job_frame. right. right.
  eexists 1%nat, _. split; [reflexivity|]. split; [reflexivity|].
  intros j Hj. simpl in Hj.
  apply elem_of_cons in Hj as [-> | Hj]; [discriminate|].
  apply elem_of_cons in Hj as [-> | Hj]; [discriminate|].
  inversion Hj.
Defined.

(** ** Runs of the state monad, read backwards *)

Lemma bind_Ok {A B} (m : M A) (k : A → M B) (s : gs_state) (r : B * gs_state) :
  bind m k s = Ok r → ∃ a s1, m s = Ok (a, s1) ∧ k a s1 = Ok r.
Proof. unfold bind. destruct (m s) as [[a s1]|e]; [eauto | discriminate]. Qed.

Lemma ret_Ok {A} (a : A) (s : gs_state) (r : A * gs_state) :
  ret a s = Ok r → r = (a, s).
Proof. unfold ret. congruence. Qed.

Lemma lift_Ok {A} (o : outcome A) (s : gs_state) (r : A * gs_state) :
  lift o s = Ok r → ∃ a, o = Ok a ∧ r = (a, s).
Proof. unfold lift. destruct o; [|discriminate]. intros [= <-]. eauto. Qed.

Lemma gets_Ok {A} (f : gs_state → A) (s : gs_state) (r : A * gs_state) :
  gets f s = Ok r → r = (f s, s).
Proof. unfold gets. congruence. Qed.

Lemma get_state_Ok (s : gs_state) (r : gs_state * gs_state) :
  get_state s = Ok r → r = (s, s).
Proof. unfold get_state. congruence. Qed.

Lemma modify_Ok (f : gs_state → gs_state) (s : gs_state) (r : unit * gs_state) :
  modify f s = Ok r → r = (tt, f s).
Proof. unfold modify. congruence. Qed.

Lemma get_part_Ok (p_ptr : nat) (s : gs_state) (r : gs_part * gs_state) :
  get_part p_ptr s = Ok r → ∃ q, gs_part_list s !! p_ptr = Some q ∧ r = (q, s).
Proof.
  unfold get_part. destruct (gs_part_list s !! p_ptr); [|discriminate].
  intros [= <-]. eauto.
Qed.

Lemma put_part_Ok (p_ptr : nat) (q : gs_part) (s : gs_state) (r : unit * gs_state) :
  put_part p_ptr q s = Ok r →
  r = (tt, set_part_list (<[p_ptr:=q]> (gs_part_list s)) s).
Proof. unfold put_part, modify. congruence. Qed.

Lemma obind_Ok {A B} (m : outcome A) (k : A → outcome B) (b : B) :
  obind m k = Ok b → ∃ a, m = Ok a ∧ k a = Ok b.
Proof. destruct m; [eauto | discriminate]. Qed.

Lemma array_get_Ok {A} (l : list A) (i : nat) (x : A) :
  array_get l i = Ok x → l !! i = Some x.
Proof. unfold array_get. destruct (l !! i); congruence. Qed.

Lemma array_set_Ok {A} (l : list A) (i : nat) (x : A) (l' : list A) :
  array_set l i x = Ok l' → (i < length l)%nat ∧ l' = <[i:=x]> l.
Proof. unfold array_set. case_decide; [|discriminate]. intros [= <-]. auto. Qed.

Lemma get_job_Ok (p_ptr i : nat) (s : gs_state) (r : gs_job * gs_state) :
  get_job p_ptr i s = Ok r →
  ∃ q j, gs_part_list s !! p_ptr = Some q ∧ job_list q !! i = Some j ∧ r = (j, s).
Proof.
  unfold get_job. intros H.
  apply bind_Ok in H as (q & s1 & Hq & H).
  apply get_part_Ok in Hq as (q' & Hq & [= <- <-]).
  apply lift_Ok in H as (j & Hj & ->). apply array_get_Ok in Hj. eauto.
Qed.

Lemma modify_job_Ok (p_ptr i : nat) (f : gs_job → gs_job) (s : gs_state)
    (r : unit * gs_state) :
  modify_job p_ptr i f s = Ok r →
  ∃ q j, gs_part_list s !! p_ptr = Some q ∧ job_list q !! i = Some j ∧
         r = (tt, set_part_list
                    (<[p_ptr:=set_job_list (<[i:=f j]> (job_list q)) q]>
                       (gs_part_list s)) s).
Proof.
  unfold modify_job. intros H.
  apply bind_Ok in H as (q & s1 & Hq & H).
  apply get_part_Ok in Hq as (q' & Hq & [= <- <-]).
  apply bind_Ok in H as (j & s2 & Hj & H).
  apply lift_Ok in Hj as (j' & Hj & [= <- <-]). apply array_get_Ok in Hj.
  apply put_part_Ok in H. eauto.
Qed.

Lemma job_fits_Ok (j : gs_job) (p_ptr : nat) (s : gs_state) (r : bool * gs_state) :
  job_fits j p_ptr s = Ok r →
  ∃ q b, gs_part_list s !! p_ptr = Some q ∧
         _job_fits_in_active_row s j q = Ok b ∧ r = (b, s).
Proof.
  unfold job_fits. intros H.
  apply bind_Ok in H as (q & s1 & Hq & H).
  apply get_part_Ok in Hq as (q' & Hq & [= <- <-]).
  apply bind_Ok in H as (s2 & s3 & Hs & H).
  apply get_state_Ok in Hs as [= <- <-].
  apply lift_Ok in H as (b & Hb & ->). eauto.
Qed.

Lemma add_active_Ok (j : gs_job) (p_ptr : nat) (s : gs_state) (r : unit * gs_state) :
  add_active j p_ptr s = Ok r →
  ∃ q q', gs_part_list s !! p_ptr = Some q ∧
          _add_job_to_active s j q = Ok q' ∧
          r = (tt, set_part_list (<[p_ptr:=q']> (gs_part_list s)) s).
Proof.
  unfold add_active. intros H.
  apply bind_Ok in H as (q & s1 & Hq & H).
  apply get_part_Ok in Hq as (q' & Hq & [= <- <-]).
  apply bind_Ok in H as (s2 & s3 & Hs & H).
  apply get_state_Ok in Hs as [= <- <-].
  apply bind_Ok in H as (q2 & s4 & Hadd & H).
  apply lift_Ok in Hadd as (q3 & Hadd & [= <- <-]).
  apply put_part_Ok in H. eauto.
Qed.

Lemma _add_job_to_active_Ok (s : gs_state) (j : gs_job) (q q' : gs_part) :
  _add_job_to_active s j q = Ok q' →
  part_name q' = part_name q ∧ priority q' = priority q ∧
  job_list q' = job_list q ∧ shadow q' = shadow q ∧
  jobs_active q' = to_uint32 (jobs_active q + 1).
Proof.
  unfold _add_job_to_active. intros H.
  apply obind_Ok in H as (acpus & _ & [= <-]). simpl. auto.
Qed.

Lemma for_each_inv {A} (I : gs_state → Prop) (l : list A) (body : A → M unit) :
  (∀ x s s', x ∈ l → I s → body x s = Ok (tt, s') → I s') →
  ∀ s s', I s → for_each l body s = Ok (tt, s') → I s'.
Proof.
  induction l as [|x l IH]; intros Hbody s s' HI H.
  - apply ret_Ok in H as [= <-]. exact HI.
  - cbn [for_each] in H. apply bind_Ok in H as ([] & s1 & Hx & H).
    apply (IH (λ y t t' Hy, Hbody y t t' (list_elem_of_further _ _ _ Hy)) s1);
      [|exact H].
    apply (Hbody x s s1); [left | exact HI | exact Hx].
Qed.

Lemma for_each_rtc {A} (R : relation gs_state) (l : list A) (body : A → M unit) :
  (∀ x s s', x ∈ l → body x s = Ok (tt, s') → rtc R s s') →
  ∀ s s', for_each l body s = Ok (tt, s') → rtc R s s'.
Proof.
  intros Hbody s s' H.
  refine (for_each_inv (λ t, rtc R s t) l body _ s s' (rtc_refl _ _) H).
  intros x t t' Hx Ht Hrun. etrans; [exact Ht|]. now apply (Hbody x).
Qed.

(** ** The row steps of the functions that work on one partition *)

Lemma same_frame_refl (q : gs_part) : same_frame q q.
Proof. repeat split; reflexivity. Qed.

Lemma same_frame_job (q : gs_part) (i : nat) (j : gs_job) (f : gs_job → gs_job) :
  job_list q !! i = Some j → job_addr (f j) = job_addr j →
  same_frame q (set_job_list (<[i:=f j]> (job_list q)) q).
Proof.
  intros Hj Hf. repeat split; try reflexivity.
  unfold job_addrs. simpl. rewrite list_fmap_insert, Hf.
  rewrite list_insert_id; [reflexivity|]. now rewrite list_lookup_fmap, Hj.
Qed.

Lemma add_active_step (j : gs_job) (p_ptr : nat) (s s' : gs_state) :
  add_active j p_ptr s = Ok (tt, s') → row_step p_ptr s s'.
Proof.
  intros H. apply add_active_Ok in H as (q & q' & Hq & Hadd & [= ->]).
  apply (row_step_part _ _ q q' Hq).
  apply _add_job_to_active_Ok in Hadd as (Hn & Hp & Hl & Hs & _).
  repeat split; try assumption. unfold job_addrs. now rewrite Hl.
Qed.

Lemma modify_job_step (p_ptr i : nat) (f : gs_job → gs_job) (s s' : gs_state) :
  (∀ j, job_addr (f j) = job_addr j) →
  modify_job p_ptr i f s = Ok (tt, s') → row_step p_ptr s s'.
Proof.
  intros Hf H. apply modify_job_Ok in H as (q & j & Hq & Hj & [= ->]).
  apply (row_step_part _ _ q _ Hq). now apply same_frame_job.
Qed.

Lemma _signal_job_Ok (job_suspend : list suspend_msg → suspend_msg → Z)
    (jid : Z) (sig : gs_flags) (s : gs_state) (r : unit * gs_state) :
  _signal_job job_suspend jid sig s = Ok r →
  ∃ msgs errs, r = (tt, set_log msgs errs s).
Proof. unfold _signal_job. intros [= <-]. eauto. Qed.

Lemma _signal_job_step (job_suspend : list suspend_msg → suspend_msg → Z)
    (p_ptr : nat) (jid : Z) (sig : gs_flags) (s s' : gs_state) :
  _signal_job job_suspend jid sig s = Ok (tt, s') → row_step p_ptr s s'.
Proof.
  intros H. apply _signal_job_Ok in H as (msgs & errs & [= ->]). constructor.
Qed.


Lemma lookup_map_part (f : gs_part → gs_part) (parts : list gs_part) (p : nat) :
  map f parts !! p = f <$> parts !! p.
Proof. apply (list_lookup_fmap f). Qed.

Lemma _cast_shadow_part_frame (a : nat) (prio : Z) (q : gs_part) :
  part_name (_cast_shadow_part a prio q) = part_name q ∧
  priority (_cast_shadow_part a prio q) = priority q ∧
  job_list (_cast_shadow_part a prio q) = job_list q ∧
  jobs_active (_cast_shadow_part a prio q) = jobs_active q ∧
  active_resmap (_cast_shadow_part a prio q) = active_resmap q ∧
  active_cpus (_cast_shadow_part a prio q) = active_cpus q.
Proof.
  unfold _cast_shadow_part.
  destruct (priority q >=? prio); [auto 10|].
  destruct (bool_decide (a ∈ shadow q)); simpl; auto 10.
Qed.

Lemma _cast_shadow_part_higher (a : nat) (prio : Z) (q : gs_part) :
  prio ≤ priority q → _cast_shadow_part a prio q = q.
Proof.
  intros H. unfold _cast_shadow_part.
  destruct (Z.geb_spec (priority q) prio); [reflexivity | lia].
Qed.

Lemma set_shadow_id (q : gs_part) : set_shadow (shadow q) q = q.
Proof. now destruct q. Qed.

Lemma shadow_remove_absent (a : nat) (l : list nat) :
  a ∉ l → shadow_remove a l = l.
Proof.
  induction l as [|x l IH]; intros H; [reflexivity|].
  apply not_elem_of_cons in H as [Hne Hl]. simpl.
  rewrite decide_False by congruence. now rewrite IH.
Qed.

Lemma _clear_shadow_part_absent (a : nat) (q : gs_part) :
  a ∉ shadow q → _clear_shadow_part a q = q.
Proof.
  intros H. unfold _clear_shadow_part. rewrite shadow_remove_absent by assumption.
  apply set_shadow_id.
Qed.

(** What a row step leaves of every partition. *)
Lemma row_step_lookup (p_ptr : nat) (s s' : gs_state) :
  row_step p_ptr s s' →
  ∀ p q, gs_part_list s !! p = Some q →
    ∃ q', gs_part_list s' !! p = Some q' ∧
          part_name q' = part_name q ∧ priority q' = priority q ∧
          job_addrs q' ≡ₚ job_addrs q.
Proof.
  intros Hstep p q Hq. destruct Hstep as [q0 q0' Hq0 Hframe|q0 a Hq0 Ha|q0 a Hq0 Ha|];
    simpl.
  - destruct (decide (p = p_ptr)) as [->|Hne].
    + exists q0'. rewrite list_lookup_insert_eq by (now apply lookup_lt_Some in Hq).
      replace q with q0 by congruence.
      destruct Hframe as (? & ? & ? & ?). auto.
    + exists q. rewrite list_lookup_insert_ne by congruence. auto.
  - exists (_cast_shadow_part a (priority q0) q).
    rewrite lookup_map_part, Hq. split; [reflexivity|].
    destruct (_cast_shadow_part_frame a (priority q0) q) as (? & ? & Hl & _).
    unfold job_addrs. rewrite Hl. auto.
  - exists (_clear_shadow_part a q).
    rewrite lookup_map_part, Hq. auto.
  - exists q. auto.
Qed.

Lemma row_step_has_job (p_ptr a : nat) (s s' : gs_state) :
  row_step p_ptr s s' → has_job p_ptr a s → has_job p_ptr a s'.
Proof.
  intros Hstep (q & Hq & Ha).
  destruct (row_step_lookup _ _ _ Hstep _ _ Hq) as (q' & Hq' & _ & _ & Hperm).
  exists q'. split; [exact Hq'|]. now rewrite Hperm.
Qed.

Lemma rtc_row_step_has_job (p_ptr a : nat) (s s' : gs_state) :
  rtc (row_step p_ptr) s s' → has_job p_ptr a s → has_job p_ptr a s'.
Proof. induction 1; eauto using row_step_has_job. Qed.

Lemma get_job_has_job (p_ptr i : nat) (q : gs_part) (j : gs_job) (s : gs_state) :
  gs_part_list s !! p_ptr = Some q → job_list q !! i = Some j →
  has_job p_ptr (job_addr j) s.
Proof.
  intros Hq Hj. exists q. split; [exact Hq|].
  apply list_elem_of_fmap. exists j. split; [reflexivity|].
  now apply list_elem_of_lookup_2 in Hj.
Qed.

Lemma _cast_shadow_step (p_ptr a : nat) (q : gs_part) (s : gs_state)
    (r : unit * gs_state) :
  has_job p_ptr a s → gs_part_list s !! p_ptr = Some q →
  _cast_shadow a (priority q) s = Ok r →
  ∃ s', r = (tt, s') ∧ row_step p_ptr s s'.
Proof.
  intros (q' & Hq' & Ha) Hq H. apply modify_Ok in H as ->.
  eexists. split; [reflexivity|].
  replace q' with q in * by congruence. now apply (row_step_cast _ _ q).
Qed.

Lemma _clear_shadow_step (p_ptr a : nat) (s : gs_state) (r : unit * gs_state) :
  has_job p_ptr a s →
  _clear_shadow a s = Ok r →
  ∃ s', r = (tt, s') ∧ row_step p_ptr s s'.
Proof.
  intros (q & Hq & Ha) H. apply modify_Ok in H as ->.
  eexists. split; [reflexivity|]. now apply (row_step_clear _ _ q).
Qed.

(** One run read backwards, as far as the binds go. *)
Ltac minv_step :=
  match goal with
  | H : bind _ _ _ = Ok _ |- _ => apply bind_Ok in H as (? & ? & ? & ?)
  | H : ret _ _ = Ok _ |- _ => apply ret_Ok in H
  | H : get_part _ _ = Ok _ |- _ => apply get_part_Ok in H as (? & ? & ?)
  | H : get_job _ _ _ = Ok _ |- _ => apply get_job_Ok in H as (? & ? & ? & ? & ?)
  | H : job_fits _ _ _ = Ok _ |- _ => apply job_fits_Ok in H as (? & ? & ? & ? & ?)
  | H : lift _ _ = Ok _ |- _ => apply lift_Ok in H as (? & ? & ?)
  | H : gets _ _ = Ok _ |- _ => apply gets_Ok in H
  | H : get_state _ = Ok _ |- _ => apply get_state_Ok in H
  | H : array_get _ _ = Ok _ |- _ => apply array_get_Ok in H
  | H : (_, _) = (_, _) |- _ => inversion H; clear H
  | H : Ok _ = Ok _ |- _ => inversion H; clear H
  | x : unit |- _ => destruct x
  end.

Ltac minv := repeat (minv_step; subst).

(** A chain of steps put together from the steps at hand. *)
Ltac chain :=
  repeat first
    [ reflexivity
    | eassumption
    | apply rtc_once; eassumption
    | eapply rtc_l; [eassumption|]
    | etrans; [eassumption|] ].

Section RowSteps.
Context (job_suspend : list suspend_msg → suspend_msg → Z).

(** The steps of the primitives that a run is made of. *)
Ltac row_prims p_ptr :=
  repeat match goal with
  | H : add_active _ p_ptr _ = Ok _ |- _ => apply add_active_step in H
  | H : modify_job p_ptr _ _ _ = Ok _ |- _ =>
      apply modify_job_step in H; [|reflexivity]
  | H : _signal_job _ _ _ _ = Ok _ |- _ => apply (_signal_job_step _ p_ptr) in H
  end.

Ltac row_cast p_ptr Hhas :=
  match goal with
  | H : _cast_shadow ?a (priority ?q) ?s = Ok _,
    Hq : gs_part_list ?s !! p_ptr = Some ?q |- _ =>
      match type of Hhas with
      | has_job _ _ ?s0 =>
          let Hh := fresh in
          assert (Hh : has_job p_ptr a s)
            by (apply (rtc_row_step_has_job p_ptr a s0 s); [chain | exact Hhas]);
          apply (_cast_shadow_step p_ptr _ _ _ _ Hh Hq) in H as (? & ? & ?); minv
      end
  end.

Ltac row_clear p_ptr Hhas :=
  match goal with
  | H : _clear_shadow ?a ?s = Ok _ |- _ =>
      match type of Hhas with
      | has_job _ _ ?s0 =>
          let Hh := fresh in
          assert (Hh : has_job p_ptr a s)
            by (apply (rtc_row_step_has_job p_ptr a s0 s); [chain | exact Hhas]);
          apply (_clear_shadow_step p_ptr _ _ _ Hh) in H as (? & ? & ?); minv
      end
  end.

Lemma _update_seated_job_steps (p_ptr : nat) (which : gs_flags) (i : nat)
    (s s' : gs_state) :
  _update_seated_job job_suspend p_ptr which i s = Ok (tt, s') →
  rtc (row_step p_ptr) s s'.
Proof.
  unfold _update_seated_job. intros H. minv.
  match goal with
  | Hq : gs_part_list _ !! p_ptr = Some _, Hj : job_list _ !! i = Some _ |- _ =>
      pose proof (get_job_has_job _ _ _ _ _ Hq Hj) as Hhas
  end.
  case_decide; minv; [reflexivity|].
  match goal with H : (if ?b then _ else _) _ = Ok _ |- _ => destruct b end; minv.
  - row_prims p_ptr. row_cast p_ptr Hhas. chain.
  - case_decide; minv; row_prims p_ptr; [row_clear p_ptr Hhas|]; chain.
Qed.

Lemma _update_new_job_steps (p_ptr i : nat) (s s' : gs_state) :
  _update_new_job job_suspend p_ptr i s = Ok (tt, s') →
  rtc (row_step p_ptr) s s'.
Proof.
  unfold _update_new_job. intros H. minv.
  match goal with
  | Hq : gs_part_list _ !! p_ptr = Some _, Hj : job_list _ !! i = Some _ |- _ =>
      pose proof (get_job_has_job _ _ _ _ _ Hq Hj) as Hhas
  end.
  case_decide; minv; [reflexivity|].
  match goal with H : (if ?b then _ else _) _ = Ok _ |- _ => destruct b end; minv;
    [|reflexivity].
  case_decide; minv; row_prims p_ptr; row_cast p_ptr Hhas; chain.
Qed.

Lemma set_jobs_active_step (p_ptr : nat) (q : gs_part) (n : Z) (s : gs_state)
    (r : unit * gs_state) :
  gs_part_list s !! p_ptr = Some q →
  put_part p_ptr (set_jobs_active n q) s = Ok r →
  ∃ s', r = (tt, s') ∧ row_step p_ptr s s'.
Proof.
  intros Hq H. apply put_part_Ok in H as ->. eexists. split; [reflexivity|].
  apply (row_step_part _ _ q _ Hq). repeat split; reflexivity.
Qed.

Lemma add_shadow_steps (p_ptr sh : nat) (s s' : gs_state) :
  (j <- deref_job sh ;; add_active j p_ptr) s = Ok (tt, s') →
  rtc (row_step p_ptr) s s'.
Proof.
  intros H. minv.
  match goal with H : deref_job _ _ = Ok _ |- _ =>
    unfold deref_job in H; destruct (find_job_addr _ _); [|discriminate]
  end.
  minv. row_prims p_ptr. chain.
Qed.

Lemma _update_active_row_steps (p_ptr : nat) (add_new_jobs : bool)
    (s s' : gs_state) :
  _update_active_row job_suspend p_ptr add_new_jobs s = Ok (tt, s') →
  rtc (row_step p_ptr) s s'.
Proof.
  unfold _update_active_row. intros H. minv.
  match goal with
  | Hq : gs_part_list _ !! p_ptr = Some ?q,
    H : put_part p_ptr (set_jobs_active _ ?q) _ = Ok _ |- _ =>
      apply (set_jobs_active_step _ _ _ _ _ Hq) in H as (? & ? & ?); minv
  end.
  repeat match goal with
  | H : for_each (shadow _) _ _ = Ok _ |- _ =>
      apply for_each_rtc with (R := row_step p_ptr) in H;
        [|intros ? ? ? _ Hrun; exact (add_shadow_steps _ _ _ _ Hrun)]
  | H : for_index _ (_update_seated_job _ _ ?w) _ = Ok _ |- _ =>
      apply for_each_rtc with (R := row_step p_ptr) in H;
        [|intros ? ? ? _ Hrun; exact (_update_seated_job_steps _ _ _ _ _ Hrun)]
  end.
  destruct add_new_jobs; minv; [|chain].
  match goal with
  | H : for_index _ (_update_new_job _ _) _ = Ok _ |- _ =>
      apply for_each_rtc with (R := row_step p_ptr) in H;
        [|intros ? ? ? _ Hrun; exact (_update_new_job_steps _ _ _ _ Hrun)]
  end.
  chain.
Qed.

Lemma _build_active_row_steps (p_ptr : nat) (s s' : gs_state) :
  _build_active_row p_ptr s = Ok (tt, s') → rtc (row_step p_ptr) s s'.
Proof.
  unfold _build_active_row. intros H. minv.
  match goal with
  | Hq : gs_part_list _ !! p_ptr = Some ?q,
    H : put_part p_ptr (set_jobs_active _ ?q) _ = Ok _ |- _ =>
      apply (set_jobs_active_step _ _ _ _ _ Hq) in H as (? & ? & ?); minv
  end.
  case_decide; minv; [chain|].
  repeat match goal with
  | H : for_index _ _ _ = Ok _ |- _ =>
      apply for_each_rtc with (R := row_step p_ptr) in H; [|clear; intros i s s' _ H]
  end.
  - chain.
  - minv.
    match goal with H : deref_job _ _ = Ok _ |- _ =>
      unfold deref_job in H; destruct (find_job_addr _ _); [|discriminate]
    end.
    minv. row_prims p_ptr. chain.
  - minv.
    match goal with H : (if ?b then _ else _) _ = Ok _ |- _ => destruct b end;
      minv; row_prims p_ptr; chain.
Qed.

Lemma _cycle_move_back_addrs (fuel i : nat) (l l' : list gs_job) :
  _cycle_move_back fuel i l = Ok l' → job_addr <$> l' ≡ₚ job_addr <$> l.
Proof.
  revert l. induction fuel as [|fuel IH]; intros l H; cbn [_cycle_move_back] in H;
    apply obind_Ok in H as (j & Hj & H); apply array_get_Ok in Hj;
    case_decide; try (injection H as <-; reflexivity).
  apply IH in H. rewrite H, fmap_app. simpl.
  rewrite (delete_Permutation l i j Hj) at 2.
  rewrite fmap_cons. symmetry. apply Permutation_cons_append.
Qed.

Lemma _cycle_reorder_loop_addrs (n i : nat) (l l' : list gs_job) :
  _cycle_reorder_loop n i l = Ok l' → job_addr <$> l' ≡ₚ job_addr <$> l.
Proof.
  revert i l. induction n as [|n IH]; intros i l H; cbn [_cycle_reorder_loop] in H.
  - injection H as <-. reflexivity.
  - apply obind_Ok in H as (l1 & Hl1 & H). apply _cycle_move_back_addrs in Hl1.
    apply obind_Ok in H as (j & Hj & H). apply array_get_Ok in Hj.
    apply IH in H. rewrite H, <- Hl1. case_decide; [|reflexivity].
    rewrite list_fmap_insert. simpl.
    rewrite list_insert_id; [reflexivity|]. now rewrite list_lookup_fmap, Hj.
Qed.

Lemma _cycle_job_list_steps (p_ptr : nat) (s s' : gs_state) :
  _cycle_job_list job_suspend p_ptr s = Ok (tt, s') → rtc (row_step p_ptr) s s'.
Proof.
  unfold _cycle_job_list. intros H. minv.
  match goal with
  | Hq : gs_part_list ?s !! p_ptr = Some ?q,
    Hl : _cycle_reorder_loop _ _ _ = Ok ?l,
    H : put_part p_ptr (set_job_list ?l ?q) ?s = Ok (_, ?s1) |- _ =>
      apply put_part_Ok in H; injection H as ->;
      apply _cycle_reorder_loop_addrs in Hl;
      assert (row_step p_ptr s (set_part_list
                (<[p_ptr:=set_job_list l q]> (gs_part_list s)) s))
        by (apply (row_step_part _ _ q _ Hq); repeat split; try reflexivity;
            exact Hl)
  end.
  match goal with
  | H : _build_active_row _ _ = Ok _ |- _ => apply _build_active_row_steps in H
  end.
  repeat match goal with
  | H : for_index _ _ _ = Ok _ |- _ =>
      apply for_each_rtc with (R := row_step p_ptr) in H; [|clear; intros i s s' _ H]
  end.
  - chain.
  - minv.
    match goal with
    | Hq : gs_part_list _ !! p_ptr = Some _, Hj : job_list _ !! i = Some _ |- _ =>
        pose proof (get_job_has_job _ _ _ _ _ Hq Hj) as Hhas
    end.
    case_decide; minv; row_prims p_ptr; [row_cast p_ptr Hhas|]; chain.
  - minv.
    match goal with
    | Hq : gs_part_list _ !! p_ptr = Some _, Hj : job_list _ !! i = Some _ |- _ =>
        pose proof (get_job_has_job _ _ _ _ _ Hq Hj) as Hhas
    end.
    case_decide; minv; row_prims p_ptr; [row_clear p_ptr Hhas|]; chain.
Qed.

End RowSteps.

(** ** Arrays read and written in the middle *)

Lemma array_get_middle {A} (pre post : list A) (x : A) (n : nat) :
  n = length pre → array_get (pre ++ x :: post) n = Ok x.
Proof. intros ->. unfold array_get. now rewrite list_lookup_middle. Qed.

Lemma array_set_middle {A} (pre post : list A) (x y : A) (n : nat) :
  n = length pre → array_set (pre ++ x :: post) n y = Ok (pre ++ y :: post).
Proof.
  intros ->. unfold array_set. rewrite decide_True.
  - f_equal. rewrite insert_app_r_alt by lia.
    now replace (length pre - length pre)%nat with 0%nat by lia.
  - rewrite length_app. simpl. lia.
Qed.

(** ** The sort of the partitions *)

Section Sort.
Context (parts : list gs_part).

Lemma part_priority_valid (p : nat) :
  valid_ptr parts p → part_priority parts p = Ok (prio_of parts p).
Proof.
  intros H. unfold part_priority, prio_of.
  destruct (parts !! p) eqn:Hp; [reflexivity|].
  apply lookup_ge_None in Hp. unfold valid_ptr in H. lia.
Qed.

Lemma sort_select_length (x : nat) (todo : list nat) :
  length (snd (sort_select parts x todo)) = length todo.
Proof.
  revert x. induction todo as [|y todo IH]; intros x; [reflexivity|].
  simpl. destruct (prio_of parts y >? prio_of parts x); simpl; now rewrite IH.
Qed.

Lemma sort_select_perm (x : nat) (todo : list nat) :
  fst (sort_select parts x todo) :: snd (sort_select parts x todo) ≡ₚ x :: todo.
Proof.
  revert x. induction todo as [|y todo IH]; intros x; [reflexivity|].
  simpl. destruct (prio_of parts y >? prio_of parts x); simpl.
  - etrans; [apply Permutation_swap|]. now rewrite IH.
  - etrans; [apply Permutation_swap|]. rewrite IH. apply Permutation_swap.
Qed.

Lemma sort_select_max (x : nat) (todo : list nat) :
  prio_of parts x ≤ prio_of parts (fst (sort_select parts x todo)) ∧
  Forall (λ y, prio_of parts y ≤ prio_of parts (fst (sort_select parts x todo)))
    (snd (sort_select parts x todo)).
Proof.
  revert x. induction todo as [|y todo IH]; intros x.
  - simpl. split; [lia | constructor].
  - simpl. destruct (Z.gtb_spec (prio_of parts y) (prio_of parts x)) as [Hgt|Hle];
      simpl; destruct (IH y) as [Hy Hally]; destruct (IH x) as [Hx Hallx].
    + split; [lia|]. constructor; [lia | assumption].
    + split; [assumption|]. constructor; [lia | assumption].
Qed.

Lemma _sort_inner_select (todo pre done : list nat) (x : nat) :
  Forall (valid_ptr parts) (x :: todo) →
  _sort_inner parts (length todo) (S (length pre + length done)) (length pre)
    (pre ++ x :: done ++ todo)
  = Ok (pre ++ fst (sort_select parts x todo) :: done ++ snd (sort_select parts x todo)).
Proof.
  revert pre done x. induction todo as [|y todo IH]; intros pre done x Hvalid.
  - reflexivity.
  - inversion Hvalid as [|? ? Hx Hrest]; subst.
    inversion Hrest as [|? ? Hy Htodo]; subst.
    cbn [_sort_inner length].
    assert (Hi : S (length pre + length done) = length (pre ++ x :: done)).
    { rewrite length_app. simpl. lia. }
    replace (pre ++ x :: done ++ y :: todo) with ((pre ++ x :: done) ++ y :: todo)
      by now rewrite <- app_assoc.
    rewrite (array_get_middle _ _ _ _ Hi). cbn [obind].
    rewrite <- app_assoc. cbn [app].
    rewrite (array_get_middle pre _ x _ eq_refl). cbn [obind].
    rewrite !part_priority_valid by assumption. cbn [obind].
    cbn [sort_select].
    destruct (prio_of parts y >? prio_of parts x).
    + rewrite (array_set_middle pre _ x y _ eq_refl). cbn [obind].
      replace (pre ++ y :: done ++ y :: todo) with ((pre ++ y :: done) ++ y :: todo)
        by now rewrite <- app_assoc.
      assert (Hi' : S (length pre + length done) = length (pre ++ y :: done)).
      { rewrite length_app. simpl. lia. }
      rewrite (array_set_middle _ _ y x _ Hi'). cbn [obind].
      replace ((pre ++ y :: done) ++ x :: todo) with (pre ++ y :: (done ++ [x]) ++ todo)
        by now rewrite <- !app_assoc.
      replace (S (S (length pre + length done)))
        with (S (length pre + length (done ++ [x])))
        by (rewrite length_app; simpl; lia).
      rewrite IH by (constructor; assumption).
      cbn [fst snd]. now rewrite <- !app_assoc.
    + cbn [obind].
      replace (pre ++ x :: done ++ y :: todo) with (pre ++ x :: (done ++ [y]) ++ todo)
        by now rewrite <- !app_assoc.
      replace (S (S (length pre + length done)))
        with (S (length pre + length (done ++ [y])))
        by (rewrite length_app; simpl; lia).
      rewrite IH by (constructor; assumption).
      cbn [fst snd]. now rewrite <- !app_assoc.
Qed.

Lemma sort_select_valid (x : nat) (todo : list nat) :
  Forall (valid_ptr parts) (x :: todo) →
  Forall (valid_ptr parts) (fst (sort_select parts x todo) :: snd (sort_select parts x todo)).
Proof. intros H. now rewrite sort_select_perm. Qed.

Lemma _sort_outer_selection (rest pre : list nat) :
  Forall (valid_ptr parts) rest →
  _sort_outer parts (length pre + length rest) (length rest) (length pre)
    (pre ++ rest)
  = Ok (pre ++ sort_selection parts (length rest) rest).
Proof.
  remember (length rest) as n eqn:Hn. revert rest pre Hn.
  induction n as [|n IH]; intros rest pre Hn Hvalid.
  - destruct rest; [reflexivity | discriminate].
  - destruct rest as [|x rest]; [discriminate|].
    injection Hn as Hn.
    cbn [_sort_outer sort_selection].
    replace (length pre + S n - (length pre + 1))%nat with (length rest) by lia.
    replace (length pre + 1)%nat with (S (length pre + length (@nil nat)))
      by (simpl; lia).
    change (pre ++ x :: rest) with (pre ++ x :: [] ++ rest).
    rewrite _sort_inner_select by assumption. cbn [obind app].
    pose proof (sort_select_valid x rest Hvalid) as Hvalid'.
    inversion Hvalid' as [|? ? Hm Hr]; subst.
    replace (pre ++ fst (sort_select parts x rest) :: snd (sort_select parts x rest))
      with ((pre ++ [fst (sort_select parts x rest)]) ++ snd (sort_select parts x rest))
      by now rewrite <- app_assoc.
    replace (S (length pre)) with (length (pre ++ [fst (sort_select parts x rest)]))
      by (rewrite length_app; simpl; lia).
    replace (length pre + S (length rest))%nat
      with (length (pre ++ [fst (sort_select parts x rest)]) + length rest)%nat
      by (rewrite length_app; simpl; lia).
    rewrite IH; [| now rewrite sort_select_length | assumption].
    now rewrite <- app_assoc.
Qed.

Lemma sort_selection_perm (n : nat) (l : list nat) :
  sort_selection parts n l ≡ₚ l.
Proof.
  revert l. induction n as [|n IH]; intros [|x rest]; try reflexivity.
  cbn [sort_selection]. rewrite IH. apply sort_select_perm.
Qed.

Lemma sort_selection_sorted (n : nat) (l : list nat) :
  n = length l → priority_descending parts (sort_selection parts n l).
Proof.
  revert l. induction n as [|n IH]; intros [|x rest] Hn; try discriminate.
  - constructor.
  - cbn [sort_selection]. constructor.
    + apply IH. rewrite sort_select_length. now injection Hn.
    + rewrite sort_selection_perm. apply sort_select_max.
Qed.

End Sort.

Lemma _sort_partitions_spec (s : gs_state) :
  gs_part_list s ≠ [] →
  sorted_array_ok s →
  ∃ sorted,
    _sort_partitions s = Ok (tt, set_part_sorted sorted (length (gs_part_list s)) s) ∧
    sorted ≡ₚ seq 0 (length (gs_part_list s)) ∧
    priority_descending (gs_part_list s) sorted.
Proof.
  intros Hne Hok. unfold _sort_partitions.
  set (parts := gs_part_list s) in *. set (size := length parts).
  set (loaded := if decide (size ≠ num_sorted_part s) then seq 0 size
                 else gs_part_sorted s).
  assert (Hperm : loaded ≡ₚ seq 0 size).
  { unfold loaded. destruct (decide (size ≠ num_sorted_part s)) as [|Heq];
      [reflexivity|]. apply Hok. unfold size, parts in Heq. lia. }
  assert (Hlen : length loaded = size).
  { now rewrite Hperm, length_seq. }
  assert (Hvalid : Forall (valid_ptr parts) loaded).
  { rewrite Hperm. apply Forall_forall. intros p Hp.
    apply elem_of_seq in Hp. unfold valid_ptr. fold size. lia. }
  destruct (decide (size ≤ 1)%nat) as [Hsmall|Hbig].
  - assert (size = 1%nat) as Hsize.
    { destruct parts; [contradiction | unfold size in *; simpl in *; lia]. }
    rewrite Hsize in Hperm. simpl in Hperm.
    apply Permutation_singleton_r in Hperm. rewrite Hperm.
    exists [0%nat]. cbn [array_set length decide]. split; [reflexivity|].
    rewrite Hsize. split; [reflexivity|]. repeat constructor.
  - exists (sort_selection parts size loaded).
    pose proof (_sort_outer_selection parts loaded [] Hvalid) as Hsort.
    rewrite Hlen in Hsort. cbn [app length Nat.add] in Hsort.
    rewrite Hsort. cbn [obind]. split; [reflexivity|]. split.
    + now rewrite sort_selection_perm.
    + apply sort_selection_sorted. now rewrite Hlen.
Qed.

(** The sort keeps the order of an array that is sorted already. *)
Lemma sort_select_sorted (parts : list gs_part) (x : nat) (todo : list nat) :
  priority_descending parts (x :: todo) → sort_select parts x todo = (x, todo).
Proof.
  revert x. induction todo as [|y todo IH]; intros x Hs; [reflexivity|].
  apply StronglySorted_inv in Hs as [Hs Hx].
  cbn [sort_select]. inversion Hx as [|? ? Hy Hx']; subst.
  destruct (Z.gtb_spec (prio_of parts y) (prio_of parts x)) as [|_]; [lia|].
  rewrite IH; [reflexivity|].
  apply StronglySorted_inv in Hs as [Hs _]. now constructor.
Qed.

Lemma sort_selection_sorted_id (parts : list gs_part) (n : nat) (l : list nat) :
  priority_descending parts l → sort_selection parts n l = l.
Proof.
  revert l. induction n as [|n IH]; intros [|x rest] Hs; try reflexivity.
  cbn [sort_selection]. rewrite (sort_select_sorted parts x rest Hs).
  cbn [fst snd]. rewrite IH; [reflexivity|].
  now apply StronglySorted_inv in Hs as [Hs _].
Qed.

(** ** What the row steps leave alone *)

Lemma row_step_globals (p_ptr : nat) (s s' : gs_state) :
  row_step p_ptr s s' → same_globals s s'.
Proof. destruct 1; repeat split. Qed.

Lemma same_globals_refl (s : gs_state) : same_globals s s.
Proof. repeat split. Qed.

Lemma same_globals_trans (s1 s2 s3 : gs_state) :
  same_globals s1 s2 → same_globals s2 s3 → same_globals s1 s3.
Proof.
  unfold same_globals. intros (?&?&?&?&?&?&?&?) (?&?&?&?&?&?&?&?).
  repeat split; congruence.
Qed.

Lemma rtc_row_step_globals (p_ptr : nat) (s s' : gs_state) :
  rtc (row_step p_ptr) s s' → same_globals s s'.
Proof.
  induction 1 as [|s1 s2 s3 Hstep _ IH]; [apply same_globals_refl|].
  eapply same_globals_trans; [|exact IH]. now apply (row_step_globals p_ptr).
Qed.

(** ** Rebuilding all rows *)

Lemma for_index_sorted (body : nat → M unit) (suffix pre : list nat) (s : gs_state) :
  (∀ p t t', body p t = Ok (tt, t') → gs_part_sorted t' = gs_part_sorted t) →
  gs_part_sorted s = pre ++ suffix →
  for_each (seq (length pre) (length suffix))
    (λ i, sorted <- gets gs_part_sorted ;;
          p_ptr <- lift (array_get sorted i) ;;
          body p_ptr) s
  = for_each suffix body s.
Proof.
  intros Hbody. revert pre s. induction suffix as [|x suffix IH]; intros pre s Hs.
  - reflexivity.
  - cbn [length seq for_each]. unfold bind, gets, lift.
    rewrite Hs, (array_get_middle pre suffix x _ eq_refl).
    destruct (body x s) as [[[] s1]|e] eqn:Hx; [|reflexivity].
    assert (gs_part_sorted s1 = (pre ++ [x]) ++ suffix) as Hs1.
    { rewrite (Hbody _ _ _ Hx), Hs. now rewrite <- app_assoc. }
    specialize (IH (pre ++ [x]) s1 Hs1).
    rewrite length_app in IH. simpl in IH.
    replace (length pre + 1)%nat with (S (length pre)) in IH by lia.
    exact IH.
Qed.

(** C4, as it is written: the sort is stable. This fails on three
    partitions of priorities 1, 1 and 2: the sort exchanges the first with
    the third and leaves the second before the first. *)
Lemma sort_not_stable_counterexample :
  ∃ s', _sort_partitions tied_parts_state = Ok (tt, s') ∧
        priority_descending (gs_part_list s') (gs_part_sorted s') ∧
        ¬ stable_order (gs_part_list s') (gs_part_sorted s').
Proof.
  eexists. split; [vm_compute; reflexivity|]. split.
  - repeat constructor; vm_compute; discriminate.
  - intros H. specialize (H 1%nat 2%nat 1%nat 0%nat).
    cbn in H. specialize (H ltac:(lia) eq_refl eq_refl eq_refl). lia.
Qed.

(** Once the partitions are sorted, [_update_all_active_rows] is the loop
    over the sorted array. *)
Lemma _update_all_active_rows_in_order
    (job_suspend : list suspend_msg → suspend_msg → Z) (s : gs_state)
    (sorted : list nat) :
  _sort_partitions s
    = Ok (tt, set_part_sorted sorted (length (gs_part_list s)) s) →
  sorted ≡ₚ seq 0 (length (gs_part_list s)) →
  _update_all_active_rows job_suspend s
    = for_each sorted (λ p_ptr, _update_active_row job_suspend p_ptr true)
        (set_part_sorted sorted (length (gs_part_list s)) s).
Proof.
  intros Hsort Hperm.
  unfold _update_all_active_rows. unfold bind at 1. rewrite Hsort.
  unfold bind at 1. unfold gets at 1. cbn [num_sorted_part set_part_sorted].
  unfold for_index.
  replace (length (gs_part_list s)) with (length sorted) at 1
    by now rewrite Hperm, length_seq.
  apply (for_index_sorted _ sorted []); [|reflexivity].
  intros p t t' Hrun. apply _update_active_row_steps in Hrun.
  now apply rtc_row_step_globals in Hrun as (_&_&_&_&_&?&_).
Qed.

(** C4, amended: with at least one partition, [_update_all_active_rows]
    first sorts the partitions into [gs_part_sorted], which then holds
    every partition once, each with at least the priority of those after
    it (partitions of equal priority in no promised order), and then
    rebuilds the row of each partition in that order. *)
Theorem update_all_sorts_then_rebuilds
    (job_suspend : list suspend_msg → suspend_msg → Z) (s : gs_state) :
  gs_part_list s ≠ [] →
  sorted_array_ok s →
  ∃ sorted,
    _sort_partitions s
      = Ok (tt, set_part_sorted sorted (length (gs_part_list s)) s) ∧
    sorted ≡ₚ seq 0 (length (gs_part_list s)) ∧
    priority_descending (gs_part_list s) sorted ∧
    _update_all_active_rows job_suspend s
      = for_each sorted (λ p_ptr, _update_active_row job_suspend p_ptr true)
          (set_part_sorted sorted (length (gs_part_list s)) s).
Proof.
  intros Hne Hok.
  destruct (_sort_partitions_spec s Hne Hok) as (sorted & Hsort & Hperm & Hdesc).
  exists sorted. repeat split; try assumption.
  now apply _update_all_active_rows_in_order.
Qed.

Lemma update_all_sorts_then_rebuilds_witness :
  ∃ sorted,
    _sort_partitions tied_parts_state
      = Ok (tt, set_part_sorted sorted (length (gs_part_list tied_parts_state))
                  tied_parts_state) ∧
    sorted ≡ₚ seq 0 (length (gs_part_list tied_parts_state)) ∧
    priority_descending (gs_part_list tied_parts_state) sorted ∧
    _update_all_active_rows (λ _ _, 0) tied_parts_state
      = for_each sorted (λ p_ptr, _update_active_row (λ _ _, 0) p_ptr true)
          (set_part_sorted sorted (length (gs_part_list tied_parts_state))
             tied_parts_state).
Proof.
  apply (update_all_sorts_then_rebuilds (λ _ _, 0) tied_parts_state).
  - discriminate.
  - intros H. discriminate H.
Defined.

(** ** A failing signal changes the log only *)


Lemma clear_errors_set_log (msgs : list suspend_msg) (e1 e2 : list (Z * gs_flags * Z))
    (s : gs_state) :
  clear_errors (set_log msgs e1 s) = clear_errors (set_log msgs e2 s).
Proof. reflexivity. Qed.

(** The functions that read the globals do not read the log. *)






Section Externals.
Context (node_record_table_ptr : list node_record).
Context (select_g_get_job_cores : Z → nat → nat → Z).






End Externals.

(** The rules of the simulation. *)

























Section TwoRuns.
Context (node_record_table_ptr : list node_record).
Context (select_g_get_job_cores : Z → nat → nat → Z).
Context (rc1 rc2 : list suspend_msg → suspend_msg → Z).



















End TwoRuns.


(** ** The shadow invariant is kept *)

Lemma shadow_remove_subset (a x : nat) (l : list nat) :
  x ∈ shadow_remove a l → x ∈ l.
Proof.
  induction l as [|y l IH]; simpl; [tauto|].
  case_decide; intros Hx.
  - now right.
  - apply elem_of_cons in Hx as [->|Hx]; [left | right; auto].
Qed.

Lemma shadow_remove_NoDup (a : nat) (l : list nat) :
  NoDup l → NoDup (shadow_remove a l).
Proof.
  induction 1 as [|y l Hy Hl IH]; simpl; [constructor|].
  case_decide; [assumption|]. constructor; [|assumption].
  intros Hx. apply Hy. now apply shadow_remove_subset in Hx.
Qed.

Lemma shadow_remove_gone (a : nat) (l : list nat) :
  NoDup l → a ∉ shadow_remove a l.
Proof.
  induction 1 as [|y l Hy Hl IH]; simpl; [apply not_elem_of_nil|].
  case_decide; [now subst|]. apply not_elem_of_cons. split; [congruence | assumption].
Qed.

Lemma priority_monotone_owned (s : gs_state) :
  well_formed s →
  (priority_monotone s ↔ shadows_owned (gs_part_list s)).
Proof.
  intros (_ & Huniq & _ & _). split.
  - intros Hm p q a Hq Ha. destruct (Hm p q a Hq Ha) as [(p' & q' & Hq' & Ha') Hall].
    exists p', q'. repeat split; try assumption. now apply (Hall p' q').
  - intros Ho p q a Hq Ha. destruct (Ho p q a Hq Ha) as (p' & q' & Hq' & Ha' & Hlt).
    split; [eauto|]. intros p2 q2 Hq2 Ha2.
    assert (p2 = p') as -> by (eapply Huniq; eassumption).
    now replace q2 with q' by congruence.
Qed.

(** A change that keeps every partition in the sense of [part_kept], and
    does not lower [next_job_addr], keeps the invariant. *)
Lemma inv_kept (s s' : gs_state) :
  well_formed s → shadows_owned (gs_part_list s) →
  length (gs_part_list s') = length (gs_part_list s) →
  (∀ i q q', gs_part_list s !! i = Some q → gs_part_list s' !! i = Some q' →
             part_kept (gs_part_list s) q q') →
  (next_job_addr s ≤ next_job_addr s')%nat →
  well_formed s' ∧ shadows_owned (gs_part_list s').
Proof.
  intros (Hnd & Huniq & Hnext & Hsh) Hown Hlen Hkept Hle.
  assert (Hback : ∀ i q', gs_part_list s' !! i = Some q' →
            ∃ q, gs_part_list s !! i = Some q ∧ part_kept (gs_part_list s) q q').
  { intros i q' Hq'. destruct (gs_part_list s !! i) as [q|] eqn:Hq.
    - exists q. split; [reflexivity|]. now apply (Hkept i).
    - apply lookup_ge_None in Hq. apply lookup_lt_Some in Hq'. lia. }
  assert (Hfwd : ∀ i q, gs_part_list s !! i = Some q →
            ∃ q', gs_part_list s' !! i = Some q' ∧ part_kept (gs_part_list s) q q').
  { intros i q Hq. destruct (gs_part_list s' !! i) as [q'|] eqn:Hq'.
    - exists q'. split; [reflexivity|]. now apply (Hkept i).
    - apply lookup_ge_None in Hq'. apply lookup_lt_Some in Hq. lia. }
  split; [repeat split|].
  - intros p q' Hq'. destruct (Hback p q' Hq') as (q & Hq & _ & Hperm & _).
    rewrite Hperm. now apply (Hnd p).
  - intros p1 p2 q1 q2 a Hq1 Hq2 Ha1 Ha2.
    destruct (Hback p1 q1 Hq1) as (r1 & Hr1 & _ & Hperm1 & _).
    destruct (Hback p2 q2 Hq2) as (r2 & Hr2 & _ & Hperm2 & _).
    rewrite Hperm1 in Ha1. rewrite Hperm2 in Ha2.
    now apply (Huniq p1 p2 r1 r2 a).
  - intros p q' a Hq' Ha. destruct (Hback p q' Hq') as (q & Hq & _ & Hperm & _).
    rewrite Hperm in Ha. specialize (Hnext p q a Hq Ha). lia.
  - intros p q' Hq'. now destruct (Hback p q' Hq') as (q & Hq & _ & _ & ? & _).
  - intros p q' a Hq' Ha.
    destruct (Hback p q' Hq') as (q & Hq & Hprio & _ & _ & Hnew).
    assert (∃ p0 q0, gs_part_list s !! p0 = Some q0 ∧ a ∈ job_addrs q0 ∧
                     priority q < priority q0) as (p0 & q0 & Hq0 & Ha0 & Hlt).
    { destruct (Hnew a Ha) as [Hold|Hnew']; [now apply (Hown p)|exact Hnew']. }
    destruct (Hfwd p0 q0 Hq0) as (q0' & Hq0' & Hprio0 & Hperm0 & _).
    exists p0, q0'. split; [exact Hq0'|]. split; [now rewrite Hperm0|]. lia.
Qed.

Lemma part_kept_refl (parts : list gs_part) (q : gs_part) :
  NoDup (shadow q) → part_kept parts q q.
Proof.
  intros H. split; [reflexivity|]. split; [reflexivity|]. split; [assumption|].
  intros a Ha. now left.
Qed.

Lemma row_step_inv (p_ptr : nat) (s s' : gs_state) :
  well_formed s → shadows_owned (gs_part_list s) → row_step p_ptr s s' →
  well_formed s' ∧ shadows_owned (gs_part_list s').
Proof.
  intros Hwf Hown Hstep. pose proof Hwf as (_ & _ & _ & Hsh).
  apply (inv_kept s s' Hwf Hown);
    destruct Hstep as [q0 q0' Hq0 Hframe|q0 a Hq0 Ha|q0 a Hq0 Ha|]; simpl;
    try lia; try (now rewrite ?length_insert, ?length_map).
  - intros i q q' Hq Hq'. destruct (decide (i = p_ptr)) as [->|Hne].
    + rewrite list_lookup_insert_eq in Hq' by (now apply lookup_lt_Some in Hq).
      injection Hq' as <-. replace q with q0 by congruence.
      destruct Hframe as (_ & Hprio & Hshadow & Hperm).
      split; [assumption|]. split; [assumption|]. split.
      * rewrite Hshadow. now apply (Hsh p_ptr).
      * intros a Ha. left. now rewrite <- Hshadow.
    + rewrite list_lookup_insert_ne in Hq' by congruence.
      replace q' with q by congruence. apply part_kept_refl. now apply (Hsh i).
  - intros i q q' Hq Hq'. rewrite lookup_map_part, Hq in Hq'. injection Hq' as <-.
    destruct (_cast_shadow_part_frame a (priority q0) q) as (_ & Hprio & Hl & _).
    split; [exact Hprio|]. split; [unfold job_addrs; now rewrite Hl|].
    unfold _cast_shadow_part.
    destruct (Z.geb_spec (priority q) (priority q0)) as [Hge|Hlt].
    { split; [now apply (Hsh i)|]. intros x Hx. now left. }
    destruct (bool_decide_reflect (a ∈ shadow q)) as [Hin|Hnin].
    { split; [now apply (Hsh i)|]. intros x Hx. now left. }
    simpl. split.
    + apply NoDup_app. split; [now apply (Hsh i)|]. split; [|apply NoDup_singleton].
      intros x Hx Hx'. apply list_elem_of_singleton in Hx'. now subst.
    + intros x Hx. apply elem_of_app in Hx as [Hx|Hx]; [now left|].
      apply list_elem_of_singleton in Hx as ->. right. exists p_ptr, q0. auto.
  - intros i q q' Hq Hq'. rewrite lookup_map_part, Hq in Hq'. injection Hq' as <-.
    split; [reflexivity|]. split; [reflexivity|]. split.
    + simpl. apply shadow_remove_NoDup. now apply (Hsh i).
    + intros x Hx. left. simpl in Hx. now apply shadow_remove_subset in Hx.
  - intros i q q' Hq Hq'. replace q' with q by congruence.
    apply part_kept_refl. now apply (Hsh i).
Qed.

Lemma rtc_row_step_inv (p_ptr : nat) (s s' : gs_state) :
  rtc (row_step p_ptr) s s' →
  well_formed s → shadows_owned (gs_part_list s) →
  well_formed s' ∧ shadows_owned (gs_part_list s').
Proof.
  induction 1 as [|s1 s2 s3 Hstep _ IH]; [auto|]. intros Hwf Hown.
  destruct (row_step_inv _ _ _ Hwf Hown Hstep). auto.
Qed.

Lemma inv_same_parts (s s' : gs_state) :
  gs_inv s → gs_part_list s' = gs_part_list s →
  (next_job_addr s ≤ next_job_addr s')%nat → gs_inv s'.
Proof.
  intros [Hwf Hown] Hparts Hle. pose proof Hwf as (_ & _ & _ & Hsh).
  apply (inv_kept s s' Hwf Hown); [now rewrite Hparts| |exact Hle].
  intros i q q' Hq Hq'. rewrite Hparts in Hq'. replace q' with q by congruence.
  apply part_kept_refl. now apply (Hsh i).
Qed.

Lemma elem_of_fmap_delete {A B} (f : A → B) (l : list A) (i : nat) (x : A) (b : B) :
  l !! i = Some x → b ∈ f <$> l → b ≠ f x → b ∈ f <$> delete i l.
Proof.
  intros Hi Hb Hne. rewrite (delete_Permutation l i x Hi), fmap_cons in Hb.
  apply elem_of_cons in Hb as [->|Hb]; [contradiction | exact Hb].
Qed.

Lemma fmap_delete_sublist {A B} (f : A → B) (l : list A) (i : nat) :
  f <$> delete i l `sublist_of` f <$> l.
Proof. apply fmap_sublist, sublist_delete. Qed.

Lemma sublist_elem_of {A} (l1 l2 : list A) (x : A) :
  l1 `sublist_of` l2 → x ∈ l1 → x ∈ l2.
Proof.
  intros Hsub Hx. eapply elem_of_submseteq; [exact Hx|].
  now apply sublist_submseteq.
Qed.

Lemma remove_inv (s : gs_state) (p i : nat) (q : gs_part) (j : gs_job) :
  gs_inv s → gs_part_list s !! p = Some q → job_list q !! i = Some j →
  (∀ q', q' ∈ gs_part_list s → job_addr j ∉ shadow q') →
  gs_inv (set_part_list
            (<[p:=set_job_list (delete i (job_list q)) q]> (gs_part_list s)) s).
Proof.
  intros [(Hnd & Huniq & Hnext & Hsh) Hown] Hq Hj Hgone.
  set (q1 := set_job_list (delete i (job_list q)) q).
  assert (Hsub : job_addrs q1 `sublist_of` job_addrs q)
    by apply fmap_delete_sublist.
  assert (Hlook : ∀ p' q', <[p:=q1]> (gs_part_list s) !! p' = Some q' →
            ∃ q0, gs_part_list s !! p' = Some q0 ∧ shadow q' = shadow q0 ∧
                  priority q' = priority q0 ∧
                  job_addrs q' `sublist_of` job_addrs q0 ∧
                  (p' ≠ p → q' = q0) ∧ (p' = p → q' = q1 ∧ q0 = q)).
  { intros p' q' Hq'. destruct (decide (p' = p)) as [->|Hne].
    - rewrite list_lookup_insert_eq in Hq' by (now apply lookup_lt_Some in Hq).
      injection Hq' as <-. exists q.
      split; [assumption|]. split; [reflexivity|]. split; [reflexivity|].
      split; [exact Hsub|]. split; [intros; contradiction | auto].
    - rewrite list_lookup_insert_ne in Hq' by congruence.
      exists q'.
      split; [assumption|]. split; [reflexivity|]. split; [reflexivity|].
      split; [reflexivity|]. split; [auto | intros; contradiction]. }
  split; [repeat split|]; simpl.
  - intros p' q' Hq'. destruct (Hlook p' q' Hq') as (q0 & Hq0 & _ & _ & Hs & _).
    eapply sublist_NoDup; [|exact Hs]. now apply (Hnd p').
  - intros p1 p2 q1' q2' a Hq1 Hq2 Ha1 Ha2.
    destruct (Hlook p1 q1' Hq1) as (r1 & Hr1 & _ & _ & Hs1 & _).
    destruct (Hlook p2 q2' Hq2) as (r2 & Hr2 & _ & _ & Hs2 & _).
    apply (Huniq p1 p2 r1 r2 a); try assumption.
    + eapply sublist_elem_of; eassumption.
    + eapply sublist_elem_of; eassumption.
  - intros p' q' a Hq' Ha. destruct (Hlook p' q' Hq') as (q0 & Hq0 & _ & _ & Hs & _).
    apply (Hnext p' q0 a Hq0). eapply sublist_elem_of; eassumption.
  - intros p' q' Hq'. destruct (Hlook p' q' Hq') as (q0 & Hq0 & Hs & _).
    rewrite Hs. now apply (Hsh p').
  - intros p' q' a Hq' Ha.
    destruct (Hlook p' q' Hq') as (q0 & Hq0 & Hs & Hprio & _).
    rewrite Hs in Ha.
    destruct (Hown p' q0 a Hq0 Ha) as (p0 & r0 & Hr0 & Ha0 & Hlt).
    assert (a ≠ job_addr j) as Hne.
    { intros ->. apply (Hgone q0); [|exact Ha].
      now apply list_elem_of_lookup_2 in Hq0. }
    destruct (decide (p0 = p)) as [->|Hne0].
    + exists p, q1.
      rewrite list_lookup_insert_eq by (now apply lookup_lt_Some in Hq).
      replace r0 with q in * by congruence.
      split; [reflexivity|]. split; [|simpl; lia].
      now apply (elem_of_fmap_delete job_addr _ i j).
    + exists p0, r0. rewrite list_lookup_insert_ne by congruence.
      split; [assumption|]. split; [assumption|]. lia.
Qed.

Lemma append_inv (s : gs_state) (p : nat) (q : gs_part) (j : gs_job) :
  gs_inv s → gs_part_list s !! p = Some q →
  (job_addr j < next_job_addr s)%nat →
  (∀ q', q' ∈ gs_part_list s → job_addr j ∉ job_addrs q') →
  gs_inv (set_part_list
            (<[p:=set_job_list (job_list q ++ [j]) q]> (gs_part_list s)) s).
Proof.
  intros [(Hnd & Huniq & Hnext & Hsh) Hown] Hq Hlt Hfresh.
  set (q1 := set_job_list (job_list q ++ [j]) q).
  assert (Haddrs : job_addrs q1 = job_addrs q ++ [job_addr j]).
  { unfold job_addrs, q1. simpl. now rewrite fmap_app. }
  assert (Hlook : ∀ p' q', <[p:=q1]> (gs_part_list s) !! p' = Some q' →
            ∃ q0, gs_part_list s !! p' = Some q0 ∧ shadow q' = shadow q0 ∧
                  priority q' = priority q0 ∧
                  (∀ a, a ∈ job_addrs q' →
                        a ∈ job_addrs q0 ∨ (a = job_addr j ∧ p' = p)) ∧
                  (p' ≠ p → q' = q0) ∧ (p' = p → q' = q1 ∧ q0 = q)).
  { intros p' q' Hq'. destruct (decide (p' = p)) as [->|Hne].
    - rewrite list_lookup_insert_eq in Hq' by (now apply lookup_lt_Some in Hq).
      injection Hq' as <-. exists q.
      split; [assumption|]. split; [reflexivity|]. split; [reflexivity|].
      split; [|split; [intros; contradiction | auto]].
      intros a Ha. rewrite Haddrs in Ha. apply elem_of_app in Ha as [Ha|Ha];
        [now left|]. apply list_elem_of_singleton in Ha. now right.
    - rewrite list_lookup_insert_ne in Hq' by congruence.
      exists q'.
      split; [assumption|]. split; [reflexivity|]. split; [reflexivity|].
      split; [|split; [auto | intros; contradiction]].
      intros a Ha. now left. }
  assert (Hfresh' : ∀ p0 q0, gs_part_list s !! p0 = Some q0 →
            job_addr j ∉ job_addrs q0).
  { intros p0 q0 Hq0. apply Hfresh. now apply list_elem_of_lookup_2 in Hq0. }
  split; [repeat split|]; simpl.
  - intros p' q' Hq'.
    destruct (Hlook p' q' Hq') as (q0 & Hq0 & _ & _ & _ & Hother & Hsame).
    destruct (decide (p' = p)) as [->|Hne].
    + destruct (Hsame eq_refl) as [-> ->]. rewrite Haddrs.
      apply NoDup_app. split; [now apply (Hnd p)|]. split; [|apply NoDup_singleton].
      intros a Ha Ha'. apply list_elem_of_singleton in Ha' as ->.
      now apply (Hfresh' p q).
    + rewrite (Hother Hne). now apply (Hnd p').
  - intros p1 p2 q1' q2' a Hq1 Hq2 Ha1 Ha2.
    destruct (Hlook p1 q1' Hq1) as (r1 & Hr1 & _ & _ & Hin1 & _).
    destruct (Hlook p2 q2' Hq2) as (r2 & Hr2 & _ & _ & Hin2 & _).
    destruct (Hin1 a Ha1) as [Hold1|[Heq1 Hp1]], (Hin2 a Ha2) as [Hold2|[Heq2 Hp2]].
    + now apply (Huniq p1 p2 r1 r2 a).
    + subst a. now apply Hfresh' in Hr1.
    + subst a. now apply Hfresh' in Hr2.
    + congruence.
  - intros p' q' a Hq' Ha.
    destruct (Hlook p' q' Hq') as (q0 & Hq0 & _ & _ & Hin & _).
    destruct (Hin a Ha) as [Hold|[-> _]]; [now apply (Hnext p' q0)|exact Hlt].
  - intros p' q' Hq'. destruct (Hlook p' q' Hq') as (q0 & Hq0 & Hs & _).
    rewrite Hs. now apply (Hsh p').
  - intros p' q' a Hq' Ha.
    destruct (Hlook p' q' Hq') as (q0 & Hq0 & Hs & Hprio & _).
    rewrite Hs in Ha.
    destruct (Hown p' q0 a Hq0 Ha) as (p0 & r0 & Hr0 & Ha0 & Hlt0).
    destruct (decide (p0 = p)) as [->|Hne0].
    + exists p, q1.
      rewrite list_lookup_insert_eq by (now apply lookup_lt_Some in Hq).
      replace r0 with q in * by congruence.
      split; [reflexivity|]. split; [|simpl; lia].
      rewrite Haddrs. apply elem_of_app. now left.
    + exists p0, r0. rewrite list_lookup_insert_ne by congruence.
      split; [assumption|]. split; [assumption|]. lia.
Qed.

Lemma lookup_map {A B} (f : A → B) (l : list A) (i : nat) :
  map f l !! i = f <$> l !! i.
Proof. apply (list_lookup_fmap f). Qed.

(** Every change that the functions make keeps the invariant. *)
Lemma gs_step_inv (s s' : gs_state) : gs_inv s → gs_step s s' → gs_inv s'.
Proof.
  intros Hinv Hstep.
  destruct Hstep as [p_ptr s' Hrow|l n| |p_ptr q j Hq Hlt Hfresh
                     |p_ptr q i j Hq Hj Hgone|names].
  - destruct Hinv as [Hwf Hown]. now apply (row_step_inv p_ptr s s').
  - now apply (inv_same_parts s).
  - apply (inv_same_parts s); [assumption|reflexivity|simpl; lia].
  - now apply append_inv.
  - now apply (remove_inv s p_ptr i q j).
  - split; [repeat split|]; simpl.
    + intros p q Hq. rewrite lookup_map in Hq.
      destruct (names !! p); [|discriminate]. injection Hq as <-. constructor.
    + intros p1 p2 q1 q2 a Hq1 _ Ha. rewrite lookup_map in Hq1.
      destruct (names !! p1); [|discriminate]. injection Hq1 as <-.
      inversion Ha.
    + intros p q a Hq Ha. rewrite lookup_map in Hq.
      destruct (names !! p); [|discriminate]. injection Hq as <-. inversion Ha.
    + intros p q Hq. rewrite lookup_map in Hq.
      destruct (names !! p); [|discriminate]. injection Hq as <-. constructor.
    + intros p q a Hq Ha. rewrite lookup_map in Hq.
      destruct (names !! p); [|discriminate]. injection Hq as <-. inversion Ha.
Qed.

Lemma rtc_gs_step_inv (s s' : gs_state) : rtc gs_step s s' → gs_inv s → gs_inv s'.
Proof. induction 1; eauto using gs_step_inv. Qed.

Lemma keeps_ret {A} (a : A) : keeps_inv (ret a).
Proof. intros s b s' Hinv H. apply ret_Ok in H. now injection H as _ <-. Qed.

Lemma keeps_bind {A B} (m : M A) (k : A → M B) :
  keeps_inv m → (∀ a, keeps_inv (k a)) → keeps_inv (bind m k).
Proof.
  intros Hm Hk s b s' Hinv H. apply bind_Ok in H as (a & s1 & H1 & H2).
  eapply Hk; [|exact H2]. eapply Hm; eassumption.
Qed.

Lemma keeps_lift {A} (o : outcome A) : keeps_inv (lift o).
Proof. intros s b s' Hinv H. apply lift_Ok in H as (a & _ & [= _ <-]). exact Hinv. Qed.

Lemma keeps_gets {A} (f : gs_state → A) : keeps_inv (gets f).
Proof. intros s b s' Hinv H. apply gets_Ok in H. now injection H as _ <-. Qed.

Lemma keeps_get_part (p_ptr : nat) : keeps_inv (get_part p_ptr).
Proof.
  intros s b s' Hinv H. apply get_part_Ok in H as (q & _ & [= _ <-]). exact Hinv.
Qed.

Lemma keeps_for_each {A} (l : list A) (body : A → M unit) :
  (∀ x, keeps_inv (body x)) → keeps_inv (for_each l body).
Proof.
  intros Hbody s [] s' Hinv H.
  apply (for_each_inv gs_inv l body) with (s := s); [|assumption|assumption].
  intros x t t' _ Ht Hrun. now apply (Hbody x t tt t').
Qed.

Lemma keeps_row_steps {A} (p_ptr : nat) (m : M A) :
  (∀ s a s', m s = Ok (a, s') → rtc (row_step p_ptr) s s') → keeps_inv m.
Proof.
  intros Hm s a s' [Hwf Hown] H. apply Hm in H.
  now apply (rtc_row_step_inv p_ptr s s').
Qed.

Lemma keeps__sort_partitions : keeps_inv _sort_partitions.
Proof.
  intros s a s' Hinv H. unfold _sort_partitions in H.
  apply obind_Ok in H as (l & _ & [= _ <-]). now apply (inv_same_parts s).
Qed.

Lemma keeps__signal_job (rc : list suspend_msg → suspend_msg → Z) (jid : Z)
    (sig : gs_flags) :
  keeps_inv (_signal_job rc jid sig).
Proof.
  apply (keeps_row_steps 0). intros s [] s' H. apply rtc_once.
  exact (_signal_job_step rc 0%nat jid sig s s' H).
Qed.

Ltac keeps_step :=
  lazymatch goal with
  | |- keeps_inv (bind _ _) => apply keeps_bind; [|intros ?]
  | |- keeps_inv (ret _) => apply keeps_ret
  | |- keeps_inv (lift _) => apply keeps_lift
  | |- keeps_inv (gets _) => apply keeps_gets
  | |- keeps_inv (get_part _) => apply keeps_get_part
  | |- keeps_inv (for_each _ _) => apply keeps_for_each; intros ?
  | |- keeps_inv (for_index _ _) => apply keeps_for_each; intros ?
  | |- keeps_inv _sort_partitions => apply keeps__sort_partitions
  | |- keeps_inv (_signal_job _ _ _) => apply keeps__signal_job
  | |- keeps_inv (_find_gs_part _) => apply keeps_gets
  | |- keeps_inv (if ?b then _ else _) => destruct b
  | |- keeps_inv (match ?x with _ => _ end) => destruct x
  end.

Section Keeps.
Context (node_record_table_ptr : list node_record).
Context (select_g_get_job_cores : Z → nat → nat → Z).
Context (job_suspend : list suspend_msg → suspend_msg → Z).

Lemma keeps__update_active_row (p_ptr : nat) (b : bool) :
  keeps_inv (_update_active_row job_suspend p_ptr b).
Proof.
  apply (keeps_row_steps p_ptr). intros s [] s'.
  apply _update_active_row_steps.
Qed.

Lemma keeps__cycle_job_list (p_ptr : nat) :
  keeps_inv (_cycle_job_list job_suspend p_ptr).
Proof.
  apply (keeps_row_steps p_ptr). intros s [] s'. apply _cycle_job_list_steps.
Qed.

Lemma keeps__update_all_active_rows :
  keeps_inv (_update_all_active_rows job_suspend).
Proof.
  unfold _update_all_active_rows.
  repeat first [ apply keeps__update_active_row | keeps_step ].
Qed.

Lemma keeps__timeslicer_turn : keeps_inv (_timeslicer_turn job_suspend).
Proof.
  unfold _timeslicer_turn.
  repeat first [ apply keeps__cycle_job_list | keeps_step ].
Qed.

Lemma _clear_shadow_gone (a : nat) (s : gs_state) :
  well_formed s →
  ∀ q', q' ∈ map (_clear_shadow_part a) (gs_part_list s) → a ∉ shadow q'.
Proof.
  intros (_ & _ & _ & Hsh) q' Hq'.
  apply list_elem_of_lookup_1 in Hq' as [i Hi].
  rewrite lookup_map_part in Hi.
  destruct (gs_part_list s !! i) as [q|] eqn:Hq; [|discriminate].
  injection Hi as <-. simpl. apply shadow_remove_gone. now apply (Hsh i).
Qed.

Lemma keeps__remove_job_from_part (jid : Z) (p_ptr : option nat) :
  keeps_inv (_remove_job_from_part job_suspend jid p_ptr).
Proof.
  unfold _remove_job_from_part.
  destruct p_ptr as [p_ptr|]; [|apply keeps_ret].
  destruct (jid =? 0); [apply keeps_ret|].
  intros s [] s' Hinv H. minv.
  match goal with H : match ?x with _ => _ end _ = Ok _ |- _ => destruct x as [i|] eqn:Hi end;
    minv; [|assumption].
  match goal with
  | Hq : gs_part_list s !! p_ptr = Some ?q, Hj : job_list ?q !! i = Some ?j,
    Hc : _clear_shadow (job_addr ?j) s = Ok (_, ?s1),
    Hq1 : gs_part_list ?s1 !! p_ptr = Some ?q1,
    Hp : put_part p_ptr _ ?s1 = Ok (_, ?s2) |- _ =>
      pose proof (get_job_has_job _ _ _ _ _ Hq Hj) as Hhas;
      apply modify_Ok in Hc; injection Hc as ->;
      apply put_part_Ok in Hp; injection Hp as ->;
      assert (gs_inv (set_part_list
                        (map (_clear_shadow_part (job_addr j)) (gs_part_list s)) s))
        as Hinv1
        by (apply (gs_step_inv s); [assumption|];
            apply (gs_step_row _ p_ptr); destruct Hhas as (q0 & Hq0 & Ha);
            now apply (row_step_clear _ _ q0));
      assert (job_list q1 !! i = Some j) as Hj1
        by (simpl in Hq1; rewrite lookup_map_part, Hq in Hq1;
            injection Hq1 as <-; exact Hj);
      pose proof (remove_inv _ p_ptr i q1 j Hinv1 Hq1 Hj1
                    (_clear_shadow_gone (job_addr j) s (proj1 Hinv))) as Hinv2
  end.
  case_decide; minv; [|assumption].
  eapply keeps__signal_job; eassumption.
Qed.

Lemma keeps_row_prim (p_ptr : nat) (m : M unit) :
  (∀ s s', m s = Ok (tt, s') → row_step p_ptr s s') → keeps_inv m.
Proof.
  intros Hm. apply (keeps_row_steps p_ptr). intros s [] s' H.
  apply rtc_once. now apply Hm.
Qed.

Lemma keeps__add_job_to_part (p_ptr : nat) (jid : Z) (job_bitmap : bitstr) :
  keeps_inv (_add_job_to_part node_record_table_ptr select_g_get_job_cores
               job_suspend p_ptr jid job_bitmap).
Proof.
  unfold _add_job_to_part. apply keeps_bind; [apply keeps_get_part|]. intros p0.
  apply keeps_bind.
  { repeat first [ apply keeps__remove_job_from_part
                 | apply keeps__update_active_row | keeps_step ]. }
  intros _ s st s' Hinv H. minv.
  match goal with H : xmalloc_job s = Ok _ |- _ =>
    unfold xmalloc_job in H; injection H as <- <-
  end.
  assert (x6 = set_next_job_addr (S (next_job_addr s)) s) as ->.
  { cbn [gr_type] in H2. set (g := gr_type s) in H2 at 1. clearbody g.
    destruct g; minv; reflexivity. }
  clear H2.
  set (s1 := set_next_job_addr (S (next_job_addr s)) s) in *.
  assert (gs_inv s1) as Hinv1 by (apply (gs_step_inv s s1 Hinv); apply gs_step_alloc).
  match goal with
  | Hq : gs_part_list s1 !! p_ptr = Some ?q,
    Hp : put_part p_ptr (set_job_list (job_list ?q ++ [?j]) ?q) s1 = Ok (_, ?s2) |- _ =>
      apply put_part_Ok in Hp; injection Hp as ->;
      assert (gs_inv (set_part_list
                (<[p_ptr:=set_job_list (job_list q ++ [j]) q]> (gs_part_list s1)) s1))
        as Hinv2;
      [ apply (append_inv s1 p_ptr q j Hinv1 Hq); [simpl; lia|];
        intros q' Hq' Hin; apply list_elem_of_lookup_1 in Hq' as [i' Hi'];
        destruct Hinv as [(_ & _ & Hnext & _) _];
        specialize (Hnext i' q' _ Hi' Hin); simpl in Hnext; lia
      | assert (has_job p_ptr (job_addr j)
                  (set_part_list
                     (<[p_ptr:=set_job_list (job_list q ++ [j]) q]> (gs_part_list s1)) s1))
          as Hhas
          by (eexists; split;
              [simpl; apply list_lookup_insert_eq; now apply lookup_lt_Some in Hq|];
              unfold job_addrs; simpl; rewrite fmap_app; apply elem_of_app;
              right; now left) ]
  end.
  match goal with H : (if ?b then _ else _) _ = Ok _ |- _ => destruct b end; minv.
  - destruct Hinv2 as [Hwf2 Hown2].
    eapply (rtc_row_step_inv p_ptr); [|exact Hwf2|exact Hown2].
    repeat match goal with
    | H : add_active _ p_ptr _ = Ok _ |- _ => apply add_active_step in H
    | H : modify_job p_ptr _ _ _ = Ok _ |- _ =>
        apply modify_job_step in H; [|reflexivity]
    end.
    match goal with
    | H : _cast_shadow ?a (priority ?q) ?s = Ok _,
      Hq : gs_part_list ?s !! p_ptr = Some ?q |- _ =>
        let Hh := fresh in
        assert (Hh : has_job p_ptr a s)
          by (eapply (rtc_row_step_has_job p_ptr); [|exact Hhas]; chain);
        apply (_cast_shadow_step p_ptr _ _ _ _ Hh Hq) in H as (? & ? & ?); minv
    end.
    chain.
  - destruct Hinv2 as [Hwf2 Hown2].
    eapply (rtc_row_step_inv p_ptr); [|exact Hwf2|exact Hown2].
    repeat match goal with
    | H : _signal_job _ _ _ _ = Ok _ |- _ => apply (_signal_job_step _ p_ptr) in H
    | H : modify_job p_ptr _ _ _ = Ok _ |- _ =>
        apply modify_job_step in H; [|reflexivity]
    end.
    chain.
Qed.

Lemma keeps_gs_job_start (job_ptr : job_record) :
  keeps_inv (gs_job_start node_record_table_ptr select_g_get_job_cores
               job_suspend job_ptr).
Proof.
  unfold gs_job_start.
  repeat first [ apply keeps__add_job_to_part
               | apply keeps__update_all_active_rows | keeps_step ].
Qed.

Lemma keeps_gs_job_fini (job_ptr : job_record) :
  keeps_inv (gs_job_fini job_suspend job_ptr).
Proof.
  unfold gs_job_fini.
  repeat first [ apply keeps__remove_job_from_part
               | apply keeps__update_all_active_rows | keeps_step ].
Qed.

Lemma keeps__scan_slurm_job_list (l : option (list job_record)) :
  keeps_inv (_scan_slurm_job_list node_record_table_ptr select_g_get_job_cores
               job_suspend l).
Proof.
  unfold _scan_slurm_job_list, _scan_slurm_job.
  repeat first [ apply keeps__add_job_to_part | apply keeps__remove_job_from_part
               | apply keeps__update_all_active_rows | keeps_step ].
Qed.

Lemma keeps__build_parts (part_list : list part_record) :
  keeps_inv (_build_parts part_list).
Proof.
  intros s [] s' Hinv H. apply modify_Ok in H. injection H as ->.
  apply (gs_step_inv s _ Hinv).
  pose proof (gs_step_build s
    (map (λ r, (pr_name r, to_uint16 (pr_priority r))) part_list)) as Hstep.
  rewrite map_map in Hstep. exact Hstep.
Qed.

Lemma keeps_gs_reconfig (part_list : list part_record)
    (l : option (list job_record)) :
  keeps_inv (gs_reconfig node_record_table_ptr select_g_get_job_cores
               job_suspend part_list l).
Proof.
  unfold gs_reconfig, _reconfig_part.
  repeat first [ apply keeps__build_parts | apply keeps__add_job_to_part
               | apply keeps__scan_slurm_job_list | keeps_step ].
Qed.

Lemma keeps_run_op (op : gs_op) :
  keeps_inv (run_op node_record_table_ptr select_g_get_job_cores job_suspend op).
Proof.
  destruct op; unfold run_op, gs_job_scan;
    repeat first
      [ apply keeps__update_active_row | apply keeps__update_all_active_rows
      | apply keeps__cycle_job_list | apply keeps__timeslicer_turn
      | apply keeps__add_job_to_part | apply keeps__remove_job_from_part
      | apply keeps_gs_job_start | apply keeps_gs_job_fini
      | apply keeps__scan_slurm_job_list | apply keeps_gs_reconfig | keeps_step ].
Qed.

End Keeps.

(** C6: priority monotonicity is kept by every operation: from a state
    where every job struct is in one job list and every job in a shadow
    array is owned by a partition of higher priority than the one it
    shadows, each operation that returns ends in such a state; and
    [_cast_shadow] leaves alone every partition whose priority equals or
    exceeds the one it is called with, which is the priority of the owner. *)
Theorem priority_monotonicity_preserved
    (node_record_table_ptr : list node_record)
    (select_g_get_job_cores : Z → nat → nat → Z)
    (job_suspend : list suspend_msg → suspend_msg → Z)
    (op : gs_op) (s s' : gs_state) (r : option gs_flags) :
  well_formed s → priority_monotone s →
  run_op node_record_table_ptr select_g_get_job_cores job_suspend op s = Ok (r, s') →
  (well_formed s' ∧ priority_monotone s') ∧
  ∀ a prio q, prio ≤ priority q → _cast_shadow_part a prio q = q.
Proof.
  intros Hwf Hmono Hrun. split; [|apply _cast_shadow_part_higher].
  assert (gs_inv s) as Hinv.
  { split; [exact Hwf|]. now apply priority_monotone_owned. }
  destruct (keeps_run_op _ _ _ op s r s' Hinv Hrun) as [Hwf' Hown'].
  split; [exact Hwf'|]. now apply priority_monotone_owned.
Qed.

Lemma two_parts_state_well_formed : well_formed two_parts_state.
Proof.
  repeat split.
  - intros [|[|p]] q Hq; simpl in Hq; simplify_eq; simpl;
      apply (bool_decide_unpack _); vm_compute; exact I.
  - intros [|[|p1]] [|[|p2]] q1 q2 a Hq1 Hq2 Ha1 Ha2; simpl in *; simplify_eq;
      try reflexivity; exfalso; revert Ha1 Ha2; unfold job_addrs; simpl;
      rewrite !elem_of_cons, !elem_of_nil; lia.
  - intros [|[|p]] q a Hq Ha; simpl in Hq; simplify_eq; revert Ha;
      unfold job_addrs; simpl; rewrite !elem_of_cons, !elem_of_nil; lia.
  - intros [|[|p]] q Hq; simpl in Hq; simplify_eq; simpl;
      apply (bool_decide_unpack _); vm_compute; exact I.
Qed.

Lemma two_parts_state_monotone : priority_monotone two_parts_state.
Proof.
  apply priority_monotone_owned; [apply two_parts_state_well_formed|].
  intros [|[|p]] q a Hq Ha; simpl in Hq; simplify_eq; simpl in Ha.
  - inversion Ha.
  - apply list_elem_of_singleton in Ha as ->. exists 0%nat. eexists.
    split; [reflexivity|]. split; [|simpl; lia]. unfold job_addrs. simpl. now left.
Qed.

Lemma priority_monotonicity_preserved_witness :
  ∃ s', run_op S1.nodes (λ _ _ _, 0) (λ _ _, 0)
          (OpJobFini (mk_job_record 7 "high" JOB_COMPLETE [true; false]))
          two_parts_state = Ok (None, s') ∧
        ((well_formed s' ∧ priority_monotone s') ∧
         ∀ a prio q, prio ≤ priority q → _cast_shadow_part a prio q = q).
Proof.
  eexists. split; [vm_compute; reflexivity|].
  apply (priority_monotonicity_preserved S1.nodes (λ _ _ _, 0) (λ _ _, 0)
           (OpJobFini (mk_job_record 7 "high" JOB_COMPLETE [true; false]))
           two_parts_state _ None).
  - apply two_parts_state_well_formed.
  - apply two_parts_state_monotone.
  - vm_compute. reflexivity.
Defined.

(** ** Counting jobs by row state *)

Lemma row_count_cons (w : gs_flags) (j : gs_job) (l : list gs_job) :
  row_count w (j :: l) =
  ((if decide (row_state j = w) then 1 else 0) + row_count w l)%nat.
Proof.
  unfold row_count. rewrite filter_cons. case_decide; reflexivity.
Qed.

Lemma row_count_app (w : gs_flags) (l1 l2 : list gs_job) :
  row_count w (l1 ++ l2) = (row_count w l1 + row_count w l2)%nat.
Proof.
  induction l1 as [|j l1 IH]; [reflexivity|].
  change ((j :: l1) ++ l2) with (j :: (l1 ++ l2)).
  rewrite !row_count_cons, IH. lia.
Qed.

Lemma row_count_take_S (w : gs_flags) (l : list gs_job) (k : nat) (j : gs_job) :
  l !! k = Some j →
  row_count w (take (S k) l) =
  (row_count w (take k l) + (if decide (row_state j = w) then 1 else 0))%nat.
Proof.
  intros Hk. rewrite (take_S_r l k j Hk), row_count_app, row_count_cons.
  change (row_count w []) with 0%nat. lia.
Qed.

Lemma row_count_insert (w : gs_flags) (l : list gs_job) (i : nat) (j j' : gs_job) :
  l !! i = Some j →
  (row_count w (<[i:=j']> l) + (if decide (row_state j = w) then 1 else 0) =
   row_count w l + (if decide (row_state j' = w) then 1 else 0))%nat.
Proof.
  intros Hi. rewrite <- (take_drop_middle l i j Hi) at 2.
  rewrite insert_take_drop by (now apply lookup_lt_Some in Hi).
  rewrite !row_count_app, !row_count_cons. lia.
Qed.

Lemma row_count_take_all (w : gs_flags) (l : list gs_job) (n : nat) :
  n = length l → row_count w (take n l) = row_count w l.
Proof. intros ->. now rewrite take_ge. Qed.

Lemma seated_count_rows (q : gs_part) :
  seated_count q =
  (row_count GS_ACTIVE (job_list q) + row_count GS_FILLER (job_list q))%nat.
Proof.
  unfold seated_count. induction (job_list q) as [|j l IH]; [reflexivity|].
  rewrite !row_count_cons, filter_cons.
  destruct (row_state j) eqn:Hrow; repeat case_decide;
    try (intuition congruence); cbn [length]; rewrite IH; lia.
Qed.

Lemma to_uint32_succ (z : Z) : to_uint32 (to_uint32 z + 1) = to_uint32 (z + 1).
Proof. unfold to_uint32. now rewrite Zplus_mod_idemp_l. Qed.

Lemma to_uint32_small (z : Z) : 0 ≤ z < 4294967296 → to_uint32 z = z.
Proof. intros H. unfold to_uint32. now apply Z.mod_small. Qed.

(** ** A loop with an invariant that depends on the index *)

Lemma for_each_seq_inv (I : nat → gs_state → Prop) (body : nat → M unit)
    (n a : nat) :
  (∀ k s s', (a ≤ k < a + n)%nat → I k s → body k s = Ok (tt, s') → I (S k) s') →
  ∀ s s', I a s → for_each (seq a n) body s = Ok (tt, s') → I (a + n)%nat s'.
Proof.
  revert a. induction n as [|n IH]; intros a Hbody s s' HI H.
  - apply ret_Ok in H. injection H as <-. now rewrite Nat.add_0_r.
  - cbn [seq for_each] in H. apply bind_Ok in H as ([] & s1 & Hx & H).
    replace (a + S n)%nat with (S a + n)%nat by lia.
    apply (IH (S a)) with (s := s1); [| |exact H].
    + intros k t t' Hk. apply Hbody. lia.
    + apply (Hbody a s s1); [lia | exact HI | exact Hx].
Qed.

Lemma for_index_inv (I : nat → gs_state → Prop) (body : nat → M unit) (n : nat) :
  (∀ k s s', (k < n)%nat → I k s → body k s = Ok (tt, s') → I (S k) s') →
  ∀ s s', I 0%nat s → for_index n body s = Ok (tt, s') → I n s'.
Proof.
  intros Hbody s s' HI H.
  apply (for_each_seq_inv I body n 0) with (s := s); [|exact HI|exact H].
  intros k t t' Hk. apply Hbody. lia.
Qed.

(** ** What the primitives do to the partition that is worked on *)

Section RowIs.
Context (p_ptr : nat) (sh : list nat).

Lemma row_is_put (q q' : gs_part) (s : gs_state) :
  gs_part_list s !! p_ptr = Some q → shadow q' = sh →
  row_is p_ptr sh (job_list q') (jobs_active q')
    (set_part_list (<[p_ptr:=q']> (gs_part_list s)) s).
Proof.
  intros Hq Hsh. exists q'. split; [|auto].
  simpl. apply list_lookup_insert_eq. now apply lookup_lt_Some in Hq.
Qed.

Lemma add_active_at (j : gs_job) (l : list gs_job) (n : Z) (s s' : gs_state) :
  row_is p_ptr sh l n s → add_active j p_ptr s = Ok (tt, s') →
  row_is p_ptr sh l (to_uint32 (n + 1)) s'.
Proof.
  intros (q & Hq & Hsh & <- & <-) H.
  apply add_active_Ok in H as (q0 & q' & Hq0 & Hadd & [= ->]).
  replace q0 with q in * by congruence.
  apply _add_job_to_active_Ok in Hadd as (_ & _ & <- & Hs & <-).
  apply (row_is_put q); [assumption | congruence].
Qed.

Lemma modify_job_at (i : nat) (f : gs_job → gs_job) (l : list gs_job) (n : Z)
    (s s' : gs_state) :
  row_is p_ptr sh l n s → modify_job p_ptr i f s = Ok (tt, s') →
  ∃ j, l !! i = Some j ∧ row_is p_ptr sh (<[i:=f j]> l) n s'.
Proof.
  intros (q & Hq & Hsh & <- & <-) H.
  apply modify_job_Ok in H as (q0 & j & Hq0 & Hj & [= ->]).
  replace q0 with q in * by congruence. exists j. split; [exact Hj|].
  now apply (row_is_put q (set_job_list _ q)).
Qed.

Lemma set_jobs_active_at (q : gs_part) (n : Z) (s s' : gs_state) :
  gs_part_list s !! p_ptr = Some q → shadow q = sh →
  put_part p_ptr (set_jobs_active n q) s = Ok (tt, s') →
  row_is p_ptr sh (job_list q) n s'.
Proof.
  intros Hq Hsh H. apply put_part_Ok in H. injection H as ->.
  now apply (row_is_put q (set_jobs_active n q)).
Qed.

Lemma set_job_list_at (q : gs_part) (l : list gs_job) (s s' : gs_state) :
  gs_part_list s !! p_ptr = Some q → shadow q = sh →
  put_part p_ptr (set_job_list l q) s = Ok (tt, s') →
  row_is p_ptr sh l (jobs_active q) s'.
Proof.
  intros Hq Hsh H. apply put_part_Ok in H. injection H as ->.
  now apply (row_is_put q (set_job_list l q)).
Qed.

Lemma get_job_at (i : nat) (j : gs_job) (l : list gs_job) (n : Z)
    (s s' : gs_state) :
  row_is p_ptr sh l n s → get_job p_ptr i s = Ok (j, s') →
  s' = s ∧ l !! i = Some j.
Proof.
  intros (q & Hq & _ & <- & _) H.
  apply get_job_Ok in H as (q0 & j0 & Hq0 & Hj & [= -> ->]).
  now replace q0 with q in * by congruence.
Qed.

Lemma job_fits_at (j : gs_job) (b : bool) (s s' : gs_state) :
  job_fits j p_ptr s = Ok (b, s') → s' = s.
Proof. intros H. apply job_fits_Ok in H as (? & ? & _ & _ & [= _ ->]). reflexivity. Qed.

(** A job of the partition casts no shadow on the partition itself. *)
Lemma _cast_shadow_at (a : nat) (q : gs_part) (l : list gs_job) (n : Z)
    (s s1 s' : gs_state) :
  row_is p_ptr sh l n s → get_part p_ptr s = Ok (q, s1) →
  _cast_shadow a (priority q) s1 = Ok (tt, s') →
  row_is p_ptr sh l n s'.
Proof.
  intros (q0 & Hq & Hsh & Hl & Hn) Hget H.
  apply get_part_Ok in Hget as (q1 & Hq1 & [= -> ->]).
  replace q1 with q0 in * by congruence.
  apply modify_Ok in H. injection H as ->. exists q0. split; [|auto].
  simpl. rewrite lookup_map_part, Hq. simpl. f_equal.
  apply _cast_shadow_part_higher. lia.
Qed.

Lemma _clear_shadow_at (a : nat) (l : list gs_job) (n : Z) (s s' : gs_state) :
  row_is p_ptr sh l n s → a ∉ sh → _clear_shadow a s = Ok (tt, s') →
  row_is p_ptr sh l n s'.
Proof.
  intros (q & Hq & Hsh & Hl & Hn) Ha H.
  apply modify_Ok in H. injection H as ->. exists q. split; [|auto].
  simpl. rewrite lookup_map_part, Hq. simpl. f_equal.
  apply _clear_shadow_part_absent. now rewrite Hsh.
Qed.

Lemma _signal_job_at (rc : list suspend_msg → suspend_msg → Z) (jid : Z)
    (sig : gs_flags) (l : list gs_job) (n : Z) (s s' : gs_state) :
  row_is p_ptr sh l n s → _signal_job rc jid sig s = Ok (tt, s') →
  row_is p_ptr sh l n s'.
Proof.
  intros Hrow H. apply _signal_job_Ok in H as (? & ? & [= ->]). exact Hrow.
Qed.

End RowIs.

(** ** The counts when one job changes *)

Lemma row_count_insert_same (w : gs_flags) (l : list gs_job) (i : nat)
    (j j' : gs_job) :
  l !! i = Some j → row_state j' = row_state j →
  row_count w (<[i:=j']> l) = row_count w l.
Proof.
  intros Hi Hr. pose proof (row_count_insert w l i j j' Hi) as H.
  rewrite Hr in H. lia.
Qed.

Lemma row_count_insert_ne (w : gs_flags) (l : list gs_job) (i : nat)
    (j j' : gs_job) :
  l !! i = Some j → row_state j ≠ w → row_state j' ≠ w →
  row_count w (<[i:=j']> l) = row_count w l.
Proof.
  intros Hi Hj Hj'. pose proof (row_count_insert w l i j j' Hi) as H.
  rewrite !decide_False in H by assumption. lia.
Qed.

Lemma row_count_insert_new (w : gs_flags) (l : list gs_job) (i : nat)
    (j j' : gs_job) :
  l !! i = Some j → row_state j ≠ w → row_state j' = w →
  row_count w (<[i:=j']> l) = S (row_count w l).
Proof.
  intros Hi Hj Hj'. pose proof (row_count_insert w l i j j' Hi) as H.
  rewrite decide_False, decide_True in H by assumption. lia.
Qed.

Lemma row_count_take_insert (w : gs_flags) (l : list gs_job) (i : nat)
    (j' : gs_job) :
  (i < length l)%nat →
  row_count w (take (S i) (<[i:=j']> l)) =
  (row_count w (take i l) + (if decide (row_state j' = w) then 1 else 0))%nat.
Proof.
  intros Hi. rewrite (row_count_take_S w _ i j') by now apply list_lookup_insert_eq.
  now rewrite take_insert_ge by lia.
Qed.

Lemma job_addrs_insert (l : list gs_job) (i : nat) (j j' : gs_job) :
  l !! i = Some j → job_addr j' = job_addr j →
  job_addr <$> <[i:=j']> l = job_addr <$> l.
Proof.
  intros Hi Ha. rewrite list_fmap_insert, Ha.
  apply list_insert_id. now rewrite list_lookup_fmap, Hi.
Qed.

Lemma count_succ (n : nat) (z : Z) :
  z = to_uint32 (Z.of_nat n) → to_uint32 (z + 1) = to_uint32 (Z.of_nat (S n)).
Proof. intros ->. rewrite to_uint32_succ. f_equal. lia. Qed.

(** ** The count while [_update_active_row] runs *)

Section RowCount.
Context (job_suspend : list suspend_msg → suspend_msg → Z).
Context (p_ptr : nat) (sh : list nat).

(** The shadows are counted first. *)
Lemma shadows_counted (todo : list nat) (l : list gs_job) (n : nat)
    (s s' : gs_state) :
  row_is p_ptr sh l (to_uint32 (Z.of_nat n)) s →
  for_each todo (λ a, j <- deref_job a ;; add_active j p_ptr) s = Ok (tt, s') →
  row_is p_ptr sh l (to_uint32 (Z.of_nat (n + length todo))) s'.
Proof.
  revert n s. induction todo as [|a todo IH]; intros n s Hrow H.
  - apply ret_Ok in H. injection H as <-. now rewrite Nat.add_0_r.
  - cbn [for_each] in H. apply bind_Ok in H as ([] & s1 & Ha & H).
    apply bind_Ok in Ha as (j & s0 & Hj & Ha).
    assert (s0 = s) as ->.
    { unfold deref_job in Hj. destruct (find_job_addr _ _); congruence. }
    apply (add_active_at _ _ _ _ _ _ _ Hrow) in Ha.
    rewrite (count_succ n _ eq_refl) in Ha.
    apply (IH _ _ Ha) in H. cbn [length].
    now replace (n + S (length todo))%nat with (S n + length todo)%nat by lia.
Qed.

(** One turn of the loop over the jobs whose row state is [which]: the
    counter follows the jobs of that state up to the index, and the jobs of
    another state that is not GS_NO_ACTIVE stay as many. *)
Lemma _update_seated_job_count (which other : gs_flags) (base i : nat)
    (l : list gs_job) (s s' : gs_state) :
  (∀ a, a ∈ job_addr <$> l → a ∉ sh) →
  which ≠ GS_NO_ACTIVE → other ≠ which → other ≠ GS_NO_ACTIVE →
  row_is p_ptr sh l
    (to_uint32 (Z.of_nat (base + row_count which (take i l)))) s →
  _update_seated_job job_suspend p_ptr which i s = Ok (tt, s') →
  ∃ l', row_is p_ptr sh l'
          (to_uint32 (Z.of_nat (base + row_count which (take (S i) l')))) s' ∧
        job_addr <$> l' = job_addr <$> l ∧
        row_count other l' = row_count other l.
Proof.
  intros Hdis Hw Ho Hoa Hrow H. unfold _update_seated_job in H.
  apply bind_Ok in H as (j & s1 & Hj & H).
  destruct (get_job_at _ _ _ _ _ _ _ _ Hrow Hj) as [-> Hlj].
  assert (Hown : job_addr j ∉ sh).
  { apply Hdis, list_elem_of_fmap. exists j. split; [reflexivity|].
    now apply list_elem_of_lookup_2 in Hlj. }
  assert (Hi : (i < length l)%nat) by now apply lookup_lt_Some in Hlj.
  destruct (decide (row_state j ≠ which)) as [Hne|Heq].
  - apply ret_Ok in H. injection H as <-. exists l.
    rewrite (row_count_take_S _ _ _ _ Hlj).
    destruct (decide (row_state j = which)); [contradiction|].
    rewrite !Nat.add_0_r. auto.
  - assert (Hrs : row_state j = which)
      by (destruct (decide (row_state j = which)); tauto).
    apply bind_Ok in H as (fits & s1 & Hfits & H).
    apply job_fits_at in Hfits as ->. destruct fits.
    + apply bind_Ok in H as ([] & s1 & Hadd & H).
      apply bind_Ok in H as (q & s2 & Hget & H).
      apply (add_active_at _ _ _ _ _ _ _ Hrow) in Hadd.
      apply (_cast_shadow_at _ _ _ _ _ _ _ _ _ Hadd Hget) in H.
      exists l. rewrite (row_count_take_S _ _ _ _ Hlj).
      destruct (decide (row_state j = which)); [|contradiction].
      rewrite (count_succ _ _ eq_refl) in H.
      replace (base + (row_count which (take i l) + 1))%nat
        with (S (base + row_count which (take i l))) by lia. auto.
    + apply bind_Ok in H as ([] & s1 & Hsusp & H).
      assert (∃ j1, row_state j1 = which ∧ job_addr j1 = job_addr j ∧
                    row_is p_ptr sh (<[i:=j1]> l)
                      (to_uint32 (Z.of_nat (base + row_count which (take i l)))) s1)
        as (j1 & Hrs1 & Haddr1 & Hrow1).
      { destruct (decide (sig_state j ≠ GS_SUSPEND)).
        - apply bind_Ok in Hsusp as ([] & s2 & Hsig & Hsusp).
          apply bind_Ok in Hsusp as ([] & s3 & Hmod & Hclr).
          apply (_signal_job_at _ _ _ _ _ _ _ _ _ Hrow) in Hsig.
          apply (modify_job_at _ _ _ _ _ _ _ _ Hsig) in Hmod as (j0 & Hj0 & Hmod).
          replace j0 with j in * by congruence.
          apply (_clear_shadow_at _ _ _ _ _ _ _ Hmod Hown) in Hclr.
          exists (set_sig_state GS_SUSPEND j). auto.
        - apply ret_Ok in Hsusp. injection Hsusp as <-. exists j.
          rewrite list_insert_id by assumption. auto. }
      apply (modify_job_at _ _ _ _ _ _ _ _ Hrow1) in H as (j2 & Hj2 & H).
      rewrite list_lookup_insert_eq in Hj2 by assumption. injection Hj2 as <-.
      rewrite list_insert_insert_eq in H.
      exists (<[i:=set_row_state GS_NO_ACTIVE j1]> l).
      rewrite row_count_take_insert by assumption.
      destruct (decide (row_state (set_row_state GS_NO_ACTIVE j1) = which))
        as [Hbad|_]; [simpl in Hbad; congruence|].
      rewrite !Nat.add_0_r. split; [exact H|]. split.
      * now apply (job_addrs_insert _ _ j).
      * apply (row_count_insert_ne _ _ _ j); [assumption|congruence|].
        simpl. congruence.
Qed.

(** One turn of the loop over the new jobs: the counter is the number of
    the jobs that are seated, beyond [base]. *)
Lemma _update_new_job_count (base i : nat) (l : list gs_job) (s s' : gs_state) :
  row_is p_ptr sh l
    (to_uint32 (Z.of_nat (base + row_count GS_ACTIVE l + row_count GS_FILLER l))) s →
  _update_new_job job_suspend p_ptr i s = Ok (tt, s') →
  ∃ l', row_is p_ptr sh l'
          (to_uint32
             (Z.of_nat (base + row_count GS_ACTIVE l' + row_count GS_FILLER l'))) s' ∧
        job_addr <$> l' = job_addr <$> l.
Proof.
  intros Hrow H. unfold _update_new_job in H.
  apply bind_Ok in H as (j & s1 & Hj & H).
  destruct (get_job_at _ _ _ _ _ _ _ _ Hrow Hj) as [-> Hlj].
  assert (Hi : (i < length l)%nat) by now apply lookup_lt_Some in Hlj.
  destruct (decide (row_state j ≠ GS_NO_ACTIVE)) as [Hne|Heq].
  { apply ret_Ok in H. injection H as <-. eauto. }
  assert (Hrs : row_state j = GS_NO_ACTIVE)
    by (destruct (decide (row_state j = GS_NO_ACTIVE)); tauto).
  apply bind_Ok in H as (fits & s1 & Hfits & H).
  apply job_fits_at in Hfits as ->. destruct fits.
  2: { apply ret_Ok in H. injection H as <-. eauto. }
  apply bind_Ok in H as ([] & s1 & Hadd & H).
  apply bind_Ok in H as (q & s2 & Hget & H).
  apply bind_Ok in H as ([] & s3 & Hcast & H).
  apply bind_Ok in H as ([] & s4 & Hmod & H).
  apply (add_active_at _ _ _ _ _ _ _ Hrow) in Hadd.
  apply (_cast_shadow_at _ _ _ _ _ _ _ _ _ Hadd Hget) in Hcast.
  apply (modify_job_at _ _ _ _ _ _ _ _ Hcast) in Hmod as (j0 & Hj0 & Hmod).
  replace j0 with j in * by congruence.
  rewrite (count_succ _ _ eq_refl) in Hmod.
  assert (∃ jf, row_state jf = GS_FILLER ∧ job_addr jf = job_addr j ∧
                row_is p_ptr sh (<[i:=jf]> l)
                  (to_uint32
                     (Z.of_nat
                        (S (base + row_count GS_ACTIVE l + row_count GS_FILLER l)))) s')
    as (jf & Hrf & Haf & Hrowf).
  { destruct (decide (sig_state j = GS_SUSPEND)).
    - apply bind_Ok in H as ([] & s5 & Hsig & H).
      apply (_signal_job_at _ _ _ _ _ _ _ _ _ Hmod) in Hsig.
      apply (modify_job_at _ _ _ _ _ _ _ _ Hsig) in H as (j2 & Hj2 & H).
      rewrite list_lookup_insert_eq in Hj2 by assumption. injection Hj2 as <-.
      rewrite list_insert_insert_eq in H.
      exists (set_sig_state GS_RESUME (set_row_state GS_FILLER j)). auto.
    - apply ret_Ok in H. injection H as <-.
      exists (set_row_state GS_FILLER j). auto. }
  exists (<[i:=jf]> l). split; [|now apply (job_addrs_insert _ _ j)].
  rewrite (row_count_insert_ne GS_ACTIVE _ _ j) by (assumption || congruence).
  rewrite (row_count_insert_new GS_FILLER _ _ j) by (assumption || congruence).
  now replace (base + row_count GS_ACTIVE l + S (row_count GS_FILLER l))%nat
    with (S (base + row_count GS_ACTIVE l + row_count GS_FILLER l)) by lia.
Qed.

(** The loop over the jobs whose row state is [which], as a whole. *)
Lemma seated_loop_count (which other : gs_flags) (base : nat)
    (l : list gs_job) (s s' : gs_state) :
  (∀ a, a ∈ job_addr <$> l → a ∉ sh) →
  which ≠ GS_NO_ACTIVE → other ≠ which → other ≠ GS_NO_ACTIVE →
  row_is p_ptr sh l (to_uint32 (Z.of_nat base)) s →
  for_index (length l) (_update_seated_job job_suspend p_ptr which) s = Ok (tt, s') →
  ∃ l', row_is p_ptr sh l'
          (to_uint32 (Z.of_nat (base + row_count which l'))) s' ∧
        job_addr <$> l' = job_addr <$> l ∧
        row_count other l' = row_count other l.
Proof.
  intros Hdis Hw Ho Hoa Hrow H.
  pose (I := λ (k : nat) (t : gs_state),
          ∃ l', row_is p_ptr sh l'
                  (to_uint32 (Z.of_nat (base + row_count which (take k l')))) t ∧
                job_addr <$> l' = job_addr <$> l ∧
                row_count other l' = row_count other l).
  assert (HI : I (length l) s').
  { apply (for_index_inv I (_update_seated_job job_suspend p_ptr which) (length l))
      with (s := s); [| |exact H].
    - intros k t t' _ (l1 & Hrow1 & Ha1 & Ho1) Hrun.
      destruct (_update_seated_job_count which other base k l1 t t')
        as (l2 & Hrow2 & Ha2 & Ho2); try assumption.
      { now rewrite Ha1. }
      exists l2. split; [exact Hrow2|]. split; congruence.
    - exists l. cbn [take]. change (row_count which []) with 0%nat.
      rewrite Nat.add_0_r. auto. }
  destruct HI as (l' & Hrow' & Ha' & Ho'). exists l'.
  rewrite take_ge in Hrow'; [auto|].
  apply (f_equal length) in Ha'. rewrite !length_fmap in Ha'. lia.
Qed.

(** The loop over the new jobs, as a whole. *)
Lemma new_loop_count (base n : nat) (l : list gs_job) (s s' : gs_state) :
  row_is p_ptr sh l
    (to_uint32 (Z.of_nat (base + row_count GS_ACTIVE l + row_count GS_FILLER l))) s →
  for_index n (_update_new_job job_suspend p_ptr) s = Ok (tt, s') →
  ∃ l', row_is p_ptr sh l'
          (to_uint32
             (Z.of_nat (base + row_count GS_ACTIVE l' + row_count GS_FILLER l'))) s' ∧
        job_addr <$> l' = job_addr <$> l.
Proof.
  intros Hrow H.
  pose (I := λ (t : gs_state),
          ∃ l', row_is p_ptr sh l'
                  (to_uint32
                     (Z.of_nat (base + row_count GS_ACTIVE l' + row_count GS_FILLER l'))) t ∧
                job_addr <$> l' = job_addr <$> l).
  apply (for_each_inv I (seq 0 n) (_update_new_job job_suspend p_ptr)) with (s := s);
    [| |exact H].
  - intros k t t' _ (l1 & Hrow1 & Ha1) Hrun.
    destruct (_update_new_job_count base k l1 t t') as (l2 & Hrow2 & Ha2);
      try assumption.
    exists l2. split; [exact Hrow2 | congruence].
  - exists l. auto.
Qed.

End RowCount.

(** After [_update_active_row] the counter of the partition is the number
    of its shadows and seated jobs, as far as 32 bits go. *)
Lemma _update_active_row_count (job_suspend : list suspend_msg → suspend_msg → Z)
    (p_ptr : nat) (add_new_jobs : bool) (q : gs_part) (s s' : gs_state) :
  gs_part_list s !! p_ptr = Some q → own_disjoint q →
  _update_active_row job_suspend p_ptr add_new_jobs s = Ok (tt, s') →
  ∃ q', gs_part_list s' !! p_ptr = Some q' ∧ shadow q' = shadow q ∧
        job_addrs q' = job_addrs q ∧ active_count_ok32 q'.
Proof.
  intros Hq Hdis H. unfold _update_active_row in H.
  apply bind_Ok in H as (q0 & s0 & Hget & H).
  apply get_part_Ok in Hget as (q1 & Hq1 & [= -> ->]).
  replace q1 with q in * by congruence. clear Hq1.
  apply bind_Ok in H as ([] & s1 & Hput & H).
  apply (set_jobs_active_at _ _ _ _ _ _ Hq eq_refl) in Hput.
  apply bind_Ok in H as ([] & s2 & Hsh & H).
  apply (shadows_counted _ _ _ _ 0%nat _ _ Hput) in Hsh.
  apply bind_Ok in H as ([] & s3 & Hact & H).
  destruct (seated_loop_count job_suspend p_ptr (shadow q) GS_ACTIVE GS_FILLER
              (0 + length (shadow q)) (job_list q) s2 s3)
    as (l1 & Hrow1 & Ha1 & _); [exact Hdis|discriminate..|exact Hsh|exact Hact|].
  apply bind_Ok in H as ([] & s4 & Hfil & H).
  replace (num_jobs q) with (length l1) in Hfil, H
    by (apply (f_equal length) in Ha1; rewrite !length_fmap in Ha1; exact Ha1).
  destruct (seated_loop_count job_suspend p_ptr (shadow q) GS_FILLER GS_ACTIVE
              (0 + length (shadow q) + row_count GS_ACTIVE l1) l1 s3 s4)
    as (l2 & Hrow2 & Ha2 & Hc2); [|discriminate..|exact Hrow1|exact Hfil|].
  { intros a Ha. apply Hdis. unfold job_addrs. now rewrite <- Ha1. }
  rewrite <- Hc2 in Hrow2.
  assert (∃ l3, row_is p_ptr (shadow q) l3
                  (to_uint32
                     (Z.of_nat (0 + length (shadow q) + row_count GS_ACTIVE l3
                                + row_count GS_FILLER l3))) s' ∧
                job_addr <$> l3 = job_addr <$> l2) as (l3 & Hrow3 & Ha3).
  { destruct add_new_jobs.
    - now apply (new_loop_count _ _ _ _ _ _ _ _ Hrow2) in H.
    - apply ret_Ok in H. injection H as <-. eauto. }
  destruct Hrow3 as (q' & Hq' & Hs' & Hl' & Hn'). exists q'.
  split; [exact Hq'|]. split; [exact Hs'|]. split.
  - unfold job_addrs. rewrite Hl'. congruence.
  - unfold active_count_ok32. rewrite Hn', seated_count_rows, Hl'.
    unfold num_shadows. rewrite Hs'. f_equal. lia.
Qed.

(** ** The partitions that a rebuild leaves alone *)

Lemma inv_own_disjoint (s : gs_state) (p : nat) (q : gs_part) :
  gs_inv s → gs_part_list s !! p = Some q → own_disjoint q.
Proof.
  intros [Hwf Hown] Hq a Ha Hsh.
  destruct (Hown p q a Hq Hsh) as (p' & q' & Hq' & Ha' & Hlt).
  pose proof Hwf as (_ & Huniq & _).
  assert (p = p') as <- by (eapply Huniq; eassumption).
  replace q' with q in Hlt by congruence. lia.
Qed.

Lemma row_step_length (p_ptr : nat) (s s' : gs_state) :
  row_step p_ptr s s' → length (gs_part_list s') = length (gs_part_list s).
Proof.
  destruct 1; simpl; now rewrite ?length_insert, ?length_map.
Qed.

Lemma row_step_prio (p_ptr : nat) (s s' : gs_state) (x : nat) :
  row_step p_ptr s s' → prio_of (gs_part_list s') x = prio_of (gs_part_list s) x.
Proof.
  intros Hstep. unfold prio_of. destruct (gs_part_list s !! x) as [q|] eqn:Hq.
  - destruct (row_step_lookup _ _ _ Hstep _ _ Hq) as (q' & -> & _ & Hp & _).
    exact Hp.
  - apply lookup_ge_None in Hq. rewrite <- (row_step_length _ _ _ Hstep) in Hq.
    apply lookup_ge_None in Hq. now rewrite Hq.
Qed.

Lemma rtc_row_step_prio (p_ptr : nat) (s s' : gs_state) (x : nat) :
  rtc (row_step p_ptr) s s' →
  prio_of (gs_part_list s') x = prio_of (gs_part_list s) x.
Proof.
  induction 1 as [|s1 s2 s3 Hstep _ IH]; [reflexivity|].
  rewrite IH. now apply (row_step_prio p_ptr).
Qed.

Lemma rtc_row_step_length (p_ptr : nat) (s s' : gs_state) :
  rtc (row_step p_ptr) s s' → length (gs_part_list s') = length (gs_part_list s).
Proof.
  induction 1 as [|s1 s2 s3 Hstep _ IH]; [reflexivity|].
  rewrite IH. now apply (row_step_length p_ptr).
Qed.

(** The work on the row of [p_ptr] leaves another partition as it is when
    its priority is not lower: no job of [p_ptr] is or becomes its shadow. *)
Lemma row_step_above (p_ptr p' : nat) (q' : gs_part) (s s' : gs_state) :
  gs_inv s → row_step p_ptr s s' →
  p' ≠ p_ptr → prio_of (gs_part_list s) p_ptr ≤ priority q' →
  gs_part_list s !! p' = Some q' → gs_part_list s' !! p' = Some q'.
Proof.
  intros [Hwf Hown] Hstep Hne Hle Hq'.
  destruct Hstep as [q0 q0' Hq0 Hframe|q0 a Hq0 Ha|q0 a Hq0 Ha|]; simpl.
  - now rewrite list_lookup_insert_ne by congruence.
  - rewrite lookup_map_part, Hq'. simpl. f_equal.
    apply _cast_shadow_part_higher. unfold prio_of in Hle. now rewrite Hq0 in Hle.
  - rewrite lookup_map_part, Hq'. simpl. f_equal.
    apply _clear_shadow_part_absent. intros Hsh.
    destruct (Hown p' q' a Hq' Hsh) as (p0 & q1 & Hq1 & Ha1 & Hlt).
    pose proof Hwf as (_ & Huniq & _).
    assert (p0 = p_ptr) as -> by (eapply Huniq; eassumption).
    replace q1 with q0 in Hlt by congruence.
    unfold prio_of in Hle. rewrite Hq0 in Hle. lia.
  - exact Hq'.
Qed.

Lemma rtc_row_step_above (p_ptr p' : nat) (q' : gs_part) (s s' : gs_state) :
  rtc (row_step p_ptr) s s' → gs_inv s →
  p' ≠ p_ptr → prio_of (gs_part_list s) p_ptr ≤ priority q' →
  gs_part_list s !! p' = Some q' → gs_part_list s' !! p' = Some q'.
Proof.
  induction 1 as [|s1 s2 s3 Hstep _ IH]; [auto|]. intros Hinv Hne Hle Hq'.
  apply IH; [|assumption| |].
  - destruct Hinv as [Hwf Hown]. now apply (row_step_inv p_ptr s1 s2).
  - now rewrite (row_step_prio p_ptr s1 s2).
  - now apply (row_step_above p_ptr p' q' s1 s2).
Qed.

(** ** Rebuilding all rows in the order of the priorities *)

Lemma rebuild_in_order_count (job_suspend : list suspend_msg → suspend_msg → Z)
    (pr : nat → Z) (todo done : list nat) (s s' : gs_state) :
  gs_inv s →
  (∀ x, prio_of (gs_part_list s) x = pr x) →
  StronglySorted (λ p q, pr q ≤ pr p) todo → NoDup todo →
  (∀ d t, d ∈ done → t ∈ todo → d ≠ t ∧ pr t ≤ pr d) →
  (∀ d, d ∈ done → ∃ q, gs_part_list s !! d = Some q ∧ active_count_ok32 q) →
  for_each todo (λ p_ptr, _update_active_row job_suspend p_ptr true) s = Ok (tt, s') →
  gs_inv s' ∧
  length (gs_part_list s') = length (gs_part_list s) ∧
  ∀ p, p ∈ done ++ todo →
       ∃ q, gs_part_list s' !! p = Some q ∧ active_count_ok32 q.
Proof.
  revert done s. induction todo as [|p todo IH];
    intros done s Hinv Hpr Hsorted Hnd Hsep Hdone H.
  - apply ret_Ok in H. injection H as <-. split; [exact Hinv|]. split; [reflexivity|].
    intros p Hp. rewrite app_nil_r in Hp. auto.
  - cbn [for_each] in H. apply bind_Ok in H as ([] & s1 & Hrun & H).
    pose proof (_update_active_row_steps job_suspend p true s s1 Hrun) as Hsteps.
    assert (Hinv1 : gs_inv s1).
    { destruct Hinv as [Hwf Hown]. now apply (rtc_row_step_inv p s s1). }
    assert (∃ qp, gs_part_list s !! p = Some qp) as (qp & Hqp).
    { unfold _update_active_row in Hrun.
      apply bind_Ok in Hrun as (q0 & s0 & Hget & _).
      apply get_part_Ok in Hget as (q1 & Hq1 & _). eauto. }
    destruct (_update_active_row_count job_suspend p true qp s s1 Hqp
                (inv_own_disjoint s p qp Hinv Hqp) Hrun)
      as (qp' & Hqp' & _ & _ & Hcount).
    apply StronglySorted_inv in Hsorted as [Hsorted Hall].
    apply NoDup_cons in Hnd as [Hnotin Hnd].
    destruct (IH (done ++ [p]) s1) as (Hinv' & Hlen' & Hall'); try assumption.
    + intros x. rewrite <- Hpr. now apply (rtc_row_step_prio p).
    + intros d t Hd Ht. apply elem_of_app in Hd as [Hd|Hd].
      * apply Hsep; [assumption | now right].
      * apply list_elem_of_singleton in Hd as ->. split.
        -- intros ->. contradiction.
        -- rewrite Forall_forall in Hall. now apply Hall.
    + intros d Hd. apply elem_of_app in Hd as [Hd|Hd].
      * destruct (Hdone d Hd) as (q & Hq & Hok). exists q. split; [|exact Hok].
        destruct (Hsep d p Hd) as [Hne Hle]; [now left|].
        apply (rtc_row_step_above p d q s s1); try assumption.
        rewrite Hpr. rewrite <- (Hpr d) in Hle. unfold prio_of in Hle.
        now rewrite Hq in Hle.
      * apply list_elem_of_singleton in Hd as ->. eauto.
    + split; [exact Hinv'|]. split.
      * rewrite Hlen'. now apply (rtc_row_step_length p).
      * intros x Hx. apply Hall'. rewrite <- app_assoc. exact Hx.
Qed.

(** ** The count after a cycle *)

Lemma row_count_delete (w : gs_flags) (l : list gs_job) (i : nat) (j : gs_job) :
  l !! i = Some j →
  (row_count w (delete i l) + (if decide (row_state j = w) then 1 else 0) =
   row_count w l)%nat.
Proof.
  intros Hi. rewrite <- (take_drop_middle l i j Hi) at 2.
  rewrite delete_take_drop, !row_count_app, row_count_cons. lia.
Qed.

Lemma row_count_le_length (w : gs_flags) (l : list gs_job) :
  (row_count w l ≤ length l)%nat.
Proof.
  induction l as [|j l IH]; [reflexivity|].
  rewrite row_count_cons. cbn [length]. case_decide; lia.
Qed.

Lemma row_count_unseated (l : list gs_job) :
  Forall unseated l → row_count GS_ACTIVE l = 0%nat ∧ row_count GS_FILLER l = 0%nat.
Proof.
  induction 1 as [|j l [Ha Hf] _ [IHa IHf]]; [split; reflexivity|].
  rewrite !row_count_cons, IHa, IHf.
  destruct (decide (row_state j = GS_ACTIVE)); [contradiction|].
  destruct (decide (row_state j = GS_FILLER)); [contradiction|]. auto.
Qed.

(** The inner loop of the cycle ends with a job at [i] that is not
    GS_ACTIVE, and leaves the jobs before [i] where they are. *)
Lemma _cycle_move_back_spec (fuel i : nat) (l l' : list gs_job) :
  (row_count GS_ACTIVE l ≤ fuel)%nat →
  _cycle_move_back fuel i l = Ok l' →
  take i l' = take i l ∧ length l' = length l ∧
  ∃ j, l' !! i = Some j ∧ row_state j ≠ GS_ACTIVE.
Proof.
  revert l. induction fuel as [|fuel IH]; intros l Hfuel H;
    cbn [_cycle_move_back] in H;
    apply obind_Ok in H as (j & Hj & H); apply array_get_Ok in Hj;
    destruct (decide (row_state j = GS_ACTIVE)) as [Hact|Hact];
    pose proof (row_count_delete GS_ACTIVE l i j Hj) as Hdel;
    try (injection H as <-; eauto).
  - rewrite decide_True in Hdel by assumption. lia.
  - rewrite decide_True in Hdel by assumption.
    assert (Hi : (i < length l)%nat) by now apply lookup_lt_Some in Hj.
    apply IH in H as (Htake & Hlen & Hex).
    + rewrite Htake, Hlen. split; [|split; [|exact Hex]].
      * rewrite delete_take_drop, <- app_assoc.
        apply take_app_length'. rewrite length_take_le; lia.
      * rewrite length_app, length_delete by eauto. simpl. lia.
    + rewrite row_count_app, row_count_cons. simpl.
      change (row_count GS_ACTIVE []) with 0%nat. lia.
Qed.

(** After the loop that re-prioritizes the job list no job is seated. *)
Lemma _cycle_reorder_loop_unseats (n i : nat) (l l' : list gs_job) :
  Forall unseated (take i l) → (i + n)%nat = length l →
  _cycle_reorder_loop n i l = Ok l' → Forall unseated l'.
Proof.
  revert i l. induction n as [|n IH]; intros i l Hpre Hlen H;
    cbn [_cycle_reorder_loop] in H.
  - injection H as <-. rewrite take_ge in Hpre by lia. exact Hpre.
  - apply obind_Ok in H as (l1 & Hl1 & H).
    apply _cycle_move_back_spec in Hl1 as (Htake & Hlen1 & j0 & Hj0 & Hact);
      [|apply row_count_le_length].
    apply obind_Ok in H as (j & Hj & H). apply array_get_Ok in Hj.
    replace j0 with j in * by congruence.
    assert (Hi : (i < length l1)%nat) by now apply lookup_lt_Some in Hj.
    apply IH in H; [exact H| |].
    + destruct (decide (row_state j = GS_FILLER)) as [Hfil|Hfil].
      * rewrite (take_S_r _ i (set_row_state GS_NO_ACTIVE j))
          by now apply list_lookup_insert_eq.
        rewrite take_insert_ge, Htake by lia.
        apply Forall_app. split; [exact Hpre|].
        constructor; [|constructor]. split; discriminate.
      * rewrite (take_S_r _ i j Hj), Htake.
        apply Forall_app. split; [exact Hpre|].
        constructor; [|constructor]. split; assumption.
    + destruct (decide (row_state j = GS_FILLER)); rewrite ?length_insert; lia.
Qed.

Section CycleCount.
Context (job_suspend : list suspend_msg → suspend_msg → Z).
Context (p_ptr : nat) (sh : list nat).

(** The shadows are counted first, as in [_update_active_row]. *)
Lemma build_shadows_counted (shs : list nat) (k n : nat) (l : list gs_job)
    (s s' : gs_state) :
  row_is p_ptr sh l (to_uint32 (Z.of_nat n)) s →
  for_index k (λ i, a <- lift (array_get shs i) ;;
                    j <- deref_job a ;; add_active j p_ptr) s = Ok (tt, s') →
  row_is p_ptr sh l (to_uint32 (Z.of_nat (n + k))) s'.
Proof.
  intros Hrow H.
  apply (for_index_inv
           (λ i t, row_is p_ptr sh l (to_uint32 (Z.of_nat (n + i))) t)
           (λ i, a <- lift (array_get shs i) ;;
                 j <- deref_job a ;; add_active j p_ptr) k) with (s := s);
    [| now rewrite Nat.add_0_r | exact H].
  intros i t t' _ Hrow1 Hrun.
  apply bind_Ok in Hrun as (a & t0 & Ha & Hrun).
  apply lift_Ok in Ha as (_ & _ & [= _ ->]).
  apply bind_Ok in Hrun as (j & t1 & Hj & Hrun).
  assert (t1 = t) as ->.
  { unfold deref_job in Hj. destruct (find_job_addr _ _); congruence. }
  apply (add_active_at _ _ _ _ _ _ _ Hrow1) in Hrun.
  rewrite (count_succ _ _ eq_refl) in Hrun.
  now replace (n + S i)%nat with (S (n + i)) by lia.
Qed.

(** One turn of the loop of [_build_active_row] over the jobs. *)
Lemma build_job_count (base i : nat) (l : list gs_job) (s s' : gs_state) :
  Forall unseated (drop i l) →
  row_is p_ptr sh l
    (to_uint32 (Z.of_nat (base + row_count GS_ACTIVE l + row_count GS_FILLER l))) s →
  (j <- get_job p_ptr i ;;
   fits <- job_fits j p_ptr ;;
   if (fits : bool) then
     add_active j p_ptr ;;; modify_job p_ptr i (set_row_state GS_ACTIVE)
   else ret tt) s = Ok (tt, s') →
  ∃ l', row_is p_ptr sh l'
          (to_uint32
             (Z.of_nat (base + row_count GS_ACTIVE l' + row_count GS_FILLER l'))) s' ∧
        job_addr <$> l' = job_addr <$> l ∧
        Forall unseated (drop (S i) l').
Proof.
  intros Hrest Hrow H.
  apply bind_Ok in H as (j & s1 & Hj & H).
  destruct (get_job_at _ _ _ _ _ _ _ _ Hrow Hj) as [-> Hlj].
  rewrite (drop_S _ _ _ Hlj) in Hrest.
  apply Forall_cons in Hrest as [[Hja Hjf] Hrest].
  apply bind_Ok in H as (fits & s1 & Hfits & H).
  apply job_fits_at in Hfits as ->. destruct fits.
  2: { apply ret_Ok in H. injection H as <-. eauto. }
  apply bind_Ok in H as ([] & s1 & Hadd & H).
  apply (add_active_at _ _ _ _ _ _ _ Hrow) in Hadd.
  apply (modify_job_at _ _ _ _ _ _ _ _ Hadd) in H as (j0 & Hj0 & H).
  replace j0 with j in * by congruence.
  rewrite (count_succ _ _ eq_refl) in H.
  exists (<[i:=set_row_state GS_ACTIVE j]> l). split; [|split].
  - rewrite (row_count_insert_new GS_ACTIVE _ _ j) by (assumption || reflexivity).
    rewrite (row_count_insert_ne GS_FILLER _ _ j) by (assumption || discriminate).
    now replace (base + S (row_count GS_ACTIVE l) + row_count GS_FILLER l)%nat
      with (S (base + row_count GS_ACTIVE l + row_count GS_FILLER l)) by lia.
  - now apply (job_addrs_insert _ _ j).
  - now rewrite drop_insert_lt by lia.
Qed.

(** One turn of the loop of [_cycle_job_list] that suspends jobs. *)
Lemma cycle_suspend_count (i : nat) (l : list gs_job) (n : Z) (s s' : gs_state) :
  (∀ a, a ∈ job_addr <$> l → a ∉ sh) →
  row_is p_ptr sh l n s →
  (j <- get_job p_ptr i ;;
   if decide (row_state j = GS_NO_ACTIVE ∧ sig_state j = GS_RESUME) then
     _signal_job job_suspend (job_id j) GS_SUSPEND ;;;
     modify_job p_ptr i (set_sig_state GS_SUSPEND) ;;;
     _clear_shadow (job_addr j)
   else ret tt) s = Ok (tt, s') →
  ∃ l', row_is p_ptr sh l' n s' ∧ job_addr <$> l' = job_addr <$> l ∧
        ∀ w, row_count w l' = row_count w l.
Proof.
  intros Hdis Hrow H.
  apply bind_Ok in H as (j & s1 & Hj & H).
  destruct (get_job_at _ _ _ _ _ _ _ _ Hrow Hj) as [-> Hlj].
  case_decide.
  2: { apply ret_Ok in H. injection H as <-. eauto. }
  apply bind_Ok in H as ([] & s1 & Hsig & H).
  apply bind_Ok in H as ([] & s2 & Hmod & H).
  apply (_signal_job_at _ _ _ _ _ _ _ _ _ Hrow) in Hsig.
  apply (modify_job_at _ _ _ _ _ _ _ _ Hsig) in Hmod as (j0 & Hj0 & Hmod).
  replace j0 with j in * by congruence.
  apply (_clear_shadow_at _ _ _ _ _ _ _ Hmod) in H.
  - exists (<[i:=set_sig_state GS_SUSPEND j]> l). split; [exact H|]. split.
    + now apply (job_addrs_insert _ _ j).
    + intros w. now apply (row_count_insert_same _ _ _ j).
  - apply Hdis, list_elem_of_fmap. exists j. split; [reflexivity|].
    now apply list_elem_of_lookup_2 in Hlj.
Qed.

(** One turn of the loop of [_cycle_job_list] that resumes jobs. *)
Lemma cycle_resume_count (i : nat) (l : list gs_job) (n : Z) (s s' : gs_state) :
  row_is p_ptr sh l n s →
  (j <- get_job p_ptr i ;;
   if decide (row_state j = GS_ACTIVE ∧ sig_state j = GS_SUSPEND) then
     _signal_job job_suspend (job_id j) GS_RESUME ;;;
     modify_job p_ptr i (set_sig_state GS_RESUME) ;;;
     p' <- get_part p_ptr ;;
     _cast_shadow (job_addr j) (priority p')
   else ret tt) s = Ok (tt, s') →
  ∃ l', row_is p_ptr sh l' n s' ∧ job_addr <$> l' = job_addr <$> l ∧
        ∀ w, row_count w l' = row_count w l.
Proof.
  intros Hrow H.
  apply bind_Ok in H as (j & s1 & Hj & H).
  destruct (get_job_at _ _ _ _ _ _ _ _ Hrow Hj) as [-> Hlj].
  case_decide.
  2: { apply ret_Ok in H. injection H as <-. eauto. }
  apply bind_Ok in H as ([] & s1 & Hsig & H).
  apply bind_Ok in H as ([] & s2 & Hmod & H).
  apply bind_Ok in H as (q & s3 & Hget & H).
  apply (_signal_job_at _ _ _ _ _ _ _ _ _ Hrow) in Hsig.
  apply (modify_job_at _ _ _ _ _ _ _ _ Hsig) in Hmod as (j0 & Hj0 & Hmod).
  replace j0 with j in * by congruence.
  apply (_cast_shadow_at _ _ _ _ _ _ _ _ _ Hmod Hget) in H.
  exists (<[i:=set_sig_state GS_RESUME j]> l). split; [exact H|]. split.
  - now apply (job_addrs_insert _ _ j).
  - intros w. now apply (row_count_insert_same _ _ _ j).
Qed.

End CycleCount.

(** [_build_active_row] on a partition that has a job, none of them
    seated: the counter is the number of the shadows and the jobs it
    seats. *)
Lemma _build_active_row_count (p_ptr : nat) (q : gs_part) (s s' : gs_state) :
  gs_part_list s !! p_ptr = Some q → job_list q ≠ [] →
  Forall unseated (job_list q) →
  _build_active_row p_ptr s = Ok (tt, s') →
  ∃ l', row_is p_ptr (shadow q) l'
          (to_uint32
             (Z.of_nat (length (shadow q) + row_count GS_ACTIVE l'
                        + row_count GS_FILLER l'))) s' ∧
        job_addr <$> l' = job_addrs q.
Proof.
  intros Hq Hne Huns H. unfold _build_active_row in H.
  apply bind_Ok in H as (q0 & s0 & Hget & H).
  apply get_part_Ok in Hget as (q1 & Hq1 & [= -> ->]).
  replace q1 with q in * by congruence. clear Hq1.
  apply bind_Ok in H as ([] & s1 & Hput & H).
  apply (set_jobs_active_at _ _ _ _ _ _ Hq eq_refl) in Hput.
  destruct (decide (num_jobs q = 0%nat)) as [Hzero|_].
  { unfold num_jobs in Hzero. destruct (job_list q); [contradiction | discriminate Hzero]. }
  apply bind_Ok in H as ([] & s2 & Hsh & H).
  apply (build_shadows_counted _ _ _ _ 0%nat _ _ _ Hput) in Hsh.
  destruct (row_count_unseated _ Huns) as [Hact Hfil].
  pose (I := λ (k : nat) (t : gs_state),
          ∃ l', row_is p_ptr (shadow q) l'
                  (to_uint32
                     (Z.of_nat (0 + num_shadows q + row_count GS_ACTIVE l'
                                + row_count GS_FILLER l'))) t ∧
                job_addr <$> l' = job_addrs q ∧
                Forall unseated (drop k l')).
  assert (HI : I (num_jobs q) s').
  { refine (for_index_inv I _ (num_jobs q) _ s2 s' _ H).
    - intros k t t' _ (l1 & Hrow1 & Ha1 & Hrest1) Hrun.
      destruct (build_job_count p_ptr (shadow q) (0 + num_shadows q) k l1 t t'
                  Hrest1 Hrow1 Hrun) as (l2 & Hrow2 & Ha2 & Hrest2).
      exists l2. split; [exact Hrow2|]. split; [congruence | exact Hrest2].
    - exists (job_list q). rewrite Hact, Hfil, !Nat.add_0_r. auto. }
  destruct HI as (l' & Hrow' & Ha' & _). eauto.
Qed.

(** After [_cycle_job_list] on a partition that has a job the counter of
    the partition is the number of its shadows and seated jobs, as far as
    32 bits go. *)
Lemma _cycle_job_list_count (job_suspend : list suspend_msg → suspend_msg → Z)
    (p_ptr : nat) (q : gs_part) (s s' : gs_state) :
  gs_part_list s !! p_ptr = Some q → job_list q ≠ [] → own_disjoint q →
  _cycle_job_list job_suspend p_ptr s = Ok (tt, s') →
  ∃ q', gs_part_list s' !! p_ptr = Some q' ∧ active_count_ok32 q'.
Proof.
  intros Hq Hne Hdis H. unfold _cycle_job_list in H.
  apply bind_Ok in H as (q0 & s0 & Hget & H).
  apply get_part_Ok in Hget as (q1 & Hq1 & [= -> ->]).
  replace q1 with q in * by congruence. clear Hq1.
  apply bind_Ok in H as (l & s0 & Hl & H).
  apply lift_Ok in Hl as (l0 & Hl & [= -> ->]).
  pose proof (_cycle_reorder_loop_addrs _ _ _ _ Hl) as Hperm.
  apply _cycle_reorder_loop_unseats in Hl; [|constructor|reflexivity].
  apply bind_Ok in H as ([] & s1 & Hput & H).
  apply put_part_Ok in Hput. injection Hput as ->.
  apply bind_Ok in H as ([] & s2 & Hbuild & H).
  apply (_build_active_row_count p_ptr (set_job_list l0 q)) in Hbuild
    as (l1 & Hrow1 & Ha1).
  2: { simpl. apply list_lookup_insert_eq. now apply lookup_lt_Some in Hq. }
  2: { simpl. intros ->. apply Permutation_nil_l in Hperm. symmetry in Hperm.
       apply fmap_nil_inv in Hperm. contradiction. }
  2: { exact Hl. }
  cbn [shadow set_job_list] in Hrow1.
  unfold job_addrs in Ha1. cbn [job_list set_job_list] in Ha1.
  assert (Hdis1 : ∀ l', job_addr <$> l' = job_addr <$> l0 →
                        ∀ a, a ∈ job_addr <$> l' → a ∉ shadow q).
  { intros l' -> a Ha. apply Hdis. unfold job_addrs. now rewrite <- Hperm. }
  pose (I := λ (t : gs_state),
          ∃ l', row_is p_ptr (shadow q) l'
                  (to_uint32
                     (Z.of_nat (length (shadow q) + row_count GS_ACTIVE l1
                                + row_count GS_FILLER l1))) t ∧
                job_addr <$> l' = job_addr <$> l0 ∧
                ∀ w, row_count w l' = row_count w l1).
  apply bind_Ok in H as ([] & s3 & Hsusp & H).
  assert (HI3 : I s3).
  { refine (for_each_inv I _ _ _ s2 s3 _ Hsusp).
    - intros k t t' _ (l2 & Hrow2 & Ha2 & Hc2) Hrun.
      destruct (cycle_suspend_count job_suspend p_ptr (shadow q) k l2 _ t t'
                  (Hdis1 l2 Ha2) Hrow2 Hrun) as (l3 & Hrow3 & Ha3 & Hc3).
      exists l3. split; [exact Hrow3|]. split; [congruence|].
      intros w. now rewrite Hc3.
    - exists l1. auto. }
  assert (HI : I s').
  { refine (for_each_inv I _ _ _ s3 s' HI3 H).
    intros k t t' _ (l2 & Hrow2 & Ha2 & Hc2) Hrun.
    destruct (cycle_resume_count job_suspend p_ptr (shadow q) k l2 _ t t'
                Hrow2 Hrun) as (l3 & Hrow3 & Ha3 & Hc3).
    exists l3. split; [exact Hrow3|]. split; [congruence|].
    intros w. now rewrite Hc3. }
  destruct HI as (l' & (q' & Hq' & Hs' & Hl' & Hn') & _ & Hc').
  exists q'. split; [exact Hq'|].
  unfold active_count_ok32. rewrite Hn', seated_count_rows, Hl', !Hc'.
  unfold num_shadows. rewrite Hs'. f_equal. lia.
Qed.

(** After [_update_all_active_rows] every counter is right. *)
Lemma _update_all_active_rows_count
    (job_suspend : list suspend_msg → suspend_msg → Z) (s s' : gs_state) :
  gs_inv s → gs_part_list s ≠ [] → sorted_array_ok s →
  _update_all_active_rows job_suspend s = Ok (tt, s') →
  ∀ p q, gs_part_list s' !! p = Some q → active_count_ok32 q.
Proof.
  intros Hinv Hne Hok H.
  destruct (_sort_partitions_spec s Hne Hok) as (sorted & Hsort & Hperm & Hdesc).
  rewrite (_update_all_active_rows_in_order job_suspend s sorted Hsort Hperm) in H.
  destruct (rebuild_in_order_count job_suspend (prio_of (gs_part_list s))
              sorted [] (set_part_sorted sorted (length (gs_part_list s)) s) s')
    as (_ & Hlen & Hall).
  - now apply (inv_same_parts s).
  - reflexivity.
  - exact Hdesc.
  - rewrite Hperm. apply NoDup_seq.
  - intros d t Hd. now apply elem_of_nil in Hd.
  - intros d Hd. now apply elem_of_nil in Hd.
  - exact H.
  - intros p q Hq. destruct (Hall p) as (q' & Hq' & Hcount).
    + cbn [app]. rewrite Hperm. apply elem_of_seq.
      apply lookup_lt_Some in Hq. rewrite Hlen in Hq. simpl in Hq. lia.
    + now replace q with q' by congruence.
Qed.

(** ** The programs that leave the partition array in its shape *)

Lemma shape_ret {A} (a : A) : keeps_shape (ret a).
Proof. intros s b s' H. apply ret_Ok in H. now injection H as _ <-. Qed.

Lemma shape_bind {A B} (m : M A) (k : A → M B) :
  keeps_shape m → (∀ a, keeps_shape (k a)) → keeps_shape (bind m k).
Proof.
  intros Hm Hk s b s' H. apply bind_Ok in H as (a & s1 & H1 & H2).
  rewrite (Hk a _ _ _ H2). exact (Hm _ _ _ H1).
Qed.

Lemma shape_lift {A} (o : outcome A) : keeps_shape (lift o).
Proof. intros s b s' H. apply lift_Ok in H as (a & _ & [= _ <-]). reflexivity. Qed.

Lemma shape_gets {A} (f : gs_state → A) : keeps_shape (gets f).
Proof. intros s b s' H. apply gets_Ok in H. now injection H as _ <-. Qed.

Lemma shape_get_state : keeps_shape get_state.
Proof. intros s b s' H. apply get_state_Ok in H. now injection H as _ <-. Qed.

Lemma shape_get_part (p_ptr : nat) : keeps_shape (get_part p_ptr).
Proof.
  intros s b s' H. apply get_part_Ok in H as (q & _ & [= _ <-]). reflexivity.
Qed.

Lemma shape_deref_job (a : nat) : keeps_shape (deref_job a).
Proof.
  intros s b s' H. unfold deref_job in H.
  destruct (find_job_addr _ _); [|discriminate]. now injection H as _ <-.
Qed.

Lemma shape_modify (f : gs_state → gs_state) :
  (∀ s, shape (f s) = shape s) → keeps_shape (modify f).
Proof. intros Hf s b s' H. apply modify_Ok in H. injection H as _ ->. apply Hf. Qed.

Lemma shape_put_part (p_ptr : nat) (q : gs_part) : keeps_shape (put_part p_ptr q).
Proof.
  apply shape_modify. intros s. unfold shape. simpl. now rewrite length_insert.
Qed.

Lemma shape__cast_shadow (a : nat) (prio : Z) : keeps_shape (_cast_shadow a prio).
Proof.
  apply shape_modify. intros s. unfold shape. simpl. now rewrite length_map.
Qed.

Lemma shape__clear_shadow (a : nat) : keeps_shape (_clear_shadow a).
Proof.
  apply shape_modify. intros s. unfold shape. simpl. now rewrite length_map.
Qed.

Lemma shape__signal_job (rc : list suspend_msg → suspend_msg → Z) (jid : Z)
    (sig : gs_flags) :
  keeps_shape (_signal_job rc jid sig).
Proof.
  intros s b s' H. apply _signal_job_Ok in H as (? & ? & [= _ ->]). reflexivity.
Qed.

Lemma shape_xmalloc_job : keeps_shape xmalloc_job.
Proof. intros s b s' H. unfold xmalloc_job in H. now injection H as _ <-. Qed.

Lemma shape_for_each {A} (l : list A) (body : A → M unit) :
  (∀ x, keeps_shape (body x)) → keeps_shape (for_each l body).
Proof.
  intros Hbody s [] s' H.
  apply (for_each_inv (λ t, shape t = shape s) l body) with (s := s);
    [|reflexivity|assumption].
  intros x t t' _ Ht Hrun. now rewrite (Hbody x t tt t' Hrun).
Qed.

Ltac shape_step :=
  lazymatch goal with
  | |- keeps_shape (bind _ _) => apply shape_bind; [|intros ?]
  | |- keeps_shape (ret _) => apply shape_ret
  | |- keeps_shape (lift _) => apply shape_lift
  | |- keeps_shape (gets _) => apply shape_gets
  | |- keeps_shape get_state => apply shape_get_state
  | |- keeps_shape (get_part _) => apply shape_get_part
  | |- keeps_shape (deref_job _) => apply shape_deref_job
  | |- keeps_shape (put_part _ _) => apply shape_put_part
  | |- keeps_shape (_cast_shadow _ _) => apply shape__cast_shadow
  | |- keeps_shape (_clear_shadow _) => apply shape__clear_shadow
  | |- keeps_shape (_signal_job _ _ _) => apply shape__signal_job
  | |- keeps_shape xmalloc_job => apply shape_xmalloc_job
  | |- keeps_shape (_find_gs_part _) => apply shape_gets
  | |- keeps_shape (for_each _ _) => apply shape_for_each; intros ?
  | |- keeps_shape (for_index _ _) => apply shape_for_each; intros ?
  | |- keeps_shape (if ?b then _ else _) => destruct b
  | |- keeps_shape (match ?x with _ => _ end) => destruct x
  end.

Section Shape.
Context (node_record_table_ptr : list node_record).
Context (select_g_get_job_cores : Z → nat → nat → Z).
Context (job_suspend : list suspend_msg → suspend_msg → Z).

Lemma shape_get_job (p_ptr i : nat) : keeps_shape (get_job p_ptr i).
Proof. unfold get_job. repeat shape_step. Qed.

Lemma shape_modify_job (p_ptr i : nat) (f : gs_job → gs_job) :
  keeps_shape (modify_job p_ptr i f).
Proof. unfold modify_job. repeat shape_step. Qed.

Lemma shape_job_fits (j : gs_job) (p_ptr : nat) : keeps_shape (job_fits j p_ptr).
Proof. unfold job_fits. repeat shape_step. Qed.

Lemma shape_add_active (j : gs_job) (p_ptr : nat) : keeps_shape (add_active j p_ptr).
Proof. unfold add_active. repeat shape_step. Qed.

Lemma shape__update_active_row (p_ptr : nat) (b : bool) :
  keeps_shape (_update_active_row job_suspend p_ptr b).
Proof.
  unfold _update_active_row, _update_seated_job, _update_new_job.
  repeat first [ apply shape_get_job | apply shape_modify_job
               | apply shape_job_fits | apply shape_add_active | shape_step ].
Qed.

Lemma shape__remove_job_from_part (jid : Z) (p_ptr : option nat) :
  keeps_shape (_remove_job_from_part job_suspend jid p_ptr).
Proof.
  unfold _remove_job_from_part.
  repeat first [ apply shape_get_job | shape_step ].
Qed.

Lemma shape__add_job_to_part (p_ptr : nat) (jid : Z) (job_bitmap : bitstr) :
  keeps_shape (_add_job_to_part node_record_table_ptr select_g_get_job_cores
                 job_suspend p_ptr jid job_bitmap).
Proof.
  unfold _add_job_to_part.
  repeat first [ apply shape__remove_job_from_part | apply shape__update_active_row
               | apply shape_get_job | apply shape_modify_job
               | apply shape_job_fits | apply shape_add_active | shape_step ].
Qed.

Lemma shape__scan_slurm_job (job_ptr : job_record) :
  keeps_shape (_scan_slurm_job node_record_table_ptr select_g_get_job_cores
                 job_suspend job_ptr).
Proof.
  unfold _scan_slurm_job.
  repeat first [ apply shape__remove_job_from_part | apply shape__add_job_to_part
               | shape_step ].
Qed.

End Shape.

Lemma shape_sorted_array_ok (s s' : gs_state) :
  shape s' = shape s → sorted_array_ok s → sorted_array_ok s'.
Proof.
  unfold shape, sorted_array_ok. intros [= Hlen Hsorted Hnum] Hok.
  rewrite Hlen, Hsorted, Hnum. exact Hok.
Qed.

Lemma shape_parts_nonempty (s s' : gs_state) :
  shape s' = shape s → gs_part_list s ≠ [] → gs_part_list s' ≠ [].
Proof.
  unfold shape. intros [= Hlen _ _] Hne Hnil. rewrite Hnil in Hlen.
  destruct (gs_part_list s); [contradiction | discriminate].
Qed.

(** ** A new job that does not fit *)

Lemma put_part_other (p_ptr p' : nat) (q : gs_part) (s s' : gs_state) :
  put_part p_ptr q s = Ok (tt, s') → p' ≠ p_ptr →
  gs_part_list s' !! p' = gs_part_list s !! p'.
Proof.
  intros H Hne. apply put_part_Ok in H. injection H as ->. simpl.
  now rewrite list_lookup_insert_ne by congruence.
Qed.

Lemma modify_job_other (p_ptr p' i : nat) (f : gs_job → gs_job) (s s' : gs_state) :
  modify_job p_ptr i f s = Ok (tt, s') → p' ≠ p_ptr →
  gs_part_list s' !! p' = gs_part_list s !! p'.
Proof.
  intros H Hne. apply modify_job_Ok in H as (q & j & _ & _ & [= ->]). simpl.
  now rewrite list_lookup_insert_ne by congruence.
Qed.

Lemma xmalloc_job_Ok (s s' : gs_state) (a : nat) :
  xmalloc_job s = Ok (a, s') → gs_part_list s' = gs_part_list s.
Proof. unfold xmalloc_job. now intros [= _ <-]. Qed.

Lemma load_cpus_state (g : entity_type) (o : outcome (list Z)) (s s' : gs_state)
    (r : option (list Z)) :
  match g with
  | GS_CORE | GS_CPU => arr <- lift o ;; ret (Some arr)
  | GS_NODE | GS_SOCKET => ret None
  end s = Ok (r, s') → s' = s.
Proof.
  destruct g; intros H;
    try (apply ret_Ok in H; now injection H as _ <-);
    apply bind_Ok in H as (arr & s1 & Ho & H);
    apply lift_Ok in Ho as (_ & _ & [= _ ->]);
    apply ret_Ok in H; now injection H as _ <-.
Qed.

Section NewJob.
Context (node_record_table_ptr : list node_record).
Context (select_g_get_job_cores : Z → nat → nat → Z).
Context (job_suspend : list suspend_msg → suspend_msg → Z).

(** A job that is new in its partition is seated and returned as running,
    or it is left unseated and every counter stays right. *)
Lemma _add_job_to_part_new_count (p_ptr : nat) (jid : Z) (job_bitmap : bitstr)
    (q : gs_part) (s s' : gs_state) (st : gs_flags) :
  gs_part_list s !! p_ptr = Some q → _find_job_index q jid = None →
  all_counts_ok s →
  _add_job_to_part node_record_table_ptr select_g_get_job_cores job_suspend
    p_ptr jid job_bitmap s = Ok (st, s') →
  st = GS_RESUME ∨ all_counts_ok s'.
Proof.
  intros Hq Hfind Hcount H. unfold _add_job_to_part in H.
  apply bind_Ok in H as (q0 & s0 & Hget & H).
  apply get_part_Ok in Hget as (q1 & Hq1 & [= -> ->]).
  replace q1 with q in * by congruence. clear Hq1. rewrite Hfind in H.
  apply bind_Ok in H as ([] & s0 & Hret & H).
  apply ret_Ok in Hret. injection Hret as <-.
  apply bind_Ok in H as (addr & s1 & Hx & H). apply xmalloc_job_Ok in Hx.
  apply bind_Ok in H as (st0 & s2 & Hst & H).
  apply get_state_Ok in Hst. injection Hst as -> ->.
  apply bind_Ok in H as (jmap & s2 & Hmap & H).
  apply lift_Ok in Hmap as (jmap0 & _ & [= -> ->]).
  apply bind_Ok in H as (jcpus & s2 & Hcpus & H).
  apply load_cpus_state in Hcpus as ->.
  apply bind_Ok in H as (q3 & s3 & Hget & H).
  apply get_part_Ok in Hget as (q2 & Hq2 & [= -> ->]).
  rewrite Hx in Hq2. replace q2 with q in * by congruence. clear Hq2.
  set (j := mk_gs_job addr jid GS_RESUME GS_NO_ACTIVE jmap0 jcpus) in *.
  apply bind_Ok in H as ([] & s3 & Hput & H).
  assert (Hq1 : gs_part_list s1 !! p_ptr = Some q) by now rewrite Hx.
  pose proof (set_job_list_at _ _ _ _ _ _ Hq1 eq_refl Hput) as Hrow.
  apply bind_Ok in H as (fits & s4 & Hfits & H).
  apply job_fits_at in Hfits as ->.
  apply bind_Ok in H as ([] & s5 & Hbranch & H).
  apply bind_Ok in H as (j' & s6 & Hj' & H).
  apply ret_Ok in H. injection H as -> ->.
  assert (Hlast : (job_list q ++ [j]) !! num_jobs q = Some j).
  { unfold num_jobs. now rewrite list_lookup_middle. }
  assert (Hlt : (num_jobs q < length (job_list q ++ [j]))%nat)
    by now apply lookup_lt_Some in Hlast.
  destruct fits.
  - left.
    apply bind_Ok in Hbranch as ([] & s4 & Hadd & Hbranch).
    apply bind_Ok in Hbranch as ([] & s7 & Hmod & Hbranch).
    apply bind_Ok in Hbranch as (q4 & s8 & Hget & Hcast).
    apply (add_active_at _ _ _ _ _ _ _ Hrow) in Hadd.
    apply (modify_job_at _ _ _ _ _ _ _ _ Hadd) in Hmod as (j0 & Hj0 & Hmod).
    replace j0 with j in * by congruence.
    apply (_cast_shadow_at _ _ _ _ _ _ _ _ _ Hmod Hget) in Hcast.
    destruct (get_job_at _ _ _ _ _ _ _ _ Hcast Hj') as [-> Hlj].
    rewrite list_lookup_insert_eq in Hlj by assumption.
    now injection Hlj as <-.
  - right.
    apply bind_Ok in Hbranch as ([] & s4 & Hsig & Hmod).
    pose proof (_signal_job_at _ _ _ _ _ _ _ _ _ Hrow Hsig) as Hrow4.
    destruct (modify_job_at _ _ _ _ _ _ _ _ Hrow4 Hmod) as (j0 & Hj0 & Hrow5).
    replace j0 with j in * by congruence.
    destruct (get_job_at _ _ _ _ _ _ _ _ Hrow5 Hj') as [-> _].
    intros p' q' Hq'. destruct (decide (p' = p_ptr)) as [->|Hne].
    + destruct Hrow5 as (q5 & Hq5 & Hs5 & Hl5 & Hn5).
      replace q' with q5 in * by congruence.
      pose proof (Hcount p_ptr q Hq) as Hold. unfold active_count_ok32 in *.
      rewrite Hn5, Hold, !seated_count_rows, Hl5. unfold num_shadows.
      rewrite Hs5.
      rewrite !(row_count_insert_same _ _ _ j) by (assumption || reflexivity).
      rewrite !row_count_app.
      change (row_count GS_ACTIVE [j]) with 0%nat.
      change (row_count GS_FILLER [j]) with 0%nat. f_equal. lia.
    + apply (Hcount p'). rewrite <- Hq', <- Hx.
      rewrite <- (put_part_other _ _ _ _ _ Hput Hne).
      apply _signal_job_Ok in Hsig as (? & ? & [= ->]).
      now rewrite (modify_job_other _ _ _ _ _ _ Hmod Hne).
Qed.

End NewJob.

(** ** The hooks that end with a rebuild of all rows *)

Section Hooks.
Context (node_record_table_ptr : list node_record).
Context (select_g_get_job_cores : Z → nat → nat → Z).
Context (job_suspend : list suspend_msg → suspend_msg → Z).

Lemma gs_job_fini_count (job_ptr : job_record) (s s' : gs_state) :
  gs_inv s → sorted_array_ok s → gs_part_list s ≠ [] → all_counts_ok s →
  gs_job_fini job_suspend job_ptr s = Ok (tt, s') → all_counts_ok s'.
Proof.
  intros Hinv Hok Hne Hcount H. unfold gs_job_fini in H.
  apply bind_Ok in H as (p_ptr & s0 & Hfind & H).
  apply gets_Ok in Hfind. injection Hfind as -> ->.
  destruct (_find_gs_part_from _ _ _) as [p|].
  2: { apply ret_Ok in H. now injection H as <-. }
  apply bind_Ok in H as ([] & s1 & Hrem & H).
  pose proof (shape__remove_job_from_part job_suspend _ _ _ _ _ Hrem) as Hshape.
  refine (_update_all_active_rows_count job_suspend s1 s' _ _ _ H).
  - exact (keeps__remove_job_from_part job_suspend _ _ _ _ _ Hinv Hrem).
  - now apply (shape_parts_nonempty s).
  - now apply (shape_sorted_array_ok s).
Qed.

Lemma keeps__scan_slurm_job (job_ptr : job_record) :
  keeps_inv (_scan_slurm_job node_record_table_ptr select_g_get_job_cores
               job_suspend job_ptr).
Proof.
  unfold _scan_slurm_job.
  repeat first [ apply keeps__add_job_to_part | apply keeps__remove_job_from_part
               | keeps_step ].
Qed.

Lemma _scan_slurm_job_list_count (l : option (list job_record)) (s s' : gs_state) :
  gs_inv s → sorted_array_ok s → gs_part_list s ≠ [] → all_counts_ok s →
  _scan_slurm_job_list node_record_table_ptr select_g_get_job_cores job_suspend
    l s = Ok (tt, s') →
  all_counts_ok s'.
Proof.
  intros Hinv Hok Hne Hcount H. unfold _scan_slurm_job_list in H.
  destruct l as [l|].
  2: { apply ret_Ok in H. now injection H as <-. }
  apply bind_Ok in H as ([] & s1 & Hscan & H).
  assert (Hshape : shape s1 = shape s).
  { apply (shape_for_each l _) in Hscan; [exact Hscan|].
    intros job_ptr. apply shape__scan_slurm_job. }
  refine (_update_all_active_rows_count job_suspend s1 s' _ _ _ H).
  - apply (keeps_for_each l _) in Hscan; [exact Hscan| |exact Hinv].
    intros job_ptr. apply keeps__scan_slurm_job.
  - now apply (shape_parts_nonempty s).
  - now apply (shape_sorted_array_ok s).
Qed.

Lemma gs_job_start_count (job_ptr : job_record) (s s' : gs_state) :
  gs_inv s → sorted_array_ok s → gs_part_list s ≠ [] → all_counts_ok s →
  new_job s job_ptr →
  gs_job_start node_record_table_ptr select_g_get_job_cores job_suspend
    job_ptr s = Ok (tt, s') →
  all_counts_ok s'.
Proof.
  intros Hinv Hok Hne Hcount Hnew H. unfold gs_job_start in H.
  apply bind_Ok in H as (p_ptr & s0 & Hfind & H).
  apply gets_Ok in Hfind. injection Hfind as -> ->.
  destruct (_find_gs_part_from _ _ _) as [p|] eqn:Hp.
  2: { apply ret_Ok in H. now injection H as <-. }
  apply bind_Ok in H as (st & s1 & Hadd & H).
  assert (∃ q, gs_part_list s !! p = Some q) as (q & Hq).
  { unfold _add_job_to_part in Hadd.
    apply bind_Ok in Hadd as (q0 & s0 & Hget & _).
    apply get_part_Ok in Hget as (q1 & Hq1 & _). eauto. }
  pose proof (_add_job_to_part_new_count _ _ _ _ _ _ _ _ _ _ Hq
                (Hnew p q Hp Hq) Hcount Hadd) as Hst.
  pose proof (shape__add_job_to_part _ _ _ _ _ _ _ _ _ Hadd) as Hshape.
  destruct (decide (st = GS_RESUME)) as [_|Hsusp].
  - refine (_update_all_active_rows_count job_suspend s1 s' _ _ _ H).
    + exact (keeps__add_job_to_part _ _ _ _ _ _ _ _ _ Hinv Hadd).
    + now apply (shape_parts_nonempty s).
    + now apply (shape_sorted_array_ok s).
  - apply ret_Ok in H. injection H as <-. destruct Hst; [contradiction|assumption].
Qed.

Lemma _update_all_active_rows_length (s s' : gs_state) :
  _update_all_active_rows job_suspend s = Ok (tt, s') →
  length (gs_part_list s') = length (gs_part_list s).
Proof.
  intros H. unfold _update_all_active_rows in H.
  apply bind_Ok in H as ([] & s0 & Hsort & H).
  unfold _sort_partitions in Hsort. apply obind_Ok in Hsort as (l & _ & [= <-]).
  apply bind_Ok in H as (n & s1 & Hn & H).
  apply gets_Ok in Hn. injection Hn as -> ->.
  refine (for_each_inv
            (λ t, length (gs_part_list t) = length (gs_part_list s)) _ _ _
            (set_part_sorted l (length (gs_part_list s)) s) s' eq_refl H).
  intros i t t' _ Ht Hrun.
  apply bind_Ok in Hrun as (sorted & t0 & Hs & Hrun).
  apply gets_Ok in Hs. injection Hs as -> ->.
  apply bind_Ok in Hrun as (p & t0 & Hp & Hrun).
  apply lift_Ok in Hp as (_ & _ & [= _ ->]).
  apply shape__update_active_row in Hrun. unfold shape in Hrun.
  injection Hrun as Hlen _ _. congruence.
Qed.

Lemma keeps__reconfig_part (l : option (list job_record)) (p : gs_part) :
  keeps_inv (_reconfig_part node_record_table_ptr select_g_get_job_cores
               job_suspend l p).
Proof.
  unfold _reconfig_part.
  repeat first [ apply keeps__add_job_to_part | keeps_step ].
Qed.

Lemma shape__reconfig_part (l : option (list job_record)) (p : gs_part) :
  keeps_shape (_reconfig_part node_record_table_ptr select_g_get_job_cores
                 job_suspend l p).
Proof.
  unfold _reconfig_part.
  repeat first [ apply shape__add_job_to_part | shape_step ].
Qed.

(** With no job list of slurmctld no job is moved to the new partitions. *)
Lemma _reconfig_part_none (p : gs_part) (s s' : gs_state) :
  _reconfig_part node_record_table_ptr select_g_get_job_cores job_suspend
    None p s = Ok (tt, s') →
  gs_part_list s' = gs_part_list s.
Proof.
  intros H. unfold _reconfig_part in H.
  apply bind_Ok in H as (newp & s0 & Hfind & H).
  apply gets_Ok in Hfind. injection Hfind as -> ->.
  destruct (_find_gs_part_from _ _ _);
    refine (for_each_inv (λ t, gs_part_list t = gs_part_list s) _ _ _ _ s'
              eq_refl H);
    intros j t t' _ Ht Hrun.
  - cbn [find_job_record] in Hrun. apply ret_Ok in Hrun. now injection Hrun as <-.
  - case_decide.
    + apply _signal_job_Ok in Hrun as (? & ? & [= ->]). exact Ht.
    + apply ret_Ok in Hrun. now injection Hrun as <-.
Qed.

Lemma gs_reconfig_count (part_list : list part_record)
    (l : option (list job_record)) (s s' : gs_state) :
  gs_inv s →
  gs_reconfig node_record_table_ptr select_g_get_job_cores job_suspend
    part_list l s = Ok (tt, s') →
  all_counts_ok s'.
Proof.
  intros Hinv H. unfold gs_reconfig in H.
  apply bind_Ok in H as (old & s0 & Hold & H).
  apply gets_Ok in Hold. injection Hold as -> ->.
  apply bind_Ok in H as ([] & s1 & Hbuild & H).
  pose proof (keeps__build_parts _ _ _ _ Hinv Hbuild) as Hinv1.
  apply modify_Ok in Hbuild. injection Hbuild as Hs1.
  assert (Hparts1 : gs_part_list s1 =
            map (λ r, mk_gs_part (pr_name r) (to_uint16 (pr_priority r)) [] [] 0
                        None None) part_list) by now rewrite Hs1.
  assert (Hnum1 : num_sorted_part s1 = 0%nat) by now rewrite Hs1.
  clear Hs1.
  apply bind_Ok in H as ([] & s2 & Hold & H).
  assert (Hinv2 : gs_inv s2).
  { apply (keeps_for_each _ _) in Hold; [exact Hold| |exact Hinv1].
    intros p. apply keeps__reconfig_part. }
  assert (Hshape2 : shape s2 = shape s1).
  { apply (shape_for_each _ _) in Hold; [exact Hold|].
    intros p. apply shape__reconfig_part. }
  destruct l as [l|].
  - unfold _scan_slurm_job_list in H.
    apply bind_Ok in H as ([] & s3 & Hscan & H).
    assert (Hinv3 : gs_inv s3).
    { apply (keeps_for_each _ _) in Hscan; [exact Hscan| |exact Hinv2].
      intros job_ptr. apply keeps__scan_slurm_job. }
    assert (Hshape3 : shape s3 = shape s1).
    { rewrite <- Hshape2. apply (shape_for_each _ _) in Hscan; [exact Hscan|].
      intros job_ptr. apply shape__scan_slurm_job. }
    unfold shape in Hshape3. injection Hshape3 as Hlen3 _ Hnum3.
    destruct part_list as [|r part_list].
    + apply _update_all_active_rows_length in H.
      rewrite Hlen3, Hparts1 in H. intros p q Hq.
      apply lookup_lt_Some in Hq. rewrite H in Hq. simpl in Hq. lia.
    + refine (_update_all_active_rows_count job_suspend s3 s' Hinv3 _ _ H).
      * intros Hnil. rewrite Hnil, Hparts1 in Hlen3. discriminate.
      * intros Heq. rewrite Hnum3, Hnum1, Hlen3, Hparts1 in Heq. discriminate.
  - apply ret_Ok in H. injection H as ->.
    assert (Hparts2 : gs_part_list s2 = gs_part_list s1).
    { refine (for_each_inv (λ t, gs_part_list t = gs_part_list s1) _ _ _ _ s2
                eq_refl Hold).
      intros p t t' _ Ht Hrun. apply _reconfig_part_none in Hrun. congruence. }
    intros p q Hq. rewrite Hparts2, Hparts1, lookup_map in Hq.
    destruct (part_list !! p); [|discriminate]. injection Hq as <-. reflexivity.
Qed.

End Hooks.

(** ** The counter of the active row *)

(** The 32 bits of the counter hold the number itself when the partition
    has fewer than 2^32 shadows and seated jobs. *)
Lemma active_count_ok32_exact (q : gs_part) :
  Z.of_nat (seated_count q + num_shadows q) < 4294967296 →
  active_count_ok32 q → active_count_ok q.
Proof.
  unfold active_count_ok32, active_count_ok. intros Hlt ->.
  apply to_uint32_small. lia.
Qed.

(** C2, as it is written: the counter of the active row is the number of
    the seated jobs plus the number of the shadows after every operation,
    in particular after a cycle of a partition that has shadows and no job.
    This fails. Job 7 starts in the partition "high" and casts its shadow on
    the empty partition "low", whose counter [gs_job_start] sets to 1; the
    cycle of "low" then sets the counter to 0 in [_build_active_row], which
    returns at once for a partition without jobs, and the shadow stays. *)
Lemma cycle_without_jobs_counterexample :
  ∃ s1 s2 q1 q2,
    gs_job_start S1.nodes (λ _ _ _, 0) (λ _ _, 0)
      (mk_job_record 7 "high" JOB_RUNNING [true; false]) two_empty_parts_state
      = Ok (tt, s1) ∧
    gs_part_list s1 !! 1%nat = Some q1 ∧
    job_list q1 = [] ∧ shadow q1 = [0%nat] ∧ active_count_ok q1 ∧
    _cycle_job_list (λ _ _, 0) 1 s1 = Ok (tt, s2) ∧
    gs_part_list s2 !! 1%nat = Some q2 ∧
    job_list q2 = [] ∧ shadow q2 = [0%nat] ∧ jobs_active q2 = 0 ∧
    ¬ active_count_ok q2 ∧ ¬ active_count_ok32 q2.
Proof.
  do 4 eexists.
  split; [vm_compute; reflexivity|]. split; [reflexivity|].
  split; [reflexivity|]. split; [reflexivity|]. split; [reflexivity|].
  split; [vm_compute; reflexivity|]. split; [reflexivity|].
  split; [reflexivity|]. split; [reflexivity|]. split; [reflexivity|].
  split; vm_compute; discriminate.
Qed.

(** C2, amended: in a state that keeps the invariant of the shadows, with
    at least one partition and a sorted array that holds every partition
    once, the counter of the active row is the number of the seated jobs
    plus the number of the shadows, as far as its 32 bits go, for every
    partition after [_update_all_active_rows] and [gs_reconfig]; for every
    partition after [gs_job_fini], [gs_job_scan] and the [gs_job_start] of
    a job that is new in its partition, when the counters were right
    before; and for the partition itself after [_update_active_row] and
    after the [_cycle_job_list] of a partition that has a job. *)
Theorem active_count_after_operation
    (node_record_table_ptr : list node_record)
    (select_g_get_job_cores : Z → nat → nat → Z)
    (job_suspend : list suspend_msg → suspend_msg → Z)
    (op : gs_op) (s s' : gs_state) (r : option gs_flags) :
  gs_inv s → sorted_array_ok s → gs_part_list s ≠ [] →
  run_op node_record_table_ptr select_g_get_job_cores job_suspend op s = Ok (r, s') →
  counters_after op s s'.
Proof.
  intros Hinv Hok Hne H. destruct op; unfold run_op in H;
    apply bind_Ok in H as (x & s1 & H & Hret);
    apply ret_Ok in Hret; injection Hret as _ <-; try destruct x;
    cbn [counters_after]; try exact I.
  - intros q Hq.
    assert (∃ q0, gs_part_list s !! p_ptr = Some q0) as (q0 & Hq0).
    { unfold _update_active_row in H.
      apply bind_Ok in H as (q0 & s0 & Hget & _).
      apply get_part_Ok in Hget as (q1 & Hq1 & _). eauto. }
    destruct (_update_active_row_count job_suspend p_ptr add_new_jobs q0 s s' Hq0
                (inv_own_disjoint s p_ptr q0 Hinv Hq0) H)
      as (q' & Hq' & _ & _ & Hcount).
    now replace q with q' by congruence.
  - exact (_update_all_active_rows_count job_suspend s s' Hinv Hne Hok H).
  - intros q0 Hq0 Hjobs q Hq.
    destruct (_cycle_job_list_count job_suspend p_ptr q0 s s' Hq0 Hjobs
                (inv_own_disjoint s p_ptr q0 Hinv Hq0) H) as (q' & Hq' & Hcount).
    now replace q with q' by congruence.
  - intros Hcount Hnew.
    exact (gs_job_start_count _ _ _ _ _ _ Hinv Hok Hne Hcount Hnew H).
  - intros Hcount. exact (gs_job_fini_count _ _ _ _ Hinv Hok Hne Hcount H).
  - intros Hcount.
    exact (_scan_slurm_job_list_count _ _ _ _ _ _ Hinv Hok Hne Hcount H).
  - exact (gs_reconfig_count _ _ _ _ _ _ _ Hinv H).
Qed.

Lemma two_empty_parts_state_inv : gs_inv two_empty_parts_state.
Proof.
  split; [repeat split|].
  - intros [|[|p]] q Hq; simpl in Hq; simplify_eq; constructor.
  - intros [|[|p1]] [|[|p2]] q1 q2 a Hq1 Hq2 Ha1 Ha2; simpl in *; simplify_eq;
      try reflexivity; inversion Ha1.
  - intros [|[|p]] q a Hq Ha; simpl in Hq; simplify_eq; inversion Ha.
  - intros [|[|p]] q Hq; simpl in Hq; simplify_eq; constructor.
  - intros [|[|p]] q a Hq Ha; simpl in Hq; simplify_eq; inversion Ha.
Qed.

Lemma active_count_after_operation_witness :
  ∃ s', run_op S1.nodes (λ _ _ _, 0) (λ _ _, 0)
          (OpJobStart (mk_job_record 7 "high" JOB_RUNNING [true; false]))
          two_empty_parts_state = Ok (None, s') ∧
        all_counts_ok s'.
Proof.
  eexists. split; [vm_compute; reflexivity|].
  apply (active_count_after_operation S1.nodes (λ _ _ _, 0) (λ _ _, 0)
           (OpJobStart (mk_job_record 7 "high" JOB_RUNNING [true; false]))
           two_empty_parts_state _ None).
  - apply two_empty_parts_state_inv.
  - intros H. discriminate H.
  - discriminate.
  - vm_compute. reflexivity.
  - intros [|[|p]] q Hq; simpl in Hq; simplify_eq; reflexivity.
  - intros [|[|p]] q Hp Hq; simpl in Hq; simplify_eq; reflexivity.
Defined.

(** ** What the bits hold *)

Lemma to_uint16_small (z : Z) : 0 ≤ z < 65536 → to_uint16 z = z.
Proof. intros H. unfold to_uint16. now apply Z.mod_small. Qed.

Lemma to_uint16_range (z : Z) : 0 ≤ to_uint16 z < 65536.
Proof. unfold to_uint16. apply Z.mod_pos_bound. lia. Qed.

Section Occupancy.
Context (s : gs_state).

Lemma limit_range (i : nat) :
  cap_ok s → (i < gs_resmap_size s)%nat → 0 ≤ limit s i < 65536.
Proof.
  intros Hcap Hi. unfold limit. destruct (by_bits s) eqn:Hb; [lia|].
  destruct (Hcap Hb i Hi) as (c & -> & Hc). exact Hc.
Qed.

Lemma bit_test_lt (b : bitstr) (i : nat) :
  bit_test b i = true → (i < length b)%nat.
Proof.
  intros H. destruct (decide (i < length b)%nat) as [|Hge]; [assumption|].
  rewrite bit_test_ge in H by lia. discriminate.
Qed.

Lemma demand_clear (r : job_res) (i : nat) :
  bit_test r.1 i = false → demand s r i = 0.
Proof. intros H. unfold demand. now rewrite H. Qed.

Lemma demand_range (r : job_res) (i : nat) :
  res_ok s r → bit_test r.1 i = true → 0 ≤ demand s r i ≤ limit s i.
Proof.
  intros [Hlen Hcpus] Hbit. unfold demand, limit. rewrite Hbit.
  destruct (by_bits s) eqn:Hb; [lia|].
  destruct (Hcpus eq_refl) as (arr & Harr & Hall).
  destruct (Hall i Hbit) as (c & Hc & Hrange).
  unfold cpus_at. rewrite Harr, Hc. simpl.
  unfold limit in Hrange. now rewrite Hb in Hrange.
Qed.

Lemma demand_nonneg (r : job_res) (i : nat) : res_ok s r → 0 ≤ demand s r i.
Proof.
  intros Hok. destruct (bit_test r.1 i) eqn:Hbit.
  - now apply demand_range.
  - now rewrite demand_clear.
Qed.

Lemma clamp_range (i : nat) (x : Z) : 0 ≤ limit s i → 0 ≤ clamp s i x ≤ limit s i.
Proof.
  intros Hlim. unfold clamp. cbv zeta. pose proof (to_uint16_range x).
  destruct (Z.gtb_spec (to_uint16 x) (limit s i)); lia.
Qed.

Lemma clamp_id (i : nat) (x : Z) :
  0 ≤ x ≤ limit s i → limit s i < 65536 → clamp s i x = x.
Proof.
  intros Hx Hlim. unfold clamp. cbv zeta. rewrite to_uint16_small by lia.
  destruct (Z.gtb_spec x (limit s i)); lia.
Qed.

Lemma occupancy_from_app (x : Z) (J1 J2 : list job_res) (i : nat) :
  occupancy_from s x (J1 ++ J2) i = occupancy_from s (occupancy_from s x J1 i) J2 i.
Proof. revert x. induction J1 as [|r J1 IH]; intros x; [reflexivity|]. apply IH. Qed.

Lemma occupancy_snoc (J : list job_res) (r : job_res) (i : nat) :
  occupancy s (J ++ [r]) i =
  if bit_test r.1 i then clamp s i (occupancy s J i + demand s r i)
  else occupancy s J i.
Proof. unfold occupancy. now rewrite occupancy_from_app. Qed.

Lemma cover_app (J1 J2 : list job_res) (i : nat) :
  cover (J1 ++ J2) i = cover J1 i || cover J2 i.
Proof. apply existsb_app. Qed.

Lemma cover_snoc (J : list job_res) (r : job_res) (i : nat) :
  cover (J ++ [r]) i = cover J i || bit_test r.1 i.
Proof. rewrite cover_app. simpl. now rewrite orb_false_r. Qed.

Lemma cover_ge (J : list job_res) (i : nat) :
  Forall (res_ok s) J → (gs_resmap_size s ≤ i)%nat → cover J i = false.
Proof.
  induction 1 as [|r J [Hlen _] _ IH]; intros Hi; [reflexivity|].
  simpl. rewrite IH by assumption. rewrite bit_test_ge by lia. reflexivity.
Qed.

Lemma occupancy_uncovered (J : list job_res) (i : nat) :
  cover J i = false → occupancy s J i = 0.
Proof.
  induction J as [|r J IH] using rev_ind; [reflexivity|].
  rewrite cover_snoc, occupancy_snoc. intros H.
  apply orb_false_elim in H as [HJ ->]. now apply IH.
Qed.

Lemma occupancy_range (J : list job_res) (i : nat) :
  cap_ok s → (i < gs_resmap_size s)%nat → 0 ≤ occupancy s J i ≤ limit s i.
Proof.
  intros Hcap Hi. pose proof (limit_range i Hcap Hi) as Hlim.
  induction J as [|r J IH] using rev_ind; [unfold occupancy; simpl; lia|].
  rewrite occupancy_snoc. destruct (bit_test r.1 i); [|exact IH].
  apply clamp_range. lia.
Qed.

(** Where the bits alone decide, a bit holds 1 as soon as a job holds it. *)
Lemma occupancy_by_bits (J : list job_res) (i : nat) :
  by_bits s = true → occupancy s J i = if cover J i then 1 else 0.
Proof.
  intros Hb. induction J as [|r J IH] using rev_ind; [reflexivity|].
  rewrite occupancy_snoc, cover_snoc, IH.
  destruct (bit_test r.1 i) eqn:Hbit; [|now rewrite orb_false_r].
  rewrite orb_true_r. unfold clamp, demand, limit. rewrite Hbit, Hb. cbv zeta.
  destruct (cover J i); reflexivity.
Qed.

(** A job that fits is added without the clamp. *)
Lemma occupancy_snoc_fits (J : list job_res) (r : job_res) (i : nat) :
  cap_ok s → res_ok s r → fits_on s J r →
  occupancy s (J ++ [r]) i = occupancy s J i + demand s r i.
Proof.
  intros Hcap Hok Hfits. rewrite occupancy_snoc.
  destruct (bit_test r.1 i) eqn:Hbit; [|rewrite demand_clear by assumption; lia].
  assert (Hi : (i < gs_resmap_size s)%nat).
  { destruct Hok as [<- _]. now apply bit_test_lt. }
  pose proof (limit_range i Hcap Hi). pose proof (occupancy_range J i Hcap Hi).
  pose proof (demand_range r i Hok Hbit). pose proof (Hfits i Hbit).
  apply clamp_id; lia.
Qed.

End Occupancy.

(** ** The bit strings of the active row *)

Lemma bit_test_or (b1 b2 : bitstr) (i : nat) :
  (length b2 ≤ length b1)%nat →
  bit_test (bit_or b1 b2) i = bit_test b1 i || bit_test b2 i.
Proof.
  intros Hlen. unfold bit_or, bit_test. rewrite list_lookup_imap.
  destruct (b1 !! i) eqn:Hi; [reflexivity|]. simpl.
  apply lookup_ge_None in Hi. now rewrite (proj2 (lookup_ge_None b2 i)) by lia.
Qed.

Lemma bit_test_copybits (dest src : bitstr) (i : nat) :
  (length src ≤ length dest)%nat →
  bit_test (bit_copybits dest src) i = bit_test src i.
Proof.
  intros Hlen. unfold bit_copybits, bit_test. rewrite list_lookup_imap.
  destruct (dest !! i) eqn:Hi; [reflexivity|]. simpl.
  apply lookup_ge_None in Hi. now rewrite (proj2 (lookup_ge_None src i)) by lia.
Qed.

Lemma bit_size_or (b1 b2 : bitstr) : length (bit_or b1 b2) = length b1.
Proof. apply length_imap. Qed.

Lemma bit_size_copybits (dest src : bitstr) :
  length (bit_copybits dest src) = length dest.
Proof. apply length_imap. Qed.

Lemma bit_test_ext (b1 b2 : bitstr) :
  length b1 = length b2 → (∀ i, bit_test b1 i = bit_test b2 i) → b1 = b2.
Proof.
  intros Hlen Hbits. apply list_eq. intros i. specialize (Hbits i).
  unfold bit_test in Hbits.
  destruct (b1 !! i) as [x|] eqn:H1, (b2 !! i) as [y|] eqn:H2;
    try congruence.
  - apply lookup_lt_Some in H1. apply lookup_ge_None in H2. lia.
  - apply lookup_ge_None in H1. apply lookup_lt_Some in H2. lia.
Qed.

(** ** The loops over the CPU array of the active row *)

Lemma _overwrite_cpus_loop_spec (jmap : bitstr) (jarr : list Z) (n i : nat)
    (arr : list Z) :
  (i + n ≤ length arr)%nat →
  (∀ i', (i ≤ i' < i + n)%nat → bit_test jmap i' = true →
         is_Some (jarr !! alignment jmap i')) →
  ∃ arr',
    _overwrite_cpus_loop jmap (Some jarr) n i (alignment jmap i) arr = Ok arr' ∧
    length arr' = length arr ∧
    ∀ i', arr' !! i' =
          if decide (i ≤ i' < i + n)%nat
          then Some (if bit_test jmap i' then default 0 (jarr !! alignment jmap i')
                     else 0)
          else arr !! i'.
Proof.
  revert i arr. induction n as [|n IH]; intros i arr Hlen Hread.
  - exists arr. split; [reflexivity|]. split; [reflexivity|].
    intros i'. case_decide; [lia | reflexivity].
  - cbn [_overwrite_cpus_loop].
    assert (Hset : ∀ v, array_set arr i v = Ok (<[i:=v]> arr)).
    { intros v. unfold array_set. rewrite decide_True by lia. reflexivity. }
    destruct (IH (S i) (<[i:=if bit_test jmap i
                             then default 0 (jarr !! alignment jmap i) else 0]> arr))
      as (arr' & Hrun & Hlen' & Hall).
    { rewrite length_insert. lia. }
    { intros i' Hi'. apply Hread. lia. }
    rewrite alignment_S in Hrun. rewrite length_insert in Hlen'.
    exists arr'. split; [|split; [exact Hlen'|]].
    + destruct (bit_test jmap i) eqn:Hbit.
      * destruct (Hread i ltac:(lia) Hbit) as [jc Hjc].
        cbn [non_null obind]. unfold array_get. rewrite Hjc. cbn [obind].
        rewrite Hset. cbn [obind]. rewrite Hjc in Hrun. exact Hrun.
      * rewrite Hset. cbn [obind]. exact Hrun.
    + intros i'. rewrite Hall.
      destruct (decide (i' = i)) as [->|Hne].
      * rewrite decide_False by lia. rewrite decide_True by lia.
        now rewrite list_lookup_insert_eq by lia.
      * rewrite list_lookup_insert_ne by congruence.
        repeat case_decide; try lia; reflexivity.
Qed.

Lemma _add_cpus_loop_spec (s : gs_state) (jmap : bitstr) (jarr : list Z)
    (n i : nat) (arr : list Z) :
  by_bits s = false →
  (i + n ≤ length arr)%nat →
  (∀ i', (i ≤ i' < i + n)%nat → bit_test jmap i' = true →
         is_Some (jarr !! alignment jmap i') ∧ ∃ c, cap s i' = Ok c) →
  ∃ arr',
    _add_cpus_loop s jmap (Some jarr) n i (alignment jmap i) arr = Ok arr' ∧
    length arr' = length arr ∧
    ∀ i' x, arr !! i' = Some x →
      arr' !! i' =
      Some (if decide (i ≤ i' < i + n)%nat
            then (if bit_test jmap i'
                  then clamp s i' (x + default 0 (jarr !! alignment jmap i'))
                  else x)
            else x).
Proof.
  intros Hb. revert i arr. induction n as [|n IH]; intros i arr Hlen Hread.
  - exists arr. split; [reflexivity|]. split; [reflexivity|].
    intros i' x Hx. case_decide; [lia | exact Hx].
  - cbn [_add_cpus_loop]. destruct (bit_test jmap i) eqn:Hbit.
    + destruct (Hread i ltac:(lia) Hbit) as [[jc Hjc] [c Hc]].
      destruct (lookup_lt_is_Some_2 arr i ltac:(lia)) as [pc Hpc].
      rewrite Hc. cbn [obind non_null]. unfold array_get. rewrite Hjc, Hpc.
      cbn [obind]. unfold array_set. rewrite decide_True by lia. cbn [obind].
      set (v := if to_uint16 (pc + jc) >? c then c else to_uint16 (pc + jc)).
      assert (Hv : v = clamp s i (pc + jc)).
      { unfold v, clamp, limit. now rewrite Hb, Hc. }
      destruct (IH (S i) (<[i:=v]> arr)) as (arr' & Hrun & Hlen' & Hall).
      { rewrite length_insert. lia. }
      { intros i' Hi'. apply Hread. lia. }
      rewrite alignment_S, Hbit in Hrun. rewrite length_insert in Hlen'.
      exists arr'. split; [exact Hrun|]. split; [exact Hlen'|].
      intros i' x Hx. destruct (decide (i' = i)) as [->|Hne].
      * rewrite (Hall i v) by (apply list_lookup_insert_eq; lia).
        rewrite decide_False by lia. rewrite decide_True by lia.
        rewrite Hbit, Hjc. simpl. replace x with pc by congruence. now rewrite Hv.
      * rewrite (Hall i' x) by now rewrite list_lookup_insert_ne by congruence.
        repeat case_decide; try lia; reflexivity.
    + destruct (IH (S i) arr) as (arr' & Hrun & Hlen' & Hall); [lia| |].
      { intros i' Hi'. apply Hread. lia. }
      rewrite alignment_S, Hbit in Hrun.
      exists arr'. split; [exact Hrun|]. split; [exact Hlen'|].
      intros i' x Hx. rewrite (Hall i' x Hx).
      destruct (decide (i' = i)) as [->|Hne].
      * rewrite decide_False by lia. rewrite decide_True by lia. now rewrite Hbit.
      * repeat case_decide; try lia; reflexivity.
Qed.

(** ** Adding a job to the active row *)

Lemma occupancy_single (s : gs_state) (r : job_res) (i : nat) :
  cap_ok s → res_ok s r →
  occupancy s [r] i = demand s r i.
Proof.
  intros Hcap Hok. change [r] with ([] ++ [r]).
  rewrite (occupancy_snoc_fits s [] r i Hcap Hok); [unfold occupancy; simpl; lia|].
  intros i' Hbit. unfold occupancy. simpl.
  pose proof (demand_range s r i' Hok Hbit). lia.
Qed.

Lemma demand_cpus (s : gs_state) (r : job_res) (i : nat) :
  by_bits s = false → bit_test r.1 i = true → demand s r i = cpus_at r i.
Proof. intros Hb Hbit. unfold demand. now rewrite Hbit, Hb. Qed.

Lemma _add_job_to_active_repr (s : gs_state) (J : list job_res) (j : gs_job)
    (q : gs_part) :
  cap_ok s → res_ok s (res_of j) → repr s J q →
  Z.of_nat (length J) + 1 < 4294967296 →
  ∃ q', _add_job_to_active s j q = Ok q' ∧
        repr s (J ++ [res_of j]) q' ∧
        part_name q' = part_name q ∧ priority q' = priority q ∧
        job_list q' = job_list q ∧ shadow q' = shadow q ∧
        (by_bits s = true → active_cpus q' = active_cpus q).
Proof.
  intros Hcap Hok (Hn & [Hsm Hsa] & Hrow) Hbound.
  pose proof Hok as [Hlen Hcpus]. cbn [res_of fst snd] in Hlen, Hcpus.
  set (N := gs_resmap_size s) in *.
  (* the resmap *)
  set (amap := match active_resmap q with
               | None => bit_copy (resmap j)
               | Some m => if jobs_active q =? 0 then bit_copybits m (resmap j)
                           else bit_or m (resmap j)
               end).
  assert (Hamap_len : length amap = N).
  { unfold amap. destruct (active_resmap q) as [m|] eqn:Hm; [|exact Hlen].
    destruct (jobs_active q =? 0);
      [rewrite bit_size_copybits | rewrite bit_size_or]; now apply Hsm. }
  assert (Hamap : ∀ i, bit_test amap i = cover (J ++ [res_of j]) i).
  { intros i. rewrite cover_snoc. cbn [res_of fst]. unfold amap.
    destruct J as [|r0 J0].
    - simpl. destruct (active_resmap q) as [m|] eqn:Hm; [|reflexivity].
      rewrite Hn. simpl. apply bit_test_copybits.
      rewrite (Hsm m) by (exact Hm || reflexivity). lia.
    - destruct (Hrow ltac:(discriminate)) as (m & Hm & Hbits & _).
      rewrite Hm. destruct (Z.eqb_spec (jobs_active q) 0) as [H0|_].
      { rewrite Hn in H0. simpl in H0. lia. }
      rewrite bit_test_or by (rewrite (Hsm m Hm); lia). now rewrite Hbits. }
  assert (Hcount : to_uint32 (jobs_active q + 1)
                   = Z.of_nat (length (J ++ [res_of j]))).
  { rewrite Hn, length_app. simpl. rewrite to_uint32_small by lia. lia. }
  unfold _add_job_to_active. cbv zeta. fold amap.
  destruct (by_bits s) eqn:Hb.
  - (* the bits alone *)
    pose proof Hb as Hb'. unfold by_bits in Hb'.
    destruct (gr_type s) eqn:Hg; try discriminate Hb';
      (cbn [obind]; eexists; split; [reflexivity|];
       split; [|simpl; auto];
       split; [exact Hcount|]; split;
       [ split; simpl; [intros m [= <-]; exact Hamap_len | exact Hsa]
       | intros _; exists amap; split; [reflexivity|]; split; [exact Hamap|];
         intros Hf; congruence ]).
  - (* the CPU arrays *)
    destruct (Hcpus eq_refl) as (jarr & Hjarr & Hentries).
    set (arr0 := match active_cpus q with
                 | None => replicate (bit_size amap) 0
                 | Some arr => arr
                 end).
    assert (Harr0 : length arr0 = N).
    { unfold arr0. destruct (active_cpus q) as [arr|] eqn:Harr; [now apply Hsa|].
      rewrite length_replicate. exact Hamap_len. }
    assert (∃ arr', (if jobs_active q =? 0
                     then _overwrite_cpus_loop (resmap j) (alloc_cpus j)
                            (bit_size amap) 0 0 arr0
                     else _add_cpus_loop s (resmap j) (alloc_cpus j)
                            (bit_size amap) 0 0 arr0) = Ok arr' ∧
                    length arr' = N ∧
                    ∀ i, (i < N)%nat →
                      arr' !! i = Some (occupancy s (J ++ [res_of j]) i))
      as (arr' & Hrun & Hlen' & Hocc).
    { rewrite Hjarr. unfold bit_size. rewrite Hamap_len.
      destruct J as [|r0 J0].
      - rewrite Hn. simpl Z.eqb. cbv iota.
        destruct (_overwrite_cpus_loop_spec (resmap j) jarr N 0 arr0)
          as (arr' & Hrun & Hlen' & Hall); [lia| |].
        { intros i' _ Hbit. destruct (Hentries i' Hbit) as (c & -> & _). eauto. }
        exists arr'. split; [exact Hrun|]. split; [lia|].
        intros i Hi. rewrite Hall, decide_True by lia. f_equal.
        change ([] ++ [res_of j]) with [res_of j].
        rewrite occupancy_single by assumption.
        unfold demand, cpus_at. cbn [res_of fst snd]. rewrite Hb, Hjarr.
        reflexivity.
      - destruct (Hrow ltac:(discriminate)) as (m & Hm & Hbits & Harr).
        destruct (Harr eq_refl) as (arr & Harr_eq & Harr_occ).
        assert (arr0 = arr) as -> by (unfold arr0; now rewrite Harr_eq).
        destruct (Z.eqb_spec (jobs_active q) 0) as [H0|_].
        { rewrite Hn in H0. simpl in H0. lia. }
        destruct (_add_cpus_loop_spec s (resmap j) jarr N 0 arr Hb)
          as (arr' & Hrun & Hlen' & Hall); [lia| |].
        { intros i' Hi' Hbit. destruct (Hentries i' Hbit) as (c & -> & _).
          split; [eauto|]. destruct (Hcap Hb i' ltac:(lia)) as (c' & -> & _). eauto. }
        exists arr'. split; [exact Hrun|]. split; [lia|].
        intros i Hi. rewrite (Hall i _ (Harr_occ i Hi)), decide_True by lia.
        f_equal. rewrite occupancy_snoc. cbn [res_of fst].
        destruct (bit_test (resmap j) i) eqn:Hbit; [|reflexivity].
        rewrite demand_cpus by assumption. unfold cpus_at. cbn [res_of fst snd].
        now rewrite Hjarr. }
    pose proof Hb as Hb'. unfold by_bits in Hb'.
    destruct (gr_type s) eqn:Hg; try discriminate Hb';
      (fold arr0; rewrite Hrun; cbn [obind]; eexists; split; [reflexivity|];
       split; [|simpl; split; [reflexivity|]; split; [reflexivity|];
                split; [reflexivity|]; split; [reflexivity|]; congruence];
       split; [exact Hcount|]; split;
       [ split; simpl; [intros m [= <-]; exact Hamap_len
                       | intros arr [= <-]; exact Hlen']
       | intros _; exists amap; split; [reflexivity|]; split; [exact Hamap|];
         intros _; exists arr'; split; [reflexivity | exact Hocc] ]).
Qed.

(** ** The fit test on the active row *)

Lemma limit_cap (s : gs_state) (i : nat) (c : Z) :
  by_bits s = false → cap s i = Ok c → limit s i = c.
Proof. intros Hb Hc. unfold limit. now rewrite Hb, Hc. Qed.

Lemma _job_fits_repr (s : gs_state) (J : list job_res) (j : gs_job) (q : gs_part) :
  cap_ok s → res_ok s (res_of j) → repr s J q →
  ∃ b, _job_fits_in_active_row s j q = Ok b ∧
       (b = true ↔ fits_on s J (res_of j)).
Proof.
  intros Hcap Hok (Hn & [Hsm Hsa] & Hrow).
  pose proof Hok as [Hlen Hcpus]. cbn [res_of fst snd] in Hlen, Hcpus.
  assert (Hfree : ∀ i, bit_test (resmap j) i = true → cover J i = false →
                       occupancy s J i + demand s (res_of j) i ≤ limit s i).
  { intros i Hbit Hcov. rewrite occupancy_uncovered by assumption.
    pose proof (demand_range s (res_of j) i Hok Hbit). lia. }
  unfold _job_fits_in_active_row. destruct J as [|r0 J0].
  { exists true. split.
    - destruct (active_resmap q); [|reflexivity]. now rewrite Hn.
    - split; [|reflexivity]. intros _ i Hbit. now apply Hfree. }
  destruct (Hrow ltac:(discriminate)) as (m & Hm & Hbits & Harr).
  set (J := r0 :: J0) in *. rewrite Hm.
  destruct (Z.eqb_spec (jobs_active q) 0) as [H0|_].
  { rewrite Hn in H0. simpl in H0. lia. }
  cbv zeta. set (tmpmap := bit_and (bit_copy (resmap j)) m).
  assert (Htmp : ∀ i, bit_test tmpmap i = bit_test (resmap j) i && cover J i).
  { intros i. unfold tmpmap, bit_copy. now rewrite bit_test_and, Hbits. }
  destruct (Nat.eqb_spec (bit_set_count tmpmap) 0) as [Hzero|Hsome].
  { exists true. split; [reflexivity|]. split; [|reflexivity].
    intros _ i Hbit. cbn [res_of fst] in Hbit. apply Hfree; [assumption|].
    pose proof (proj1 (bit_set_count_0 tmpmap) Hzero i) as Hi.
    rewrite Htmp, Hbit in Hi. exact Hi. }
  destruct (by_bits s) eqn:Hb.
  - exists false. split.
    { unfold by_bits in Hb. destruct (gr_type s); try discriminate; reflexivity. }
    split; [discriminate|]. intros Hfits. exfalso. apply Hsome.
    apply bit_set_count_0. intros i. rewrite Htmp.
    destruct (bit_test (resmap j) i) eqn:Hbit; [|reflexivity].
    destruct (cover J i) eqn:Hcov; [|reflexivity].
    specialize (Hfits i Hbit). rewrite occupancy_by_bits, Hcov in Hfits by assumption.
    unfold demand, limit in Hfits. cbn [res_of fst] in Hfits.
    rewrite Hbit, Hb in Hfits. lia.
  - destruct (Hcpus eq_refl) as (jarr & Hjarr & Hentries).
    destruct (Harr eq_refl) as (arr & Harr_eq & Harr_occ).
    assert (Hshared : ∀ i, bit_test tmpmap i = true →
              (i < gs_resmap_size s)%nat ∧ bit_test (resmap j) i = true ∧
              cover J i = true).
    { intros i Hi. rewrite Htmp in Hi. apply andb_prop in Hi as [Hbit Hcov].
      split; [|auto]. rewrite <- Hlen. now apply bit_test_lt. }
    destruct (_can_cpus_fit_loop_spec s tmpmap (resmap j) arr jarr
                (bit_size tmpmap) 0) as (b & Hrun & Hiff).
    { intros i _ Hi. destruct (Hshared i Hi) as (Hlt & Hbit & Hcov).
      split; [rewrite (Harr_occ i Hlt); eauto|]. split.
      - destruct (Hentries i Hbit) as (c & -> & _). eauto.
      - destruct (Hcap Hb i Hlt) as (c & -> & _). eauto. }
    exists b. split.
    { unfold _can_cpus_fit. rewrite Harr_eq, Hjarr.
      unfold by_bits in Hb. destruct (gr_type s); try discriminate; exact Hrun. }
    rewrite Hiff. split.
    + intros Hall i Hbit. cbn [res_of fst] in Hbit.
      destruct (cover J i) eqn:Hcov; [|now apply Hfree].
      assert (Hi : bit_test tmpmap i = true) by now rewrite Htmp, Hbit, Hcov.
      destruct (Hall i) as (pc & jc & lim & Hpc & Hjc & Hlim & Hle);
        [split; [lia|]; simpl; now apply bit_test_lt | exact Hi |].
      destruct (Hshared i Hi) as (Hlt & _ & _).
      rewrite (Harr_occ i Hlt) in Hpc. injection Hpc as <-.
      rewrite demand_cpus by assumption. unfold cpus_at. cbn [res_of fst snd].
      rewrite Hjarr, Hjc. simpl. now rewrite (limit_cap s i lim).
    + intros Hfits i _ Hi. destruct (Hshared i Hi) as (Hlt & Hbit & Hcov).
      specialize (Hfits i Hbit).
      destruct (Hentries i Hbit) as (c & Hc & _).
      destruct (Hcap Hb i Hlt) as (lim & Hlim & _).
      exists (occupancy s J i), c, lim.
      split; [now apply Harr_occ|]. split; [exact Hc|]. split; [exact Hlim|].
      rewrite demand_cpus in Hfits by assumption. unfold cpus_at in Hfits.
      cbn [res_of fst snd] in Hfits. rewrite Hjarr, Hc in Hfits. simpl in Hfits.
      now rewrite (limit_cap s i lim) in Hfits.
Qed.

(** ** Jobs that can be seated together *)

Section Admissible.
Context (s : gs_state).
Hypothesis Hcap : cap_ok s.

Lemma load_app (X1 X2 : list job_res) (i : nat) :
  load s (X1 ++ X2) i = load s X1 i + load s X2 i.
Proof.
  induction X1 as [|r X1 IH]; [unfold load; simpl; lia|].
  unfold load in *. simpl. rewrite IH. lia.
Qed.

Lemma load_nonneg (X : list job_res) (i : nat) :
  Forall (res_ok s) X → 0 ≤ load s X i.
Proof.
  induction 1 as [|r X Hr _ IH]; [reflexivity|].
  unfold load in *. simpl. pose proof (demand_nonneg s r i Hr). lia.
Qed.

Lemma load_perm (X X' : list job_res) (i : nat) :
  X ≡ₚ X' → load s X i = load s X' i.
Proof.
  induction 1 as [|r X X' _ IH|r1 r2 X|X1 X2 X3 _ IH1 _ IH2]; unfold load in *;
    simpl; lia.
Qed.

Lemma cover_perm (X X' : list job_res) (i : nat) :
  X ≡ₚ X' → cover X i = cover X' i.
Proof.
  induction 1 as [|r X X' _ IH|r1 r2 X|X1 X2 X3 _ IH1 _ IH2]; unfold cover in *;
    simpl; try congruence.
  destruct (bit_test r1.1 i), (bit_test r2.1 i); reflexivity.
Qed.

Lemma admissible_nil (S : list job_res) : admissible s S [].
Proof. intros i Hi. discriminate Hi. Qed.

Lemma admissible_prefix (S X1 X2 : list job_res) :
  Forall (res_ok s) X2 → admissible s S (X1 ++ X2) → admissible s S X1.
Proof.
  intros Hok Hadm i Hi. specialize (Hadm i).
  rewrite cover_app, Hi, load_app in Hadm. specialize (Hadm eq_refl).
  pose proof (load_nonneg X2 i Hok). lia.
Qed.

Lemma admissible_perm (S X X' : list job_res) :
  X ≡ₚ X' → admissible s S X → admissible s S X'.
Proof.
  intros Hperm Hadm i Hi. rewrite <- (load_perm X X' i Hperm).
  apply Hadm. now rewrite (cover_perm X X' i Hperm).
Qed.

(** Jobs that can be seated together are added without the clamp. *)
Lemma occupancy_admissible (S X : list job_res) (i : nat) :
  Forall (res_ok s) X → admissible s S X →
  occupancy s (S ++ X) i = occupancy s S i + load s X i.
Proof.
  revert i. induction X as [|x X IH] using rev_ind; intros i Hok Hadm.
  - rewrite app_nil_r. unfold load. simpl. lia.
  - apply Forall_app in Hok as [HokX Hokx].
    apply Forall_cons in Hokx as [Hokx _].
    pose proof (admissible_prefix S X [x] ltac:(now constructor) Hadm) as HadmX.
    assert (Hfits : fits_on s (S ++ X) x).
    { intros i' Hbit. rewrite IH by assumption.
      specialize (Hadm i'). rewrite cover_snoc, Hbit, orb_true_r, load_app in Hadm.
      unfold load at 2 in Hadm. simpl in Hadm. specialize (Hadm eq_refl). lia. }
    rewrite app_assoc, occupancy_snoc_fits, IH, load_app by assumption.
    unfold load at 3. simpl. lia.
Qed.

Lemma fits_on_admissible (S X : list job_res) (x : job_res) :
  Forall (res_ok s) X → res_ok s x → admissible s S (X ++ [x]) →
  fits_on s (S ++ X) x.
Proof.
  intros HokX Hokx Hadm i Hbit.
  rewrite occupancy_admissible;
    [|assumption|now apply (admissible_prefix S X [x]); [constructor|]].
  specialize (Hadm i). rewrite cover_snoc, Hbit, orb_true_r, load_app in Hadm.
  unfold load at 2 in Hadm. simpl in Hadm. specialize (Hadm eq_refl). lia.
Qed.

Lemma admissible_snoc (S X : list job_res) (x : job_res) :
  Forall (res_ok s) X → res_ok s x → admissible s S X →
  fits_on s (S ++ X) x → admissible s S (X ++ [x]).
Proof.
  intros HokX Hokx Hadm Hfits i Hi. rewrite load_app. unfold load at 2. simpl.
  destruct (bit_test x.1 i) eqn:Hbit.
  - specialize (Hfits i Hbit). rewrite occupancy_admissible in Hfits by assumption.
    lia.
  - rewrite demand_clear by assumption.
    rewrite cover_snoc, Hbit, orb_false_r in Hi. specialize (Hadm i Hi). lia.
Qed.

(** A job that does not fit does not fit when more jobs are seated. *)
Lemma fits_on_fewer (S X1 X2 : list job_res) (x : job_res) :
  Forall (res_ok s) (X1 ++ X2) → admissible s S (X1 ++ X2) →
  fits_on s (S ++ X1 ++ X2) x → fits_on s (S ++ X1) x.
Proof.
  intros Hok Hadm Hfits i Hbit. specialize (Hfits i Hbit).
  pose proof Hok as Hok'. apply Forall_app in Hok' as [Hok1 Hok2].
  rewrite occupancy_admissible in Hfits by assumption.
  rewrite occupancy_admissible;
    [|assumption|now apply (admissible_prefix S X1 X2)].
  rewrite load_app in Hfits. pose proof (load_nonneg X2 i Hok2). lia.
Qed.

Lemma fits_on_perm (S X X' : list job_res) (x : job_res) :
  Forall (res_ok s) X → admissible s S X → X ≡ₚ X' →
  fits_on s (S ++ X) x → fits_on s (S ++ X') x.
Proof.
  intros Hok Hadm Hperm Hfits i Hbit. specialize (Hfits i Hbit).
  rewrite occupancy_admissible in Hfits by assumption.
  rewrite occupancy_admissible;
    [|now rewrite <- Hperm|now apply (admissible_perm S X)].
  now rewrite <- (load_perm X X' i Hperm).
Qed.

(** The active row does not tell the order in which jobs that can be
    seated together were added. *)
Lemma repr_perm (S X X' : list job_res) (q : gs_part) :
  Forall (res_ok s) X → admissible s S X → X ≡ₚ X' →
  repr s (S ++ X) q → repr s (S ++ X') q.
Proof.
  intros Hok Hadm Hperm (Hn & Hsizes & Hrow).
  assert (Hlen : length (S ++ X') = length (S ++ X)).
  { rewrite !length_app. now rewrite Hperm. }
  split; [now rewrite Hlen|]. split; [exact Hsizes|].
  intros Hne. destruct Hrow as (m & Hm & Hbits & Harr).
  { intros Hnil. apply Hne. apply length_zero_iff_nil.
    rewrite Hlen, Hnil. reflexivity. }
  exists m. split; [exact Hm|]. split.
  - intros i. rewrite Hbits, !cover_app. now rewrite (cover_perm X X' i Hperm).
  - intros Hb. destruct (Harr Hb) as (arr & Harr_eq & Hocc).
    exists arr. split; [exact Harr_eq|]. intros i Hi. rewrite (Hocc i Hi).
    f_equal. rewrite !occupancy_admissible;
      [|now rewrite <- Hperm|now apply (admissible_perm S X)|assumption|assumption].
    now rewrite (load_perm X X' i Hperm).
Qed.

(** Two partitions with the same row of jobs have the same active row. *)
Lemma repr_inj (J : list job_res) (q q' : gs_part) :
  J ≠ [] → repr s J q → repr s J q' →
  (by_bits s = true → active_cpus q' = active_cpus q) →
  jobs_active q' = jobs_active q ∧ active_resmap q' = active_resmap q ∧
  active_cpus q' = active_cpus q.
Proof.
  intros Hne (Hn & [Hsm Hsa] & Hrow) (Hn' & [Hsm' Hsa'] & Hrow') Hbits.
  destruct (Hrow Hne) as (m & Hm & Hmb & Harr).
  destruct (Hrow' Hne) as (m' & Hm' & Hmb' & Harr').
  split; [congruence|]. split.
  - rewrite Hm, Hm'. f_equal. apply bit_test_ext.
    + rewrite (Hsm m Hm), (Hsm' m' Hm'). reflexivity.
    + intros i. now rewrite Hmb, Hmb'.
  - destruct (by_bits s) eqn:Hb; [now apply Hbits|].
    destruct (Harr eq_refl) as (arr & Ha & Hocc).
    destruct (Harr' eq_refl) as (arr' & Ha' & Hocc').
    rewrite Ha, Ha'. f_equal. apply list_eq. intros i.
    destruct (decide (i < gs_resmap_size s)%nat) as [Hi|Hi].
    + now rewrite Hocc, Hocc'.
    + rewrite !(proj2 (lookup_ge_None _ i));
        [reflexivity|rewrite (Hsa arr Ha); lia|rewrite (Hsa' arr' Ha'); lia].
Qed.

End Admissible.

(** ** The fit engine reads the globals only *)

Lemma cap_core (s : gs_state) (i : nat) : cap (core s) i = cap s i.
Proof. reflexivity. Qed.

Lemma _can_cpus_fit_loop_core (s : gs_state) (setmap jmap : bitstr)
    (p_cpus j_cpus : list Z) (n i a : nat) :
  _can_cpus_fit_loop (core s) setmap jmap p_cpus j_cpus n i a
  = _can_cpus_fit_loop s setmap jmap p_cpus j_cpus n i a.
Proof.
  revert i a. induction n as [|n IH]; intros i a; [reflexivity|].
  cbn [_can_cpus_fit_loop]. rewrite cap_core.
  destruct (bit_test setmap i); cbn [obind].
  - destruct (array_get p_cpus i); [|reflexivity]. cbn [obind].
    destruct (array_get j_cpus a); [|reflexivity]. cbn [obind].
    destruct (cap s i); [|reflexivity]. cbn [obind].
    destruct (negb _); [apply IH | reflexivity].
  - apply IH.
Qed.

Lemma _job_fits_in_active_row_core (s : gs_state) (j : gs_job) (q : gs_part) :
  _job_fits_in_active_row (core s) j q = _job_fits_in_active_row s j q.
Proof.
  unfold _job_fits_in_active_row, _can_cpus_fit. cbn [gr_type core].
  destruct (active_resmap q); [|reflexivity].
  destruct (jobs_active q =? 0); [reflexivity|].
  cbv zeta. destruct (_ =? _)%nat; [reflexivity|].
  destruct (gr_type s); try reflexivity;
    destruct (active_cpus q); try reflexivity;
    destruct (alloc_cpus j); try reflexivity; apply _can_cpus_fit_loop_core.
Qed.

Lemma _add_cpus_loop_core (s : gs_state) (jmap : bitstr) (j_cpus : option (list Z))
    (n i a : nat) (arr : list Z) :
  _add_cpus_loop (core s) jmap j_cpus n i a arr = _add_cpus_loop s jmap j_cpus n i a arr.
Proof.
  revert i a arr. induction n as [|n IH]; intros i a arr; [reflexivity|].
  cbn [_add_cpus_loop]. rewrite cap_core.
  destruct (bit_test jmap i); [|apply IH].
  destruct (cap s i); [|reflexivity]. cbn [obind].
  destruct (non_null j_cpus); [|reflexivity]. cbn [obind].
  destruct (array_get _ a); [|reflexivity]. cbn [obind].
  destruct (array_get arr i); [|reflexivity]. cbn [obind].
  destruct (array_set _ _ _); [|reflexivity]. cbn [obind]. apply IH.
Qed.

Lemma _add_job_to_active_core (s : gs_state) (j : gs_job) (q : gs_part) :
  _add_job_to_active (core s) j q = _add_job_to_active s j q.
Proof.
  unfold _add_job_to_active. cbn [gr_type core]. cbv zeta.
  destruct (gr_type s); try reflexivity;
    destruct (jobs_active q =? 0); try reflexivity;
    now rewrite _add_cpus_loop_core.
Qed.

Lemma core_same_globals (s s' : gs_state) : same_globals s s' → core s' = core s.
Proof.
  intros (Hg & Hf & Hr & Hc & Hp & _). unfold core. now rewrite Hg, Hf, Hr, Hc, Hp.
Qed.

(** ** The owner of a job struct *)

Lemma elem_of_concat {A} (x : A) (ls : list (list A)) :
  x ∈ concat ls ↔ ∃ l, x ∈ l ∧ l ∈ ls.
Proof.
  induction ls as [|l ls IH]; simpl.
  - split; [intros H; inversion H | intros (l & _ & H); inversion H].
  - rewrite elem_of_app, IH. split.
    + intros [H|(l' & H1 & H2)]; [exists l; split; [assumption | left]|].
      exists l'. split; [assumption | now right].
    + intros (l' & H1 & H2). apply elem_of_cons in H2 as [->|H2]; [now left|].
      right. eauto.
Qed.

Lemma elem_of_map {A B} (f : A → B) (l : list A) (y : B) :
  y ∈ map f l ↔ ∃ x, y = f x ∧ x ∈ l.
Proof. apply (list_elem_of_fmap f). Qed.

Lemma find_job_addr_owner (s : gs_state) (po : nat) (qo : gs_part) (j : gs_job) :
  well_formed s → gs_part_list s !! po = Some qo → j ∈ job_list qo →
  find_job_addr (gs_part_list s) (job_addr j) = Some j.
Proof.
  intros (Hnd & Huniq & _) Hqo Hj. unfold find_job_addr.
  assert (Hin : j ∈ concat (map job_list (gs_part_list s))).
  { apply elem_of_concat. exists (job_list qo). split; [exact Hj|].
    apply elem_of_map. exists qo. split; [reflexivity|].
    now apply list_elem_of_lookup_2 in Hqo. }
  destruct (list_find (λ j0, job_addr j0 = job_addr j)
              (concat (map job_list (gs_part_list s)))) as [[i j']|] eqn:Hfind.
  - simpl. f_equal. apply list_find_Some in Hfind as (Hi & Haddr & _).
    apply list_elem_of_lookup_2 in Hi.
    apply elem_of_concat in Hi as (l' & Hj' & Hl').
    apply elem_of_map in Hl' as (q' & -> & Hq').
    apply list_elem_of_lookup_1 in Hq' as [p' Hq'].
    assert (p' = po) as ->.
    { apply (Huniq p' po q' qo (job_addr j) Hq' Hqo).
      - rewrite <- Haddr. now apply (list_elem_of_fmap_2 job_addr).
      - now apply (list_elem_of_fmap_2 job_addr). }
    replace q' with qo in * by congruence.
    apply list_elem_of_lookup_1 in Hj as [i1 Hi1].
    apply list_elem_of_lookup_1 in Hj' as [i2 Hi2].
    assert (i2 = i1).
    { apply (NoDup_lookup (job_addrs qo) i2 i1 (job_addr j)).
      - now apply (Hnd po).
      - unfold job_addrs. now rewrite list_lookup_fmap, Hi2, <- Haddr.
      - unfold job_addrs. now rewrite list_lookup_fmap, Hi1. }
    congruence.
  - exfalso. apply list_find_None in Hfind. rewrite Forall_forall in Hfind.
    now apply (Hfind j).
Qed.

(** A shadow is the struct of a job of a partition of higher priority. *)
Lemma shadow_owner (s : gs_state) (p : nat) (q : gs_part) (a : nat) :
  gs_inv s → gs_part_list s !! p = Some q → a ∈ shadow q →
  ∃ po qo j, gs_part_list s !! po = Some qo ∧ priority q < priority qo ∧
             j ∈ job_list qo ∧ job_addr j = a ∧
             find_job_addr (gs_part_list s) a = Some j.
Proof.
  intros [Hwf Hown] Hq Ha.
  destruct (Hown p q a Hq Ha) as (po & qo & Hqo & Hin & Hlt).
  apply (list_elem_of_fmap_1 job_addr) in Hin as (j & -> & Hj).
  exists po, qo, j. repeat split; try assumption.
  now apply (find_job_addr_owner s po qo).
Qed.

(** ** How many shadows and jobs a partition can have *)

Lemma NoDup_below (l : list nat) (n : nat) :
  NoDup l → (∀ a, a ∈ l → (a < n)%nat) → (length l ≤ n)%nat.
Proof.
  intros Hnd Hlt. rewrite <- (length_seq n 0).
  apply submseteq_length, NoDup_submseteq; [exact Hnd|].
  intros a Ha. apply elem_of_seq. specialize (Hlt a Ha). lia.
Qed.

Lemma part_sizes (s : gs_state) (p : nat) (q : gs_part) :
  gs_inv s → gs_part_list s !! p = Some q →
  (num_shadows q ≤ next_job_addr s)%nat ∧ (num_jobs q ≤ next_job_addr s)%nat.
Proof.
  intros Hinv Hq. pose proof Hinv as [(Hnd & Huniq & Hnext & Hsh) Hown]. split.
  - apply NoDup_below; [now apply (Hsh p)|]. intros a Ha.
    destruct (Hown p q a Hq Ha) as (po & qo & Hqo & Hin & _).
    now apply (Hnext po qo).
  - unfold num_jobs. rewrite <- (length_fmap job_addr).
    apply NoDup_below; [now apply (Hnd p)|]. intros a Ha. now apply (Hnext p q).
Qed.

(** ** Shadows that stay *)

Lemma shadow_remove_other (a x : nat) (l : list nat) :
  x ∈ l → x ≠ a → x ∈ shadow_remove a l.
Proof.
  induction l as [|y l IH]; simpl; [tauto|]. intros Hx Hne.
  apply elem_of_cons in Hx as [->|Hx].
  - rewrite decide_False by assumption. now left.
  - case_decide; [assumption|]. right. now apply IH.
Qed.

Lemma _cast_shadow_part_keeps (a x : nat) (prio : Z) (q : gs_part) :
  x ∈ shadow q → x ∈ shadow (_cast_shadow_part a prio q).
Proof.
  intros Hx. unfold _cast_shadow_part.
  destruct (priority q >=? prio); [assumption|].
  case_bool_decide; [assumption|]. simpl. apply elem_of_app. now left.
Qed.

Lemma _cast_shadow_part_casts (a : nat) (prio : Z) (q : gs_part) :
  priority q < prio → a ∈ shadow (_cast_shadow_part a prio q).
Proof.
  intros Hlt. unfold _cast_shadow_part.
  destruct (Z.geb_spec (priority q) prio); [lia|].
  case_bool_decide; [assumption|]. simpl. apply elem_of_app. right. now left.
Qed.

Lemma _cast_shadow_part_set (a : nat) (prio : Z) (q : gs_part) :
  _cast_shadow_part a prio q = set_shadow (shadow (_cast_shadow_part a prio q)) q.
Proof.
  unfold _cast_shadow_part. destruct (priority q >=? prio);
    [now rewrite set_shadow_id|].
  case_bool_decide; [now rewrite set_shadow_id | reflexivity].
Qed.

Lemma _cast_shadow_part_present (a : nat) (prio : Z) (q : gs_part) :
  (priority q < prio → a ∈ shadow q) → _cast_shadow_part a prio q = q.
Proof.
  intros Hin. unfold _cast_shadow_part.
  destruct (Z.geb_spec (priority q) prio); [reflexivity|].
  rewrite bool_decide_eq_true_2; [reflexivity|]. apply Hin. lia.
Qed.

Lemma elem_of_insert_inv {A} (l : list A) (i : nat) (x y : A) :
  y ∈ <[i:=x]> l → y = x ∨ y ∈ l.
Proof.
  intros Hy. apply list_elem_of_lookup_1 in Hy as [k Hk].
  destruct (decide (k = i)) as [->|Hne].
  - destruct (decide (i < length l)%nat).
    + rewrite list_lookup_insert_eq in Hk by assumption. left. congruence.
    + rewrite list_insert_ge in Hk by lia. right.
      now apply list_elem_of_lookup_2 in Hk.
  - rewrite list_lookup_insert_ne in Hk by congruence. right.
    now apply list_elem_of_lookup_2 in Hk.
Qed.

(** A partition put back with its shadows and priority leaves the shadows
    of the lower partitions as they are. *)
Lemma present_insert (parts : list gs_part) (p : nat) (q q' : gs_part)
    (prio : Z) (a : nat) :
  parts !! p = Some q → shadow q' = shadow q → priority q' = priority q →
  present parts prio a → present (<[p:=q']> parts) prio a.
Proof.
  intros Hq Hsh Hprio Hpres q1 Hq1 Hlt.
  apply elem_of_insert_inv in Hq1 as [->|Hq1]; [|now apply Hpres].
  rewrite Hsh. apply Hpres; [now apply list_elem_of_lookup_2 in Hq | lia].
Qed.

Lemma present_cast (parts : list gs_part) (prio prio' : Z) (a a' : nat) :
  present parts prio a →
  present (map (_cast_shadow_part a' prio') parts) prio a.
Proof.
  intros Hpres q1 Hq1 Hlt. apply elem_of_map in Hq1 as (q & -> & Hq).
  apply _cast_shadow_part_keeps. apply Hpres; [assumption|].
  now destruct (_cast_shadow_part_frame a' prio' q) as (_ & <- & _).
Qed.

Lemma present_cast_new (parts : list gs_part) (prio : Z) (a : nat) :
  present (map (_cast_shadow_part a prio) parts) prio a.
Proof.
  intros q1 Hq1 Hlt. apply elem_of_map in Hq1 as (q & -> & Hq).
  apply _cast_shadow_part_casts.
  now destruct (_cast_shadow_part_frame a prio q) as (_ & <- & _).
Qed.

Lemma present_clear (parts : list gs_part) (prio : Z) (a a' : nat) :
  a ≠ a' → present parts prio a →
  present (map (_clear_shadow_part a') parts) prio a.
Proof.
  intros Hne Hpres q1 Hq1 Hlt. apply elem_of_map in Hq1 as (q & -> & Hq).
  simpl. apply shadow_remove_other; [|assumption]. now apply Hpres.
Qed.

(** ** What the rebuild of one row leaves of the other partitions *)

Lemma set_shadow_set_shadow (sh1 sh2 : list nat) (q : gs_part) :
  set_shadow sh2 (set_shadow sh1 q) = set_shadow sh2 q.
Proof. reflexivity. Qed.

Lemma row_step_others (p : nat) (q : gs_part) (t t' : gs_state) :
  row_step p t t' → gs_part_list t !! p = Some q →
  ∀ p' q0, p' ≠ p → gs_part_list t !! p' = Some q0 →
    ∃ sh', gs_part_list t' !! p' = Some (set_shadow sh' q0) ∧
           ∀ a, a ∉ job_addrs q → a ∈ shadow q0 → a ∈ sh'.
Proof.
  intros Hstep Hq p' q0 Hne Hq0.
  destruct Hstep as [q1 q1' Hq1 Hframe|q1 a Hq1 Ha|q1 a Hq1 Ha|]; simpl.
  - exists (shadow q0). rewrite list_lookup_insert_ne by congruence.
    now rewrite set_shadow_id.
  - exists (shadow (_cast_shadow_part a (priority q1) q0)).
    rewrite lookup_map_part, Hq0. simpl. rewrite <- _cast_shadow_part_set.
    split; [reflexivity|]. intros a' _. apply _cast_shadow_part_keeps.
  - exists (shadow_remove a (shadow q0)).
    rewrite lookup_map_part, Hq0. split; [reflexivity|].
    intros a' Ha' Hin. apply shadow_remove_other; [assumption|].
    intros ->. apply Ha'. now replace q with q1 by congruence.
  - exists (shadow q0). now rewrite set_shadow_id.
Qed.

Lemma rtc_row_step_others (p : nat) (t t' : gs_state) :
  rtc (row_step p) t t' →
  ∀ q, gs_part_list t !! p = Some q →
  ∀ p' q0, p' ≠ p → gs_part_list t !! p' = Some q0 →
    ∃ sh', gs_part_list t' !! p' = Some (set_shadow sh' q0) ∧
           ∀ a, a ∉ job_addrs q → a ∈ shadow q0 → a ∈ sh'.
Proof.
  induction 1 as [t|t1 t2 t3 Hstep _ IH]; intros q Hq p' q0 Hne Hq0.
  - exists (shadow q0). now rewrite set_shadow_id.
  - destruct (row_step_others p q t1 t2 Hstep Hq p' q0 Hne Hq0)
      as (sh1 & Hq1 & Hkeep1).
    destruct (row_step_lookup p t1 t2 Hstep p q Hq) as (q2 & Hq2 & _ & _ & Hperm).
    destruct (IH q2 Hq2 p' _ Hne Hq1) as (sh2 & Hq3 & Hkeep2).
    exists sh2. split; [exact Hq3|]. intros a Ha Hin.
    apply Hkeep2; [now rewrite Hperm|]. simpl. now apply Hkeep1.
Qed.

(** ** Programs that run *)

Lemma runs_Ok {A} (m : M A) (s : gs_state) (Q : A → gs_state → Prop)
    (a : A) (s' : gs_state) :
  runs m s Q → m s = Ok (a, s') → Q a s'.
Proof.
  intros (a1 & s1 & H1 & HQ) H. rewrite H in H1. now injection H1 as <- <-.
Qed.

Lemma runs_mono {A} (m : M A) (s : gs_state) (Q Q' : A → gs_state → Prop) :
  runs m s Q → (∀ a s', Q a s' → Q' a s') → runs m s Q'.
Proof. intros (a & s' & H & HQ) Himp. exists a, s'. auto. Qed.

Lemma runs_ret {A} (a : A) (s : gs_state) (Q : A → gs_state → Prop) :
  Q a s → runs (ret a) s Q.
Proof. intros HQ. now exists a, s. Qed.

Lemma runs_bind {A B} (m : M A) (k : A → M B) (s : gs_state)
    (Q : B → gs_state → Prop) :
  runs m s (λ a s', runs (k a) s' Q) → runs (bind m k) s Q.
Proof.
  intros (a & s1 & H1 & b & s2 & H2 & HQ). exists b, s2. split; [|exact HQ].
  unfold bind. now rewrite H1.
Qed.

Lemma runs_gets {A} (f : gs_state → A) (s : gs_state) (Q : A → gs_state → Prop) :
  Q (f s) s → runs (gets f) s Q.
Proof. intros HQ. now exists (f s), s. Qed.

Lemma runs_get_state (s : gs_state) (Q : gs_state → gs_state → Prop) :
  Q s s → runs get_state s Q.
Proof. intros HQ. now exists s, s. Qed.

Lemma runs_lift {A} (o : outcome A) (a : A) (s : gs_state)
    (Q : A → gs_state → Prop) :
  o = Ok a → Q a s → runs (lift o) s Q.
Proof. intros -> HQ. now exists a, s. Qed.

Lemma runs_modify (f : gs_state → gs_state) (s : gs_state)
    (Q : unit → gs_state → Prop) :
  Q tt (f s) → runs (modify f) s Q.
Proof. intros HQ. now exists tt, (f s). Qed.

Lemma runs_get_part (p : nat) (q : gs_part) (s : gs_state)
    (Q : gs_part → gs_state → Prop) :
  gs_part_list s !! p = Some q → Q q s → runs (get_part p) s Q.
Proof. intros Hq HQ. exists q, s. split; [|exact HQ]. unfold get_part. now rewrite Hq. Qed.

Lemma runs_put_part (p : nat) (q : gs_part) (s : gs_state)
    (Q : unit → gs_state → Prop) :
  Q tt (set_part_list (<[p:=q]> (gs_part_list s)) s) → runs (put_part p q) s Q.
Proof. apply runs_modify. Qed.

Lemma runs_for_each_seq (I : nat → gs_state → Prop) (body : nat → M unit)
    (n a : nat) :
  (∀ k s, (a ≤ k < a + n)%nat → I k s → runs (body k) s (λ _ s', I (S k) s')) →
  ∀ s, I a s → runs (for_each (seq a n) body) s (λ _ s', I (a + n)%nat s').
Proof.
  revert a. induction n as [|n IH]; intros a Hbody s HI.
  - apply runs_ret. now rewrite Nat.add_0_r.
  - cbn [seq for_each]. apply runs_bind.
    apply (runs_mono _ _ _ _ (Hbody a s ltac:(lia) HI)). intros _ s1 HI1.
    replace (a + S n)%nat with (S a + n)%nat by lia.
    apply IH; [|exact HI1]. intros k s2 Hk. apply Hbody. lia.
Qed.

Lemma runs_for_index (I : nat → gs_state → Prop) (body : nat → M unit) (n : nat) :
  (∀ k s, (k < n)%nat → I k s → runs (body k) s (λ _ s', I (S k) s')) →
  ∀ s, I 0%nat s → runs (for_index n body) s (λ _ s', I n s').
Proof.
  intros Hbody s HI. unfold for_index.
  apply (runs_for_each_seq I body n 0); [|exact HI].
  intros k s1 Hk. apply Hbody. lia.
Qed.

Lemma runs_for_each_from {A} (I : list A → gs_state → Prop) (body : A → M unit)
    (l pre : list A) :
  (∀ done x rest s, pre ++ l = done ++ x :: rest → I done s →
     runs (body x) s (λ _ s', I (done ++ [x]) s')) →
  ∀ s, I pre s → runs (for_each l body) s (λ _ s', I (pre ++ l) s').
Proof.
  revert pre. induction l as [|x l IH]; intros pre Hbody s HI.
  - apply runs_ret. now rewrite app_nil_r.
  - cbn [for_each]. apply runs_bind.
    apply (runs_mono _ _ _ _ (Hbody pre x l s eq_refl HI)). intros _ s1 HI1.
    replace (pre ++ x :: l) with ((pre ++ [x]) ++ l) by now rewrite <- app_assoc.
    apply IH; [|exact HI1]. intros done y rest s2 Heq. apply (Hbody done y rest).
    now rewrite <- Heq, <- app_assoc.
Qed.

Lemma runs_for_each {A} (I : list A → gs_state → Prop) (body : A → M unit)
    (l : list A) :
  (∀ done x rest s, l = done ++ x :: rest → I done s →
     runs (body x) s (λ _ s', I (done ++ [x]) s')) →
  ∀ s, I [] s → runs (for_each l body) s (λ _ s', I l s').
Proof. intros Hbody s HI. now apply (runs_for_each_from I body l []). Qed.

(** ** The steps of the rebuild of one row *)

Lemma set_part_list_id (t : gs_state) : set_part_list (gs_part_list t) t = t.
Proof. now destruct t. Qed.

Lemma set_part_list_twice (l1 l2 : list gs_part) (t : gs_state) :
  set_part_list l2 (set_part_list l1 t) = set_part_list l2 t.
Proof. reflexivity. Qed.

Lemma row_only_find (t0 t : gs_state) (p a : nat) :
  row_only t0 p t →
  find_job_addr (gs_part_list t) a = find_job_addr (gs_part_list t0) a.
Proof.
  intros (q0 & q & Hq0 & -> & _ & _ & Hl & _). unfold find_job_addr. simpl.
  replace (map job_list (<[p:=q]> (gs_part_list t0)))
    with (map job_list (gs_part_list t0)); [reflexivity|].
  change (job_list <$> gs_part_list t0 = job_list <$> <[p:=q]> (gs_part_list t0)).
  rewrite list_fmap_insert, Hl. symmetry. apply list_insert_id.
  now rewrite list_lookup_fmap, Hq0.
Qed.

Lemma row_only_present (t0 t : gs_state) (p a : nat) (prio : Z) :
  row_only t0 p t →
  present (gs_part_list t0) prio a → present (gs_part_list t) prio a.
Proof.
  intros (q0 & q & Hq0 & -> & _ & Hprio & _ & Hsh). simpl.
  now apply (present_insert _ p q0).
Qed.

Lemma row_only_put (t0 t : gs_state) (p : nat) (q q' : gs_part) :
  row_only t0 p t → gs_part_list t !! p = Some q →
  part_name q' = part_name q → priority q' = priority q →
  job_list q' = job_list q → shadow q' = shadow q →
  row_only t0 p (set_part_list (<[p:=q']> (gs_part_list t)) t).
Proof.
  intros (q0 & q1 & Hq0 & -> & Hn & Hprio & Hl & Hsh) Hq Hn' Hprio' Hl' Hsh'.
  simpl in Hq. rewrite list_lookup_insert_eq in Hq
    by now apply lookup_lt_Some in Hq0.
  injection Hq as ->. exists q0, q'. split; [exact Hq0|]. simpl.
  rewrite list_insert_insert_eq. repeat split; congruence.
Qed.

Lemma repr_same_row (s : gs_state) (J : list job_res) (q q' : gs_part) :
  jobs_active q' = jobs_active q → active_resmap q' = active_resmap q →
  active_cpus q' = active_cpus q → repr s J q → repr s J q'.
Proof.
  unfold repr, sizes_ok. intros -> -> ->. tauto.
Qed.

Section Run.
Context (job_suspend : list suspend_msg → suspend_msg → Z).
Context (t0 : gs_state) (p : nat) (q0 : gs_part).
Hypothesis Hq0 : gs_part_list t0 !! p = Some q0.
Hypothesis Hready : rebuild_ready t0.

Lemma run_res_ok (l : list gs_job) (j : gs_job) :
  res_of <$> l = res_of <$> job_list q0 → j ∈ l → res_ok (core t0) (res_of j).
Proof.
  intros Hres Hj. destruct Hready as (_ & _ & Hjobs & _).
  apply (list_elem_of_fmap_2 res_of) in Hj. rewrite Hres in Hj.
  apply list_elem_of_fmap_1 in Hj as (j0 & -> & Hj0).
  apply (Hjobs q0 j0); [|exact Hj0]. now apply list_elem_of_lookup_2 in Hq0.
Qed.

Lemma run_not_shadow (l : list gs_job) (a : nat) :
  job_addr <$> l = job_addr <$> job_list q0 → a ∈ job_addr <$> l → a ∉ shadow q0.
Proof.
  intros Haddr Ha. destruct Hready as (Hinv & _).
  apply (inv_own_disjoint t0 p q0 Hinv Hq0). unfold job_addrs. now rewrite <- Haddr.
Qed.

Lemma run_row_reset :
  runs (put_part p (set_jobs_active 0 q0)) t0
    (λ _ t, run_inv t0 p q0 [] (job_list q0) [] t ∧ row_only t0 p t).
Proof.
  apply runs_put_part. destruct Hready as (_ & _ & _ & Hsizes & _). split.
  - split; [reflexivity|]. split; [|repeat split; intros a Ha; inversion Ha].
    exists (set_jobs_active 0 q0). simpl.
    rewrite list_lookup_insert_eq by now apply lookup_lt_Some in Hq0.
    split; [reflexivity|]. do 4 (split; [reflexivity|]). split; [|now split].
    split; [reflexivity|]. split; [|tauto].
    apply (Hsizes q0). now apply list_elem_of_lookup_2 in Hq0.
  - exists q0, (set_jobs_active 0 q0). now repeat split.
Qed.

Lemma run_get_job (J : list job_res) (l : list gs_job) (As : list nat)
    (t : gs_state) (i : nat) (j : gs_job) :
  run_inv t0 p q0 J l As t → l !! i = Some j →
  runs (get_job p i) t (λ r t', r = j ∧ t' = t).
Proof.
  intros (_ & (q & Hq & _ & Hl & _) & _) Hj. unfold get_job.
  apply runs_bind, (runs_get_part p q); [exact Hq|].
  apply (runs_lift _ j); [|easy]. unfold array_get. now rewrite Hl, Hj.
Qed.

Lemma run_get_part (J : list job_res) (l : list gs_job) (As : list nat)
    (t : gs_state) :
  run_inv t0 p q0 J l As t →
  runs (get_part p) t (λ q t', t' = t ∧ priority q = priority q0).
Proof.
  intros (_ & (q & Hq & _ & _ & Hprio & _) & _).
  now apply (runs_get_part p q).
Qed.

Lemma run_job_fits (J : list job_res) (l : list gs_job) (As : list nat)
    (t : gs_state) (j : gs_job) :
  run_inv t0 p q0 J l As t → res_ok (core t0) (res_of j) →
  runs (job_fits j p) t
    (λ b t', t' = t ∧ (b = true ↔ fits_on (core t0) J (res_of j))).
Proof.
  intros (Hcore & (q & Hq & _ & _ & _ & _ & Hrepr & _) & _) Hok.
  destruct Hready as (_ & Hcap & _).
  destruct (_job_fits_repr (core t0) J j q Hcap Hok Hrepr) as (b & Hb & Hiff).
  unfold job_fits. apply runs_bind, (runs_get_part p q); [exact Hq|].
  apply runs_bind, runs_get_state. apply (runs_lift _ b); [|easy].
  now rewrite <- _job_fits_in_active_row_core, Hcore.
Qed.

Lemma run_add_active (J : list job_res) (l : list gs_job) (As : list nat)
    (t : gs_state) (j : gs_job) :
  run_inv t0 p q0 J l As t → res_ok (core t0) (res_of j) →
  Z.of_nat (length J) + 1 < 4294967296 →
  runs (add_active j p) t
    (λ _ t', run_inv t0 p q0 (J ++ [res_of j]) l As t' ∧
             (row_only t0 p t → row_only t0 p t')).
Proof.
  intros (Hcore & (q & Hq & Hsh & Hl & Hprio & Hname & Hrepr & Hbits & _) &
          Hres & Haddr & Hpres) Hok Hbound.
  destruct Hready as (_ & Hcap & _).
  destruct (_add_job_to_active_repr (core t0) J j q Hcap Hok Hrepr Hbound)
    as (q' & Hadd & Hrepr' & Hname' & Hprio' & Hl' & Hsh' & Hbits').
  unfold add_active. apply runs_bind, (runs_get_part p q); [exact Hq|].
  apply runs_bind, runs_get_state. apply runs_bind, (runs_lift _ q').
  { now rewrite <- _add_job_to_active_core, Hcore. }
  apply runs_put_part. split.
  - split; [exact Hcore|]. split; [|split; [exact Hres|split; [exact Haddr|]]].
    + exists q'. simpl.
      rewrite list_lookup_insert_eq by now apply lookup_lt_Some in Hq.
      split; [reflexivity|]. split; [congruence|]. split; [congruence|].
      split; [congruence|]. split; [congruence|]. split; [exact Hrepr'|].
      split; [|intros HJ; now destruct J].
      intros Hb. rewrite (Hbits' Hb). now apply Hbits.
    + intros a Ha. simpl. apply (present_insert _ p q); try congruence.
      now apply Hpres.
  - intros Hrow. now apply (row_only_put t0 t p q q').
Qed.

Lemma run_modify_job (J : list job_res) (l : list gs_job) (As : list nat)
    (t : gs_state) (i : nat) (j : gs_job) (f : gs_job → gs_job) :
  run_inv t0 p q0 J l As t → l !! i = Some j →
  (∀ x, job_addr (f x) = job_addr x ∧ res_of (f x) = res_of x) →
  runs (modify_job p i f) t (λ _ t', run_inv t0 p q0 J (<[i:=f j]> l) As t').
Proof.
  intros (Hcore & (q & Hq & Hsh & Hl & Hprio & Hname & Hrepr & Hbits & Hnil) &
          Hres & Haddr & Hpres) Hj Hf.
  unfold modify_job. apply runs_bind, (runs_get_part p q); [exact Hq|].
  apply runs_bind, (runs_lift _ j).
  { unfold array_get. now rewrite Hl, Hj. }
  apply runs_put_part.
  split; [exact Hcore|]. split; [|split; [|split]].
  - exists (set_job_list (<[i:=f j]> (job_list q)) q). simpl.
    rewrite list_lookup_insert_eq by now apply lookup_lt_Some in Hq.
    rewrite Hl. split; [reflexivity|]. do 4 (split; [easy|]).
    split; [|now split]. now apply (repr_same_row _ _ q).
  - rewrite list_fmap_insert, (proj2 (Hf j)), <- Hres. apply list_insert_id.
    now rewrite list_lookup_fmap, Hj.
  - rewrite list_fmap_insert, (proj1 (Hf j)), <- Haddr. apply list_insert_id.
    now rewrite list_lookup_fmap, Hj.
  - intros a Ha. simpl. apply (present_insert _ p q); try easy. now apply Hpres.
Qed.

Lemma run__signal_job (J : list job_res) (l : list gs_job) (As : list nat)
    (t : gs_state) (id : Z) (sig : gs_flags) :
  run_inv t0 p q0 J l As t →
  runs (_signal_job job_suspend id sig) t (λ _ t', run_inv t0 p q0 J l As t').
Proof.
  intros Hinv. eexists tt, _. split; [reflexivity|]. exact Hinv.
Qed.

Lemma run__cast_shadow (J : list job_res) (l : list gs_job) (As : list nat)
    (t : gs_state) (a : nat) :
  run_inv t0 p q0 J l As t →
  runs (_cast_shadow a (priority q0)) t
    (λ _ t', run_inv t0 p q0 J l (As ++ [a]) t').
Proof.
  intros (Hcore & (q & Hq & Hsh & Hl & Hprio & Hname & Hrepr & Hbits & Hnil) &
          Hres & Haddr & Hpres).
  apply runs_modify. split; [exact Hcore|]. split; [|split; [|split]];
    try assumption.
  - exists q. simpl. rewrite lookup_map_part, Hq. simpl.
    unfold _cast_shadow_part. rewrite Hprio.
    destruct (Z.geb_spec (priority q0) (priority q0)); [|lia].
    split; [reflexivity|]. do 4 (split; [easy|]). now split.
  - intros a' Ha'. simpl. apply elem_of_app in Ha' as [Ha'|Ha'].
    + apply present_cast. now apply Hpres.
    + apply list_elem_of_singleton in Ha' as ->. apply present_cast_new.
Qed.

Lemma run__clear_shadow (J : list job_res) (l : list gs_job) (As : list nat)
    (t : gs_state) (a : nat) :
  run_inv t0 p q0 J l As t → a ∉ As → a ∈ job_addr <$> l →
  runs (_clear_shadow a) t (λ _ t', run_inv t0 p q0 J l As t').
Proof.
  intros (Hcore & (q & Hq & Hsh & Hl & Hprio & Hname & Hrepr & Hbits & Hnil) &
          Hres & Haddr & Hpres) HAs Ha.
  apply runs_modify. split; [exact Hcore|]. split; [|split; [|split]];
    try assumption.
  - exists q. simpl. rewrite lookup_map_part, Hq. simpl.
    rewrite _clear_shadow_part_absent;
      [split; [reflexivity|]; do 4 (split; [easy|]); now split|].
    rewrite Hsh. now apply (run_not_shadow l).
  - intros a' Ha'. simpl. apply present_clear; [|now apply Hpres].
    intros ->. contradiction.
Qed.

(** The shadow is already cast: nothing changes. *)
Lemma _cast_shadow_present (t : gs_state) (a : nat) (prio : Z) :
  present (gs_part_list t) prio a → _cast_shadow a prio t = Ok (tt, t).
Proof.
  intros Hpres. unfold _cast_shadow, modify.
  assert (Hmap : map (_cast_shadow_part a prio) (gs_part_list t) = gs_part_list t).
  { rewrite <- (map_id (gs_part_list t)) at 2. apply map_ext_in.
    intros q Hq. apply _cast_shadow_part_present. intros Hlt.
    apply Hpres; [|exact Hlt]. now apply list_elem_of_In. }
  now rewrite Hmap, set_part_list_id.
Qed.

(** Reading through a shadow pointer, while only the row has changed. *)
Lemma run_deref_job (t : gs_state) (a : nat) :
  row_only t0 p t → a ∈ shadow q0 →
  runs (deref_job a) t
    (λ j t', t' = t ∧ find_job_addr (gs_part_list t0) a = Some j ∧
             res_ok (core t0) (res_of j)).
Proof.
  intros Hrow Ha. destruct Hready as (Hinv & _ & Hjobs & _).
  destruct (shadow_owner t0 p q0 a Hinv Hq0 Ha)
    as (po & qo & j & Hqo & _ & Hj & _ & Hfind).
  exists j, t. split.
  - unfold deref_job. now rewrite (row_only_find t0 t p a Hrow), Hfind.
  - repeat split; [exact Hfind|..]; apply (Hjobs qo j); try exact Hj;
      now apply list_elem_of_lookup_2 in Hqo.
Qed.

End Run.

(** ** The jobs of a row state in a job list *)

Lemma filter_take_S {A} (P : A → Prop) `{∀ x, Decision (P x)} (l : list A)
    (k : nat) (j : A) :
  l !! k = Some j →
  filter P (take (S k) l) = filter P (take k l) ++ (if decide (P j) then [j] else []).
Proof.
  intros Hj. rewrite (take_S_r l k j Hj), list.filter_app. f_equal.
Qed.

Lemma row_res_take_S (w : gs_flags) (l : list gs_job) (k : nat) (j : gs_job) :
  l !! k = Some j →
  row_res w (take (S k) l) =
  row_res w (take k l) ++ (if decide (row_state j = w) then [res_of j] else []).
Proof.
  intros Hj. unfold row_res. rewrite (filter_take_S _ l k j Hj), fmap_app.
  now case_decide.
Qed.

Lemma filter_insert_other (w : gs_flags) (l : list gs_job) (k : nat)
    (j j' : gs_job) :
  l !! k = Some j → row_state j ≠ w → row_state j' ≠ w →
  filter (λ x, row_state x = w) (<[k:=j']> l) = filter (λ x, row_state x = w) l.
Proof.
  intros Hj Hw Hw'. rewrite <- (take_drop_middle l k j Hj) at 2.
  rewrite insert_take_drop by now apply lookup_lt_Some in Hj.
  rewrite !list.filter_app, !filter_cons. now rewrite !decide_False by assumption.
Qed.

Lemma filter_insert_new (w : gs_flags) (l : list gs_job) (k : nat)
    (j j' : gs_job) :
  l !! k = Some j → row_state j ≠ w → row_state j' = w →
  filter (λ x, row_state x = w) (<[k:=j']> l) =
    filter (λ x, row_state x = w) (take k l) ++
    j' :: filter (λ x, row_state x = w) (drop (S k) l) ∧
  filter (λ x, row_state x = w) l =
    filter (λ x, row_state x = w) (take k l) ++
    filter (λ x, row_state x = w) (drop (S k) l).
Proof.
  intros Hj Hw Hw'. split.
  - rewrite insert_take_drop by now apply lookup_lt_Some in Hj.
    rewrite list.filter_app, filter_cons. now rewrite decide_True by assumption.
  - rewrite <- (take_drop_middle l k j Hj) at 1.
    rewrite list.filter_app, filter_cons. now rewrite decide_False by assumption.
Qed.

Lemma NoDup_fmap_take_notin {A B} (f : A → B) (l : list A) (k : nat) (j x : A) :
  NoDup (f <$> l) → l !! k = Some j → x ∈ take k l → f x ≠ f j.
Proof.
  intros Hnd Hj Hx Heq. apply elem_of_take in Hx as (i & Hi & Hlt).
  assert (i = k); [|lia].
  apply (NoDup_lookup (f <$> l) i k (f x) Hnd).
  - now rewrite list_lookup_fmap, Hi.
  - now rewrite list_lookup_fmap, Hj, Heq.
Qed.

Lemma NoDup_fmap_inj {A B} (f : A → B) (l : list A) (x y : A) :
  NoDup (f <$> l) → x ∈ l → y ∈ l → f x = f y → x = y.
Proof.
  intros Hnd Hx Hy Heq.
  apply list_elem_of_lookup_1 in Hx as [i Hi].
  apply list_elem_of_lookup_1 in Hy as [k Hk].
  assert (i = k); [|congruence].
  apply (NoDup_lookup (f <$> l) i k (f x) Hnd).
  - now rewrite list_lookup_fmap, Hi.
  - now rewrite list_lookup_fmap, Hk, Heq.
Qed.

Lemma drop_S_eq {A} (l l' : list A) (k : nat) :
  drop k l = drop k l' → drop (S k) l = drop (S k) l'.
Proof.
  intros Heq. replace (S k) with (k + 1)%nat by lia.
  now rewrite <- !drop_drop, Heq.
Qed.

Lemma length_row_res (w : gs_flags) (l : list gs_job) :
  (length (row_res w l) ≤ length l)%nat.
Proof. unfold row_res. rewrite length_fmap. apply length_filter. Qed.

Lemma seated_res_insert_new (l : list gs_job) (k : nat) (j j' : gs_job) :
  l !! k = Some j → row_state j = GS_NO_ACTIVE → row_state j' = GS_FILLER →
  res_of j' = res_of j →
  seated_res (<[k:=j']> l) ≡ₚ seated_res l ++ [res_of j].
Proof.
  intros Hj Hrow Hrow' Hres. unfold seated_res, row_res.
  rewrite (filter_insert_other GS_ACTIVE l k j j' Hj) by congruence.
  destruct (filter_insert_new GS_FILLER l k j j' Hj) as [-> ->];
    [congruence|assumption|].
  rewrite !fmap_app, fmap_cons, Hres, <- !app_assoc.
  apply Permutation_app_head, Permutation_app_head.
  rewrite <- Permutation_cons_append. reflexivity.
Qed.

Lemma setters_keep (x : gs_job) (v w : gs_flags) :
  (job_addr (set_sig_state v x) = job_addr x ∧ res_of (set_sig_state v x) = res_of x) ∧
  (job_addr (set_row_state w x) = job_addr x ∧ res_of (set_row_state w x) = res_of x).
Proof. now repeat split. Qed.

(** ** The loops of [_update_active_row] *)

Section Rebuild.
Context (job_suspend : list suspend_msg → suspend_msg → Z).
Context (t0 : gs_state) (p : nat) (q0 : gs_part).
Hypothesis Hq0 : gs_part_list t0 !! p = Some q0.
Hypothesis Hready : rebuild_ready t0.

Lemma run_bounds :
  Z.of_nat (length (shadow q0)) < 1073741824 ∧
  Z.of_nat (length (job_list q0)) < 1073741824.
Proof.
  destruct Hready as (Hinv & _ & _ & _ & Hnext).
  destruct (part_sizes t0 p q0 Hinv Hq0) as [Hs Hj].
  unfold num_shadows, num_jobs in *. lia.
Qed.

Lemma run_NoDup (l : list gs_job) :
  job_addr <$> l = job_addr <$> job_list q0 → NoDup (job_addr <$> l).
Proof.
  intros ->. destruct Hready as (((Hnd & _) & _) & _). apply (Hnd p q0 Hq0).
Qed.

Lemma run_Forall_res_ok (w : gs_flags) (l : list gs_job) :
  res_of <$> l = res_of <$> job_list q0 → Forall (res_ok (core t0)) (row_res w l).
Proof.
  intros Hres. apply Forall_forall. intros r Hr. unfold row_res in Hr.
  apply list_elem_of_fmap_1 in Hr as (j & -> & Hj).
  apply list_elem_of_filter in Hj as [_ Hj].
  now apply (run_res_ok t0 p q0 Hq0 Hready l).
Qed.

(** The loop over the shadows. *)
Lemma run_shadows (t : gs_state) :
  run_inv t0 p q0 [] (job_list q0) [] t → row_only t0 p t →
  runs (for_each (shadow q0) (λ sh, j <- deref_job sh ;; add_active j p)) t
    (λ _ t', run_inv t0 p q0 (shadow_res (gs_part_list t0) (shadow q0))
               (job_list q0) [] t' ∧ row_only t0 p t').
Proof.
  intros Hrun Hrow.
  apply (runs_for_each
           (λ done t', run_inv t0 p q0 (shadow_res (gs_part_list t0) done)
                         (job_list q0) [] t' ∧ row_only t0 p t'));
    [|now split].
  intros done a rest t1 Hsplit [Hrun1 Hrow1].
  assert (Ha : a ∈ shadow q0).
  { rewrite Hsplit. apply elem_of_app. right. now left. }
  apply runs_bind, (runs_mono _ _ _ _ (run_deref_job t0 p q0 Hq0 Hready t1 a Hrow1 Ha)).
  intros j ? (-> & Hfind & Hok).
  assert (Hbound : Z.of_nat (length (shadow_res (gs_part_list t0) done)) + 1
                   < 4294967296).
  { pose proof run_bounds as [Hs _]. unfold shadow_res. rewrite length_fmap.
    rewrite Hsplit, length_app in Hs. lia. }
  apply (runs_mono _ _ _ _
           (run_add_active t0 p q0 Hready _ _ _ t1 j Hrun1 Hok Hbound)).
  intros _ t2 [Hrun2 Hrow2]. split; [|now apply Hrow2].
  unfold shadow_res. rewrite fmap_app. simpl. now rewrite Hfind.
Qed.

(** One turn of a loop over the seated jobs. *)
Lemma run__update_seated_job (which : gs_flags) (Xb : list job_res)
    (Ab : list nat) (ls l : list gs_job) (k : nat) (t : gs_state) :
  which ≠ GS_NO_ACTIVE → Forall (res_ok (core t0)) Xb →
  (length Xb ≤ length ls)%nat → length ls = length (job_list q0) →
  (∀ x, x ∈ ls → row_state x = which → job_addr x ∉ Ab) →
  (k < length ls)%nat →
  seated_inv t0 p q0 which Xb Ab ls k l t →
  runs (_update_seated_job job_suspend p which k) t
    (λ _ t', ∃ l', seated_inv t0 p q0 which Xb Ab ls (S k) l' t').
Proof.
  intros Hwhich HXb HlenXb Hlen HAb Hk (Hrun & Hadm & Hl & Hdrop & Hfilt).
  destruct (lookup_lt_is_Some_2 l k ltac:(lia)) as [j Hj].
  pose proof Hrun as (_ & _ & Hres & Haddr & _).
  assert (Hjl : j ∈ l) by now apply list_elem_of_lookup_2 in Hj.
  assert (Hokj : res_ok (core t0) (res_of j))
    by now apply (run_res_ok t0 p q0 Hq0 Hready l).
  assert (Hjs : ls !! k = Some j).
  { rewrite <- (Nat.add_0_r k), <- lookup_drop, <- Hdrop, lookup_drop.
    now rewrite Nat.add_0_r. }
  unfold _update_seated_job.
  apply runs_bind, (runs_mono _ _ _ _ (run_get_job t0 p q0 _ _ _ t k j Hrun Hj)).
  intros ? ? [-> ->].
  destruct (decide (row_state j ≠ which)) as [Hne|Heq].
  { apply runs_ret. exists l. unfold seated_inv.
    rewrite (row_res_take_S which l k j Hj), (filter_take_S _ l k j Hj).
    rewrite !decide_False by assumption. rewrite !app_nil_r.
    split; [exact Hrun|]. split; [exact Hadm|]. split; [exact Hl|].
    split; [now apply drop_S_eq | exact Hfilt]. }
  apply dec_stable in Heq.
  apply runs_bind, (runs_mono _ _ _ _ (run_job_fits t0 p q0 Hready _ _ _ t j Hrun Hokj)).
  intros b ? [-> Hb]. destruct b.
  - assert (Hbound : Z.of_nat (length (shadow_res (gs_part_list t0) (shadow q0)
                        ++ Xb ++ row_res which (take k l))) + 1 < 4294967296).
    { pose proof run_bounds as [Hs Hn]. rewrite !length_app.
      unfold shadow_res at 1. rewrite length_fmap.
      pose proof (length_row_res which (take k l)) as Hr.
      rewrite length_take in Hr. lia. }
    apply runs_bind, (runs_mono _ _ _ _
      (run_add_active t0 p q0 Hready _ _ _ t j Hrun Hokj Hbound)).
    intros _ t1 [Hrun1 _].
    apply runs_bind, (runs_mono _ _ _ _ (run_get_part t0 p q0 _ _ _ t1 Hrun1)).
    intros q ? [-> ->].
    apply (runs_mono _ _ _ _ (run__cast_shadow t0 p q0 _ _ _ t1 (job_addr j) Hrun1)).
    intros _ t2 Hrun2. exists l. unfold seated_inv.
    rewrite (row_res_take_S which l k j Hj), (filter_take_S _ l k j Hj).
    rewrite !decide_True by assumption. rewrite fmap_app.
    rewrite <- !app_assoc in Hrun2. split; [exact Hrun2|].
    split; [|split; [exact Hl|split; [now apply drop_S_eq | exact Hfilt]]].
    rewrite app_assoc. apply admissible_snoc; try assumption.
    + now destruct Hready as (_ & Hcap & _).
    + apply Forall_app. split; [exact HXb|].
      apply Forall_forall. intros r Hr.
      apply (proj1 (Forall_forall _ _) (run_Forall_res_ok which l Hres)).
      unfold row_res in *. apply list_elem_of_fmap_1 in Hr as (x & -> & Hx).
      apply list_elem_of_fmap_2. apply list_elem_of_filter in Hx as [Hw Hx].
      apply list_elem_of_filter. split; [exact Hw|].
      apply elem_of_take in Hx as (i & Hi & _). now apply list_elem_of_lookup_2 in Hi.
    + now apply Hb.
  - assert (Hnot : job_addr j ∉
               Ab ++ (job_addr <$> filter (λ x, row_state x = which) (take k l))).
    { intros Hin. apply elem_of_app in Hin as [Hin|Hin].
      - apply (HAb j); [now apply list_elem_of_lookup_2 in Hjs|exact Heq|exact Hin].
      - apply list_elem_of_fmap_1 in Hin as (x & Hx & Hxin).
        apply list_elem_of_filter in Hxin as [_ Hxin].
        apply (NoDup_fmap_take_notin job_addr l k j x); auto.
        now apply run_NoDup. }
    set (J := shadow_res (gs_part_list t0) (shadow q0) ++ Xb ++
              row_res which (take k l)) in *.
    set (As := Ab ++ (job_addr <$> filter (λ x, row_state x = which) (take k l)))
      in *.
    assert (Hinner :
      runs (if decide (sig_state j ≠ GS_SUSPEND)
            then _signal_job job_suspend (job_id j) GS_SUSPEND ;;;
                 modify_job p k (set_sig_state GS_SUSPEND) ;;;
                 _clear_shadow (job_addr j)
            else ret tt) t
        (λ _ t1, ∃ j1, run_inv t0 p q0 J (<[k:=j1]> l) As t1 ∧
                       job_addr j1 = job_addr j ∧ res_of j1 = res_of j)).
    { destruct (decide (sig_state j ≠ GS_SUSPEND)).
      - apply runs_bind, (runs_mono _ _ _ _
          (run__signal_job job_suspend t0 p q0 _ _ _ t (job_id j) GS_SUSPEND Hrun)).
        intros _ t1 Hrun1.
        apply runs_bind, (runs_mono _ _ _ _
          (run_modify_job t0 p q0 _ _ _ t1 k j (set_sig_state GS_SUSPEND) Hrun1 Hj
             (λ x, proj1 (setters_keep x GS_SUSPEND GS_SUSPEND)))).
        intros _ t2 Hrun2.
        assert (Hin : job_addr j ∈
                  job_addr <$> <[k:=set_sig_state GS_SUSPEND j]> l).
        { apply (list_elem_of_fmap_2' job_addr _ (set_sig_state GS_SUSPEND j));
            [|reflexivity].
          apply (list_elem_of_lookup_2 _ k). apply list_lookup_insert_eq.
          now apply lookup_lt_Some in Hj. }
        apply (runs_mono _ _ _ _
          (run__clear_shadow t0 p q0 Hq0 Hready _ _ _ t2 (job_addr j) Hrun2 Hnot Hin)).
        intros _ t3 Hrun3. exists (set_sig_state GS_SUSPEND j). now split.
      - apply runs_ret. exists j. rewrite list_insert_id by exact Hj. now split. }
    apply runs_bind, (runs_mono _ _ _ _ Hinner).
    intros _ t1 (j1 & Hrun1 & Haddr1 & Hres1).
    assert (Hj1 : <[k:=j1]> l !! k = Some j1).
    { apply list_lookup_insert_eq. now apply lookup_lt_Some in Hj. }
    apply (runs_mono _ _ _ _
      (run_modify_job t0 p q0 _ _ _ t1 k j1 (set_row_state GS_NO_ACTIVE) Hrun1 Hj1
         (λ x, proj2 (setters_keep x GS_SUSPEND GS_NO_ACTIVE)))).
    intros _ t2 Hrun2. rewrite list_insert_insert_eq in Hrun2.
    set (j2 := set_row_state GS_NO_ACTIVE j1) in *.
    assert (Hj2 : <[k:=j2]> l !! k = Some j2).
    { apply list_lookup_insert_eq. now apply lookup_lt_Some in Hj. }
    exists (<[k:=j2]> l). unfold seated_inv.
    rewrite (row_res_take_S which _ k j2 Hj2), (filter_take_S _ _ k j2 Hj2).
    rewrite !decide_False by (simpl; congruence).
    rewrite take_insert_ge by lia. rewrite !app_nil_r.
    split; [exact Hrun2|]. split; [exact Hadm|].
    split; [now rewrite length_insert|]. split.
    + rewrite drop_insert_lt by lia. now apply drop_S_eq.
    + intros w Hw Hw'. rewrite (filter_insert_other w l k j j2 Hj);
        [now apply Hfilt|congruence|simpl; congruence].
Qed.

(** A loop over the seated jobs. *)
Lemma run_seated_loop (which : gs_flags) (Xb : list job_res) (Ab : list nat)
    (ls : list gs_job) (t : gs_state) :
  which ≠ GS_NO_ACTIVE → Forall (res_ok (core t0)) Xb →
  (length Xb ≤ length ls)%nat → length ls = length (job_list q0) →
  (∀ x, x ∈ ls → row_state x = which → job_addr x ∉ Ab) →
  run_inv t0 p q0 (shadow_res (gs_part_list t0) (shadow q0) ++ Xb) ls Ab t →
  admissible (core t0) (shadow_res (gs_part_list t0) (shadow q0)) Xb →
  runs (for_index (num_jobs q0) (_update_seated_job job_suspend p which)) t
    (λ _ t', ∃ l', seated_inv t0 p q0 which Xb Ab ls (length ls) l' t').
Proof.
  intros Hwhich HXb HlenXb Hlen HAb Hrun Hadm. unfold num_jobs. rewrite <- Hlen.
  apply (runs_for_index
           (λ k t', ∃ l', seated_inv t0 p q0 which Xb Ab ls k l' t')).
  - intros k t1 Hk [l Hl]. now apply (run__update_seated_job which Xb Ab ls l).
  - exists ls. unfold seated_inv. rewrite !take_0. unfold row_res.
    rewrite filter_nil, fmap_nil, !app_nil_r. now repeat (split; [easy|]).
Qed.

(** One turn of the loop over the new jobs. *)
Lemma run__update_new_job (l : list gs_job) (X : list job_res) (As : list nat)
    (k : nat) (t : gs_state) :
  (k < length (job_list q0))%nat →
  new_inv t0 p q0 k l X As t →
  runs (_update_new_job job_suspend p k) t
    (λ _ t', ∃ l' X' As', new_inv t0 p q0 (S k) l' X' As' t').
Proof.
  intros Hk (Hrun & HX & Hadm & Hl & HAs & Hfail).
  destruct (lookup_lt_is_Some_2 l k ltac:(lia)) as [j Hj].
  pose proof Hrun as (_ & _ & Hres & Haddr & _).
  pose proof Hready as (_ & Hcap & _).
  assert (Hjl : j ∈ l) by now apply list_elem_of_lookup_2 in Hj.
  assert (Hokj : res_ok (core t0) (res_of j))
    by now apply (run_res_ok t0 p q0 Hq0 Hready l).
  assert (HokX : Forall (res_ok (core t0)) X).
  { rewrite HX. unfold seated_res. apply Forall_app.
    split; now apply run_Forall_res_ok. }
  unfold _update_new_job.
  apply runs_bind, (runs_mono _ _ _ _ (run_get_job t0 p q0 _ _ _ t k j Hrun Hj)).
  intros ? ? [-> ->].
  destruct (decide (row_state j ≠ GS_NO_ACTIVE)) as [Hne|Heq].
  { apply runs_ret. exists l, X, As. repeat (split; [assumption|]).
    intros i x Hi Hx Hrow. destruct (decide (i = k)) as [->|Hik].
    - congruence.
    - apply (Hfail i x); [lia|assumption..]. }
  apply dec_stable in Heq.
  apply runs_bind, (runs_mono _ _ _ _ (run_job_fits t0 p q0 Hready _ _ _ t j Hrun Hokj)).
  intros b ? [-> Hb]. destruct b.
  - assert (Hbound : Z.of_nat (length (shadow_res (gs_part_list t0) (shadow q0)
                        ++ X)) + 1 < 4294967296).
    { pose proof run_bounds as [Hs Hn]. rewrite length_app.
      unfold shadow_res at 1. rewrite length_fmap, HX. unfold seated_res.
      rewrite length_app.
      pose proof (length_row_res GS_ACTIVE l).
      pose proof (length_row_res GS_FILLER l). lia. }
    apply runs_bind, (runs_mono _ _ _ _
      (run_add_active t0 p q0 Hready _ _ _ t j Hrun Hokj Hbound)).
    intros _ t1 [Hrun1 _].
    apply runs_bind, (runs_mono _ _ _ _ (run_get_part t0 p q0 _ _ _ t1 Hrun1)).
    intros q ? [-> ->].
    apply runs_bind, (runs_mono _ _ _ _
      (run__cast_shadow t0 p q0 _ _ _ t1 (job_addr j) Hrun1)).
    intros _ t2 Hrun2.
    apply runs_bind, (runs_mono _ _ _ _
      (run_modify_job t0 p q0 _ _ _ t2 k j (set_row_state GS_FILLER) Hrun2 Hj
         (λ x, proj2 (setters_keep x GS_SUSPEND GS_FILLER)))).
    intros _ t3 Hrun3.
    set (j1 := set_row_state GS_FILLER j) in *.
    assert (Hj1 : <[k:=j1]> l !! k = Some j1).
    { apply list_lookup_insert_eq. now apply lookup_lt_Some in Hj. }
    assert (Hend : ∀ j' t',
      run_inv t0 p q0 ((shadow_res (gs_part_list t0) (shadow q0) ++ X) ++ [res_of j])
        (<[k:=j']> l) (As ++ [job_addr j]) t' →
      row_state j' = GS_FILLER → job_addr j' = job_addr j → res_of j' = res_of j →
      ∃ l' X' As', new_inv t0 p q0 (S k) l' X' As' t').
    { intros j' t' Hrun' Hrow' Haddr' Hres'.
      exists (<[k:=j']> l), (X ++ [res_of j]), (As ++ [job_addr j]).
      assert (Hadm' : admissible (core t0)
                (shadow_res (gs_part_list t0) (shadow q0)) (X ++ [res_of j])).
      { apply admissible_snoc; try assumption. now apply Hb. }
      split; [now rewrite <- app_assoc in Hrun'|].
      split; [now rewrite (seated_res_insert_new l k j j' Hj Heq Hrow' Hres'), HX|].
      split; [exact Hadm'|]. split; [now rewrite length_insert|]. split.
      - intros x Hx Hseated. apply elem_of_app.
        apply elem_of_insert_inv in Hx as [->|Hx].
        + right. rewrite Haddr'. now left.
        + left. now apply HAs.
      - intros i x Hi Hx Hrow. destruct (decide (i = k)) as [->|Hik].
        + rewrite list_lookup_insert_eq in Hx by now apply lookup_lt_Some in Hj.
          injection Hx as <-. congruence.
        + rewrite list_lookup_insert_ne in Hx by congruence.
          intros Hfits. apply (Hfail i x); [lia|assumption..|].
          apply (fits_on_fewer (core t0) Hcap _ X [res_of j]); try assumption.
          apply Forall_app. split; [exact HokX|]. now constructor. }
    destruct (decide (sig_state j = GS_SUSPEND)).
    + apply runs_bind, (runs_mono _ _ _ _
        (run__signal_job job_suspend t0 p q0 _ _ _ t3 (job_id j) GS_RESUME Hrun3)).
      intros _ t4 Hrun4.
      apply (runs_mono _ _ _ _
        (run_modify_job t0 p q0 _ _ _ t4 k j1 (set_sig_state GS_RESUME) Hrun4 Hj1
           (λ x, proj1 (setters_keep x GS_RESUME GS_SUSPEND)))).
      intros _ t5 Hrun5. rewrite list_insert_insert_eq in Hrun5.
      now apply (Hend (set_sig_state GS_RESUME j1) t5).
    + apply runs_ret. now apply (Hend j1 t3).
  - apply runs_ret. exists l, X, As. repeat (split; [assumption|]).
    intros i x Hi Hx Hrow. destruct (decide (i = k)) as [->|Hik].
    + replace x with j by congruence. intros Hfits. apply Hb in Hfits. discriminate.
    + apply (Hfail i x); [lia|assumption..].
Qed.

(** The loop over the new jobs. *)
Lemma run_new_loop (l : list gs_job) (X : list job_res) (As : list nat)
    (t : gs_state) :
  new_inv t0 p q0 0 l X As t →
  runs (for_index (num_jobs q0) (_update_new_job job_suspend p)) t
    (λ _ t', ∃ l' X' As', new_inv t0 p q0 (num_jobs q0) l' X' As' t').
Proof.
  intros Hnew.
  apply (runs_for_index (λ k t', ∃ l' X' As', new_inv t0 p q0 k l' X' As' t')).
  - intros k t1 Hk (l1 & X1 & As1 & H1). now apply (run__update_new_job l1 X1 As1).
  - now exists l, X, As.
Qed.

(** The rebuild of the row runs, and leaves the row settled. *)
Lemma run__update_active_row :
  runs (_update_active_row job_suspend p true) t0
    (λ _ t', ∃ q', gs_part_list t' !! p = Some q' ∧ shadow q' = shadow q0 ∧
                   res_of <$> job_list q' = res_of <$> job_list q0 ∧
                   settled_by (core t0)
                     (shadow_res (gs_part_list t0) (shadow q0))
                     (gs_part_list t') q').
Proof.
  pose proof Hready as (_ & Hcap & _).
  set (S0 := shadow_res (gs_part_list t0) (shadow q0)).
  unfold _update_active_row.
  apply runs_bind, (runs_get_part p q0 t0); [exact Hq0|].
  apply runs_bind, (runs_mono _ _ _ _ (run_row_reset t0 p q0 Hq0 Hready)).
  intros _ t1 [Hrun1 Hrow1].
  apply runs_bind, (runs_mono _ _ _ _ (run_shadows t1 Hrun1 Hrow1)).
  intros _ t2 [Hrun2 _]. fold S0 in Hrun2.
  (* the jobs that were in the active row *)
  assert (HrunA : run_inv t0 p q0 (S0 ++ []) (job_list q0) [] t2)
    by now rewrite app_nil_r.
  apply runs_bind, (runs_mono _ _ _ _
    (run_seated_loop GS_ACTIVE [] [] (job_list q0) t2 ltac:(discriminate)
       ltac:(constructor) ltac:(simpl; lia) eq_refl
       ltac:(intros x _ _ Hin; inversion Hin) HrunA (admissible_nil _ S0))).
  intros _ t3 (lA & HrunA3 & HadmA & HlA & _ & _).
  rewrite <- HlA, firstn_all in HrunA3, HadmA. cbn [app] in HrunA3, HadmA.
  pose proof HrunA3 as (_ & _ & HresA & HaddrA & _).
  (* the fillers *)
  assert (HAb : ∀ x, x ∈ lA → row_state x = GS_FILLER →
                job_addr x ∉ job_addr <$> filter (λ j, row_state j = GS_ACTIVE) lA).
  { intros x Hx Hrow Hin. apply list_elem_of_fmap_1 in Hin as (y & Heq & Hy).
    apply list_elem_of_filter in Hy as [Hrowy Hy].
    assert (x = y) by now apply (NoDup_fmap_inj job_addr lA x y (run_NoDup lA HaddrA)).
    congruence. }
  apply runs_bind, (runs_mono _ _ _ _
    (run_seated_loop GS_FILLER (row_res GS_ACTIVE lA)
       (job_addr <$> filter (λ j, row_state j = GS_ACTIVE) lA) lA t3
       ltac:(discriminate) (run_Forall_res_ok GS_ACTIVE lA HresA)
       (length_row_res GS_ACTIVE lA) HlA HAb HrunA3 HadmA)).
  intros _ t4 (lF & HrunF & HadmF & HlF & _ & HfiltF).
  rewrite <- HlF, firstn_all in HrunF, HadmF.
  assert (HA : filter (λ j, row_state j = GS_ACTIVE) lA
               = filter (λ j, row_state j = GS_ACTIVE) lF).
  { symmetry. apply HfiltF; discriminate. }
  unfold row_res in HrunF, HadmF. rewrite HA in HrunF, HadmF.
  fold (row_res GS_ACTIVE lF) (row_res GS_FILLER lF) in HrunF, HadmF.
  fold (seated_res lF) in HrunF, HadmF.
  pose proof HrunF as (_ & _ & HresF & HaddrF & _).
  (* the new jobs *)
  assert (Hnew : new_inv t0 p q0 0 lF (seated_res lF)
            ((job_addr <$> filter (λ j, row_state j = GS_ACTIVE) lF) ++
             (job_addr <$> filter (λ j, row_state j = GS_FILLER) lF)) t4).
  { split; [exact HrunF|]. split; [reflexivity|]. split; [exact HadmF|].
    split; [congruence|]. split; [|intros i x Hi; lia].
    intros x Hx [Hrow|Hrow]; apply elem_of_app; [left|right];
      apply list_elem_of_fmap_2; now apply list_elem_of_filter. }
  apply (runs_mono _ _ _ _ (run_new_loop lF _ _ t4 Hnew)).
  intros _ t5 (l' & X' & As' & Hrun5 & HX & Hadm5 & Hl5 & HAs & Hfail).
  destruct Hrun5 as (_ & (q' & Hq' & Hsh & Hl' & Hprio & _ & Hrepr & _) &
                     Hres5 & _ & Hpres).
  assert (HokX : Forall (res_ok (core t0)) X').
  { rewrite HX. unfold seated_res. apply Forall_app.
    split; now apply run_Forall_res_ok. }
  exists q'. split; [exact Hq'|]. split; [exact Hsh|].
  split; [now rewrite Hl'|].
  unfold settled_by. rewrite Hl', Hprio. fold S0. split; [|split; [|split]].
  - now apply (repr_perm (core t0) Hcap S0 X').
  - now apply (admissible_perm (core t0) S0 X').
  - intros x Hx Hrow Hfits. apply list_elem_of_lookup_1 in Hx as [i Hi].
    apply (Hfail i x); [|assumption..|].
    + apply lookup_lt_Some in Hi. unfold num_jobs. lia.
    + apply (fits_on_perm (core t0) Hcap S0 (seated_res l') X'); try assumption.
      * now rewrite <- HX.
      * now apply (admissible_perm (core t0) S0 X').
      * now symmetry.
  - intros x Hx Hseated. apply Hpres. now apply HAs.
Qed.

End Rebuild.

(** ** The rebuild of a settled row *)

Lemma gs_part_ext (q q' : gs_part) :
  part_name q' = part_name q → priority q' = priority q →
  job_list q' = job_list q → shadow q' = shadow q →
  jobs_active q' = jobs_active q → active_resmap q' = active_resmap q →
  active_cpus q' = active_cpus q → q' = q.
Proof. destruct q, q'. simpl. now intros -> -> -> -> -> -> ->. Qed.

Section Again.
Context (job_suspend : list suspend_msg → suspend_msg → Z).
Context (t : gs_state) (p : nat) (q : gs_part).
Hypothesis Hq : gs_part_list t !! p = Some q.
Hypothesis Hready : rebuild_ready t.
Hypothesis Hsettled : settled t q.

Lemma again__update_seated_job (which : gs_flags) (Xb : list job_res) (k : nat)
    (t1 : gs_state) :
  Forall (res_ok (core t)) Xb → (length Xb ≤ length (job_list q))%nat →
  admissible (core t) (shadow_res (gs_part_list t) (shadow q))
    (Xb ++ row_res which (job_list q)) →
  (∀ x, x ∈ job_list q → row_state x = which →
        present (gs_part_list t) (priority q) (job_addr x)) →
  (k < length (job_list q))%nat →
  run_inv t p q (shadow_res (gs_part_list t) (shadow q) ++ Xb ++
                 row_res which (take k (job_list q))) (job_list q) [] t1 →
  row_only t p t1 →
  runs (_update_seated_job job_suspend p which k) t1
    (λ _ t2, run_inv t p q (shadow_res (gs_part_list t) (shadow q) ++ Xb ++
                            row_res which (take (S k) (job_list q)))
               (job_list q) [] t2 ∧ row_only t p t2).
Proof.
  intros HXb HlenXb Hadm Hpres Hk Hrun Hrow.
  pose proof Hready as (_ & Hcap & _).
  set (S0 := shadow_res (gs_part_list t) (shadow q)) in *.
  destruct (lookup_lt_is_Some_2 (job_list q) k Hk) as [j Hj].
  assert (Hjl : j ∈ job_list q) by now apply list_elem_of_lookup_2 in Hj.
  assert (Hokj : res_ok (core t) (res_of j))
    by now apply (run_res_ok t p q Hq Hready (job_list q)).
  unfold _update_seated_job.
  apply runs_bind, (runs_mono _ _ _ _ (run_get_job t p q _ _ _ t1 k j Hrun Hj)).
  intros ? ? [-> ->]. rewrite (row_res_take_S which _ k j Hj).
  destruct (decide (row_state j ≠ which)) as [Hne|Heq].
  { apply runs_ret. destruct (decide (row_state j = which)); [contradiction|].
    now rewrite app_nil_r. }
  apply dec_stable in Heq. destruct (decide (row_state j = which)); [|contradiction].
  assert (Hfits : fits_on (core t)
            (S0 ++ Xb ++ row_res which (take k (job_list q))) (res_of j)).
  { apply (fits_on_admissible (core t) Hcap); [..|assumption|].
    - apply Forall_app. split; [exact HXb|].
      apply Forall_forall. intros r Hr. unfold row_res in Hr.
      apply list_elem_of_fmap_1 in Hr as (x & -> & Hx).
      apply list_elem_of_filter in Hx as [_ Hx].
      apply elem_of_take in Hx as (i & Hi & _).
      apply (run_res_ok t p q Hq Hready (job_list q)); [reflexivity|].
      now apply list_elem_of_lookup_2 in Hi.
    - apply (admissible_prefix (core t) S0 _
               (row_res which (drop (S k) (job_list q)))).
      + apply Forall_forall. intros r Hr. unfold row_res in Hr.
        apply list_elem_of_fmap_1 in Hr as (x & -> & Hx).
        apply list_elem_of_filter in Hx as [_ Hx].
        apply (run_res_ok t p q Hq Hready (job_list q)); [reflexivity|].
        apply list_elem_of_lookup_1 in Hx as [i Hi].
        rewrite lookup_drop in Hi. now apply list_elem_of_lookup_2 in Hi.
      + rewrite <- (take_drop_middle (job_list q) k j Hj) in Hadm.
        unfold row_res in Hadm |- *.
        rewrite list.filter_app, filter_cons, decide_True in Hadm by assumption.
        rewrite fmap_app, fmap_cons in Hadm.
        now rewrite <- !app_assoc. }
  apply runs_bind, (runs_mono _ _ _ _ (run_job_fits t p q Hready _ _ _ t1 j Hrun Hokj)).
  intros b ? [-> Hb]. destruct b; [|apply Hb in Hfits; discriminate].
  assert (Hbound : Z.of_nat (length (S0 ++ Xb ++
                     row_res which (take k (job_list q)))) + 1 < 4294967296).
  { pose proof (run_bounds t p q Hq Hready) as [Hs Hn]. rewrite !length_app.
    unfold S0, shadow_res at 1. rewrite length_fmap.
    pose proof (length_row_res which (take k (job_list q))) as Hr.
    rewrite length_take in Hr. lia. }
  apply runs_bind, (runs_mono _ _ _ _
    (run_add_active t p q Hready _ _ _ t1 j Hrun Hokj Hbound)).
  intros _ t2 [Hrun2 Hrow2]. specialize (Hrow2 Hrow).
  apply runs_bind, (runs_mono _ _ _ _ (run_get_part t p q _ _ _ t2 Hrun2)).
  intros q2 ? [-> ->].
  exists tt, t2. split.
  - apply _cast_shadow_present. apply (row_only_present t t2 p); [exact Hrow2|].
    now apply Hpres.
  - split; [|exact Hrow2]. now rewrite <- !app_assoc in Hrun2.
Qed.

Lemma again_seated_loop (which : gs_flags) (Xb : list job_res) (t1 : gs_state) :
  Forall (res_ok (core t)) Xb → (length Xb ≤ length (job_list q))%nat →
  admissible (core t) (shadow_res (gs_part_list t) (shadow q))
    (Xb ++ row_res which (job_list q)) →
  (∀ x, x ∈ job_list q → row_state x = which →
        present (gs_part_list t) (priority q) (job_addr x)) →
  run_inv t p q (shadow_res (gs_part_list t) (shadow q) ++ Xb) (job_list q) [] t1 →
  row_only t p t1 →
  runs (for_index (num_jobs q) (_update_seated_job job_suspend p which)) t1
    (λ _ t2, run_inv t p q (shadow_res (gs_part_list t) (shadow q) ++ Xb ++
                            row_res which (job_list q)) (job_list q) [] t2 ∧
             row_only t p t2).
Proof.
  intros HXb HlenXb Hadm Hpres Hrun Hrow. unfold num_jobs.
  pose proof (runs_for_index
    (λ k t2, run_inv t p q (shadow_res (gs_part_list t) (shadow q) ++ Xb ++
                            row_res which (take k (job_list q))) (job_list q) [] t2 ∧
             row_only t p t2)
    (_update_seated_job job_suspend p which) (length (job_list q))) as Hloop.
  cbv beta in Hloop. rewrite firstn_all in Hloop. apply Hloop.
  - intros k t2 Hk [Hrun2 Hrow2]. now apply again__update_seated_job.
  - rewrite take_0. unfold row_res. rewrite filter_nil, fmap_nil, app_nil_r.
    now split.
Qed.

Lemma again__update_new_job (k : nat) (t1 : gs_state) :
  (k < length (job_list q))%nat →
  run_inv t p q (shadow_res (gs_part_list t) (shadow q) ++
                 seated_res (job_list q)) (job_list q) [] t1 →
  runs (_update_new_job job_suspend p k) t1 (λ _ t2, t2 = t1).
Proof.
  intros Hk Hrun.
  destruct (lookup_lt_is_Some_2 (job_list q) k Hk) as [j Hj].
  assert (Hjl : j ∈ job_list q) by now apply list_elem_of_lookup_2 in Hj.
  assert (Hokj : res_ok (core t) (res_of j))
    by now apply (run_res_ok t p q Hq Hready (job_list q)).
  unfold _update_new_job.
  apply runs_bind, (runs_mono _ _ _ _ (run_get_job t p q _ _ _ t1 k j Hrun Hj)).
  intros ? ? [-> ->].
  destruct (decide (row_state j ≠ GS_NO_ACTIVE)) as [Hne|Heq];
    [now apply runs_ret|].
  apply dec_stable in Heq.
  apply runs_bind, (runs_mono _ _ _ _ (run_job_fits t p q Hready _ _ _ t1 j Hrun Hokj)).
  intros b ? [-> Hb]. destruct b; [|now apply runs_ret].
  destruct Hsettled as (_ & _ & Hno & _). exfalso.
  apply (Hno j Hjl Heq). now apply Hb.
Qed.

(** The rebuild of a settled row changes nothing. *)
Lemma again__update_active_row :
  _update_active_row job_suspend p true t = Ok (tt, t).
Proof.
  pose proof Hready as (_ & Hcap & _).
  pose proof Hsettled as (Hrepr & Hadm & Hno & Hpres).
  set (S0 := shadow_res (gs_part_list t) (shadow q)) in *.
  assert (HokA : Forall (res_ok (core t)) (row_res GS_ACTIVE (job_list q)))
    by now apply (run_Forall_res_ok t p q Hq Hready).
  assert (HokF : Forall (res_ok (core t)) (row_res GS_FILLER (job_list q)))
    by now apply (run_Forall_res_ok t p q Hq Hready).
  assert (Hruns : runs (_update_active_row job_suspend p true) t (λ _ t', t' = t)).
  { unfold _update_active_row.
    apply runs_bind, (runs_get_part p q t); [exact Hq|].
    apply runs_bind, (runs_mono _ _ _ _ (run_row_reset t p q Hq Hready)).
    intros _ t1 [Hrun1 Hrow1].
    apply runs_bind, (runs_mono _ _ _ _ (run_shadows t p q Hq Hready t1 Hrun1 Hrow1)).
    intros _ t2 [Hrun2 Hrow2]. fold S0 in Hrun2.
    assert (HrunA : run_inv t p q (S0 ++ []) (job_list q) [] t2)
      by now rewrite app_nil_r.
    apply runs_bind, (runs_mono _ _ _ _
      (again_seated_loop GS_ACTIVE [] t2 ltac:(constructor) ltac:(simpl; lia)
         (admissible_prefix (core t) S0 _ _ HokF Hadm)
         (λ x Hx Hrow, Hpres x Hx (or_introl Hrow)) HrunA Hrow2)).
    intros _ t3 [Hrun3 Hrow3]. cbn [app] in Hrun3.
    apply runs_bind, (runs_mono _ _ _ _
      (again_seated_loop GS_FILLER (row_res GS_ACTIVE (job_list q)) t3 HokA
         (length_row_res GS_ACTIVE (job_list q)) Hadm
         (λ x Hx Hrow, Hpres x Hx (or_intror Hrow)) Hrun3 Hrow3)).
    intros _ t4 [Hrun4 Hrow4]. fold (seated_res (job_list q)) in Hrun4.
    apply (runs_mono _ _ (λ _ t5, t5 = t4)).
    { unfold num_jobs.
      apply (runs_for_index (λ _ t5, t5 = t4)); [|reflexivity].
      intros k ? Hk ->. now apply again__update_new_job. }
    intros _ ? ->.
    destruct Hrow4 as (q0 & q4 & Hq0 & -> & Hname & Hprio & Hl & Hsh).
    replace q0 with q in * by congruence.
    destruct Hrun4 as (_ & (q' & Hq' & _ & _ & _ & _ & Hrepr' & Hbits & Hnil) & _).
    simpl in Hq'. rewrite list_lookup_insert_eq in Hq'
      by now apply lookup_lt_Some in Hq. injection Hq' as <-.
    assert (q4 = q) as ->.
    { apply gs_part_ext; try assumption;
        destruct (decide (S0 ++ seated_res (job_list q) = [])) as [Hempty|Hne].
      - destruct Hrepr as (-> & _), Hrepr' as (-> & _). reflexivity.
      - now destruct (repr_inj (core t) _ q q4 Hne Hrepr Hrepr' Hbits).
      - now apply Hnil.
      - now destruct (repr_inj (core t) _ q q4 Hne Hrepr Hrepr' Hbits) as (_ & ? & _).
      - now apply Hnil.
      - now destruct (repr_inj (core t) _ q q4 Hne Hrepr Hrepr' Hbits) as (_ & _ & ?). }
    rewrite list_insert_id by exact Hq. apply set_part_list_id. }
  destruct Hruns as ([] & t' & Hrun & ->). exact Hrun.
Qed.

End Again.

(** ** What the rebuild of one row leaves of the rows above *)

Lemma row_step_present (p : nat) (q : gs_part) (t t' : gs_state) (prio : Z)
    (a : nat) :
  row_step p t t' → gs_part_list t !! p = Some q → a ∉ job_addrs q →
  present (gs_part_list t) prio a → present (gs_part_list t') prio a.
Proof.
  intros Hstep Hq Ha Hpres.
  destruct Hstep as [q1 q1' Hq1 (_ & Hprio & Hsh & _)|q1 a' Hq1 Ha'|q1 a' Hq1 Ha'|];
    simpl.
  - now apply (present_insert _ p q1).
  - now apply present_cast.
  - apply present_clear; [|exact Hpres]. intros ->.
    apply Ha. now replace q with q1 by congruence.
  - exact Hpres.
Qed.

Lemma rtc_row_step_present (p : nat) (t t' : gs_state) (prio : Z) (a : nat) :
  rtc (row_step p) t t' →
  ∀ q, gs_part_list t !! p = Some q → a ∉ job_addrs q →
  present (gs_part_list t) prio a → present (gs_part_list t') prio a.
Proof.
  induction 1 as [t|t1 t2 t3 Hstep _ IH]; intros q Hq Ha Hpres; [exact Hpres|].
  destruct (row_step_lookup p t1 t2 Hstep p q Hq) as (q2 & Hq2 & _ & _ & Hperm).
  apply (IH q2 Hq2); [now rewrite Hperm|].
  now apply (row_step_present p q t1 t2).
Qed.

(** The jobs behind the shadows of a partition that is not below [p] are
    held by partitions above [p], which the rebuild of [p] leaves alone. *)
Lemma shadow_res_steps (p d : nat) (qd : gs_part) (t t' : gs_state) :
  rtc (row_step p) t t' → gs_inv t →
  gs_part_list t !! d = Some qd →
  prio_of (gs_part_list t) p ≤ priority qd →
  shadow_res (gs_part_list t') (shadow qd) = shadow_res (gs_part_list t) (shadow qd).
Proof.
  intros Hsteps Hinv Hqd Hle. unfold shadow_res.
  apply list_fmap_ext. intros i a Ha. apply list_elem_of_lookup_2 in Ha.
  destruct (shadow_owner t d qd a Hinv Hqd Ha)
    as (po & qo & j & Hqo & Hlt & Hj & <- & Hfind).
  rewrite Hfind.
  assert (Hne : po ≠ p).
  { intros ->. unfold prio_of in Hle. rewrite Hqo in Hle. lia. }
  pose proof (rtc_row_step_above p po qo t t' Hsteps Hinv Hne ltac:(lia) Hqo) as Hqo'.
  destruct Hinv as [Hwf Hown].
  destruct (rtc_row_step_inv p t t' Hsteps Hwf Hown) as [Hwf' _].
  now rewrite (find_job_addr_owner t' po qo j Hwf' Hqo' Hj).
Qed.

Section Step.
Context (job_suspend : list suspend_msg → suspend_msg → Z).
Context (t t' : gs_state) (p : nat) (q : gs_part).
Hypothesis Hq : gs_part_list t !! p = Some q.
Hypothesis Hready : rebuild_ready t.
Hypothesis Hrun : _update_active_row job_suspend p true t = Ok (tt, t').

Lemma step_steps : rtc (row_step p) t t'.
Proof. exact (_update_active_row_steps job_suspend p true t t' Hrun). Qed.

Lemma step_core : core t' = core t.
Proof. apply core_same_globals, (rtc_row_step_globals p), step_steps. Qed.

Lemma step_settled :
  ∃ q', gs_part_list t' !! p = Some q' ∧ settled t' q' ∧
        res_of <$> job_list q' = res_of <$> job_list q.
Proof.
  destruct (runs_Ok _ _ _ _ _ (run__update_active_row job_suspend t p q Hq Hready) Hrun)
    as (q' & Hq' & Hsh & Hres & Hsettled).
  exists q'. split; [exact Hq'|]. split; [|exact Hres].
  unfold settled. rewrite step_core, Hsh.
  rewrite (shadow_res_steps p p q t t' step_steps); try assumption.
  - now destruct Hready.
  - unfold prio_of. now rewrite Hq.
Qed.

Lemma step_ready : rebuild_ready t'.
Proof.
  pose proof Hready as (Hinv & Hcap & Hjobs & Hsizes & Hnext).
  pose proof step_steps as Hsteps.
  destruct step_settled as (q' & Hq' & Hsettled & Hres).
  assert (Hother : ∀ p1 q1, gs_part_list t' !! p1 = Some q1 → p1 ≠ p →
            ∃ q2 sh, gs_part_list t !! p1 = Some q2 ∧ q1 = set_shadow sh q2).
  { intros p1 q1 Hq1 Hne.
    destruct (lookup_lt_is_Some_2 (gs_part_list t) p1) as [q2 Hq2].
    { rewrite <- (rtc_row_step_length p t t' Hsteps). now apply lookup_lt_Some in Hq1. }
    destruct (rtc_row_step_others p t t' Hsteps q Hq p1 q2 Hne Hq2) as (sh & Hq1' & _).
    exists q2, sh. split; [exact Hq2|congruence]. }
  split; [|split; [|split; [|split]]].
  - destruct Hinv as [Hwf Hown]. now apply (rtc_row_step_inv p t t').
  - now rewrite step_core.
  - intros q1 j Hq1 Hj. rewrite step_core.
    apply list_elem_of_lookup_1 in Hq1 as [p1 Hq1].
    destruct (decide (p1 = p)) as [->|Hne].
    + replace q1 with q' in * by congruence.
      now apply (run_res_ok t p q Hq Hready (job_list q')).
    + destruct (Hother p1 q1 Hq1 Hne) as (q2 & sh & Hq2 & ->).
      apply (Hjobs q2 j); [|exact Hj]. now apply list_elem_of_lookup_2 in Hq2.
  - intros q1 Hq1. rewrite step_core.
    apply list_elem_of_lookup_1 in Hq1 as [p1 Hq1].
    destruct (decide (p1 = p)) as [->|Hne].
    + replace q1 with q' in * by congruence.
      destruct Hsettled as ((_ & Hs & _) & _). now rewrite step_core in Hs.
    + destruct (Hother p1 q1 Hq1 Hne) as (q2 & sh & Hq2 & ->).
      apply (Hsizes q2). now apply list_elem_of_lookup_2 in Hq2.
  - destruct (rtc_row_step_globals p t t' Hsteps) as (_ & _ & _ & _ & _ & _ & _ & ->).
    exact Hnext.
Qed.

(** A settled partition that is not below [p] stays settled. *)
Lemma step_keeps_settled (d : nat) (qd : gs_part) :
  d ≠ p → gs_part_list t !! d = Some qd → priority q ≤ priority qd →
  settled t qd →
  gs_part_list t' !! d = Some qd ∧ settled t' qd.
Proof.
  intros Hne Hqd Hle (Hrepr & Hadm & Hno & Hpres).
  pose proof Hready as (Hinv & _).
  pose proof step_steps as Hsteps.
  assert (Hprio : prio_of (gs_part_list t) p ≤ priority qd).
  { unfold prio_of. now rewrite Hq. }
  split; [now apply (rtc_row_step_above p d qd t t')|].
  unfold settled. rewrite step_core.
  rewrite (shadow_res_steps p d qd t t' Hsteps Hinv Hqd Hprio).
  split; [exact Hrepr|]. split; [exact Hadm|]. split; [exact Hno|].
  intros x Hx Hseated.
  apply (rtc_row_step_present p t t' _ _ Hsteps q Hq); [|now apply Hpres].
  intros Hin. apply Hne. destruct Hinv as [(_ & Huniq & _) _].
  apply (Huniq d p qd q (job_addr x) Hqd Hq); [|exact Hin].
  now apply (list_elem_of_fmap_2 job_addr).
Qed.

End Step.

(** ** Rebuilding all rows, in the order of the sorted array *)

Lemma rebuild_in_order_settled (job_suspend : list suspend_msg → suspend_msg → Z)
    (pr : nat → Z) (todo done : list nat) (s s' : gs_state) :
  rebuild_ready s →
  (∀ x, prio_of (gs_part_list s) x = pr x) →
  StronglySorted (λ p q, pr q ≤ pr p) todo → NoDup todo →
  (∀ d t, d ∈ done → t ∈ todo → d ≠ t ∧ pr t ≤ pr d) →
  (∀ d, d ∈ done → ∃ q, gs_part_list s !! d = Some q ∧ settled s q) →
  for_each todo (λ p_ptr, _update_active_row job_suspend p_ptr true) s = Ok (tt, s') →
  rebuild_ready s' ∧ same_globals s s' ∧
  length (gs_part_list s') = length (gs_part_list s) ∧
  (∀ x, prio_of (gs_part_list s') x = pr x) ∧
  ∀ p, p ∈ done ++ todo → ∃ q, gs_part_list s' !! p = Some q ∧ settled s' q.
Proof.
  revert done s. induction todo as [|p todo IH];
    intros done s Hready Hpr Hsorted Hnd Hsep Hdone H.
  - apply ret_Ok in H. injection H as <-. split; [exact Hready|].
    split; [apply same_globals_refl|]. split; [reflexivity|]. split; [exact Hpr|].
    intros p Hp. rewrite app_nil_r in Hp. auto.
  - cbn [for_each] in H. apply bind_Ok in H as ([] & s1 & Hrun & H).
    pose proof (_update_active_row_steps job_suspend p true s s1 Hrun) as Hsteps.
    assert (∃ qp, gs_part_list s !! p = Some qp) as (qp & Hqp).
    { unfold _update_active_row in Hrun.
      apply bind_Ok in Hrun as (q0 & s0 & Hget & _).
      apply get_part_Ok in Hget as (q1 & Hq1 & _). eauto. }
    pose proof (step_ready job_suspend s s1 p qp Hqp Hready Hrun) as Hready1.
    destruct (step_settled job_suspend s s1 p qp Hqp Hready Hrun)
      as (qp' & Hqp' & Hsettled & _).
    apply StronglySorted_inv in Hsorted as [Hsorted Hall].
    apply NoDup_cons in Hnd as [Hnotin Hnd].
    destruct (IH (done ++ [p]) s1) as (Hready' & Hglob' & Hlen' & Hpr' & Hall');
      try assumption.
    + intros x. rewrite <- Hpr. now apply (rtc_row_step_prio p).
    + intros d t Hd Ht. apply elem_of_app in Hd as [Hd|Hd].
      * apply Hsep; [assumption | now right].
      * apply list_elem_of_singleton in Hd as ->. split.
        -- intros ->. contradiction.
        -- rewrite Forall_forall in Hall. now apply Hall.
    + intros d Hd. apply elem_of_app in Hd as [Hd|Hd].
      * destruct (Hdone d Hd) as (q & Hq & Hok). exists q.
        destruct (Hsep d p Hd) as [Hne Hle]; [now left|].
        apply (step_keeps_settled job_suspend s s1 p qp Hqp Hready Hrun d q);
          try assumption.
        rewrite <- (Hpr d), <- (Hpr p) in Hle. unfold prio_of in Hle.
        now rewrite Hq, Hqp in Hle.
      * apply list_elem_of_singleton in Hd as ->. eauto.
    + split; [exact Hready'|]. split.
      { eapply same_globals_trans; [|exact Hglob'].
        now apply (rtc_row_step_globals p). }
      split; [rewrite Hlen'; now apply (rtc_row_step_length p)|].
      split; [exact Hpr'|].
      intros x Hx. apply Hall'. rewrite <- app_assoc. exact Hx.
Qed.

(** ** The second run *)

Lemma for_each_same {A} (l : list A) (body : A → M unit) (s : gs_state) :
  (∀ x, x ∈ l → body x s = Ok (tt, s)) → for_each l body s = Ok (tt, s).
Proof.
  induction l as [|x l IH]; intros Hbody; [reflexivity|].
  cbn [for_each]. unfold bind. rewrite (Hbody x) by now left.
  apply IH. intros y Hy. apply Hbody. now right.
Qed.

Lemma set_part_sorted_id (s : gs_state) :
  set_part_sorted (gs_part_sorted s) (num_sorted_part s) s = s.
Proof. now destruct s. Qed.

(** The sort leaves a sorted array as it is. *)
Lemma _sort_partitions_sorted (s : gs_state) :
  gs_part_list s ≠ [] →
  num_sorted_part s = length (gs_part_list s) →
  gs_part_sorted s ≡ₚ seq 0 (length (gs_part_list s)) →
  priority_descending (gs_part_list s) (gs_part_sorted s) →
  _sort_partitions s = Ok (tt, s).
Proof.
  intros Hne Hnum Hperm Hsorted. unfold _sort_partitions. cbv zeta.
  destruct (decide (length (gs_part_list s) ≠ num_sorted_part s)) as [Hx|_];
    [now rewrite Hnum in Hx|].
  assert (Hlen : length (gs_part_sorted s) = length (gs_part_list s)).
  { now rewrite Hperm, length_seq. }
  assert (Hid : set_part_sorted (gs_part_sorted s) (length (gs_part_list s)) s = s).
  { rewrite <- Hnum. apply set_part_sorted_id. }
  destruct (decide (length (gs_part_list s) ≤ 1)%nat) as [Hsmall|Hbig].
  - assert (length (gs_part_list s) = 1%nat) as Hsize.
    { destruct (gs_part_list s); [contradiction | simpl in *; lia]. }
    rewrite Hsize in Hperm. simpl in Hperm.
    apply Permutation_singleton_r in Hperm. rewrite Hperm in *.
    cbn [array_set length decide obind]. simpl. now rewrite Hid.
  - assert (Hvalid : Forall (valid_ptr (gs_part_list s)) (gs_part_sorted s)).
    { rewrite Hperm. apply Forall_forall. intros p Hp.
      apply elem_of_seq in Hp. unfold valid_ptr. lia. }
    pose proof (_sort_outer_selection (gs_part_list s) (gs_part_sorted s) [] Hvalid)
      as Hsort.
    rewrite Hlen in Hsort. cbn [app length Nat.add] in Hsort.
    rewrite Hsort. cbn [obind].
    rewrite sort_selection_sorted_id by assumption. now rewrite Hid.
Qed.

Lemma priority_descending_ext (parts parts' : list gs_part) (l : list nat) :
  (∀ x, prio_of parts' x = prio_of parts x) →
  priority_descending parts l → priority_descending parts' l.
Proof.
  intros Hpr. unfold priority_descending.
  induction 1 as [|x l Hs IH Hall]; constructor; [exact IH|].
  eapply Forall_impl; [exact Hall|]. intros y Hy. simpl. now rewrite !Hpr.
Qed.

Lemma rebuild_ready_sorted (s : gs_state) (l : list nat) (n : nat) :
  rebuild_ready s → rebuild_ready (set_part_sorted l n s).
Proof.
  intros (Hinv & Hcap & Hjobs & Hsizes & Hnext).
  split; [now apply (inv_same_parts s)|].
  split; [exact Hcap|]. split; [exact Hjobs|]. split; [exact Hsizes|exact Hnext].
Qed.

Lemma _update_all_active_rows_again
    (job_suspend : list suspend_msg → suspend_msg → Z) (s s1 : gs_state) :
  rebuild_ready s → sorted_array_ok s → gs_part_list s ≠ [] →
  _update_all_active_rows job_suspend s = Ok (tt, s1) →
  _update_all_active_rows job_suspend s1 = Ok (tt, s1).
Proof.
  intros Hready Hok Hne Hrun.
  destruct (_sort_partitions_spec s Hne Hok) as (sorted & Hsort & Hperm & Hdesc).
  rewrite (_update_all_active_rows_in_order job_suspend s sorted Hsort Hperm) in Hrun.
  set (s0 := set_part_sorted sorted (length (gs_part_list s)) s) in *.
  destruct (rebuild_in_order_settled job_suspend (prio_of (gs_part_list s))
              sorted [] s0 s1) as (Hready1 & Hglob & Hlen & Hpr & Hall);
    try assumption.
  - reflexivity.
  - rewrite Hperm. apply NoDup_seq.
  - intros d t Hd. inversion Hd.
  - intros d Hd. inversion Hd.
  - destruct Hglob as (_ & _ & _ & _ & _ & Hsorted1 & Hnum1 & _).
    simpl in Hsorted1, Hnum1, Hlen.
    assert (Hne1 : gs_part_list s1 ≠ []).
    { intros Hnil. rewrite Hnil in Hlen. destruct (gs_part_list s); [|discriminate].
      now apply Hne. }
    assert (Hperm1 : gs_part_sorted s1 ≡ₚ seq 0 (length (gs_part_list s1))).
    { now rewrite Hsorted1, Hlen. }
    assert (Hsort1 : _sort_partitions s1 = Ok (tt, s1)).
    { apply _sort_partitions_sorted; try assumption; [congruence|].
      rewrite Hsorted1.
      now apply (priority_descending_ext (gs_part_list s)). }
    assert (Hid : s1 = set_part_sorted sorted (length (gs_part_list s1)) s1).
    { rewrite <- Hsorted1, Hlen, <- Hnum1. symmetry. apply set_part_sorted_id. }
    rewrite Hid in Hsort1 at 2.
    rewrite (_update_all_active_rows_in_order job_suspend s1 sorted Hsort1);
      [|now rewrite <- Hsorted1].
    rewrite <- Hid. apply for_each_same. intros p Hp.
    destruct (Hall p Hp) as (q & Hq & Hsettled).
    now apply (again__update_active_row job_suspend s1 p q).
Qed.

(** Every rebuild in the order of the array runs. *)
Lemma rebuild_in_order_runs (job_suspend : list suspend_msg → suspend_msg → Z)
    (todo : list nat) (s : gs_state) :
  rebuild_ready s →
  (∀ p, p ∈ todo → (p < length (gs_part_list s))%nat) →
  ∃ s', for_each todo (λ p_ptr, _update_active_row job_suspend p_ptr true) s
        = Ok (tt, s').
Proof.
  revert s. induction todo as [|p todo IH]; intros s Hready Hvalid.
  - now exists s.
  - destruct (lookup_lt_is_Some_2 (gs_part_list s) p) as [q Hq].
    { apply Hvalid. now left. }
    destruct (run__update_active_row job_suspend s p q Hq Hready)
      as ([] & s1 & Hrun & _).
    destruct (IH s1) as [s' Hrest].
    + now apply (step_ready job_suspend s s1 p q).
    + intros x Hx.
      rewrite (rtc_row_step_length p s s1
                 (_update_active_row_steps job_suspend p true s s1 Hrun)).
      apply Hvalid. now right.
    + exists s'. cbn [for_each]. unfold bind. now rewrite Hrun.
Qed.

Lemma _update_all_active_rows_runs
    (job_suspend : list suspend_msg → suspend_msg → Z) (s : gs_state) :
  rebuild_ready s → sorted_array_ok s → gs_part_list s ≠ [] →
  ∃ s1, _update_all_active_rows job_suspend s = Ok (tt, s1).
Proof.
  intros Hready Hok Hne.
  destruct (_sort_partitions_spec s Hne Hok) as (sorted & Hsort & Hperm & _).
  rewrite (_update_all_active_rows_in_order job_suspend s sorted Hsort Hperm).
  apply rebuild_in_order_runs.
  - now apply rebuild_ready_sorted.
  - intros p Hp. rewrite Hperm in Hp. apply elem_of_seq in Hp. simpl. lia.
Qed.

Lemma two_parts_cpu_state_inv : gs_inv two_parts_cpu_state.
Proof.
  split; [repeat split|].
  - intros [|[|p]] q Hq; simpl in Hq; simplify_eq; simpl;
      apply (bool_decide_unpack _); vm_compute; exact I.
  - intros [|[|p1]] [|[|p2]] q1 q2 a Hq1 Hq2 Ha1 Ha2; simpl in *; simplify_eq;
      try reflexivity; exfalso; revert Ha1 Ha2; unfold job_addrs; simpl;
      rewrite !elem_of_cons, !elem_of_nil; lia.
  - intros [|[|p]] q a Hq Ha; simpl in Hq; simplify_eq; revert Ha;
      unfold job_addrs; simpl; rewrite !elem_of_cons, !elem_of_nil; lia.
  - intros [|[|p]] q Hq; simpl in Hq; simplify_eq; simpl;
      apply (bool_decide_unpack _); vm_compute; exact I.
  - intros [|[|p]] q a Hq Ha; simpl in Hq; simplify_eq; simpl in Ha.
    + inversion Ha.
    + apply list_elem_of_singleton in Ha as ->. exists 0%nat. eexists.
      split; [reflexivity|]. split; [|simpl; lia]. unfold job_addrs. simpl. now left.
Qed.

Lemma two_parts_cpu_state_ready : rebuild_ready two_parts_cpu_state.
Proof.
  split; [apply two_parts_cpu_state_inv|].
  split; [|split; [|split; [|reflexivity]]].
  - intros _ [|[|i]] Hi; [exists 4; split; [reflexivity|lia]..|simpl in Hi; lia].
  - intros q j Hq Hj. simpl in Hq. rewrite !elem_of_cons, elem_of_nil in Hq.
    destruct Hq as [->|[->|[]]]; simpl in Hj;
      rewrite ?elem_of_cons, elem_of_nil in Hj;
      repeat (destruct Hj as [->|Hj]); try contradiction;
      (split; [reflexivity|]); intros _; eexists; (split; [reflexivity|]);
      intros [|[|i]] Hi; try discriminate Hi;
      eexists; (split; [reflexivity|]); vm_compute; split; discriminate.
  - intros q Hq. simpl in Hq. rewrite !elem_of_cons, elem_of_nil in Hq.
    destruct Hq as [->|[->|[]]];
      (split; [intros m [= <-]; reflexivity | intros arr [= <-]; reflexivity]).
Qed.

(** The bound of [res_ok] on the CPUs of a job is needed. Job 1 of
    [overcommitted_state] holds more CPUs than node 0 has: the first run
    adds it to the row after job 2, where the sum is cut down to the 4 CPUs
    of the node, and the second run seats it first, where its 9 CPUs are
    copied as they are. *)
Example rebuild_all_overcommitted_job :
  ∃ s1 s2 q1 q2,
    _update_all_active_rows (λ _ _, 0) overcommitted_state = Ok (tt, s1) ∧
    _update_all_active_rows (λ _ _, 0) s1 = Ok (tt, s2) ∧
    gs_part_list s1 !! 0%nat = Some q1 ∧ gs_part_list s2 !! 0%nat = Some q2 ∧
    active_cpus q1 = Some [4; 1] ∧ active_cpus q2 = Some [9; 1] ∧
    signals_sent s2 = signals_sent s1.
Proof.
  do 4 eexists. split; [vm_compute; reflexivity|].
  split; [vm_compute; reflexivity|]. now repeat split.
Qed.

(** C5, as it is written: in every state of the scheduler two rebuilds of
    all rows in a row end in the state that one rebuild ends in, and the
    second one sends no signal. This fails where a job holds more CPUs than
    its node has. After [Overcommit.started], [gs_job_fini] takes job 3
    from the list and rebuilds the rows in the state [s0]: job 2 is seated
    first, then job 1 is added to the row, where its 9 CPUs are cut down to
    the 4 of node 1, and job 5 fits beside them; [gs_job_fini] ends in
    [s1]. One more rebuild seats job 1 first, where [_add_job_to_active]
    copies its 9 CPUs as they are, so job 5 fits no longer and is
    suspended: the CPU array and the signals of [s2] are not those of
    [s1]. *)
Lemma rebuild_all_twice_counterexample :
  ∃ s0 s1 s2 q1 q2,
    (Overcommit.started ;;; _remove_job_from_part (λ _ _, 0) 3 (Some 0%nat))
      (blank_state GS_NODE) = Ok (tt, s0) ∧
    (Overcommit.started ;;;
     gs_job_fini (λ _ _, 0) (Overcommit.job 3 [true; true]))
      (blank_state GS_NODE) = Ok (tt, s1) ∧
    _update_all_active_rows (λ _ _, 0) s0 = Ok (tt, s1) ∧
    (_update_all_active_rows (λ _ _, 0) ;;;
     _update_all_active_rows (λ _ _, 0)) s0 = Ok (tt, s2) ∧
    _update_all_active_rows (λ _ _, 0) s1 = Ok (tt, s2) ∧
    s2 ≠ s1 ∧
    gs_part_list s1 !! 0%nat = Some q1 ∧ gs_part_list s2 !! 0%nat = Some q2 ∧
    active_cpus q1 = Some [2; 4] ∧ active_cpus q2 = Some [1; 9] ∧
    signals_sent s2 = signals_sent s1 ++ [(5, SUSPEND_JOB)].
Proof.
  do 5 eexists.
  split; [vm_compute; reflexivity|]. split; [vm_compute; reflexivity|].
  split; [vm_compute; reflexivity|]. split; [vm_compute; reflexivity|].
  split; [vm_compute; reflexivity|]. split; [intros H; discriminate H|].
  split; [reflexivity|]. split; [reflexivity|].
  split; [reflexivity|]. split; reflexivity.
Qed.

(** C5, amended: [_update_all_active_rows] is idempotent in every state
    where no job holds more CPUs at a bit than the bit can hold. In a state
    the rebuild is made for (the invariant of the shadows holds, the
    capacity table covers the bits, every job has a resmap of the size of
    the resmaps and, where CPUs are counted, a CPU array that holds no more
    CPUs at a bit than the bit can hold, and the arrays of the active rows
    have that size), with a partition and with a sorted array that holds
    every partition once, the rebuild of all rows returns; two rebuilds in
    a row end in the state that one rebuild ends in; and the second one
    changes nothing, so it sends no signal to suspend or to resume a
    job. *)
Theorem rebuild_all_idempotent (job_suspend : list suspend_msg → suspend_msg → Z)
    (s : gs_state) :
  rebuild_ready s → sorted_array_ok s → gs_part_list s ≠ [] →
  ∃ s1, _update_all_active_rows job_suspend s = Ok (tt, s1) ∧
        (_update_all_active_rows job_suspend ;;;
         _update_all_active_rows job_suspend) s = Ok (tt, s1) ∧
        ∀ s2, _update_all_active_rows job_suspend s1 = Ok (tt, s2) →
              s2 = s1 ∧ signals_sent s2 = signals_sent s1.
Proof.
  intros Hready Hok Hne.
  destruct (_update_all_active_rows_runs job_suspend s Hready Hok Hne) as [s1 Hrun].
  pose proof (_update_all_active_rows_again job_suspend s s1 Hready Hok Hne Hrun)
    as Hagain.
  exists s1. split; [exact Hrun|]. split.
  - unfold bind. now rewrite Hrun.
  - intros s2 H2. rewrite Hagain in H2. injection H2 as <-. now split.
Qed.

Lemma rebuild_all_idempotent_witness :
  ∃ s1, _update_all_active_rows (λ _ _, 0) two_parts_cpu_state = Ok (tt, s1) ∧
        (_update_all_active_rows (λ _ _, 0) ;;;
         _update_all_active_rows (λ _ _, 0)) two_parts_cpu_state = Ok (tt, s1) ∧
        ∀ s2, _update_all_active_rows (λ _ _, 0) s1 = Ok (tt, s2) →
              s2 = s1 ∧ signals_sent s2 = signals_sent s1.
Proof.
  apply (rebuild_all_idempotent (λ _ _, 0) two_parts_cpu_state).
  - apply two_parts_cpu_state_ready.
  - intros _. reflexivity.
  - discriminate.
Defined.

(** ** The physical-resource table that [_load_phys_res_cnt] builds *)

Lemma phys_expand_app (l1 l2 : list (Z * Z)) :
  phys_expand (l1 ++ l2) = phys_expand l1 ++ phys_expand l2.
Proof. unfold phys_expand. apply flat_map_app. Qed.

Lemma run_start_app_S (reps : list Z) (k : nat) (r : Z) :
  reps !! k = Some r → run_start reps (S k) = run_start reps k + r.
Proof.
  revert k. induction reps as [|x reps IH]; intros [|k] Hr; simplify_eq/=.
  - rewrite run_start_cons, !run_start_0. lia.
  - rewrite !run_start_cons, (IH k Hr). lia.
Qed.

Lemma run_start_length (cpus_per_res reps : list Z) (k : nat) :
  length cpus_per_res = length reps → Forall (λ r, 0 ≤ r) reps →
  (k ≤ length reps)%nat →
  run_start reps k =
  Z.of_nat (length (phys_expand (zip (take k cpus_per_res) (take k reps)))).
Proof.
  revert cpus_per_res k. induction reps as [|r reps IH];
    intros [|c cpus_per_res] [|k] Hlen Hall Hk; simplify_eq/=; try reflexivity; try lia.
  inversion Hall as [|? ? Hr Hall']; subst.
  rewrite run_start_cons, (IH cpus_per_res k) by (assumption || lia).
  rewrite length_app, length_replicate. lia.
Qed.

(** A bit of the expansion lies in one run of the table. *)
Lemma phys_expand_run (cpus_per_res reps : list Z) (i : nat) (c : Z) :
  length cpus_per_res = length reps → Forall (λ r, 0 ≤ r) reps →
  phys_expand (zip cpus_per_res reps) !! i = Some c →
  ∃ k, run_start reps k ≤ Z.of_nat i < run_start reps (S k) ∧
       cpus_per_res !! k = Some c.
Proof.
  revert cpus_per_res i. induction reps as [|r reps IH];
    intros [|c0 cpus_per_res] i Hlen Hall Hi; simplify_eq/=.
  inversion Hall as [|? ? Hr Hall']; subst.
  destruct (decide (i < Z.to_nat r)%nat) as [Hlt|Hge].
  - rewrite lookup_app_l in Hi by now rewrite length_replicate.
    apply lookup_replicate in Hi as [-> _].
    exists 0%nat. rewrite run_start_0, run_start_cons, run_start_0.
    split; [lia|reflexivity].
  - rewrite lookup_app_r, length_replicate in Hi by (rewrite length_replicate; lia).
    destruct (IH cpus_per_res (i - Z.to_nat r)%nat ltac:(lia) Hall' Hi)
      as (k & Hk & Hc).
    exists (S k). rewrite !run_start_cons. split; [lia|exact Hc].
Qed.

Lemma _get_phys_res_cnt_in_run (cpus_per_res reps : list Z) (i : Z) (k : nat)
    (c : Z) :
  Forall (λ r, 0 ≤ r) reps →
  run_start reps (S k) ≤ 2147483647 →
  run_start reps k ≤ i < run_start reps (S k) →
  cpus_per_res !! k = Some c →
  _get_phys_res_cnt cpus_per_res reps i = Ok c.
Proof.
  intros Hall Hmax Hin Hc. destruct reps as [|r0 rest].
  { unfold run_start in Hin. rewrite !take_nil in Hin. simpl in Hin. lia. }
  inversion Hall as [|? ? Hr0 Hall']; subst.
  unfold _get_phys_res_cnt. rewrite run_start_cons in Hmax, Hin.
  pose proof (run_start_nonneg rest k Hall') as Hk.
  destruct k as [|k].
  - rewrite !run_start_0 in Hin. rewrite to_int_small by lia.
    rewrite _get_phys_res_cnt_loop_stop by lia. simpl.
    unfold array_get. simpl. now rewrite Hc.
  - rewrite run_start_cons in Hin. rewrite to_int_small by lia.
    rewrite (_get_phys_res_cnt_loop_run rest i Hall' r0 1 k) by lia.
    simpl. unfold array_get.
    replace (k + 1 - 0)%nat with (S k) by lia. now rewrite Hc.
Qed.

(** The lookup in a table answers with the bit of its expansion. *)
Lemma _get_phys_res_cnt_expand (cpus_per_res reps : list Z) (i : nat) (c : Z) :
  length cpus_per_res = length reps → Forall (λ r, 0 ≤ r) reps →
  Z.of_nat (length (phys_expand (zip cpus_per_res reps))) ≤ 2147483647 →
  phys_expand (zip cpus_per_res reps) !! i = Some c →
  _get_phys_res_cnt cpus_per_res reps (Z.of_nat i) = Ok c.
Proof.
  intros Hlen Hall Hmax Hi.
  destruct (phys_expand_run cpus_per_res reps i c Hlen Hall Hi) as (k & Hk & Hc).
  apply (_get_phys_res_cnt_in_run cpus_per_res reps _ k); try assumption.
  assert (Hkl : (S k ≤ length reps)%nat).
  { apply lookup_lt_Some in Hc. lia. }
  rewrite (run_start_length cpus_per_res reps (S k) Hlen Hall Hkl).
  etransitivity; [|exact Hmax]. apply inj_le.
  rewrite <- (take_drop (S k) cpus_per_res) at 2.
  rewrite <- (take_drop (S k) reps) at 2.
  rewrite zip_with_app by (rewrite !length_take; lia).
  rewrite phys_expand_app, length_app. lia.
Qed.

Lemma phys_step_snoc (runs : list (Z * Z)) (c r : Z) (cr : Z * Z) :
  phys_step (runs ++ [(c, r)]) cr =
  if c =? cr.1 then runs ++ [(c, to_uint32 (r + cr.2))]
  else if c =? 0 then runs ++ [cr]
  else (runs ++ [(c, r)]) ++ [cr].
Proof.
  unfold phys_step. now rewrite last_snoc, removelast_last.
Qed.

(** The cell of the last run and the cell after it, in an array that
    holds zeros after its runs. *)
Lemma array_get_last_run (xs : list Z) (x : Z) (z n : nat) :
  n = length xs → array_get ((xs ++ [x]) ++ replicate z 0) n = Ok x.
Proof.
  intros ->. unfold array_get. rewrite <- app_assoc. cbn [app].
  now rewrite list_lookup_middle.
Qed.

Lemma array_set_last_run (xs : list Z) (x y : Z) (z n : nat) :
  n = length xs →
  array_set ((xs ++ [x]) ++ replicate z 0) n y = Ok ((xs ++ [y]) ++ replicate z 0).
Proof.
  intros ->. unfold array_set.
  rewrite decide_True by (rewrite !length_app; simpl; lia).
  f_equal. rewrite <- !app_assoc. rewrite insert_app_r_alt by lia.
  now rewrite Nat.sub_diag.
Qed.

Lemma array_set_next_run (xs : list Z) (y : Z) (z n : nat) :
  n = length xs →
  array_set (xs ++ replicate (S z) 0) n y = Ok ((xs ++ [y]) ++ replicate z 0).
Proof.
  intros ->. unfold array_set.
  rewrite decide_True by (rewrite !length_app; simpl; lia).
  f_equal. rewrite insert_app_r_alt by lia.
  now rewrite Nat.sub_diag, <- app_assoc.
Qed.

Section Table.
Context (node_record_table_ptr : list node_record) (s : gs_state).
Hypothesis Hcounted : gr_type s = GS_CPU ∨ gr_type s = GS_CORE.

Lemma _compute_resources_res (i : nat) (n : node_record) :
  node_record_table_ptr !! i = Some n →
  _compute_resources node_record_table_ptr s i false = Ok (node_res s n).
Proof.
  intros Hn. unfold _compute_resources, node_res, array_get.
  destruct Hcounted as [-> | ->]; now rewrite Hn.
Qed.

Lemma _load_phys_res_adder_width (i : nat) (n : node_record) :
  node_record_table_ptr !! i = Some n →
  _load_phys_res_adder node_record_table_ptr s i = Ok (node_width s n).
Proof.
  intros Hn. unfold _load_phys_res_adder, _compute_resources, node_width, array_get.
  destruct Hcounted as [-> | ->]; [reflexivity|]. now rewrite Hn.
Qed.

(** The loop keeps the runs in the first cells of the two arrays and
    zeros in the cells after them. *)
Lemma _load_phys_res_cnt_loop_runs (n : nat) :
  ∀ (i : nat) (runs : list (Z * Z)) (c r : Z) (z : nat),
    (i + n ≤ length node_record_table_ptr)%nat →
    ∃ runs' c' r' z',
      foldl phys_step (runs ++ [(c, r)]) (node_runs_from node_record_table_ptr s n i) = runs' ++ [(c', r')] ∧
      _load_phys_res_cnt_loop node_record_table_ptr s n i
        (((fst <$> runs) ++ [c]) ++ replicate z 0)
        (((snd <$> runs) ++ [r]) ++ replicate z 0) (length runs)
      = Ok (((fst <$> runs') ++ [c']) ++ replicate z' 0,
            ((snd <$> runs') ++ [r']) ++ replicate z' 0, length runs').
Proof.
  induction n as [|n IH]; intros i runs c r z Hi.
  { exists runs, c, r, z. unfold node_runs_from. now rewrite take_0. }
  destruct (lookup_lt_is_Some_2 node_record_table_ptr i ltac:(lia)) as [nd Hnd].
  unfold node_runs_from. rewrite (drop_S _ _ _ Hnd).
  cbn [take fmap list_fmap foldl]. fold (node_runs_from node_record_table_ptr s n (S i)).
  cbn [_load_phys_res_cnt_loop].
  rewrite (_compute_resources_res i nd Hnd). cbn [obind].
  rewrite (_load_phys_res_adder_width i nd Hnd).
  rewrite (array_get_last_run (fst <$> runs) c z) by now rewrite length_fmap.
  cbn [obind]. rewrite phys_step_snoc. cbn [fst snd].
  destruct (c =? node_res s nd) eqn:Heq.
  - cbn [obind].
    rewrite (array_get_last_run (snd <$> runs) r z) by now rewrite length_fmap.
    cbn [obind].
    rewrite (array_set_last_run (snd <$> runs) r _ z) by now rewrite length_fmap.
    cbn [obind]. apply (IH (S i) runs c _ z). lia.
  - destruct (c =? 0) eqn:Hzero; cbn [fst snd].
    + rewrite (array_set_last_run (fst <$> runs) c _ z) by now rewrite length_fmap.
      cbn [obind].
      rewrite (array_set_last_run (snd <$> runs) r _ z) by now rewrite length_fmap.
      cbn [obind]. apply (IH (S i) runs _ _ z). lia.
    + assert (Hlen : length (((fst <$> runs) ++ [c]) ++ replicate z 0)
                     = (length runs + 1 + z)%nat).
      { rewrite !length_app, length_fmap, length_replicate. simpl. lia. }
      destruct z as [|z].
      * rewrite decide_True by (rewrite Hlen; lia). cbn [fst snd].
        rewrite !app_nil_r.
        change (replicate GS_CPU_ARRAY_INCREMENT 0) with (replicate (S 7) 0).
        rewrite (array_set_next_run ((fst <$> runs) ++ [c]))
          by (rewrite length_app, length_fmap; simpl; lia).
        cbn [obind].
        rewrite (array_set_next_run ((snd <$> runs) ++ [r]))
          by (rewrite length_app, length_fmap; simpl; lia).
        cbn [obind].
        destruct (IH (S i) (runs ++ [(c, r)]) (node_res s nd) (node_width s nd) 7%nat
                    ltac:(lia)) as (runs' & c' & r' & z' & Hfold & Hloop).
        exists runs', c', r', z'. split; [exact Hfold|].
        rewrite !fmap_app, length_app in Hloop. simpl in Hloop.
        replace (S (length runs)) with (length runs + 1)%nat by lia. exact Hloop.
      * rewrite decide_False by (rewrite Hlen; lia). cbn [fst snd].
        rewrite (array_set_next_run ((fst <$> runs) ++ [c]))
          by (rewrite length_app, length_fmap; simpl; lia).
        cbn [obind].
        rewrite (array_set_next_run ((snd <$> runs) ++ [r]))
          by (rewrite length_app, length_fmap; simpl; lia).
        cbn [obind].
        destruct (IH (S i) (runs ++ [(c, r)]) (node_res s nd) (node_width s nd) z
                    ltac:(lia)) as (runs' & c' & r' & z' & Hfold & Hloop).
        exists runs', c', r', z'. split; [exact Hfold|].
        rewrite !fmap_app, length_app in Hloop. simpl in Hloop.
        replace (S (length runs)) with (length runs + 1)%nat by lia. exact Hloop.
Qed.

End Table.

(** ** What the table stands for *)

Lemma to_uint32_small_sum (x y : Z) :
  0 ≤ x → 0 ≤ y → x + y ≤ 2147483647 → to_uint32 (x + y) = x + y.
Proof. intros. unfold to_uint32. apply Z.mod_small. lia. Qed.

Lemma phys_expand_snoc (runs : list (Z * Z)) (c r : Z) :
  phys_expand (runs ++ [(c, r)]) = phys_expand runs ++ replicate (Z.to_nat r) c.
Proof. rewrite phys_expand_app. unfold phys_expand. simpl. now rewrite app_nil_r. Qed.

(** Nodes that all have resources: each of them adds its bits to the end
    of the table, whether its run is merged with the last one or not. *)
Lemma phys_step_fold_expand (ps : list (Z * Z)) :
  ∀ (runs : list (Z * Z)) (c r : Z),
    Forall (λ cr, cr.1 ≠ 0 ∧ 0 ≤ cr.2) ps →
    Forall (λ cr, 0 ≤ cr.2) runs → 0 ≤ r → c ≠ 0 ∨ r = 0 →
    Z.of_nat (length (phys_expand (runs ++ [(c, r)]) ++ phys_expand ps))
      ≤ 2147483647 →
    phys_expand (foldl phys_step (runs ++ [(c, r)]) ps)
      = phys_expand (runs ++ [(c, r)]) ++ phys_expand ps ∧
    Forall (λ cr, 0 ≤ cr.2) (foldl phys_step (runs ++ [(c, r)]) ps).
Proof.
  induction ps as [|[c1 r1] ps IH]; intros runs c r Hps Hruns Hr Hc Hmax.
  { simpl. rewrite app_nil_r. split; [reflexivity|].
    apply Forall_app. split; [exact Hruns|]. now repeat constructor. }
  apply Forall_cons in Hps as [[Hc1 Hr1] Hps]. cbn [fst snd] in Hc1, Hr1.
  cbn [foldl]. rewrite phys_step_snoc. cbn [fst snd].
  change (phys_expand ((c1, r1) :: ps))
    with (replicate (Z.to_nat r1) c1 ++ phys_expand ps) in *.
  rewrite phys_expand_snoc in Hmax |- *.
  rewrite !length_app, !length_replicate in Hmax.
  destruct (Z.eqb_spec c c1) as [->|Hne].
  - rewrite to_uint32_small_sum by lia.
    assert (Hmax' : Z.of_nat (length (phys_expand (runs ++ [(c1, r + r1)]) ++
                                      phys_expand ps)) ≤ 2147483647).
    { rewrite phys_expand_snoc, !length_app, !length_replicate. lia. }
    destruct (IH runs c1 (r + r1) Hps Hruns ltac:(lia) (or_introl Hc1) Hmax')
      as [Hexp Hall].
    split; [|exact Hall]. rewrite Hexp, phys_expand_snoc.
    rewrite Z2Nat.inj_add, replicate_add by lia. now rewrite <- !app_assoc.
  - destruct (Z.eqb_spec c 0) as [->|Hnz].
    + destruct Hc as [Hc | ->]; [contradiction|].
      assert (Hmax' : Z.of_nat (length (phys_expand (runs ++ [(c1, r1)]) ++
                                        phys_expand ps)) ≤ 2147483647).
      { rewrite phys_expand_snoc, !length_app, !length_replicate.
        simpl in Hmax. lia. }
      destruct (IH runs c1 r1 Hps Hruns Hr1 (or_introl Hc1) Hmax') as [Hexp Hall].
      split; [|exact Hall]. rewrite Hexp, phys_expand_snoc. simpl.
      now rewrite app_nil_r, <- !app_assoc.
    + assert (Hruns' : Forall (λ cr, 0 ≤ cr.2) (runs ++ [(c, r)])).
      { apply Forall_app. split; [exact Hruns|]. now repeat constructor. }
      assert (Hmax' : Z.of_nat (length (phys_expand ((runs ++ [(c, r)]) ++ [(c1, r1)])
                                        ++ phys_expand ps)) ≤ 2147483647).
      { rewrite !phys_expand_snoc, !length_app, !length_replicate. lia. }
      destruct (IH (runs ++ [(c, r)]) c1 r1 Hps Hruns' Hr1 (or_introl Hc1) Hmax')
        as [Hexp Hall].
      split; [|exact Hall]. rewrite Hexp, !phys_expand_snoc.
      now rewrite <- !app_assoc.
Qed.

Lemma phys_expand_zeros (z : nat) : phys_expand (replicate z (0, 0)) = [].
Proof. induction z as [|z IH]; [reflexivity|exact IH]. Qed.

Lemma zip_zeros (z : nat) : zip (replicate z 0) (replicate z 0) = replicate z (0, 0).
Proof. induction z as [|z IH]; [reflexivity|]. simpl. now rewrite IH. Qed.

(** The lookup in the two arrays that hold the runs, with zeros after
    them. *)
Lemma _get_phys_res_cnt_runs (runs : list (Z * Z)) (z i : nat) (c : Z) :
  Forall (λ cr, 0 ≤ cr.2) runs →
  Z.of_nat (length (phys_expand runs)) ≤ 2147483647 →
  phys_expand runs !! i = Some c →
  _get_phys_res_cnt ((fst <$> runs) ++ replicate z 0)
    ((snd <$> runs) ++ replicate z 0) (Z.of_nat i) = Ok c.
Proof.
  intros Hall Hmax Hi.
  assert (Hzip : phys_expand (zip ((fst <$> runs) ++ replicate z 0)
                                  ((snd <$> runs) ++ replicate z 0))
                 = phys_expand runs).
  { rewrite zip_with_app by now rewrite !length_fmap.
    rewrite zip_fst_snd, zip_zeros, phys_expand_app, phys_expand_zeros.
    apply app_nil_r. }
  apply _get_phys_res_cnt_expand.
  - now rewrite !length_app, !length_fmap.
  - apply Forall_app. split.
    + apply Forall_fmap. exact Hall.
    + apply Forall_replicate. lia.
  - now rewrite Hzip.
  - now rewrite Hzip.
Qed.

(** [_load_phys_res_cnt] returns the runs that the turns of its loop
    make of the nodes, in the first cells of two arrays of equal size. *)
Lemma _load_phys_res_cnt_table (nodes : list node_record) (s : gs_state) :
  gr_type s = GS_CPU ∨ gr_type s = GS_CORE →
  ∃ runs z,
    foldl phys_step [(0, 0)] (node_runs_from nodes s (length nodes) 0) = runs ∧
    _load_phys_res_cnt nodes s
    = Ok ((fst <$> runs) ++ replicate z 0, (snd <$> runs) ++ replicate z 0,
          length runs).
Proof.
  intros Hcounted.
  destruct (_load_phys_res_cnt_loop_runs nodes s Hcounted (length nodes) 0 [] 0 0 7
              ltac:(lia)) as (runs' & c' & r' & z' & Hfold & Hloop).
  exists (runs' ++ [(c', r')]), z'. split; [exact Hfold|].
  unfold _load_phys_res_cnt.
  change (replicate GS_CPU_ARRAY_INCREMENT 0)
    with ((((fst <$> @nil (Z * Z)) ++ [0]) ++ replicate 7 0)).
  assert (Hrun : _load_phys_res_cnt_loop nodes s (length nodes) 0
                   (((fst <$> @nil (Z * Z)) ++ [0]) ++ replicate 7 0)
                   (((fst <$> @nil (Z * Z)) ++ [0]) ++ replicate 7 0) 0
                 = Ok (((fst <$> runs') ++ [c']) ++ replicate z' 0,
                       ((snd <$> runs') ++ [r']) ++ replicate z' 0, length runs'))
    by exact Hloop.
  destruct Hcounted as [Hg|Hg]; rewrite Hg, Hrun; cbn [obind fst snd];
    rewrite !fmap_app, length_app; simpl;
    now replace (length runs' + 1)%nat with (S (length runs')) by lia.
Qed.

Lemma node_runs_ok (nodes : list node_record) (s : gs_state) :
  Forall (λ nd, node_res s nd ≠ 0) nodes →
  Forall (λ cr, cr.1 ≠ 0 ∧ 0 ≤ cr.2) (node_runs_from nodes s (length nodes) 0).
Proof.
  intros Hall. unfold node_runs_from. rewrite drop_0, firstn_all.
  apply Forall_fmap. eapply Forall_impl; [exact Hall|].
  intros nd Hnd. split; [exact Hnd|]. simpl. unfold node_width, to_uint16.
  destruct (gr_type s); try lia. apply Z.mod_pos_bound. lia.
Qed.

Lemma _load_phys_res_cnt_covers (nodes : list node_record) (s : gs_state) :
  gr_type s = GS_CPU ∨ gr_type s = GS_CORE →
  Forall (λ nd, node_res s nd ≠ 0) nodes →
  Z.of_nat (length (bit_capacities s nodes)) ≤ 2147483647 →
  ∃ cpus_per_res count_reps num_groups,
    _load_phys_res_cnt nodes s = Ok (cpus_per_res, count_reps, num_groups) ∧
    ∀ i c, bit_capacities s nodes !! i = Some c →
           _get_phys_res_cnt cpus_per_res count_reps (Z.of_nat i) = Ok c.
Proof.
  intros Hcounted Hres Hmax.
  destruct (_load_phys_res_cnt_table nodes s Hcounted) as (runs & z & Hfold & Hload).
  destruct (phys_step_fold_expand (node_runs_from nodes s (length nodes) 0)
              [] 0 0 (node_runs_ok nodes s Hres) ltac:(constructor) ltac:(lia)
              (or_intror eq_refl) Hmax) as [Hexp Hall].
  change ([] ++ [(0, 0)]) with [(0, 0)] in Hexp, Hall. rewrite Hfold in Hexp, Hall.
  change (phys_expand [(0, 0)] ++ ?l) with l in Hexp.
  eexists _, _, _. split; [exact Hload|].
  intros i c Hi. apply _get_phys_res_cnt_runs; try assumption.
  - now rewrite Hexp.
  - now rewrite Hexp.
Qed.

(** X1: where CPUs are counted (GS_CPU, GS_CORE) and every node has
    resources, the table that [_load_phys_res_cnt] builds from the node
    table answers, through [_get_phys_res_cnt], with the capacity of each
    bit: the CPUs of the node of the bit, or the cores of a socket of that
    node. *)
Theorem load_phys_res_cnt_lookup (nodes : list node_record) (s : gs_state) :
  gr_type s = GS_CPU ∨ gr_type s = GS_CORE →
  Forall (λ nd, node_res s nd ≠ 0) nodes →
  Z.of_nat (length (bit_capacities s nodes)) ≤ 2147483647 →
  ∃ cpus_per_res count_reps num_groups,
    _load_phys_res_cnt nodes s = Ok (cpus_per_res, count_reps, num_groups) ∧
    ∀ i c, bit_capacities s nodes !! i = Some c →
           _get_phys_res_cnt cpus_per_res count_reps (Z.of_nat i) = Ok c.
Proof. exact (_load_phys_res_cnt_covers nodes s). Qed.

Lemma load_phys_res_cnt_lookup_witness :
  ∃ cpus_per_res count_reps num_groups,
    _load_phys_res_cnt three_nodes (blank_state GS_CORE)
    = Ok (cpus_per_res, count_reps, num_groups) ∧
    ∀ i c, bit_capacities (blank_state GS_CORE) three_nodes !! i = Some c →
           _get_phys_res_cnt cpus_per_res count_reps (Z.of_nat i) = Ok c.
Proof.
  apply load_phys_res_cnt_lookup.
  - now right.
  - repeat constructor; discriminate.
  - vm_compute. discriminate.
Defined.

Lemma phys_step_last (runs : list (Z * Z)) (cr : Z * Z) :
  ∃ runs' r', phys_step runs cr = runs' ++ [(cr.1, r')].
Proof.
  destruct cr as [c1 r1]. cbn [fst].
  destruct (decide (runs = [])) as [->|Hne].
  - now exists [], r1.
  - destruct (exists_last Hne) as (runs1 & [c r] & ->).
    rewrite phys_step_snoc. cbn [fst snd].
    destruct (Z.eqb_spec c c1) as [->|_]; [now eexists _, _|].
    destruct (c =? 0); now eexists _, _.
Qed.

(** X2: a node without resources that stands before a node with
    resources leaves no run in the table. The table built for the nodes
    answers as if the empty node were not there: at the bit of the empty
    node it gives the capacity of the node after it, and so on. *)
Theorem load_phys_res_cnt_skips_empty_node (l1 l2 : list node_record)
    (z n : node_record) (s : gs_state) :
  gr_type s = GS_CPU ∨ gr_type s = GS_CORE →
  Forall (λ nd, node_res s nd ≠ 0) (l1 ++ n :: l2) →
  node_res s z = 0 →
  Z.of_nat (length (bit_capacities s (l1 ++ n :: l2))) ≤ 2147483647 →
  ∃ cpus_per_res count_reps num_groups,
    _load_phys_res_cnt (l1 ++ z :: n :: l2) s
    = Ok (cpus_per_res, count_reps, num_groups) ∧
    ∀ i c, bit_capacities s (l1 ++ n :: l2) !! i = Some c →
           _get_phys_res_cnt cpus_per_res count_reps (Z.of_nat i) = Ok c.
Proof.
  intros Hcounted Hres Hz Hmax.
  set (pr := λ nd, (node_res s nd, node_width s nd)).
  assert (Hruns : ∀ l, node_runs_from l s (length l) 0 = pr <$> l).
  { intros l. unfold node_runs_from. now rewrite drop_0, firstn_all. }
  assert (Hok : ∀ l, Forall (λ nd, node_res s nd ≠ 0) l →
                     Forall (λ cr, cr.1 ≠ 0 ∧ 0 ≤ cr.2) (pr <$> l)).
  { intros l Hl. rewrite <- Hruns. now apply node_runs_ok. }
  unfold bit_capacities in Hmax |- *. rewrite Hruns in Hmax |- *.
  rewrite fmap_app, fmap_cons, phys_expand_app in Hmax |- *.
  change (pr n :: (pr <$> l2)) with ([pr n] ++ (pr <$> l2)) in Hmax |- *.
  rewrite (phys_expand_app [pr n]) in Hmax |- *.
  apply Forall_app in Hres as [Hres1 Hres2].
  apply Forall_cons in Hres2 as [Hn Hres2].
  destruct (_load_phys_res_cnt_table (l1 ++ z :: n :: l2) s Hcounted)
    as (runs & zs & Hfold & Hload).
  rewrite Hruns, fmap_app, !fmap_cons, foldl_app in Hfold. cbn [foldl] in Hfold.
  (* the runs of the nodes before the empty node *)
  assert (Hmax1 : Z.of_nat (length (phys_expand ([] ++ [(0, 0)]) ++
                                    phys_expand (pr <$> l1))) ≤ 2147483647).
  { rewrite !length_app in Hmax |- *. simpl. lia. }
  destruct (phys_step_fold_expand (pr <$> l1) [] 0 0 (Hok l1 Hres1)
              ltac:(constructor) ltac:(lia) (or_intror eq_refl) Hmax1)
    as [Hexp1 Hall1].
  change ([] ++ [(0, 0)]) with [(0, 0)] in Hexp1, Hall1.
  change (phys_expand [(0, 0)] ++ ?l) with l in Hexp1.
  (* the empty node and the node after it *)
  assert (∃ R w, phys_step (foldl phys_step [(0, 0)] (pr <$> l1)) (pr z) = R ++ [(0, w)] ∧
                 phys_expand R = phys_expand (pr <$> l1) ∧
                 Forall (λ cr, 0 ≤ cr.2) R) as (R & w & Hstep & HexpR & HallR).
  { destruct l1 as [|x l1 _] using rev_ind.
    - exists [], (to_uint32 (0 + node_width s z)). simpl.
      unfold phys_step. simpl. unfold pr at 1. cbn [fst snd]. rewrite Hz. simpl.
      now repeat split.
    - rewrite fmap_app, foldl_app in Hexp1, Hall1 |- *. cbn [fmap list_fmap foldl] in *.
      destruct (phys_step_last (foldl phys_step [(0, 0)] (pr <$> l1)) (pr x))
        as (R1 & r1 & HR1).
      rewrite HR1 in Hexp1, Hall1 |- *. rewrite phys_step_snoc.
      apply Forall_app in Hres1 as [_ Hx]. apply Forall_cons in Hx as [Hx _].
      subst pr. cbn [fst snd] in *. rewrite Hz.
      destruct (Z.eqb_spec (node_res s x) 0) as [Heq|_]; [contradiction|].
      exists (R1 ++ [(node_res s x, r1)]), (node_width s z).
      split; [reflexivity|]. split; assumption. }
  rewrite Hstep, phys_step_snoc in Hfold.
  unfold pr at 1 in Hfold. cbn [fst snd] in Hfold.
  destruct (Z.eqb_spec 0 (node_res s n)) as [Heq|_]; [now symmetry in Heq|].
  cbn [Z.eqb] in Hfold.
  assert (Hw : 0 ≤ node_width s n).
  { pose proof (Hok [n] ltac:(now repeat constructor)) as Hw.
    apply Forall_cons in Hw as [[_ Hw] _]. exact Hw. }
  assert (Hmax2 : Z.of_nat (length (phys_expand (R ++ [(node_res s n, node_width s n)])
                                    ++ phys_expand (pr <$> l2))) ≤ 2147483647).
  { rewrite phys_expand_app, HexpR, <- app_assoc. exact Hmax. }
  destruct (phys_step_fold_expand (pr <$> l2) R (node_res s n) (node_width s n)
              (Hok l2 Hres2) HallR Hw (or_introl Hn) Hmax2) as [Hexp Hall].
  change (R ++ [pr n]) with (R ++ [(node_res s n, node_width s n)]) in Hfold.
  rewrite Hfold in Hexp, Hall. rewrite phys_expand_app, HexpR in Hexp.
  eexists _, _, _. split; [exact Hload|].
  intros i c Hi. apply _get_phys_res_cnt_runs; try assumption.
  - rewrite Hexp, <- app_assoc. exact Hmax.
  - now rewrite Hexp, <- app_assoc.
Qed.

Lemma load_phys_res_cnt_skips_empty_node_witness :
  ∃ cpus_per_res count_reps num_groups,
    _load_phys_res_cnt
      (take 2 three_nodes ++ mk_node_record 0 1 1 0 1 1 :: drop 2 three_nodes)
      (blank_state GS_CPU)
    = Ok (cpus_per_res, count_reps, num_groups) ∧
    ∀ i c, bit_capacities (blank_state GS_CPU) three_nodes !! i = Some c →
           _get_phys_res_cnt cpus_per_res count_reps (Z.of_nat i) = Ok c.
Proof.
  apply (load_phys_res_cnt_skips_empty_node (take 2 three_nodes) []
           (mk_node_record 0 1 1 0 1 1) (mk_node_record 8 2 4 8 2 4)
           (blank_state GS_CPU)).
  - now left.
  - repeat constructor; discriminate.
  - reflexivity.
  - vm_compute. discriminate.
Defined.

(** ** The resmap and the CPU array of a job *)

Section Resmap.
Context (node_record_table_ptr : list node_record).
Context (select_g_get_job_cores : Z → nat → nat → Z).
Context (s : gs_state) (nodemap : bitstr) (id : Z).

Lemma _compute_resources_sockets (i : nat) (nd : node_record) :
  node_record_table_ptr !! i = Some nd →
  _compute_resources node_record_table_ptr s i true = Ok (node_sockets s nd).
Proof.
  intros Hnd. unfold _compute_resources, node_sockets, array_get.
  destruct (gr_type s); try reflexivity; now rewrite Hnd.
Qed.

Lemma length_job_cores_of_node (i : nat) (nd : node_record) :
  length (job_cores_of_node select_g_get_job_cores s nodemap id i nd)
  = Z.to_nat (node_sockets s nd).
Proof.
  unfold job_cores_of_node. destruct (bit_test nodemap i).
  - now rewrite length_fmap, length_seq.
  - apply length_replicate.
Qed.

Lemma length_job_cores_from (i : nat) (nodes : list node_record) :
  length (job_cores_from select_g_get_job_cores s nodemap id i nodes)
  = socket_offset s nodes (length nodes).
Proof.
  unfold socket_offset. rewrite firstn_all. revert i.
  induction nodes as [|nd nodes IH]; intros i; [reflexivity|].
  cbn [job_cores_from foldr]. now rewrite length_app, length_job_cores_of_node, IH.
Qed.

(** The loop over the sockets of a node sets the bits of the sockets that
    hold cores of the job. *)
Lemma _get_resmap_sockets_spec (a : nat) (n : nat) :
  ∀ (j : nat) (pre : bitstr) (k : nat),
    (n ≤ k)%nat →
    _get_resmap_sockets select_g_get_job_cores id a n j (length pre)
      (pre ++ replicate k false)
    = Ok ((length pre + n)%nat,
          (pre ++ ((λ j', to_uint16 (select_g_get_job_cores id a j') >? 0)
                     <$> seq j n)) ++ replicate (k - n) false).
Proof.
  induction n as [|n IH]; intros j pre k Hk.
  { simpl. now rewrite Nat.add_0_r, app_nil_r, Nat.sub_0_r. }
  destruct k as [|k]; [lia|]. cbn [_get_resmap_sockets seq fmap list_fmap].
  assert (Hnext : ∀ b : bool,
            _get_resmap_sockets select_g_get_job_cores id a n (S j) (S (length pre))
              ((pre ++ [b]) ++ replicate k false)
            = Ok ((length pre + S n)%nat,
                  (pre ++ b :: ((λ j', to_uint16 (select_g_get_job_cores id a j') >? 0)
                                  <$> seq (S j) n)) ++ replicate (S k - S n) false)).
  { intros b. replace (S (length pre)) with (length (pre ++ [b]))
      by (rewrite length_app; simpl; lia).
    rewrite (IH (S j) (pre ++ [b]) k) by lia.
    rewrite length_app. simpl. do 2 f_equal; [lia|]. now rewrite <- !app_assoc. }
  destruct (to_uint16 (select_g_get_job_cores id a j) >? 0).
  - unfold array_set. rewrite decide_True by (rewrite length_app; simpl; lia).
    cbn [obind]. rewrite insert_app_r_alt by lia. rewrite Nat.sub_diag. simpl.
    replace (pre ++ true :: replicate k false)
      with ((pre ++ [true]) ++ replicate k false) by now rewrite <- app_assoc.
    apply Hnext.
  - cbn [obind]. 
    replace (pre ++ replicate (S k) false)
      with ((pre ++ [false]) ++ replicate k false) by now rewrite <- app_assoc.
    apply Hnext.
Qed.

(** The loop over the nodes. *)
Lemma _get_resmap_nodes_spec (n : nat) :
  ∀ (i : nat) (pre : bitstr) (k : nat),
    (i + n ≤ length node_record_table_ptr)%nat →
    (length (job_cores_from select_g_get_job_cores s nodemap id i
               (take n (drop i node_record_table_ptr))) ≤ k)%nat →
    _get_resmap_nodes node_record_table_ptr select_g_get_job_cores s nodemap id
      n i (alignment nodemap i) (length pre) (pre ++ replicate k false)
    = Ok ((pre ++ ((λ c, c >? 0)
                     <$> job_cores_from select_g_get_job_cores s nodemap id i
                           (take n (drop i node_record_table_ptr)))) ++
          replicate (k - length (job_cores_from select_g_get_job_cores s nodemap id i
                                   (take n (drop i node_record_table_ptr)))) false).
Proof.
  induction n as [|n IH]; intros i pre k Hi Hk.
  { rewrite take_0. simpl. now rewrite app_nil_r, Nat.sub_0_r. }
  destruct (lookup_lt_is_Some_2 node_record_table_ptr i ltac:(lia)) as [nd Hnd].
  rewrite (drop_S _ _ _ Hnd) in Hk |- *. cbn [take job_cores_from] in Hk |- *.
  rewrite length_app, length_job_cores_of_node in Hk.
  cbn [_get_resmap_nodes]. rewrite (_compute_resources_sockets i nd Hnd).
  cbn [obind]. rewrite fmap_app, length_app, length_job_cores_of_node.
  unfold job_cores_of_node. specialize (IH (S i)). rewrite alignment_S in IH.
  destruct (bit_test nodemap i) eqn:Hbit.
  - rewrite _get_resmap_sockets_spec by lia. cbn [obind fst snd].
    rewrite <- list_fmap_compose.
    set (bits := (λ j', to_uint16 (select_g_get_job_cores id (alignment nodemap i) j') >? 0)
                   <$> seq 0 (Z.to_nat (node_sockets s nd))).
    change ((λ c, c >? 0) ∘ _ <$> _) with bits.
    assert (Hlen : length (pre ++ bits) = (length pre + Z.to_nat (node_sockets s nd))%nat).
    { unfold bits. now rewrite length_app, length_fmap, length_seq. }
    rewrite <- Hlen.
    rewrite (IH (pre ++ bits) (k - Z.to_nat (node_sockets s nd))%nat);
      [|clear - Hi; lia|now apply Nat.le_add_le_sub_l].
    f_equal. rewrite <- !app_assoc. now rewrite Nat.sub_add_distr.
  - rewrite fmap_replicate.
    replace (pre ++ replicate k false)
      with ((pre ++ replicate (Z.to_nat (node_sockets s nd)) false) ++
            replicate (k - Z.to_nat (node_sockets s nd)) false).
    2:{ rewrite <- app_assoc, <- replicate_add. do 2 f_equal. lia. }
    replace (length pre + Z.to_nat (node_sockets s nd))%nat
      with (length (pre ++ replicate (Z.to_nat (node_sockets s nd)) false))
      by now rewrite length_app, length_replicate.
    rewrite IH; [|clear - Hi; lia|now apply Nat.le_add_le_sub_l].
    f_equal. rewrite <- !app_assoc. now rewrite Nat.sub_add_distr.
Qed.

End Resmap.

(** *** Set bits and the entries they select *)

Lemma bit_set_count_positive (cs : list Z) :
  bit_set_count ((λ c, c >? 0) <$> cs)
  = length (filter (λ c, (c >? 0) = true) cs).
Proof.
  induction cs as [|c cs IH]; [reflexivity|].
  rewrite fmap_cons, bit_set_count_cons, filter_cons, IH.
  destruct (c >? 0); case_decide; simpl; congruence.
Qed.

Lemma positive_alignment (cs : list Z) (b : nat) :
  bit_test ((λ c, c >? 0) <$> cs) b = true →
  filter (λ c, (c >? 0) = true) cs !! alignment ((λ c, c >? 0) <$> cs) b = cs !! b.
Proof.
  intros Hb. apply bit_test_lookup in Hb. rewrite list_lookup_fmap in Hb.
  destruct (cs !! b) as [c|] eqn:Hc; [|discriminate]. simpl in Hb.
  unfold alignment. rewrite <- fmap_take, bit_set_count_positive.
  assert (Hsplit : filter (λ c, (c >? 0) = true) cs
                   = filter (λ c, (c >? 0) = true) (take b cs) ++
                     filter (λ c, (c >? 0) = true) (drop b cs))
    by now rewrite <- list.filter_app, take_drop.
  rewrite Hsplit, (drop_S _ _ _ Hc).
  rewrite filter_cons, decide_True by congruence.
  now rewrite list_lookup_middle.
Qed.

Lemma filter_positive_zeros (m : nat) :
  filter (λ c, (c >? 0) = true) (replicate m 0) = [].
Proof.
  induction m as [|m IH]; [reflexivity|].
  cbn [replicate]. rewrite filter_cons. case_decide as Hp; [discriminate Hp|exact IH].
Qed.

Section Alloc.
Context (node_record_table_ptr : list node_record).
Context (select_g_get_job_cores : Z → nat → nat → Z).
Context (s : gs_state) (nodemap : bitstr) (id : Z).

(** The loop over the sockets of a node appends the core counts that are
    not zero. *)
Lemma _load_alloc_cpus_sockets_spec (a : nat) (n : nat) :
  ∀ (j : nat) (pre : list Z) (k : nat),
    (length (filter (λ c, (c >? 0) = true)
               ((λ j', to_uint16 (select_g_get_job_cores id a j')) <$> seq j n))
     ≤ k)%nat →
    _load_alloc_cpus_sockets select_g_get_job_cores id a n j (length pre)
      (pre ++ replicate k 0)
    = Ok ((length pre +
           length (filter (λ c, (c >? 0) = true)
                     ((λ j', to_uint16 (select_g_get_job_cores id a j')) <$> seq j n)))%nat,
          (pre ++ filter (λ c, (c >? 0) = true)
                    ((λ j', to_uint16 (select_g_get_job_cores id a j')) <$> seq j n)) ++
          replicate
            (k - length (filter (λ c, (c >? 0) = true)
                           ((λ j', to_uint16 (select_g_get_job_cores id a j')) <$> seq j n)))
            0).
Proof.
  induction n as [|n IH]; intros j pre k Hk.
  { simpl. now rewrite Nat.add_0_r, app_nil_r, Nat.sub_0_r. }
  cbn [seq fmap list_fmap] in Hk |- *. rewrite filter_cons in Hk |- *.
  cbn [_load_alloc_cpus_sockets]. cbv zeta.
  destruct (to_uint16 (select_g_get_job_cores id a j) >? 0) eqn:Hpos.
  - rewrite decide_True in Hk |- * by reflexivity. cbn [length] in Hk |- *.
    destruct k as [|k]; [lia|].
    unfold array_set. rewrite decide_True by (rewrite length_app; simpl; lia).
    cbn [obind]. rewrite insert_app_r_alt by lia. rewrite Nat.sub_diag. simpl.
    replace (pre ++ to_uint16 (select_g_get_job_cores id a j) :: replicate k 0)
      with ((pre ++ [to_uint16 (select_g_get_job_cores id a j)]) ++ replicate k 0)
      by now rewrite <- app_assoc.
    replace (S (length pre))
      with (length (pre ++ [to_uint16 (select_g_get_job_cores id a j)]))
      by (rewrite length_app; simpl; lia).
    rewrite (IH (S j)) by lia. rewrite length_app. simpl.
    do 2 f_equal; [lia|]. now rewrite <- !app_assoc.
  - rewrite decide_False in Hk |- * by congruence. now apply IH.
Qed.

(** The loop over the nodes. *)
Lemma _load_alloc_cpus_nodes_spec (n : nat) :
  ∀ (i : nat) (pre : list Z) (k : nat),
    (i + n ≤ length node_record_table_ptr)%nat →
    (length (filter (λ c, (c >? 0) = true)
               (job_cores_from select_g_get_job_cores s nodemap id i
                  (take n (drop i node_record_table_ptr)))) ≤ k)%nat →
    _load_alloc_cpus_nodes node_record_table_ptr select_g_get_job_cores s nodemap id
      n i (length pre) (alignment nodemap i) (pre ++ replicate k 0)
    = Ok ((pre ++ filter (λ c, (c >? 0) = true)
                    (job_cores_from select_g_get_job_cores s nodemap id i
                       (take n (drop i node_record_table_ptr)))) ++
          replicate
            (k - length (filter (λ c, (c >? 0) = true)
                           (job_cores_from select_g_get_job_cores s nodemap id i
                              (take n (drop i node_record_table_ptr))))) 0).
Proof.
  induction n as [|n IH]; intros i pre k Hi Hk.
  { rewrite take_0. simpl. now rewrite app_nil_r, Nat.sub_0_r. }
  destruct (lookup_lt_is_Some_2 node_record_table_ptr i ltac:(lia)) as [nd Hnd].
  rewrite (drop_S _ _ _ Hnd) in Hk |- *. cbn [take job_cores_from] in Hk |- *.
  rewrite list.filter_app, length_app in Hk. rewrite list.filter_app, length_app.
  cbn [_load_alloc_cpus_nodes]. rewrite (_compute_resources_sockets _ _ i nd Hnd).
  cbn [obind]. unfold job_cores_of_node in Hk |- *.
  specialize (IH (S i)). rewrite alignment_S in IH.
  destruct (bit_test nodemap i) eqn:Hbit.
  - set (f := filter (λ c, (c >? 0) = true)
                ((λ j, to_uint16 (select_g_get_job_cores id (alignment nodemap i) j))
                   <$> seq 0 (Z.to_nat (node_sockets s nd)))) in *.
    rewrite _load_alloc_cpus_sockets_spec by (fold f; lia). fold f.
    cbn [obind fst snd].
    replace (length pre + length f)%nat with (length (pre ++ f))
      by now rewrite length_app.
    rewrite IH; [|lia|now apply Nat.le_add_le_sub_l].
    f_equal. rewrite <- !app_assoc. now rewrite Nat.sub_add_distr.
  - rewrite filter_positive_zeros in Hk |- *. simpl in Hk |- *.
    apply IH; [lia|exact Hk].
Qed.

End Alloc.

(** *** The size of the resmap *)

Lemma node_sockets_nonneg (s : gs_state) (nd : node_record) : 0 ≤ node_sockets s nd.
Proof.
  unfold node_sockets, to_uint16.
  destruct (gr_type s); try lia; apply Z.mod_pos_bound; lia.
Qed.

Lemma socket_offset_all (s : gs_state) (nd : node_record) (nodes : list node_record) :
  socket_offset s (nd :: nodes) (length (nd :: nodes))
  = (Z.to_nat (node_sockets s nd) + socket_offset s nodes (length nodes))%nat.
Proof. unfold socket_offset. now rewrite !firstn_all. Qed.

Lemma socket_offset_S (s : gs_state) (nd : node_record) (nodes : list node_record)
    (i : nat) :
  socket_offset s (nd :: nodes) (S i)
  = (Z.to_nat (node_sockets s nd) + socket_offset s nodes i)%nat.
Proof. reflexivity. Qed.

Lemma _get_resmap_size_loop_sum (nodes : list node_record) (s : gs_state) (n : nat) :
  ∀ (i : nat) (count : Z),
    (i + n ≤ length nodes)%nat → 0 ≤ count < 4294967296 →
    _get_resmap_size_loop nodes s n i count
    = Ok (to_uint32 (count + Z.of_nat (socket_offset s (take n (drop i nodes)) n))).
Proof.
  induction n as [|n IH]; intros i count Hi Hc.
  { rewrite take_0. cbn. unfold to_uint32. rewrite Z.add_0_r, Z.mod_small by lia.
    reflexivity. }
  destruct (lookup_lt_is_Some_2 nodes i ltac:(lia)) as [nd Hnd].
  rewrite (drop_S _ _ _ Hnd). cbn [take]. rewrite socket_offset_S.
  cbn [_get_resmap_size_loop]. rewrite (_compute_resources_sockets _ _ i nd Hnd).
  cbn [obind]. rewrite IH; [|lia|unfold to_uint32; apply Z.mod_pos_bound; lia].
  f_equal. unfold to_uint32. rewrite Zplus_mod_idemp_l. f_equal.
  pose proof (node_sockets_nonneg s nd). lia.
Qed.

Lemma _get_resmap_size_sockets (nodes : list node_record) (s : gs_state) :
  gr_type s = GS_SOCKET ∨ gr_type s = GS_CORE →
  _get_resmap_size nodes s
  = Ok (to_uint32 (Z.of_nat (socket_offset s nodes (length nodes)))).
Proof.
  intros Hg. unfold _get_resmap_size.
  assert (Hloop := _get_resmap_size_loop_sum nodes s (length nodes) 0 0).
  rewrite drop_0, firstn_all in Hloop.
  destruct Hg as [-> | ->]; apply Hloop; lia.
Qed.

Lemma job_cores_from_lookup (select_g_get_job_cores : Z → nat → nat → Z)
    (s : gs_state) (nodemap : bitstr) (id : Z) (nodes : list node_record) :
  ∀ (i0 i : nat) (nd : node_record) (j : nat),
    nodes !! i = Some nd → (j < Z.to_nat (node_sockets s nd))%nat →
    job_cores_from select_g_get_job_cores s nodemap id i0 nodes
      !! (socket_offset s nodes i + j)%nat
    = job_cores_of_node select_g_get_job_cores s nodemap id (i0 + i) nd !! j.
Proof.
  induction nodes as [|n0 nodes IH]; intros i0 i nd j Hnd Hj; [discriminate|].
  cbn [job_cores_from]. destruct i as [|i].
  - injection Hnd as ->. cbn. rewrite Nat.add_0_r.
    apply lookup_app_l. now rewrite length_job_cores_of_node.
  - cbn in Hnd. rewrite socket_offset_S.
    rewrite lookup_app_r by (rewrite length_job_cores_of_node; lia).
    rewrite length_job_cores_of_node.
    replace (Z.to_nat (node_sockets s n0) + socket_offset s nodes i + j
             - Z.to_nat (node_sockets s n0))%nat
      with (socket_offset s nodes i + j)%nat by lia.
    rewrite (IH (S i0) i nd j Hnd Hj). f_equal. f_equal. lia.
Qed.

Lemma job_cores_of_node_lookup (select_g_get_job_cores : Z → nat → nat → Z)
    (s : gs_state) (nodemap : bitstr) (id : Z) (i : nat) (nd : node_record) (j : nat) :
  (j < Z.to_nat (node_sockets s nd))%nat →
  job_cores_of_node select_g_get_job_cores s nodemap id i nd !! j
  = Some (if bit_test nodemap i
          then to_uint16 (select_g_get_job_cores id (alignment nodemap i) j)
          else 0).
Proof.
  intros Hj. unfold job_cores_of_node. destruct (bit_test nodemap i).
  - rewrite list_lookup_fmap, lookup_seq_lt by assumption. reflexivity.
  - now rewrite lookup_replicate_2.
Qed.

(** The resmap of a job, as a list: with the resmap size taken from
    [_get_resmap_size], [_get_resmap] marks the sockets with cores. *)
Lemma _get_resmap_job_cores (nodes : list node_record)
    (select_g_get_job_cores : Z → nat → nat → Z) (s : gs_state)
    (origmap : bitstr) (id : Z) :
  gr_type s = GS_SOCKET ∨ gr_type s = GS_CORE →
  bit_size origmap = length nodes →
  gs_resmap_size s = socket_offset s nodes (length nodes) →
  _get_resmap nodes select_g_get_job_cores s origmap id
  = Ok ((λ c, c >? 0) <$> job_cores_from select_g_get_job_cores s origmap id 0 nodes).
Proof.
  intros Hg Hsize Hres. unfold _get_resmap, node_record_count.
  rewrite decide_False by (intros H; apply H; exact Hsize).
  assert (Hloop := _get_resmap_nodes_spec nodes select_g_get_job_cores s origmap id
                     (length nodes) 0 [] (gs_resmap_size s)).
  rewrite drop_0, firstn_all, length_job_cores_from, <- Hres, Nat.sub_diag in Hloop.
  cbn [app length replicate] in Hloop. rewrite app_nil_r in Hloop.
  unfold bit_alloc. destruct Hg as [-> | ->]; apply Hloop; lia.
Qed.

Lemma resmap_size_no_wrap (nodes : list node_record) (s : gs_state) :
  gr_type s = GS_SOCKET ∨ gr_type s = GS_CORE →
  _get_resmap_size nodes s = Ok (Z.of_nat (gs_resmap_size s)) →
  Z.of_nat (socket_offset s nodes (length nodes)) < 4294967296 →
  gs_resmap_size s = socket_offset s nodes (length nodes).
Proof.
  intros Hg Hsz Hlt. rewrite (_get_resmap_size_sockets nodes s Hg) in Hsz.
  injection Hsz as Hsz. unfold to_uint32 in Hsz. rewrite Z.mod_small in Hsz by lia.
  lia.
Qed.

(** X3: at socket or core granularity, with the resmap size that
    [_get_resmap_size] computes and a node bitmap of one bit per node,
    [_get_resmap] returns a map of that size in which the bit of socket [j]
    of node [i] is set exactly when the node is in the bitmap and the job
    has cores on that socket; the bits of a node start where the sockets of
    the nodes before it end. *)
Theorem get_resmap_marks_sockets (nodes : list node_record)
    (select_g_get_job_cores : Z → nat → nat → Z) (s : gs_state)
    (origmap : bitstr) (id : Z) :
  gr_type s = GS_SOCKET ∨ gr_type s = GS_CORE →
  bit_size origmap = length nodes →
  _get_resmap_size nodes s = Ok (Z.of_nat (gs_resmap_size s)) →
  Z.of_nat (socket_offset s nodes (length nodes)) < 4294967296 →
  ∃ newmap,
    _get_resmap nodes select_g_get_job_cores s origmap id = Ok newmap ∧
    bit_size newmap = gs_resmap_size s ∧
    ∀ i nd j,
      nodes !! i = Some nd → (j < Z.to_nat (node_sockets s nd))%nat →
      bit_test newmap (socket_offset s nodes i + j)
      = bit_test origmap i &&
        (to_uint16 (select_g_get_job_cores id (alignment origmap i) j) >? 0).
Proof.
  intros Hg Hsize Hsz Hlt.
  pose proof (resmap_size_no_wrap nodes s Hg Hsz Hlt) as Hres.
  eexists. split; [now apply _get_resmap_job_cores|]. split.
  - unfold bit_size. now rewrite length_fmap, length_job_cores_from.
  - intros i nd j Hnd Hj. unfold bit_test at 1.
    rewrite list_lookup_fmap, (job_cores_from_lookup _ _ _ _ _ 0 i nd j Hnd Hj).
    rewrite job_cores_of_node_lookup by assumption. cbn.
    now destruct (bit_test origmap i).
Qed.

Lemma get_resmap_marks_sockets_witness :
  ∃ newmap,
    _get_resmap three_nodes first_socket_cores three_nodes_state
      [true; false; true] 7 = Ok newmap ∧
    bit_size newmap = gs_resmap_size three_nodes_state ∧
    ∀ i nd j,
      three_nodes !! i = Some nd →
      (j < Z.to_nat (node_sockets three_nodes_state nd))%nat →
      bit_test newmap (socket_offset three_nodes_state three_nodes i + j)
      = bit_test [true; false; true] i &&
        (to_uint16 (first_socket_cores 7 (alignment [true; false; true] i) j) >? 0).
Proof.
  apply (get_resmap_marks_sockets three_nodes first_socket_cores three_nodes_state
           [true; false; true] 7).
  - right. reflexivity.
  - reflexivity.
  - reflexivity.
  - vm_compute. reflexivity.
Defined.

(** *** The CPU array follows the resmap *)

Lemma _load_alloc_cpus_job_cores (nodes : list node_record)
    (select_g_get_job_cores : Z → nat → nat → Z) (s : gs_state)
    (jmap nodemap : bitstr) (id : Z) :
  bit_size nodemap = length nodes →
  (length (filter (λ c, (c >? 0) = true)
             (job_cores_from select_g_get_job_cores s nodemap id 0 nodes))
   ≤ bit_set_count jmap)%nat →
  _load_alloc_cpus nodes select_g_get_job_cores s jmap nodemap id
  = Ok (filter (λ c, (c >? 0) = true)
          (job_cores_from select_g_get_job_cores s nodemap id 0 nodes) ++
        replicate
          (bit_set_count jmap -
           length (filter (λ c, (c >? 0) = true)
                     (job_cores_from select_g_get_job_cores s nodemap id 0 nodes)))
          0).
Proof.
  intros Hsize Hk. unfold _load_alloc_cpus, node_record_count.
  assert (Hloop := _load_alloc_cpus_nodes_spec nodes select_g_get_job_cores s nodemap id
                     (length nodes) 0 [] (bit_set_count jmap)).
  rewrite drop_0, firstn_all in Hloop. apply Hloop; [lia|exact Hk].
Qed.

(** X4: at socket or core granularity the CPU array that [_load_alloc_cpus]
    builds for the resmap of [_get_resmap] has one entry per set bit, and
    the entry that a set bit selects is the number of cores of the job on
    the socket of that bit. *)
Theorem load_alloc_cpus_follows_resmap (nodes : list node_record)
    (select_g_get_job_cores : Z → nat → nat → Z) (s : gs_state)
    (nodemap : bitstr) (id : Z) :
  gr_type s = GS_SOCKET ∨ gr_type s = GS_CORE →
  bit_size nodemap = length nodes →
  _get_resmap_size nodes s = Ok (Z.of_nat (gs_resmap_size s)) →
  Z.of_nat (socket_offset s nodes (length nodes)) < 4294967296 →
  ∃ jmap arr,
    _get_resmap nodes select_g_get_job_cores s nodemap id = Ok jmap ∧
    _load_alloc_cpus nodes select_g_get_job_cores s jmap nodemap id = Ok arr ∧
    length arr = bit_set_count jmap ∧
    ∀ i nd j,
      nodes !! i = Some nd → (j < Z.to_nat (node_sockets s nd))%nat →
      bit_test jmap (socket_offset s nodes i + j) = true →
      arr !! alignment jmap (socket_offset s nodes i + j)
      = Some (to_uint16 (select_g_get_job_cores id (alignment nodemap i) j)).
Proof.
  intros Hg Hsize Hsz Hlt.
  pose proof (resmap_size_no_wrap nodes s Hg Hsz Hlt) as Hres.
  set (cs := job_cores_from select_g_get_job_cores s nodemap id 0 nodes).
  exists ((λ c, c >? 0) <$> cs), (filter (λ c, (c >? 0) = true) cs).
  split; [now apply _get_resmap_job_cores|].
  split.
  { rewrite _load_alloc_cpus_job_cores; fold cs.
    - now rewrite bit_set_count_positive, Nat.sub_diag, app_nil_r.
    - assumption.
    - now rewrite bit_set_count_positive. }
  split; [now rewrite bit_set_count_positive|].
  intros i nd j Hnd Hj Hbit. rewrite positive_alignment by assumption.
  unfold cs. rewrite (job_cores_from_lookup _ _ _ _ _ 0 i nd j Hnd Hj).
  rewrite job_cores_of_node_lookup by assumption. cbn.
  destruct (bit_test nodemap i) eqn:Hi; [reflexivity|].
  exfalso. unfold bit_test in Hbit. unfold cs in Hbit.
  rewrite list_lookup_fmap, (job_cores_from_lookup _ _ _ _ _ 0 i nd j Hnd Hj) in Hbit.
  rewrite job_cores_of_node_lookup in Hbit by assumption. cbn in Hbit.
  rewrite Hi in Hbit. discriminate.
Qed.

Lemma load_alloc_cpus_follows_resmap_witness :
  ∃ jmap arr,
    _get_resmap three_nodes first_socket_cores three_nodes_state
      [true; false; true] 7 = Ok jmap ∧
    _load_alloc_cpus three_nodes first_socket_cores three_nodes_state jmap
      [true; false; true] 7 = Ok arr ∧
    length arr = bit_set_count jmap ∧
    ∀ i nd j,
      three_nodes !! i = Some nd →
      (j < Z.to_nat (node_sockets three_nodes_state nd))%nat →
      bit_test jmap (socket_offset three_nodes_state three_nodes i + j) = true →
      arr !! alignment jmap (socket_offset three_nodes_state three_nodes i + j)
      = Some (to_uint16 (first_socket_cores 7 (alignment [true; false; true] i) j)).
Proof.
  apply (load_alloc_cpus_follows_resmap three_nodes first_socket_cores
           three_nodes_state [true; false; true] 7).
  - right. reflexivity.
  - reflexivity.
  - reflexivity.
  - vm_compute. reflexivity.
Defined.

(** *** One entry per node at CPU granularity *)

Lemma bit_set_count_drop (m : bitstr) (i : nat) :
  bit_set_count (drop i m)
  = ((if bit_test m i then 1 else 0) + bit_set_count (drop (S i) m))%nat.
Proof.
  unfold bit_test. destruct (m !! i) as [x|] eqn:Hx.
  - rewrite (drop_S _ _ _ Hx), bit_set_count_cons. reflexivity.
  - apply lookup_ge_None in Hx. rewrite !drop_ge by lia. reflexivity.
Qed.

Section PerNode.
Context (select_g_get_job_cores : Z → nat → nat → Z).
Context (s : gs_state) (nodemap : bitstr) (id : Z).
Hypothesis Hcpu : gr_type s = GS_CPU.

Lemma job_cores_of_node_cpu (i : nat) (nd : node_record) :
  job_cores_of_node select_g_get_job_cores s nodemap id i nd
  = [if bit_test nodemap i
     then to_uint16 (select_g_get_job_cores id (alignment nodemap i) 0%nat)
     else 0].
Proof.
  unfold job_cores_of_node, node_sockets. rewrite Hcpu.
  now destruct (bit_test nodemap i).
Qed.

Lemma job_cores_cpu_bound (nodes : list node_record) :
  ∀ i, (length (filter (λ c, (c >? 0) = true)
                  (job_cores_from select_g_get_job_cores s nodemap id i nodes))
        ≤ bit_set_count (drop i nodemap))%nat.
Proof.
  induction nodes as [|nd nodes IH]; intros i; [cbn; lia|].
  cbn [job_cores_from]. rewrite job_cores_of_node_cpu, bit_set_count_drop.
  cbn [app]. rewrite filter_cons. specialize (IH (S i)).
  destruct (bit_test nodemap i); case_decide as Hp; cbn [length]; lia.
Qed.

Lemma job_cores_cpu_map (nodes : list node_record) :
  (∀ i, bit_test nodemap i = true →
        to_uint16 (select_g_get_job_cores id (alignment nodemap i) 0%nat) > 0) →
  ∀ i, (i + length nodes ≤ length nodemap)%nat →
       (λ c, c >? 0) <$> job_cores_from select_g_get_job_cores s nodemap id i nodes
       = take (length nodes) (drop i nodemap).
Proof.
  intros Hpos. induction nodes as [|nd nodes IH]; intros i Hi; [reflexivity|].
  cbn [length] in Hi. cbn [job_cores_from length].
  rewrite job_cores_of_node_cpu. cbn [app fmap list_fmap].
  destruct (lookup_lt_is_Some_2 nodemap i ltac:(lia)) as [x Hx].
  rewrite (drop_S _ _ _ Hx). cbn [take]. rewrite <- IH by lia. f_equal.
  unfold bit_test in Hpos |- *. specialize (Hpos i). rewrite Hx in Hpos |- *.
  destruct x; [|reflexivity]. specialize (Hpos eq_refl).
  apply Z.gtb_lt. lia.
Qed.

End PerNode.

(** X5: at CPU granularity, where the resmap of a job is its node bitmap,
    [_load_alloc_cpus] always returns an array with one entry per node of
    the job; when the allocation plugin reports CPUs for each of these
    nodes, the entry that the bit of a node selects is the count reported
    for that node. *)
Theorem load_alloc_cpus_per_node (nodes : list node_record)
    (select_g_get_job_cores : Z → nat → nat → Z) (s : gs_state)
    (nodemap : bitstr) (id : Z) :
  gr_type s = GS_CPU →
  bit_size nodemap = length nodes →
  ∃ arr,
    _load_alloc_cpus nodes select_g_get_job_cores s (bit_copy nodemap) nodemap id
    = Ok arr ∧
    length arr = bit_set_count nodemap ∧
    ((∀ i, bit_test nodemap i = true →
           to_uint16 (select_g_get_job_cores id (alignment nodemap i) 0%nat) > 0) →
     ∀ i, bit_test nodemap i = true →
          arr !! alignment nodemap i
          = Some (to_uint16 (select_g_get_job_cores id (alignment nodemap i) 0%nat))).
Proof.
  intros Hcpu Hsize. unfold bit_copy.
  set (cs := job_cores_from select_g_get_job_cores s nodemap id 0 nodes).
  pose proof (job_cores_cpu_bound select_g_get_job_cores s nodemap id Hcpu nodes 0%nat)
    as Hbound.
  rewrite drop_0 in Hbound. fold cs in Hbound.
  eexists. split; [apply _load_alloc_cpus_job_cores; assumption|]. fold cs.
  split.
  { rewrite length_app, length_replicate. lia. }
  intros Hpos i Hbit.
  pose proof (job_cores_cpu_map select_g_get_job_cores s nodemap id Hcpu nodes Hpos 0%nat)
    as Hmap.
  unfold bit_size in Hsize. rewrite drop_0, <- Hsize, firstn_all in Hmap.
  fold cs in Hmap. specialize (Hmap ltac:(lia)).
  assert (Hlen : length (filter (λ c, (c >? 0) = true) cs) = bit_set_count nodemap)
    by now rewrite <- bit_set_count_positive, Hmap.
  rewrite Hlen, Nat.sub_diag, app_nil_r.
  pose proof (positive_alignment cs i) as Hal. rewrite Hmap in Hal.
  rewrite (Hal Hbit). clear Hal.
  pose proof (bit_test_lt _ _ Hbit) as Hlt. rewrite Hsize in Hlt.
  destruct (lookup_lt_is_Some_2 nodes i Hlt) as [nd Hnd].
  assert (Hj : (0 < Z.to_nat (node_sockets s nd))%nat)
    by (unfold node_sockets; rewrite Hcpu; lia).
  pose proof (job_cores_from_lookup select_g_get_job_cores s nodemap id nodes
                0%nat i nd 0%nat Hnd Hj) as Hl.
  assert (Hoff : ∀ l k, (k ≤ length l)%nat → socket_offset s l k = k).
  { induction l as [|x l IHl]; intros [|k] Hk; try reflexivity; [cbn in Hk; lia|].
    rewrite socket_offset_S, IHl by (cbn in Hk; lia).
    unfold node_sockets. rewrite Hcpu. reflexivity. }
  rewrite Hoff, Nat.add_0_r in Hl by lia. fold cs in Hl. rewrite Hl.
  rewrite (job_cores_of_node_cpu _ _ _ _ Hcpu). cbn. now rewrite Hbit.
Qed.

Lemma load_alloc_cpus_per_node_witness :
  ∃ arr,
    _load_alloc_cpus three_nodes first_socket_cores (blank_state GS_CPU)
      (bit_copy [true; false; true]) [true; false; true] 7 = Ok arr ∧
    length arr = bit_set_count [true; false; true] ∧
    ((∀ i, bit_test [true; false; true] i = true →
           to_uint16 (first_socket_cores 7 (alignment [true; false; true] i) 0%nat) > 0) →
     ∀ i, bit_test [true; false; true] i = true →
          arr !! alignment [true; false; true] i
          = Some (to_uint16 (first_socket_cores 7 (alignment [true; false; true] i) 0%nat))).
Proof.
  apply (load_alloc_cpus_per_node three_nodes first_socket_cores (blank_state GS_CPU)
           [true; false; true] 7); reflexivity.
Defined.

(** ** What a rebuild of all rows leaves *)

Lemma _update_all_active_rows_settles
    (job_suspend : list suspend_msg → suspend_msg → Z) (s : gs_state) :
  rebuild_ready s → sorted_array_ok s → gs_part_list s ≠ [] →
  ∃ s1, _update_all_active_rows job_suspend s = Ok (tt, s1) ∧
        rebuild_ready s1 ∧ core s1 = core s ∧
        length (gs_part_list s1) = length (gs_part_list s) ∧
        num_sorted_part s1 = length (gs_part_list s1) ∧
        gs_part_sorted s1 ≡ₚ seq 0 (length (gs_part_list s1)) ∧
        (∀ x, prio_of (gs_part_list s1) x = prio_of (gs_part_list s) x) ∧
        ∀ q, q ∈ gs_part_list s1 → settled s1 q.
Proof.
  intros Hready Hok Hne.
  destruct (_update_all_active_rows_runs job_suspend s Hready Hok Hne) as [s1 Hrun].
  exists s1. split; [exact Hrun|].
  destruct (_sort_partitions_spec s Hne Hok) as (sorted & Hsort & Hperm & Hdesc).
  rewrite (_update_all_active_rows_in_order job_suspend s sorted Hsort Hperm) in Hrun.
  set (s0 := set_part_sorted sorted (length (gs_part_list s)) s) in *.
  destruct (rebuild_in_order_settled job_suspend (prio_of (gs_part_list s))
              sorted [] s0 s1) as (Hready1 & Hglob & Hlen & Hpr & Hall);
    try assumption.
  - reflexivity.
  - rewrite Hperm. apply NoDup_seq.
  - intros d t Hd. inversion Hd.
  - intros d Hd. inversion Hd.
  - split; [exact Hready1|].
    split; [now rewrite (core_same_globals s0 s1 Hglob)|].
    destruct Hglob as (_ & _ & _ & _ & _ & Hsorted1 & Hnum1 & _).
    simpl in Hsorted1, Hnum1, Hlen.
    split; [exact Hlen|]. split; [congruence|].
    split; [now rewrite Hsorted1, Hlen|]. split; [exact Hpr|].
    intros q Hq. apply list_elem_of_lookup_1 in Hq as [p Hp].
    destruct (Hall p) as (q' & Hq' & Hsettled).
    + cbn [app]. rewrite Hperm. apply elem_of_seq.
      apply lookup_lt_Some in Hp. lia.
    + congruence.
Qed.

(** X6: from a state the rebuild is made for, [_update_all_active_rows]
    returns and leaves every partition settled: its active row holds its
    shadows and its seated jobs, these jobs can all be seated together on
    top of the shadows, no job that was left out of the row would fit into
    it, and every seated job is a shadow of every partition of lower
    priority. The state it leaves is again one the rebuild is made for. *)
Theorem rebuild_all_settles (job_suspend : list suspend_msg → suspend_msg → Z)
    (s : gs_state) :
  rebuild_ready s → sorted_array_ok s → gs_part_list s ≠ [] →
  ∃ s1, _update_all_active_rows job_suspend s = Ok (tt, s1) ∧
        rebuild_ready s1 ∧ sorted_array_ok s1 ∧
        ∀ q, q ∈ gs_part_list s1 → settled s1 q.
Proof.
  intros Hready Hok Hne.
  destruct (_update_all_active_rows_settles job_suspend s Hready Hok Hne)
    as (s1 & Hrun & Hready1 & _ & _ & _ & Hperm & _ & Hall).
  exists s1. split; [exact Hrun|]. split; [exact Hready1|].
  split; [intros _; exact Hperm|exact Hall].
Qed.

Lemma rebuild_all_settles_witness :
  ∃ s1, _update_all_active_rows (λ _ _, 0) two_parts_cpu_state = Ok (tt, s1) ∧
        rebuild_ready s1 ∧ sorted_array_ok s1 ∧
        ∀ q, q ∈ gs_part_list s1 → settled s1 q.
Proof.
  apply (rebuild_all_settles (λ _ _, 0) two_parts_cpu_state).
  - apply two_parts_cpu_state_ready.
  - intros _. reflexivity.
  - discriminate.
Defined.

(** *** Where the bits alone decide *)

Lemma load_by_bits (g : gs_state) (X : list job_res) (b : nat) :
  by_bits g = true →
  load g X b = Z.of_nat (length (filter (λ r, bit_test r.1 b = true) X)).
Proof.
  intros Hb. induction X as [|r X IH]; [reflexivity|].
  unfold load in *. cbn [foldr]. rewrite IH, filter_cons. unfold demand.
  rewrite Hb. destruct (bit_test r.1 b); case_decide; try congruence;
    cbn [length]; cbv iota; [|reflexivity].
  now rewrite Nat2Z.inj_succ, Z.add_1_l.
Qed.

Lemma seated_res_app (l1 l2 : list gs_job) :
  seated_res (l1 ++ l2) ≡ₚ seated_res l1 ++ seated_res l2.
Proof.
  unfold seated_res, row_res. rewrite !list.filter_app, !fmap_app.
  rewrite <- !app_assoc. apply Permutation_app_head.
  rewrite !app_assoc. apply Permutation_app_tail, Permutation_app_comm.
Qed.

Lemma seated_res_one (j : gs_job) :
  row_state j = GS_ACTIVE ∨ row_state j = GS_FILLER → seated_res [j] = [res_of j].
Proof.
  intros [H|H]; unfold seated_res, row_res; rewrite !filter_cons, filter_nil, H;
    repeat case_decide; try congruence; reflexivity.
Qed.

Lemma seated_res_split (l : list gs_job) (i : nat) (j : gs_job) :
  l !! i = Some j → row_state j = GS_ACTIVE ∨ row_state j = GS_FILLER →
  seated_res l ≡ₚ res_of j :: seated_res (take i l) ++ seated_res (drop (S i) l).
Proof.
  intros Hj Hseated. rewrite <- (take_drop_middle l i j Hj) at 1.
  rewrite seated_res_app. change (j :: drop (S i) l) with ([j] ++ drop (S i) l).
  rewrite seated_res_app, (seated_res_one j Hseated).
  now rewrite Permutation_middle.
Qed.

Lemma load_cons (g : gs_state) (r : job_res) (X : list job_res) (b : nat) :
  load g (r :: X) b = demand g r b + load g X b.
Proof. reflexivity. Qed.

Lemma load_bits_nonneg (g : gs_state) (X : list job_res) (b : nat) :
  by_bits g = true → 0 ≤ load g X b.
Proof. intros Hb. rewrite load_by_bits by assumption. lia. Qed.

Lemma demand_by_bits (g : gs_state) (r : job_res) (b : nat) :
  by_bits g = true → bit_test r.1 b = true → demand g r b = 1.
Proof. intros Hb Hbit. unfold demand. now rewrite Hbit, Hb. Qed.

Lemma cover_elem (X : list job_res) (r : job_res) (b : nat) :
  r ∈ X → bit_test r.1 b = true → cover X b = true.
Proof.
  intros Hin Hbit. unfold cover. apply existsb_exists. exists r.
  split; [now apply list_elem_of_In|exact Hbit].
Qed.

Lemma seated_res_elem (l : list gs_job) (j : gs_job) :
  j ∈ l → row_state j = GS_ACTIVE ∨ row_state j = GS_FILLER →
  res_of j ∈ seated_res l.
Proof.
  intros Hin Hseated. unfold seated_res, row_res. apply elem_of_app.
  destruct Hseated as [H|H]; [left|right];
    apply list_elem_of_fmap_2, list_elem_of_filter; now split.
Qed.

Lemma seated_pair_load (g : gs_state) (l : list gs_job) (i1 i2 : nat)
    (j1 j2 : gs_job) (b : nat) :
  by_bits g = true → (i1 < i2)%nat →
  l !! i1 = Some j1 → l !! i2 = Some j2 →
  row_state j1 = GS_ACTIVE ∨ row_state j1 = GS_FILLER →
  row_state j2 = GS_ACTIVE ∨ row_state j2 = GS_FILLER →
  bit_test (resmap j1) b = true → bit_test (resmap j2) b = true →
  2 ≤ load g (seated_res l) b.
Proof.
  intros Hb Hlt H1 H2 Hs1 Hs2 Hb1 Hb2.
  rewrite (load_perm g _ _ b (seated_res_split l i1 j1 H1 Hs1)).
  rewrite load_cons, load_app.
  assert (H2' : drop (S i1) l !! (i2 - S i1)%nat = Some j2).
  { rewrite lookup_drop. rewrite <- H2. f_equal. lia. }
  rewrite (load_perm g _ _ b (seated_res_split _ _ j2 H2' Hs2)).
  rewrite load_cons, load_app.
  rewrite !demand_by_bits by assumption.
  pose proof (load_bits_nonneg g (seated_res (take i1 l)) b Hb).
  pose proof (load_bits_nonneg g
                (seated_res (take (i2 - S i1) (drop (S i1) l))) b Hb).
  pose proof (load_bits_nonneg g
                (seated_res (drop (S (i2 - S i1)) (drop (S i1) l))) b Hb).
  lia.
Qed.

(** X7: at node or socket granularity a rebuild of all rows leaves no
    resource to two jobs of a row. In every partition, two jobs that are
    seated (GS_ACTIVE or GS_FILLER) share no bit of their resmaps, and a
    seated job shares no bit with a job that casts its shadow on the
    partition. *)
Theorem rebuild_all_exclusive (job_suspend : list suspend_msg → suspend_msg → Z)
    (s : gs_state) :
  rebuild_ready s → sorted_array_ok s → gs_part_list s ≠ [] →
  gr_type s = GS_NODE ∨ gr_type s = GS_SOCKET →
  ∃ s1,
    _update_all_active_rows job_suspend s = Ok (tt, s1) ∧
    ∀ q, q ∈ gs_part_list s1 →
      (∀ i1 i2 j1 j2 b,
         i1 ≠ i2 → job_list q !! i1 = Some j1 → job_list q !! i2 = Some j2 →
         row_state j1 = GS_ACTIVE ∨ row_state j1 = GS_FILLER →
         row_state j2 = GS_ACTIVE ∨ row_state j2 = GS_FILLER →
         bit_test (resmap j1) b = true → bit_test (resmap j2) b = false) ∧
      (∀ a js j b,
         a ∈ shadow q → find_job_addr (gs_part_list s1) a = Some js →
         j ∈ job_list q →
         row_state j = GS_ACTIVE ∨ row_state j = GS_FILLER →
         bit_test (resmap js) b = true → bit_test (resmap j) b = false).
Proof.
  intros Hready Hok Hne Hg.
  destruct (_update_all_active_rows_settles job_suspend s Hready Hok Hne)
    as (s1 & Hrun & Hready1 & Hcore & _ & _ & _ & _ & Hall).
  exists s1. split; [exact Hrun|]. intros q Hq.
  destruct (Hall q Hq) as (_ & Hadm & _ & _).
  assert (Hb : by_bits (core s1) = true).
  { rewrite Hcore. unfold by_bits, core. cbn. now destruct Hg as [-> | ->]. }
  assert (Hlim : ∀ b, limit (core s1) b = 1).
  { intros b. unfold limit. now rewrite Hb. }
  split.
  - intros i1 i2 j1 j2 b Hne12 H1 H2 Hs1 Hs2 Hb1.
    destruct (bit_test (resmap j2) b) eqn:Hb2; [exfalso|reflexivity].
    assert (Hcov : cover (seated_res (job_list q)) b = true).
    { apply (cover_elem _ (res_of j1)); [|exact Hb1].
      apply seated_res_elem; [|exact Hs1]. now apply list_elem_of_lookup_2 in H1. }
    specialize (Hadm b Hcov). rewrite Hlim in Hadm.
    rewrite occupancy_by_bits in Hadm by assumption.
    assert (Hload : 2 ≤ load (core s1) (seated_res (job_list q)) b).
    { destruct (decide (i1 < i2)%nat).
      - now apply (seated_pair_load _ _ i1 i2 j1 j2).
      - apply (seated_pair_load _ _ i2 i1 j2 j1); try assumption. lia. }
    destruct (cover _ b) in Hadm; lia.
  - intros a js j b Ha Hjs Hj Hseated Hbs.
    destruct (bit_test (resmap j) b) eqn:Hbj; [exfalso|reflexivity].
    assert (Hcov : cover (seated_res (job_list q)) b = true).
    { apply (cover_elem _ (res_of j)); [|exact Hbj]. now apply seated_res_elem. }
    specialize (Hadm b Hcov). rewrite Hlim in Hadm.
    rewrite occupancy_by_bits in Hadm by assumption.
    assert (HcovS : cover (shadow_res (gs_part_list s1) (shadow q)) b = true).
    { apply (cover_elem _ (res_of js)); [|exact Hbs].
      unfold shadow_res. apply list_elem_of_fmap. exists a.
      split; [now rewrite Hjs|exact Ha]. }
    rewrite HcovS in Hadm.
    apply list_elem_of_lookup_1 in Hj as [i Hi].
    rewrite (load_perm (core s1) _ _ b (seated_res_split _ i j Hi Hseated)) in Hadm.
    rewrite load_cons, load_app, demand_by_bits in Hadm by assumption.
    pose proof (load_bits_nonneg (core s1) (seated_res (take i (job_list q))) b Hb).
    pose proof (load_bits_nonneg (core s1)
                  (seated_res (drop (S i) (job_list q))) b Hb).
    lia.
Qed.

Lemma two_parts_state_ready : rebuild_ready two_parts_state.
Proof.
  split; [split; [apply two_parts_state_well_formed|]|].
  - intros [|[|p]] q a Hq Ha; simpl in Hq; simplify_eq; simpl in Ha.
    + inversion Ha.
    + apply list_elem_of_singleton in Ha as ->. exists 0%nat. eexists.
      split; [reflexivity|]. split; [|simpl; lia]. unfold job_addrs. simpl. now left.
  - split; [intros Hb; discriminate Hb|]. split; [|split; [|reflexivity]].
    + intros q j Hq Hj. simpl in Hq. rewrite !elem_of_cons, elem_of_nil in Hq.
      destruct Hq as [->|[->|[]]]; simpl in Hj;
        rewrite ?elem_of_cons, elem_of_nil in Hj;
        repeat (destruct Hj as [->|Hj]); try contradiction;
        (split; [reflexivity|intros Hb; discriminate Hb]).
    + intros q Hq. simpl in Hq. rewrite !elem_of_cons, elem_of_nil in Hq.
      destruct Hq as [->|[->|[]]];
        (split; [intros m [= <-]; reflexivity | intros arr [=]]).
Qed.

Lemma rebuild_all_exclusive_witness :
  ∃ s1,
    _update_all_active_rows (λ _ _, 0) two_parts_state = Ok (tt, s1) ∧
    ∀ q, q ∈ gs_part_list s1 →
      (∀ i1 i2 j1 j2 b,
         i1 ≠ i2 → job_list q !! i1 = Some j1 → job_list q !! i2 = Some j2 →
         row_state j1 = GS_ACTIVE ∨ row_state j1 = GS_FILLER →
         row_state j2 = GS_ACTIVE ∨ row_state j2 = GS_FILLER →
         bit_test (resmap j1) b = true → bit_test (resmap j2) b = false) ∧
      (∀ a js j b,
         a ∈ shadow q → find_job_addr (gs_part_list s1) a = Some js →
         j ∈ job_list q →
         row_state j = GS_ACTIVE ∨ row_state j = GS_FILLER →
         bit_test (resmap js) b = true → bit_test (resmap j) b = false).
Proof.
  apply (rebuild_all_exclusive (λ _ _, 0) two_parts_state).
  - apply two_parts_state_ready.
  - intros _. reflexivity.
  - discriminate.
  - left. reflexivity.
Defined.

(** *** Where CPUs are counted *)

Lemma seated_res_ok (s : gs_state) (q : gs_part) :
  rebuild_ready s → q ∈ gs_part_list s →
  Forall (res_ok (core s)) (seated_res (job_list q)).
Proof.
  intros (_ & _ & Hjobs & _) Hq. apply Forall_forall. intros r Hr.
  unfold seated_res, row_res in Hr.
  apply elem_of_app in Hr as [Hr|Hr];
    apply list_elem_of_fmap_1 in Hr as (j & -> & Hj);
    apply list_elem_of_filter in Hj as [_ Hj]; now apply (Hjobs q j).
Qed.

(** X8: at core or CPU granularity, in a state where no job holds more
    CPUs at a bit than the bit can hold, a rebuild of all rows leaves no
    resource overcommitted. The state is one the rebuild is made for (the
    invariant of the shadows holds, the capacity table covers the bits,
    the resmaps and the arrays of the jobs and of the active rows have the
    size of the resmaps, and the CPU array of every job stays within the
    capacities), with a partition and with a sorted array that holds every
    partition once. There the rebuild returns, and in every partition
    whose row is not empty the entry of the CPU array of the row at each
    bit is what the shadows hold there plus the CPUs of all seated jobs at
    that bit, and it is within the capacity that [_get_phys_res_cnt] gives
    for the bit. The bound on the jobs is needed: [_add_job_to_active]
    copies the CPUs of the first job of a row as they are and cuts down
    only the sums that follow. *)
Theorem rebuild_all_within_capacity
    (job_suspend : list suspend_msg → suspend_msg → Z) (s : gs_state) :
  rebuild_ready s → sorted_array_ok s → gs_part_list s ≠ [] →
  gr_type s = GS_CORE ∨ gr_type s = GS_CPU →
  ∃ s1,
    _update_all_active_rows job_suspend s = Ok (tt, s1) ∧
    ∀ q, q ∈ gs_part_list s1 → jobs_active q ≠ 0 →
      ∃ arr,
        active_cpus q = Some arr ∧ length arr = gs_resmap_size s ∧
        ∀ i, (i < gs_resmap_size s)%nat →
          ∃ x c,
            arr !! i = Some x ∧ cap s i = Ok c ∧ 0 ≤ x ≤ c ∧
            x = occupancy (core s)
                  (shadow_res (gs_part_list s1) (shadow q)) i +
                load (core s) (seated_res (job_list q)) i.
Proof.
  intros Hready Hok Hne Hg.
  destruct (_update_all_active_rows_settles job_suspend s Hready Hok Hne)
    as (s1 & Hrun & Hready1 & Hcore & _ & _ & _ & _ & Hall).
  exists s1. split; [exact Hrun|]. intros q Hq Hactive.
  destruct (Hall q Hq) as (Hrepr & Hadm & _ & _).
  pose proof (seated_res_ok s1 q Hready1 Hq) as HokX.
  pose proof Hready1 as (_ & Hcap & _).
  rewrite Hcore in *.
  assert (Hb : by_bits (core s) = false).
  { unfold by_bits, core. cbn. now destruct Hg as [-> | ->]. }
  destruct Hrepr as (Hcount & Hsizes & Hrow).
  destruct Hrow as (m & _ & _ & Hcpus).
  { intros Hnil. rewrite Hnil in Hcount. simpl in Hcount. contradiction. }
  destruct (Hcpus Hb) as (arr & Harr & Hentries).
  exists arr. split; [exact Harr|].
  split; [exact (proj2 Hsizes arr Harr)|].
  intros i Hi. destruct (Hcap Hb i Hi) as (c & Hc & Hrange).
  eexists _, c. split; [exact (Hentries i Hi)|]. split; [exact Hc|].
  rewrite (occupancy_admissible (core s) Hcap) by assumption.
  split; [|reflexivity].
  rewrite <- (occupancy_admissible (core s) Hcap) by assumption.
  pose proof (occupancy_range (core s)
                (shadow_res (gs_part_list s1) (shadow q) ++
                 seated_res (job_list q)) i Hcap Hi) as Hocc.
  rewrite (limit_cap (core s) i c Hb Hc) in Hocc. exact Hocc.
Qed.

Lemma rebuild_all_within_capacity_witness :
  ∃ s1,
    _update_all_active_rows (λ _ _, 0) two_parts_cpu_state = Ok (tt, s1) ∧
    ∀ q, q ∈ gs_part_list s1 → jobs_active q ≠ 0 →
      ∃ arr,
        active_cpus q = Some arr ∧
        length arr = gs_resmap_size two_parts_cpu_state ∧
        ∀ i, (i < gs_resmap_size two_parts_cpu_state)%nat →
          ∃ x c,
            arr !! i = Some x ∧ cap two_parts_cpu_state i = Ok c ∧ 0 ≤ x ≤ c ∧
            x = occupancy (core two_parts_cpu_state)
                  (shadow_res (gs_part_list s1) (shadow q)) i +
                load (core two_parts_cpu_state) (seated_res (job_list q)) i.
Proof.
  apply (rebuild_all_within_capacity (λ _ _, 0) two_parts_cpu_state).
  - apply two_parts_cpu_state_ready.
  - intros _. reflexivity.
  - discriminate.
  - right. reflexivity.
Defined.

(** ** The state that [gs_init] leaves *)

Lemma length_phys_expand_nodes (s : gs_state) (nodes : list node_record) :
  length (bit_capacities s nodes)
  = foldr (λ nd acc, (Z.to_nat (node_width s nd) + acc)%nat) 0%nat nodes.
Proof.
  unfold bit_capacities, node_runs_from. rewrite drop_0, firstn_all.
  induction nodes as [|nd nodes IH]; [reflexivity|].
  cbn [fmap list_fmap foldr]. unfold phys_expand in *. cbn [flat_map].
  rewrite length_app, length_replicate. cbn [snd]. now rewrite IH.
Qed.

Lemma bit_capacities_range (s : gs_state) (nodes : list node_record) :
  gr_type s = GS_CPU ∨ gr_type s = GS_CORE →
  Forall (λ c, 0 ≤ c < 65536) (bit_capacities s nodes).
Proof.
  intros Hg. unfold bit_capacities, node_runs_from. rewrite drop_0, firstn_all.
  induction nodes as [|nd nodes IH]; [constructor|].
  cbn [fmap list_fmap]. unfold phys_expand in *. cbn [flat_map].
  apply Forall_app. split; [|exact IH]. apply Forall_replicate. cbn [fst].
  unfold node_res. destruct Hg as [-> | ->]; apply to_uint16_range.
Qed.

(** The resmap has no more bits than the table has capacities for. *)
Lemma _get_resmap_size_covered (nodes : list node_record) (s : gs_state) :
  gr_type s = GS_CPU ∨ gr_type s = GS_CORE →
  ∃ size, _get_resmap_size nodes s = Ok size ∧
          (Z.to_nat size ≤ length (bit_capacities s nodes))%nat.
Proof.
  intros Hg. rewrite length_phys_expand_nodes.
  assert (Hmod : ∀ n : nat, (Z.to_nat (to_uint32 (Z.of_nat n)) ≤ n)%nat).
  { intros n. unfold to_uint32.
    pose proof (Z.mod_le (Z.of_nat n) 4294967296 ltac:(lia) ltac:(lia)).
    pose proof (Z.mod_pos_bound (Z.of_nat n) 4294967296 ltac:(lia)). lia. }
  destruct Hg as [Hg|Hg].
  - exists (to_uint32 (Z.of_nat (length nodes))).
    split; [unfold _get_resmap_size; now rewrite Hg|].
    replace (foldr _ _ nodes) with (length nodes); [apply Hmod|].
    induction nodes as [|nd nodes IH]; [reflexivity|].
    cbn [foldr length]. rewrite <- IH. unfold node_width. now rewrite Hg.
  - exists (to_uint32 (Z.of_nat (socket_offset s nodes (length nodes)))).
    split; [apply _get_resmap_size_sockets; now right|].
    replace (foldr _ _ nodes) with (socket_offset s nodes (length nodes));
      [apply Hmod|].
    unfold socket_offset. rewrite firstn_all.
    induction nodes as [|nd nodes IH]; [reflexivity|].
    cbn [foldr]. rewrite IH. unfold node_width, node_sockets. now rewrite Hg.
Qed.

Lemma for_each_pending (nodes : list node_record)
    (select_g_get_job_cores : Z → nat → nat → Z)
    (job_suspend : list suspend_msg → suspend_msg → Z)
    (l : list job_record) (s : gs_state) :
  Forall (λ r, jr_job_state r = JOB_PENDING) l →
  for_each l (_scan_slurm_job nodes select_g_get_job_cores job_suspend) s
  = Ok (tt, s).
Proof.
  intros Hall. apply for_each_same. intros r Hr.
  rewrite Forall_forall in Hall. unfold _scan_slurm_job.
  now rewrite decide_True by now apply Hall.
Qed.

(** The state after the tables were loaded and the partitions built. *)
Lemma fresh_parts_ready (g : entity_type) (f : Z) (size : nat)
    (cpus_per_res count_reps : list Z) (names : list part_record)
    (sorted : list nat) (next : nat) (msgs : list suspend_msg)
    (errs : list (Z * gs_flags * Z)) :
  cap_ok (mk_gs_state g f size cpus_per_res count_reps [] [] 0 0 [] []) →
  Z.of_nat next < 1073741824 →
  rebuild_ready
    (mk_gs_state g f size cpus_per_res count_reps
       (map (λ r, mk_gs_part (pr_name r) (to_uint16 (pr_priority r)) [] [] 0
                    None None) names)
       sorted 0 next msgs errs).
Proof.
  intros Hcap Hnext.
  assert (Hpart : ∀ (p : nat) q,
            map (λ r, mk_gs_part (pr_name r) (to_uint16 (pr_priority r)) [] [] 0
                        None None) names !! p = Some q →
            job_list q = [] ∧ shadow q = [] ∧ active_resmap q = None ∧
            active_cpus q = None).
  { intros p q Hq. rewrite lookup_map in Hq.
    destruct (names !! p); [|discriminate]. injection Hq as <-. now repeat split. }
  split; [split; [repeat split|]|].
  - intros p q Hq. destruct (Hpart p q Hq) as (Hj & _). unfold job_addrs.
    rewrite Hj. constructor.
  - intros p1 p2 q1 q2 a Hq1 _ Ha. destruct (Hpart p1 q1 Hq1) as (Hj & _).
    unfold job_addrs in Ha. rewrite Hj in Ha. inversion Ha.
  - intros p q a Hq Ha. destruct (Hpart p q Hq) as (Hj & _).
    unfold job_addrs in Ha. rewrite Hj in Ha. inversion Ha.
  - intros p q Hq. destruct (Hpart p q Hq) as (_ & Hs & _). rewrite Hs. constructor.
  - intros p q a Hq Ha. destruct (Hpart p q Hq) as (_ & Hs & _).
    rewrite Hs in Ha. inversion Ha.
  - split; [exact Hcap|]. split; [|split; [|exact Hnext]].
    + intros q j Hq Hj. apply list_elem_of_lookup_1 in Hq as [p Hq].
      destruct (Hpart p q Hq) as (Hjl & _). rewrite Hjl in Hj. inversion Hj.
    + intros q Hq. apply list_elem_of_lookup_1 in Hq as [p Hq].
      destruct (Hpart p q Hq) as (_ & _ & Hm & Hc). split.
      * intros m Hm'. congruence.
      * intros arr Hc'. congruence.
Qed.

Lemma fresh_parts_settled (s : gs_state) (q : gs_part) :
  job_list q = [] → shadow q = [] → jobs_active q = 0 →
  active_resmap q = None → active_cpus q = None → settled s q.
Proof.
  intros Hj Hs Hn Hm Hc. unfold settled, settled_by. rewrite Hj, Hs. cbv zeta.
  split; [|split; [apply admissible_nil|split; intros x Hx; inversion Hx]].
  split; [exact Hn|]. split; [|intros H; now contradict H].
  split; [intros m; rewrite Hm; discriminate|intros arr; rewrite Hc; discriminate].
Qed.

(** The setup reads the granularity and the fast-schedule flag only. *)
Section Globals.
Context (nodes : list node_record) (s s' : gs_state).
Hypothesis Hgr : gr_type s' = gr_type s.
Hypothesis Hfs : gs_fast_schedule s' = gs_fast_schedule s.

Lemma _compute_resources_globals (i : nat) (b : bool) :
  _compute_resources nodes s' i b = _compute_resources nodes s i b.
Proof. unfold _compute_resources. now rewrite Hgr, Hfs. Qed.

Lemma _get_resmap_size_globals : _get_resmap_size nodes s' = _get_resmap_size nodes s.
Proof.
  unfold _get_resmap_size. rewrite Hgr.
  assert (Hloop : ∀ n i count, _get_resmap_size_loop nodes s' n i count
                               = _get_resmap_size_loop nodes s n i count).
  { induction n as [|n IH]; intros i count; [reflexivity|].
    cbn [_get_resmap_size_loop]. rewrite _compute_resources_globals.
    destruct (_compute_resources nodes s i true); [|reflexivity]. apply IH. }
  now rewrite Hloop.
Qed.

Lemma _load_phys_res_cnt_globals :
  _load_phys_res_cnt nodes s' = _load_phys_res_cnt nodes s.
Proof.
  unfold _load_phys_res_cnt. rewrite Hgr.
  assert (Hadder : ∀ i, _load_phys_res_adder nodes s' i = _load_phys_res_adder nodes s i).
  { intros i. unfold _load_phys_res_adder.
    now rewrite Hgr, _compute_resources_globals. }
  assert (Hloop : ∀ n i c r k, _load_phys_res_cnt_loop nodes s' n i c r k
                               = _load_phys_res_cnt_loop nodes s n i c r k).
  { induction n as [|n IH]; intros i c r k; [reflexivity|].
    cbn [_load_phys_res_cnt_loop]. rewrite _compute_resources_globals, Hadder.
    destruct (_compute_resources nodes s i false) as [res|]; [|reflexivity].
    cbn [obind]. destruct (array_get c k) as [cur|]; [|reflexivity].
    cbn [obind]. destruct (cur =? res).
    - destruct (_load_phys_res_adder nodes s i); [|reflexivity]. cbn [obind].
      destruct (array_get r k); [|reflexivity]. cbn [obind].
      destruct (array_set r k _); [|reflexivity]. apply IH.
    - destruct (array_set _ _ res); [|reflexivity]. cbn [obind].
      destruct (_load_phys_res_adder nodes s i); [|reflexivity]. cbn [obind].
      destruct (array_set _ _ _); [|reflexivity]. apply IH. }
  now rewrite Hloop.
Qed.

End Globals.

Lemma init_cap_ok (nodes : list node_record) (g : entity_type) (f : Z)
    (size : Z) (table : list Z * list Z * nat) :
  let G := mk_gs_state g f 0 [] [] [] [] 0 0 [] [] in
  (by_bits G = false →
   Forall (λ nd, node_res G nd ≠ 0) nodes ∧
   Z.of_nat (length (bit_capacities G nodes)) ≤ 2147483647) →
  _get_resmap_size nodes G = Ok size →
  _load_phys_res_cnt nodes G = Ok table →
  cap_ok (mk_gs_state g f (Z.to_nat size) table.1.1 table.1.2 [] [] 0 0 [] []).
Proof.
  intros G Hnodes Hsize Htable Hb.
  assert (HbG : by_bits G = false) by exact Hb.
  assert (Hg : gr_type G = GS_CPU ∨ gr_type G = GS_CORE).
  { unfold by_bits in HbG. destruct (gr_type G); try discriminate; auto. }
  destruct (Hnodes HbG) as [Hres Hmax].
  destruct (_load_phys_res_cnt_covers nodes G Hg Hres Hmax)
    as (cpr & reps & n & Hload & Hcover).
  rewrite Hload in Htable. injection Htable as <-.
  destruct (_get_resmap_size_covered nodes G Hg) as (size' & Hsize' & Hle).
  rewrite Hsize' in Hsize. injection Hsize as <-.
  intros i Hi. cbn [gs_resmap_size] in Hi.
  destruct (lookup_lt_is_Some_2 (bit_capacities G nodes) i ltac:(lia)) as [c Hc].
  exists c. split; [exact (Hcover i c Hc)|].
  pose proof (bit_capacities_range G nodes Hg) as Hrange.
  rewrite Forall_forall in Hrange. apply Hrange.
  now apply list_elem_of_lookup_2 in Hc.
Qed.

Lemma init_tables_run (nodes : list node_record) (g : entity_type) (f : Z) :
  let G := mk_gs_state g f 0 [] [] [] [] 0 0 [] [] in
  ∃ size table,
    _get_resmap_size nodes G = Ok size ∧ _load_phys_res_cnt nodes G = Ok table.
Proof.
  intros G. destruct g eqn:Hg.
  - eexists _, _. split; reflexivity.
  - eexists _, _. split; [apply _get_resmap_size_sockets; now left|reflexivity].
  - destruct (_load_phys_res_cnt_table nodes G (or_intror eq_refl))
      as (runs & z & _ & Hload).
    eexists _, _. split; [apply _get_resmap_size_sockets; now right|exact Hload].
  - destruct (_load_phys_res_cnt_table nodes G (or_introl eq_refl))
      as (runs & z & _ & Hload).
    eexists _, _. split; [reflexivity|exact Hload].
Qed.

(** X9: [gs_init] with at least one partition and no job that runs yet
    returns, whatever state it starts from, and leaves a state the rebuild
    is made for in which every partition is settled: where CPUs are
    counted the capacity table answers for every bit of a resmap, when
    every node has resources. *)
Theorem gs_init_ready (nodes : list node_record)
    (select_g_get_job_cores : Z → nat → nat → Z)
    (job_suspend : list suspend_msg → suspend_msg → Z)
    (select_type_param : select_type_plugin_info) (fast_schedule : Z)
    (part_list : list part_record) (slurm_job_list : option (list job_record))
    (s0 : gs_state) :
  (by_bits (init_globals select_type_param fast_schedule) = false →
   Forall (λ nd, node_res (init_globals select_type_param fast_schedule) nd ≠ 0)
     nodes ∧
   Z.of_nat (length (bit_capacities
                       (init_globals select_type_param fast_schedule) nodes))
   ≤ 2147483647) →
  part_list ≠ [] →
  (∀ l, slurm_job_list = Some l → Forall (λ r, jr_job_state r = JOB_PENDING) l) →
  Z.of_nat (next_job_addr s0) < 1073741824 →
  ∃ s',
    gs_init nodes select_g_get_job_cores job_suspend select_type_param
      fast_schedule part_list slurm_job_list s0 = Ok (tt, s') ∧
    rebuild_ready s' ∧ sorted_array_ok s' ∧
    (∀ q, q ∈ gs_part_list s' → settled s' q) ∧
    gr_type s' = _get_gr_type select_type_param ∧
    length (gs_part_list s') = length part_list.
Proof.
  intros Hnodes Hparts Hjobs Hnext.
  set (g := _get_gr_type select_type_param). set (f := to_uint16 fast_schedule).
  destruct (init_tables_run nodes g f) as (size & table & Hsize & Htable).
  pose proof (init_cap_ok nodes g f size table Hnodes Hsize Htable) as Hcap.
  set (s4 := mk_gs_state g f (Z.to_nat size) table.1.1 table.1.2
               (map (λ r, mk_gs_part (pr_name r) (to_uint16 (pr_priority r)) [] [] 0
                            None None) part_list)
               (gs_part_sorted s0) 0 (next_job_addr s0) (signals_sent s0)
               (errors_logged s0)).
  assert (Hready : rebuild_ready s4) by now apply fresh_parts_ready.
  assert (Hlen : length (gs_part_list s4) = length part_list)
    by apply length_map.
  assert (Hne : gs_part_list s4 ≠ []).
  { intros Hnil. rewrite Hnil in Hlen. destruct part_list; [contradiction|discriminate]. }
  assert (Hok : sorted_array_ok s4).
  { intros H0. cbn in H0. rewrite length_map in H0.
    destruct part_list; [contradiction|discriminate]. }
  assert (Hrun :
            gs_init nodes select_g_get_job_cores job_suspend select_type_param
              fast_schedule part_list slurm_job_list s0
            = _scan_slurm_job_list nodes select_g_get_job_cores job_suspend
                slurm_job_list s4).
  { unfold gs_init, bind, modify, get_state, lift, _build_parts.
    match goal with
    | |- context [_get_resmap_size nodes ?x] =>
        rewrite (_get_resmap_size_globals nodes
                   (mk_gs_state g f 0 [] [] [] [] 0 0 [] []) x eq_refl eq_refl)
    end.
    rewrite Hsize. cbn [gr_type gs_fast_schedule gs_resmap_size gs_cpus_per_res
                        gs_cpu_count_reps gs_part_list gs_part_sorted
                        num_sorted_part next_job_addr signals_sent errors_logged].
    match goal with
    | |- context [_load_phys_res_cnt nodes ?x] =>
        rewrite (_load_phys_res_cnt_globals nodes
                   (mk_gs_state g f 0 [] [] [] [] 0 0 [] []) x eq_refl eq_refl)
    end.
    rewrite Htable. reflexivity. }
  rewrite Hrun. clear Hrun.
  destruct slurm_job_list as [l|].
  - destruct (_update_all_active_rows_settles job_suspend s4 Hready Hok Hne)
      as (s' & Hall & Hready' & Hcore & Hlen' & Hnum & Hperm & _ & Hsettled).
    exists s'. split.
    { unfold _scan_slurm_job_list, bind.
      rewrite for_each_pending by now apply Hjobs. exact Hall. }
    split; [exact Hready'|]. split; [intros _; exact Hperm|].
    split; [exact Hsettled|]. split; [|congruence].
    change (gr_type s') with (gr_type (core s')). now rewrite Hcore.
  - exists s4. split; [reflexivity|]. split; [exact Hready|].
    split; [exact Hok|]. split; [|split; [reflexivity|exact Hlen]].
    intros q Hq. cbn in Hq. apply list_elem_of_fmap in Hq as (r & -> & _).
    now apply fresh_parts_settled.
Qed.

Lemma gs_init_ready_witness :
  ∃ s',
    gs_init three_nodes first_socket_cores (λ _ _, 0) CR_CORE 0
      [mk_part_record "high" 100; mk_part_record "low" 10]
      (Some [mk_job_record 7 "high" JOB_PENDING [true; false; true]])
      (blank_state GS_NODE) = Ok (tt, s') ∧
    rebuild_ready s' ∧ sorted_array_ok s' ∧
    (∀ q, q ∈ gs_part_list s' → settled s' q) ∧
    gr_type s' = _get_gr_type CR_CORE ∧
    length (gs_part_list s')
    = length [mk_part_record "high" 100; mk_part_record "low" 10].
Proof.
  apply (gs_init_ready three_nodes first_socket_cores (λ _ _, 0) CR_CORE 0
           [mk_part_record "high" 100; mk_part_record "low" 10]
           (Some [mk_job_record 7 "high" JOB_PENDING [true; false; true]])
           (blank_state GS_NODE)).
  - intros _. split; [|vm_compute; discriminate].
    repeat constructor; vm_compute; discriminate.
  - discriminate.
  - intros l [= <-]. repeat constructor.
  - reflexivity.
Defined.

(** ** The jobs that [_add_job_to_part] builds *)

Section Built.
Context (select_g_get_job_cores : Z → nat → nat → Z).
Context (s : gs_state) (nodemap : bitstr) (id : Z).
Hypothesis Hcounted : gr_type s = GS_CORE ∨ gr_type s = GS_CPU.

Lemma node_width_sockets (nd : node_record) : node_width s nd = node_sockets s nd.
Proof. unfold node_width, node_sockets. now destruct Hcounted as [-> | ->]. Qed.

(** The cores of a job are within the capacities of the bits, when the
    allocation plugin reports no more cores on a socket than it has. *)
Lemma job_cores_within (nodes : list node_record) :
  ∀ i0,
    (∀ i nd j, nodes !! i = Some nd → bit_test nodemap (i0 + i) = true →
               (j < Z.to_nat (node_sockets s nd))%nat →
               to_uint16 (select_g_get_job_cores id (alignment nodemap (i0 + i)) j)
               ≤ node_res s nd) →
    Forall2 (λ c limit, 0 ≤ c ≤ limit)
      (job_cores_from select_g_get_job_cores s nodemap id i0 nodes)
      (phys_expand ((λ nd, (node_res s nd, node_width s nd)) <$> nodes)).
Proof.
  induction nodes as [|nd nodes IH]; intros i0 Hle; [constructor|].
  cbn [job_cores_from fmap list_fmap]. unfold phys_expand in *. cbn [flat_map].
  apply Forall2_app.
  - cbn [fst snd]. rewrite node_width_sockets. unfold job_cores_of_node.
    assert (Hres : 0 ≤ node_res s nd).
    { unfold node_res. destruct (gr_type s); try lia; apply to_uint16_range. }
    destruct (bit_test nodemap i0) eqn:Hbit.
    + apply Forall2_lookup. intros j. rewrite list_lookup_fmap.
      destruct (decide (j < Z.to_nat (node_sockets s nd))%nat) as [Hj|Hj].
      * rewrite lookup_seq_lt, lookup_replicate_2 by assumption. cbn.
        constructor. split; [apply to_uint16_range|].
        specialize (Hle 0%nat nd j eq_refl). rewrite Nat.add_0_r in Hle.
        now apply Hle.
      * rewrite lookup_seq_ge by lia.
        rewrite (lookup_ge_None_2 (replicate _ _)) by (rewrite length_replicate; lia).
        constructor.
    + apply Forall2_lookup. intros j.
      destruct (decide (j < Z.to_nat (node_sockets s nd))%nat) as [Hj|Hj].
      * rewrite !lookup_replicate_2 by assumption. constructor. lia.
      * rewrite !(lookup_ge_None_2 (replicate _ _))
          by (rewrite length_replicate; lia).
        constructor.
  - apply (IH (S i0)). intros i nd' j Hnd Hbit Hj.
    replace (S i0 + i)%nat with (i0 + S i)%nat in * by lia.
    now apply (Hle (S i) nd' j).
Qed.

End Built.

Lemma socket_offset_nodes (s : gs_state) (nodes : list node_record) :
  gr_type s = GS_CPU → socket_offset s nodes (length nodes) = length nodes.
Proof.
  intros Hg. unfold socket_offset. rewrite firstn_all.
  induction nodes as [|nd nodes IH]; [reflexivity|].
  cbn [foldr length]. rewrite IH. unfold node_sockets. now rewrite Hg.
Qed.

(** Where CPUs are counted. *)
Lemma built_counted_res_ok (nodes : list node_record)
    (select_g_get_job_cores : Z → nat → nat → Z) (s : gs_state)
    (nodemap : bitstr) (id : Z) (num_groups : nat) :
  gr_type s = GS_CORE ∨ gr_type s = GS_CPU →
  bit_size nodemap = length nodes →
  _get_resmap_size nodes s = Ok (Z.of_nat (gs_resmap_size s)) →
  _load_phys_res_cnt nodes s
  = Ok (gs_cpus_per_res s, gs_cpu_count_reps s, num_groups) →
  Forall (λ nd, node_res s nd ≠ 0) nodes →
  Z.of_nat (length (bit_capacities s nodes)) ≤ 2147483647 →
  (∀ i nd j, nodes !! i = Some nd → bit_test nodemap i = true →
             (j < Z.to_nat (node_sockets s nd))%nat →
             to_uint16 (select_g_get_job_cores id (alignment nodemap i) j)
             ≤ node_res s nd) →
  (gr_type s = GS_CPU →
   ∀ i, bit_test nodemap i = true →
        to_uint16 (select_g_get_job_cores id (alignment nodemap i) 0%nat) > 0) →
  ∃ jmap arr,
    _get_resmap nodes select_g_get_job_cores s nodemap id = Ok jmap ∧
    _load_alloc_cpus nodes select_g_get_job_cores s jmap nodemap id = Ok arr ∧
    res_ok s (jmap, Some arr).
Proof.
  intros Hg Hsize Hres Htable Hnodes Hmax Hle Hpos.
  set (cs := job_cores_from select_g_get_job_cores s nodemap id 0 nodes).
  assert (Hg' : gr_type s = GS_CPU ∨ gr_type s = GS_CORE) by tauto.
  (* the capacities *)
  assert (Hcaps : bit_capacities s nodes
                  = phys_expand ((λ nd, (node_res s nd, node_width s nd)) <$> nodes)).
  { unfold bit_capacities, node_runs_from. now rewrite drop_0, firstn_all. }
  pose proof (job_cores_within select_g_get_job_cores s nodemap id Hg nodes 0 Hle)
    as Hwithin.
  fold cs in Hwithin. rewrite <- Hcaps in Hwithin.
  pose proof (Forall2_length _ _ _ Hwithin) as Hlen.
  assert (Hcs : length cs = socket_offset s nodes (length nodes))
    by apply length_job_cores_from.
  destruct (_load_phys_res_cnt_covers nodes s Hg' Hnodes Hmax)
    as (cpr & reps & n & Hload & Hcover).
  rewrite Hload in Htable. injection Htable as -> -> _.
  (* the size of the resmaps *)
  assert (Hrs : gs_resmap_size s = length cs).
  { destruct Hg as [Hcore|Hcpu].
    - rewrite Hcs. apply resmap_size_no_wrap; [now right|exact Hres|lia].
    - unfold _get_resmap_size in Hres. rewrite Hcpu in Hres.
      injection Hres as Hres. unfold to_uint32 in Hres.
      rewrite Hcs, socket_offset_nodes in * by assumption.
      rewrite Z.mod_small in Hres by lia. lia. }
  (* the resmap of the job *)
  assert (Hmap : _get_resmap nodes select_g_get_job_cores s nodemap id
                 = Ok ((λ c, c >? 0) <$> cs)).
  { destruct Hg as [Hcore|Hcpu].
    - apply _get_resmap_job_cores; [now right|exact Hsize|congruence].
    - unfold _get_resmap, node_record_count.
      rewrite decide_False by (intros H; apply H; exact Hsize).
      rewrite Hcpu. unfold bit_copy. f_equal.
      pose proof (job_cores_cpu_map select_g_get_job_cores s nodemap id Hcpu nodes
                    (Hpos Hcpu) 0%nat) as Hm.
      unfold bit_size in Hsize. rewrite drop_0, <- Hsize, firstn_all in Hm.
      symmetry. apply Hm. lia. }
  exists ((λ c, c >? 0) <$> cs), (filter (λ c, (c >? 0) = true) cs).
  split; [exact Hmap|]. split.
  { rewrite _load_alloc_cpus_job_cores; fold cs.
    - now rewrite bit_set_count_positive, Nat.sub_diag, app_nil_r.
    - assumption.
    - now rewrite bit_set_count_positive. }
  split; [cbn [fst]; now rewrite length_fmap|].
  intros Hb. eexists. split; [reflexivity|]. cbn [fst snd].
  intros b Hbit. rewrite positive_alignment by assumption.
  pose proof (bit_test_lt _ _ Hbit) as Hlt. rewrite length_fmap in Hlt.
  destruct (lookup_lt_is_Some_2 cs b Hlt) as [c Hc].
  destruct (Forall2_lookup_l _ _ _ _ _ Hwithin Hc) as (limit & Hlimit & Hrange).
  exists c. split; [exact Hc|].
  rewrite (limit_cap s b limit Hb (Hcover b limit Hlimit)). exact Hrange.
Qed.

(** X10: with the resmap size and, where CPUs are counted, the capacity
    table that [gs_init] loads, the resmap and the CPU array that
    [_add_job_to_part] stores for a new job make a job the scheduler can
    handle: a resmap of the size of the resmaps and, where CPUs are
    counted, at each of its bits a CPU count within the capacity of the
    bit. This needs a node bitmap of one bit per node and, where CPUs are
    counted, nodes with resources and an allocation plugin that reports no
    more cores on a socket, or CPUs on a node, than the node table has
    there and that, at CPU granularity, reports CPUs on every node of the
    job. *)
Theorem built_job_res_ok (nodes : list node_record)
    (select_g_get_job_cores : Z → nat → nat → Z) (s : gs_state)
    (nodemap : bitstr) (id : Z) :
  bit_size nodemap = length nodes →
  _get_resmap_size nodes s = Ok (Z.of_nat (gs_resmap_size s)) →
  Z.of_nat (socket_offset s nodes (length nodes)) < 4294967296 →
  (by_bits s = false →
   (∃ num_groups,
      _load_phys_res_cnt nodes s
      = Ok (gs_cpus_per_res s, gs_cpu_count_reps s, num_groups)) ∧
   Forall (λ nd, node_res s nd ≠ 0) nodes ∧
   Z.of_nat (length (bit_capacities s nodes)) ≤ 2147483647 ∧
   (∀ i nd j, nodes !! i = Some nd → bit_test nodemap i = true →
              (j < Z.to_nat (node_sockets s nd))%nat →
              to_uint16 (select_g_get_job_cores id (alignment nodemap i) j)
              ≤ node_res s nd) ∧
   (gr_type s = GS_CPU →
    ∀ i, bit_test nodemap i = true →
         to_uint16 (select_g_get_job_cores id (alignment nodemap i) 0%nat) > 0)) →
  ∃ r, built_job nodes select_g_get_job_cores s nodemap id = Ok r ∧ res_ok s r.
Proof.
  intros Hsize Hres Hwrap Hcounted. unfold built_job.
  destruct (gr_type s) eqn:Hg.
  - (* GS_NODE *)
    unfold _get_resmap, node_record_count.
    rewrite decide_False by (intros H; apply H; exact Hsize). rewrite Hg.
    eexists. split; [reflexivity|]. split.
    + cbn [fst]. unfold bit_copy. unfold _get_resmap_size in Hres.
      rewrite Hg in Hres. injection Hres as Hres. unfold to_uint32 in Hres.
      assert (Hn : socket_offset s nodes (length nodes) = length nodes).
      { unfold socket_offset. rewrite firstn_all. clear -Hg.
        induction nodes as [|nd nodes IH]; [reflexivity|].
        cbn [foldr length]. rewrite IH. unfold node_sockets. now rewrite Hg. }
      rewrite Hn in Hwrap. rewrite Z.mod_small in Hres by lia.
      unfold bit_size in Hsize. lia.
    + unfold by_bits. rewrite Hg. discriminate.
  - (* GS_SOCKET *)
    rewrite (_get_resmap_job_cores nodes select_g_get_job_cores s nodemap id);
      [|now left|exact Hsize|apply resmap_size_no_wrap; auto].
    eexists. split; [reflexivity|]. split.
    + cbn [fst]. rewrite length_fmap, length_job_cores_from.
      symmetry. apply resmap_size_no_wrap; auto.
    + unfold by_bits. rewrite Hg. discriminate.
  - (* GS_CORE *)
    destruct Hcounted as ((n & Htable) & Hnodes & Hmax & Hle & Hpos).
    { unfold by_bits. now rewrite Hg. }
    assert (Hpos' : gr_type s = GS_CPU →
              ∀ i, bit_test nodemap i = true →
                   to_uint16 (select_g_get_job_cores id (alignment nodemap i) 0%nat) > 0)
      by (intros H; apply Hpos; congruence).
    destruct (built_counted_res_ok nodes select_g_get_job_cores s nodemap id n
                (or_introl Hg) Hsize Hres Htable Hnodes Hmax Hle Hpos')
      as (jmap & arr & Hmap & Harr & Hok).
    rewrite Hmap. cbn [obind]. rewrite Harr. cbn [obind].
    now exists (jmap, Some arr).
  - (* GS_CPU *)
    destruct Hcounted as ((n & Htable) & Hnodes & Hmax & Hle & Hpos).
    { unfold by_bits. now rewrite Hg. }
    assert (Hpos' : gr_type s = GS_CPU →
              ∀ i, bit_test nodemap i = true →
                   to_uint16 (select_g_get_job_cores id (alignment nodemap i) 0%nat) > 0)
      by (intros H; apply Hpos; congruence).
    destruct (built_counted_res_ok nodes select_g_get_job_cores s nodemap id n
                (or_intror Hg) Hsize Hres Htable Hnodes Hmax Hle Hpos')
      as (jmap & arr & Hmap & Harr & Hok).
    rewrite Hmap. cbn [obind]. rewrite Harr. cbn [obind].
    now exists (jmap, Some arr).
Qed.

Lemma built_job_res_ok_witness :
  ∃ r, built_job three_nodes first_socket_cores three_nodes_state
         [true; false; true] 7 = Ok r ∧
       res_ok three_nodes_state r.
Proof.
  apply (built_job_res_ok three_nodes first_socket_cores three_nodes_state
           [true; false; true] 7).
  - reflexivity.
  - reflexivity.
  - vm_compute. reflexivity.
  - intros _. split; [exists 2%nat; reflexivity|].
    split; [repeat constructor; vm_compute; discriminate|].
    split; [vm_compute; discriminate|]. split.
    + intros [|[|[|i]]] nd [|[|j]] Hnd Hbit Hj; simpl in Hnd; simplify_eq;
        try discriminate Hbit; try (vm_compute in Hj; lia);
        vm_compute; discriminate.
    + intros Hcpu. discriminate Hcpu.
Defined.

(** ** Finding a partition and a job *)

Lemma _find_gs_part_from_first (l : list gs_part) (name : string) :
  ∀ i0,
    match _find_gs_part_from l name i0 with
    | Some r =>
        ∃ k p, r = (i0 + k)%nat ∧ l !! k = Some p ∧ part_name p = name ∧
               ∀ k' q, (k' < k)%nat → l !! k' = Some q → part_name q ≠ name
    | None => ∀ q, q ∈ l → part_name q ≠ name
    end.
Proof.
  induction l as [|p l IH]; intros i0; cbn [_find_gs_part_from].
  - intros q Hq. inversion Hq.
  - destruct (String.eqb_spec name (part_name p)) as [Heq|Hne].
    + exists 0%nat, p. split; [lia|]. split; [reflexivity|]. split; [now symmetry|].
      intros k' q Hk'. lia.
    + specialize (IH (S i0)).
      destruct (_find_gs_part_from l name (S i0)) as [r|].
      * destruct IH as (k & p' & -> & Hp' & Hname & Hfirst).
        exists (S k), p'. split; [lia|]. split; [exact Hp'|]. split; [exact Hname|].
        intros [|k'] q Hk' Hq.
        -- intros Hn. apply Hne. cbn in Hq. congruence.
        -- apply (Hfirst k' q); [lia|exact Hq].
      * intros q Hq. inversion Hq; subst; [congruence|now apply IH].
Qed.

(** X11: [_find_gs_part] leaves the state as it is and returns the first
    partition of the list that has the given name, so that of two
    partitions of one name the second is never found; it returns NULL
    exactly when no partition has the name. *)
Theorem find_gs_part_first_match (name : string) (s : gs_state) :
  ∃ r, _find_gs_part name s = Ok (r, s) ∧
       match r with
       | Some i =>
           ∃ p, gs_part_list s !! i = Some p ∧ part_name p = name ∧
                ∀ k q, (k < i)%nat → gs_part_list s !! k = Some q →
                       part_name q ≠ name
       | None => ∀ q, q ∈ gs_part_list s → part_name q ≠ name
       end.
Proof.
  exists (_find_gs_part_from (gs_part_list s) name 0). split; [reflexivity|].
  pose proof (_find_gs_part_from_first (gs_part_list s) name 0) as H.
  destruct (_find_gs_part_from (gs_part_list s) name 0) as [r|]; [|exact H].
  destruct H as (k & p & -> & Hp & Hname & Hfirst). now exists p.
Qed.

Lemma _find_job_index_from_first (l : list gs_job) (id : Z) :
  ∀ i0 r,
    _find_job_index_from l id i0 = Some r →
    ∃ k j, r = (i0 + k)%nat ∧ l !! k = Some j ∧ job_id j = id ∧
           ∀ k' j', (k' < k)%nat → l !! k' = Some j' → job_id j' ≠ id.
Proof.
  induction l as [|j l IH]; intros i0 r H; cbn [_find_job_index_from] in H;
    [discriminate|].
  destruct (Z.eqb_spec (job_id j) id) as [Heq|Hne].
  - injection H as <-. exists 0%nat, j. split; [lia|]. split; [reflexivity|].
    split; [exact Heq|]. intros k' j' Hk'. lia.
  - apply IH in H as (k & j0 & -> & Hj0 & Hid & Hfirst).
    exists (S k), j0. split; [lia|]. split; [exact Hj0|]. split; [exact Hid|].
    intros [|k'] j' Hk' Hj'.
    + cbn in Hj'. congruence.
    + apply (Hfirst k' j'); [lia|exact Hj'].
Qed.

(** X12: [_find_job_index] returns the index of the first job of the
    list that has the given id, and -1 (here [None]) exactly when no job of
    the list has it. *)
Theorem find_job_index_first_match (p : gs_part) (id : Z) :
  match _find_job_index p id with
  | Some i =>
      ∃ j, job_list p !! i = Some j ∧ job_id j = id ∧
           ∀ k j', (k < i)%nat → job_list p !! k = Some j' → job_id j' ≠ id
  | None => ∀ j, j ∈ job_list p → job_id j ≠ id
  end.
Proof.
  unfold _find_job_index.
  destruct (_find_job_index_from (job_list p) id 0) as [r|] eqn:H.
  - apply _find_job_index_from_first in H as (k & j & -> & Hj & Hid & Hfirst).
    now exists j.
  - exact (proj1 (_find_job_index_from_None (job_list p) id 0) H).
Qed.

(** ** The loop that re-prioritizes the job list *)

Lemma unseat_active (j : gs_job) :
  row_state j = GS_ACTIVE → unseat j = set_row_state GS_NO_ACTIVE j.
Proof. intros H. unfold unseat. rewrite decide_True by now left. reflexivity. Qed.

Lemma unseat_no_active (j : gs_job) : row_state j = GS_NO_ACTIVE → unseat j = j.
Proof.
  intros H. unfold unseat. rewrite decide_False; [reflexivity|].
  rewrite H. intros [?|?]; discriminate.
Qed.

(** The inner loop moves the GS_ACTIVE jobs that stand at [i] behind the
    jobs after them. *)
Lemma _cycle_move_back_moves (done : list gs_job) (acts : list gs_job) :
  ∀ (fuel : nat) (rest : list gs_job),
    (length acts ≤ fuel)%nat →
    Forall (λ j, row_state j = GS_ACTIVE) acts →
    acts ++ rest ≠ [] →
    (∀ r, head rest = Some r → row_state r ≠ GS_ACTIVE) →
    _cycle_move_back fuel (length done) (done ++ acts ++ rest)
    = Ok (done ++ rest ++ (unseat <$> acts)).
Proof.
  induction acts as [|a acts IH]; intros fuel rest Hfuel Hacts Hne Hhead.
  - cbn [app fmap list_fmap] in *. rewrite app_nil_r.
    destruct rest as [|r rest]; [contradiction|].
    assert (Hr : row_state r ≠ GS_ACTIVE) by now apply Hhead.
    destruct fuel; cbn [_cycle_move_back];
      rewrite array_get_middle by reflexivity; cbn [obind];
      now rewrite decide_False.
  - apply Forall_cons in Hacts as [Ha Hacts].
    destruct fuel as [|fuel]; [cbn in Hfuel; lia|].
    cbn [_cycle_move_back]. change ((a :: acts) ++ rest) with (a :: (acts ++ rest)).
    rewrite array_get_middle by reflexivity. cbn [obind].
    rewrite decide_True by assumption.
    replace (delete (length done) (done ++ a :: (acts ++ rest)))
      with (done ++ acts ++ rest).
    2:{ rewrite delete_take_drop, take_app_length. f_equal.
        rewrite (cons_middle a done), app_assoc.
        rewrite drop_app_length'; [reflexivity|].
        rewrite length_app. cbn [length]. lia. }
    rewrite <- !app_assoc.
    rewrite (IH fuel (rest ++ [set_row_state GS_NO_ACTIVE a])).
    + rewrite <- app_assoc. cbn [fmap list_fmap app]. now rewrite unseat_active.
    + cbn in Hfuel. lia.
    + exact Hacts.
    + intros H. apply app_eq_nil in H as [_ H].
      now apply app_eq_nil in H as [_ H].
    + intros r Hr. destruct rest as [|r0 rest]; cbn in Hr; injection Hr as <-.
      * discriminate.
      * now apply Hhead.
Qed.

Lemma active_prefix (todo : list gs_job) :
  ∃ acts rest,
    todo = acts ++ rest ∧ Forall (λ j, row_state j = GS_ACTIVE) acts ∧
    ∀ r, head rest = Some r → row_state r ≠ GS_ACTIVE.
Proof.
  induction todo as [|j todo (acts & rest & -> & Hacts & Hhead)].
  - exists [], []. split; [reflexivity|]. split; [constructor|]. intros r [=].
  - destruct (decide (row_state j = GS_ACTIVE)) as [Hj|Hj].
    + exists (j :: acts), rest. split; [reflexivity|]. split; [now constructor|].
      exact Hhead.
    + exists [], (j :: acts ++ rest). split; [reflexivity|].
      split; [constructor|]. intros r [= <-]. exact Hj.
Qed.

Lemma filter_all_active (acts : list gs_job) :
  Forall (λ j, row_state j = GS_ACTIVE) acts →
  filter (λ j, row_state j = GS_ACTIVE) acts = acts ∧
  filter (λ j, row_state j ≠ GS_ACTIVE) acts = [].
Proof.
  induction 1 as [|j acts Hj _ [IH1 IH2]]; [split; reflexivity|].
  rewrite !filter_cons, IH1, IH2, decide_True by assumption.
  rewrite decide_False by tauto. now split.
Qed.

Lemma unseat_not_active (j : gs_job) :
  row_state j ≠ GS_ACTIVE →
  (if decide (row_state j = GS_FILLER) then set_row_state GS_NO_ACTIVE j else j)
  = unseat j.
Proof.
  intros Hj. unfold unseat. destruct (decide (row_state j = GS_FILLER)) as [Hf|Hf].
  - rewrite decide_True by now right. reflexivity.
  - rewrite decide_False by tauto. reflexivity.
Qed.

Lemma row_state_unseat_active (acts : list gs_job) :
  Forall (λ j, row_state j = GS_ACTIVE) acts →
  Forall (λ j, row_state j = GS_NO_ACTIVE) (unseat <$> acts).
Proof.
  intros H. apply Forall_fmap. eapply Forall_impl; [exact H|].
  intros j Hj. cbn. now rewrite unseat_active.
Qed.

Lemma reorder_step_list (done X : list gs_job) (r : gs_job) :
  row_state r ≠ GS_ACTIVE →
  (if decide (row_state r = GS_FILLER)
   then <[length done:=set_row_state GS_NO_ACTIVE r]> (done ++ r :: X)
   else done ++ r :: X)
  = (done ++ [unseat r]) ++ X.
Proof.
  intros Hr. rewrite <- app_assoc. cbn [app]. unfold unseat.
  destruct (decide (row_state r = GS_FILLER)) as [Hf|Hf].
  - rewrite decide_True by now right.
    rewrite insert_app_r_alt by lia. now rewrite Nat.sub_diag.
  - rewrite decide_False by tauto. reflexivity.
Qed.

(** The loop over the job list, with the jobs [done] behind it, the jobs
    [todo] before it and the jobs [moved] at the back. *)
Lemma _cycle_reorder_loop_rotates (n : nat) :
  ∀ (done todo moved : list gs_job),
    n = (length todo + length moved)%nat →
    Forall (λ j, row_state j = GS_NO_ACTIVE) moved →
    _cycle_reorder_loop n (length done) (done ++ todo ++ moved)
    = Ok (done ++ (unseat <$> filter (λ j, row_state j ≠ GS_ACTIVE) todo) ++
          moved ++ (unseat <$> filter (λ j, row_state j = GS_ACTIVE) todo)).
Proof.
  induction n as [|n IH]; intros done todo moved Hn Hmoved.
  { destruct todo; [|discriminate]. destruct moved; [|discriminate]. reflexivity. }
  destruct (active_prefix todo) as (acts & rest & -> & Hacts & Hhead).
  destruct (filter_all_active acts Hacts) as [Hfa Hfn].
  rewrite !list.filter_app, Hfa, Hfn. cbn [app].
  pose proof (row_state_unseat_active acts Hacts) as Hunseated.
  assert (Hnext : ∀ r, head (rest ++ moved) = Some r → row_state r ≠ GS_ACTIVE).
  { intros r Hr. destruct rest as [|r0 rest].
    - destruct moved as [|m moved]; [discriminate|]. cbn in Hr. injection Hr as <-.
      apply Forall_cons in Hmoved as [Hm _]. rewrite Hm. discriminate.
    - apply Hhead. exact Hr. }
  cbn [_cycle_reorder_loop]. rewrite <- !app_assoc.
  rewrite (_cycle_move_back_moves done acts _ (rest ++ moved)); try assumption.
  2:{ rewrite !length_app. lia. }
  2:{ intros H. apply app_eq_nil in H as [-> H].
      apply app_eq_nil in H as [-> ->]. cbn in Hn. lia. }
  cbn [obind]. rewrite <- !app_assoc.
  (* the job that stands at [i] now *)
  assert (∃ x X, rest ++ moved ++ (unseat <$> acts) = x :: X ∧
                 row_state x ≠ GS_ACTIVE) as (x & X & HX & Hx).
  { destruct (rest ++ moved ++ (unseat <$> acts)) as [|x X] eqn:HX.
    - apply app_eq_nil in HX as [-> HX]. apply app_eq_nil in HX as [-> HX].
      apply fmap_nil_inv in HX as ->. cbn in Hn. lia.
    - exists x, X. split; [reflexivity|].
      destruct rest as [|r rest]; [destruct moved as [|m moved]|].
      + destruct acts as [|a acts]; [discriminate|]. cbn in HX.
        injection HX as <- _. apply Forall_cons in Hunseated as [Ha _].
        cbn in Ha. rewrite unseat_active in Ha |- * by now inversion Hacts.
        rewrite Ha. discriminate.
      + cbn in HX. injection HX as <- _. now apply Hnext.
      + cbn in HX. injection HX as <- _. now apply Hnext. }
  rewrite HX, array_get_middle by reflexivity. cbn [obind].
  rewrite reorder_step_list by assumption.
  replace (S (length done)) with (length (done ++ [unseat x]))
    by (rewrite length_app; cbn; lia).
  destruct rest as [|r rest].
  - (* nothing is left to do but to pass the jobs at the back *)
    cbn [app] in HX. rewrite !filter_nil, app_nil_r. cbn [fmap list_fmap app].
    assert (Hall : Forall (λ j, row_state j = GS_NO_ACTIVE) (x :: X)).
    { rewrite <- HX. apply Forall_app. now split. }
    apply Forall_cons in Hall as [Hx0 HX0].
    rewrite <- (app_nil_l X).
    rewrite (IH (done ++ [unseat x]) [] X); [| |exact HX0].
    + rewrite filter_nil. cbn [fmap list_fmap app]. rewrite app_nil_r.
      rewrite <- app_assoc. cbn [app]. rewrite unseat_no_active by assumption.
      now rewrite <- HX.
    + apply (f_equal length) in HX. rewrite length_app, length_fmap in HX.
      rewrite app_nil_r in Hn. cbn [length] in HX |- *. lia.
  - cbn [app] in HX. injection HX as Hrx HXe. subst x X.
    rewrite (IH (done ++ [unseat r]) rest (moved ++ (unseat <$> acts))).
    + rewrite !filter_cons, decide_True, decide_False by tauto.
      cbn [fmap list_fmap app]. now rewrite fmap_app, <- !app_assoc.
    + rewrite !length_app in Hn |- *. rewrite length_fmap. cbn [length] in Hn. lia.
    + apply Forall_app. now split.
Qed.

(** X13: the loop of [_cycle_job_list] that re-prioritizes the job list
    moves the jobs that were GS_ACTIVE to the back of the list, in the
    order they had, and keeps the other jobs in their order at the front;
    a GS_FILLER job keeps its place. Every job that was in the active row
    is GS_NO_ACTIVE afterwards. *)
Theorem cycle_reorder_rotates (l : list gs_job) :
  _cycle_reorder_loop (length l) 0 l = Ok (rotated l).
Proof.
  pose proof (_cycle_reorder_loop_rotates (length l) [] l []) as H.
  cbn [app length] in H. rewrite app_nil_r in H.
  rewrite H; [reflexivity|lia|constructor].
Qed.

(** ** Removing a job that is there *)

Lemma lookup_clear_shadow (a p : nat) (q : gs_part) (parts : list gs_part) :
  parts !! p = Some q →
  map (_clear_shadow_part a) parts !! p = Some (_clear_shadow_part a q).
Proof. intros Hq. now rewrite lookup_map_part, Hq. Qed.

(** The run of [_remove_job_from_part] for a job that is found. *)
Lemma _remove_job_from_part_found
    (job_suspend : list suspend_msg → suspend_msg → Z)
    (id : Z) (p i : nat) (q : gs_part) (j : gs_job) (s : gs_state) :
  id ≠ 0 → gs_part_list s !! p = Some q →
  _find_job_index q id = Some i → job_list q !! i = Some j →
  ∃ s',
    _remove_job_from_part job_suspend id (Some p) s = Ok (tt, s') ∧
    gs_part_list s'
    = <[p:=set_job_list (delete i (job_list q))
             (_clear_shadow_part (job_addr j) q)]>
        (map (_clear_shadow_part (job_addr j)) (gs_part_list s)) ∧
    signals_sent s'
    = signals_sent s ++
      (if decide (sig_state j = GS_SUSPEND) then [(job_id j, RESUME_JOB)] else []) ∧
    core s' = core s ∧ next_job_addr s' = next_job_addr s ∧ shape s' = shape s.
Proof.
  intros Hid Hq Hfind Hj.
  set (cleared := map (_clear_shadow_part (job_addr j)) (gs_part_list s)).
  assert (Hcleared : cleared !! p = Some (_clear_shadow_part (job_addr j) q))
    by now apply lookup_clear_shadow.
  unfold _remove_job_from_part. rewrite (proj2 (Z.eqb_neq id 0) Hid).
  unfold bind at 1. unfold get_part at 1. rewrite Hq, Hfind.
  unfold bind at 1. unfold get_job, bind at 1. unfold get_part at 1. rewrite Hq.
  unfold lift, array_get. rewrite Hj.
  unfold bind at 1. unfold _clear_shadow, modify at 1.
  unfold bind at 1. unfold get_part at 1. cbn [gs_part_list set_part_list].
  fold cleared. rewrite Hcleared.
  unfold bind at 1. unfold put_part, modify at 1.
  cbn [gs_part_list set_part_list].
  assert (Hshape : ∀ l, length (<[p:=l]> cleared) = length (gs_part_list s)).
  { intros l. unfold cleared. now rewrite length_insert, length_map. }
  destruct (decide (sig_state j = GS_SUSPEND)) as [Hs|Hs].
  - unfold _signal_job. eexists. split; [reflexivity|].
    split; [reflexivity|]. cbn [signals_sent set_part_list].
    rewrite decide_False by discriminate. split; [reflexivity|].
    split; [reflexivity|]. split; [reflexivity|].
    unfold shape. cbn. now rewrite Hshape.
  - eexists. split; [reflexivity|]. split; [reflexivity|].
    cbn [signals_sent set_part_list]. rewrite app_nil_r.
    split; [reflexivity|]. split; [reflexivity|]. split; [reflexivity|].
    unfold shape. cbn. now rewrite Hshape.
Qed.

(** X14: [_remove_job_from_part] called for a job that the partition
    lists returns; it takes the first job with the id out of the job list
    and leaves the other jobs of the list in their order, leaves the job
    lists of the other partitions alone, takes the job out of every shadow
    array, and sends one message, to resume the job, exactly when the job
    was suspended. *)
Theorem remove_tracked_job (job_suspend : list suspend_msg → suspend_msg → Z)
    (id : Z) (p i : nat) (q : gs_part) (s : gs_state) :
  well_formed s → id ≠ 0 →
  gs_part_list s !! p = Some q → _find_job_index q id = Some i →
  ∃ j s',
    job_list q !! i = Some j ∧ job_id j = id ∧
    _remove_job_from_part job_suspend id (Some p) s = Ok (tt, s') ∧
    (∃ q', gs_part_list s' !! p = Some q' ∧
           job_list q' = delete i (job_list q)) ∧
    (∀ p' q0, p' ≠ p → gs_part_list s !! p' = Some q0 →
              ∃ q', gs_part_list s' !! p' = Some q' ∧ job_list q' = job_list q0) ∧
    (∀ q', q' ∈ gs_part_list s' → job_addr j ∉ shadow q') ∧
    signals_sent s'
    = signals_sent s ++
      (if decide (sig_state j = GS_SUSPEND) then [(id, RESUME_JOB)] else []).
Proof.
  intros Hwf Hid Hq Hfind.
  pose proof Hfind as Hfirst. unfold _find_job_index in Hfirst.
  apply _find_job_index_from_first in Hfirst as (k & j & -> & Hj & Hjid & _).
  cbn [Nat.add] in *.
  pose proof (lookup_lt_Some _ _ _ Hq) as Hp.
  destruct (_remove_job_from_part_found job_suspend id p k q j s Hid Hq Hfind Hj)
    as (s' & Hrun & Hparts & Hsig & _).
  exists j, s'.
  split; [exact Hj|]. split; [exact Hjid|]. split; [exact Hrun|].
  rewrite Hparts. split; [|split; [|split; [|now rewrite Hsig, Hjid]]].
  - eexists. split; [apply list_lookup_insert_eq; rewrite length_map; lia|].
    reflexivity.
  - intros p' q0 Hne Hq0. exists (_clear_shadow_part (job_addr j) q0).
    split; [|reflexivity].
    rewrite list_lookup_insert_ne by congruence. now apply lookup_clear_shadow.
  - intros q' Hq'.
    apply elem_of_insert_inv in Hq' as [-> | Hq'].
    + cbn. apply (_clear_shadow_gone (job_addr j) s Hwf
                    (_clear_shadow_part (job_addr j) q)).
      apply (list_elem_of_lookup_2 _ p). now apply lookup_clear_shadow.
    + now apply (_clear_shadow_gone (job_addr j) s Hwf).
Qed.

Lemma remove_tracked_job_witness :
  ∃ j s',
    job_list (mk_gs_part "low" 10
                [mk_gs_job 1 8 GS_SUSPEND GS_NO_ACTIVE [true; false] None;
                 mk_gs_job 2 9 GS_RESUME GS_FILLER [false; true] None]
                [0%nat] 2 (Some [true; true]) None) !! 0%nat = Some j ∧
    job_id j = 8 ∧
    _remove_job_from_part (λ _ _, 0) 8 (Some 1%nat) two_parts_state = Ok (tt, s') ∧
    (∃ q', gs_part_list s' !! 1%nat = Some q' ∧
           job_list q'
           = delete 0%nat
               (job_list (mk_gs_part "low" 10
                  [mk_gs_job 1 8 GS_SUSPEND GS_NO_ACTIVE [true; false] None;
                   mk_gs_job 2 9 GS_RESUME GS_FILLER [false; true] None]
                  [0%nat] 2 (Some [true; true]) None))) ∧
    (∀ p' q0, p' ≠ 1%nat → gs_part_list two_parts_state !! p' = Some q0 →
              ∃ q', gs_part_list s' !! p' = Some q' ∧ job_list q' = job_list q0) ∧
    (∀ q', q' ∈ gs_part_list s' → job_addr j ∉ shadow q') ∧
    signals_sent s'
    = signals_sent two_parts_state ++
      (if decide (sig_state j = GS_SUSPEND) then [(8, RESUME_JOB)] else []).
Proof.
  apply (remove_tracked_job (λ _ _, 0) 8 1 0 _ two_parts_state).
  - apply two_parts_state_well_formed.
  - discriminate.
  - reflexivity.
  - reflexivity.
Defined.

(** ** Casting and clearing a shadow *)

Lemma shadow_remove_snoc (a : nat) (l : list nat) :
  a ∉ l → shadow_remove a (l ++ [a]) = l.
Proof.
  induction l as [|x l IH]; intros Ha; cbn [app shadow_remove].
  - now rewrite decide_True.
  - apply not_elem_of_cons in Ha as [Hne Ha].
    rewrite decide_False by congruence. now rewrite IH.
Qed.

Lemma _clear_cast_shadow_part (a : nat) (prio : Z) (q : gs_part) :
  a ∉ shadow q → _clear_shadow_part a (_cast_shadow_part a prio q) = q.
Proof.
  intros Ha. unfold _cast_shadow_part.
  destruct (priority q >=? prio); [now apply _clear_shadow_part_absent|].
  rewrite bool_decide_eq_false_2 by assumption.
  unfold _clear_shadow_part. cbn [shadow set_shadow].
  rewrite shadow_remove_snoc by assumption. now destruct q.
Qed.

(** X15: a shadow that is cast and cleared again leaves no trace. When
    the job is in no shadow array, [_cast_shadow] followed by
    [_clear_shadow] for the same job leaves the state as it was, whatever
    the priority the shadow was cast with. *)
Theorem cast_then_clear_shadow (a : nat) (prio : Z) (s : gs_state) :
  (∀ q, q ∈ gs_part_list s → a ∉ shadow q) →
  (_cast_shadow a prio ;;; _clear_shadow a) s = Ok (tt, s).
Proof.
  intros Ha. unfold bind, _cast_shadow, _clear_shadow, modify.
  cbn [gs_part_list set_part_list]. do 2 f_equal.
  rewrite set_part_list_twice, map_map.
  assert (Hmap : map (λ q, _clear_shadow_part a (_cast_shadow_part a prio q))
                   (gs_part_list s) = gs_part_list s).
  { rewrite <- (map_id (gs_part_list s)) at 2. apply map_ext_in.
    intros q Hq. apply _clear_cast_shadow_part, Ha. now apply list_elem_of_In. }
  rewrite Hmap. apply set_part_list_id.
Qed.

Lemma cast_then_clear_shadow_witness :
  (_cast_shadow 2 100 ;;; _clear_shadow 2) two_parts_state = Ok (tt, two_parts_state).
Proof.
  apply (cast_then_clear_shadow 2 100 two_parts_state).
  intros q Hq. simpl in Hq. rewrite !elem_of_cons, elem_of_nil in Hq.
  destruct Hq as [-> | [-> | []]]; simpl; rewrite ?elem_of_cons, ?elem_of_nil; lia.
Defined.

(** ** The hooks keep the scheduler ready *)

(** A state made of partitions that hold jobs of the old state and the
    active rows of the old state. *)
Lemma rebuild_ready_fewer (s s' : gs_state) :
  rebuild_ready s → gs_inv s' → core s' = core s →
  next_job_addr s' = next_job_addr s →
  (∀ q', q' ∈ gs_part_list s' →
     ∃ q, q ∈ gs_part_list s ∧ (∀ j, j ∈ job_list q' → j ∈ job_list q) ∧
          active_resmap q' = active_resmap q ∧ active_cpus q' = active_cpus q) →
  rebuild_ready s'.
Proof.
  intros (_ & Hcap & Hjobs & Hsizes & Hnext) Hinv Hcore Haddr Hparts.
  split; [exact Hinv|]. rewrite Hcore, Haddr.
  split; [exact Hcap|]. split; [|split; [|exact Hnext]].
  - intros q' j Hq' Hj. destruct (Hparts q' Hq') as (q & Hq & Hsub & _).
    apply (Hjobs q j Hq). now apply Hsub.
  - intros q' Hq'. destruct (Hparts q' Hq') as (q & Hq & _ & Hm & Hc).
    destruct (Hsizes q Hq) as [H1 H2]. split.
    + intros m. rewrite Hm. apply H1.
    + intros arr. rewrite Hc. apply H2.
Qed.

Lemma elem_of_delete {A} (l : list A) (i : nat) (x : A) : x ∈ delete i l → x ∈ l.
Proof. apply sublist_elem_of, sublist_delete. Qed.

Lemma _remove_job_from_part_ready
    (job_suspend : list suspend_msg → suspend_msg → Z) (id : Z) (p : nat)
    (s : gs_state) :
  rebuild_ready s → (p < length (gs_part_list s))%nat →
  ∃ s', _remove_job_from_part job_suspend id (Some p) s = Ok (tt, s') ∧
        rebuild_ready s' ∧ shape s' = shape s.
Proof.
  intros Hready Hp.
  destruct (lookup_lt_is_Some_2 _ _ Hp) as [q Hq].
  assert (Hsame : _remove_job_from_part job_suspend id (Some p) s = Ok (tt, s) →
                  ∃ s', _remove_job_from_part job_suspend id (Some p) s = Ok (tt, s') ∧
                        rebuild_ready s' ∧ shape s' = shape s).
  { intros H. exists s. split; [exact H|]. split; [exact Hready|reflexivity]. }
  destruct (Z.eq_dec id 0) as [Hid|Hid].
  { apply Hsame. unfold _remove_job_from_part. now rewrite Hid. }
  destruct (_find_job_index q id) as [i|] eqn:Hfind.
  2:{ apply Hsame. unfold _remove_job_from_part.
      rewrite (proj2 (Z.eqb_neq id 0) Hid). unfold bind, get_part.
      now rewrite Hq, Hfind. }
  pose proof Hfind as Hfirst. unfold _find_job_index in Hfirst.
  apply _find_job_index_from_first in Hfirst as (k & j & -> & Hj & _).
  cbn [Nat.add] in *.
  destruct (_remove_job_from_part_found job_suspend id p k q j s Hid Hq Hfind Hj)
    as (s' & Hrun & Hparts & _ & Hcore & Haddr & Hshape).
  exists s'. split; [exact Hrun|]. split; [|exact Hshape].
  apply (rebuild_ready_fewer s s' Hready); try assumption.
  - destruct Hready as (Hinv & _).
    apply (keeps__remove_job_from_part job_suspend id (Some p) s tt s' Hinv Hrun).
  - intros q' Hq'. rewrite Hparts in Hq'.
    apply elem_of_insert_inv in Hq' as [-> | Hq'].
    + exists q. split; [now apply list_elem_of_lookup_2 in Hq|].
      split; [|now split]. intros j' Hj'. cbn in Hj'. now apply elem_of_delete in Hj'.
    + apply list_elem_of_fmap in Hq' as (q0 & -> & Hq0).
      exists q0. split; [exact Hq0|]. now repeat split.
Qed.

Lemma _find_gs_part_from_valid (l : list gs_part) (name : string) (p : nat) :
  _find_gs_part_from l name 0 = Some p → (p < length l)%nat.
Proof.
  intros H. pose proof (_find_gs_part_from_first l name 0) as Hfirst.
  rewrite H in Hfirst. destruct Hfirst as (k & q & -> & Hq & _).
  now apply lookup_lt_Some in Hq.
Qed.

(** X16: [gs_job_fini] keeps the scheduler in the states the rebuild is
    made for, and returns. For a job of a partition that the scheduler
    knows, it leaves every partition settled; for a job of any other
    partition it leaves the state as it is. *)
Theorem gs_job_fini_settles (job_suspend : list suspend_msg → suspend_msg → Z)
    (job_ptr : job_record) (s : gs_state) :
  rebuild_ready s → sorted_array_ok s → gs_part_list s ≠ [] →
  ∃ s',
    gs_job_fini job_suspend job_ptr s = Ok (tt, s') ∧
    rebuild_ready s' ∧ sorted_array_ok s' ∧
    match _find_gs_part_from (gs_part_list s) (jr_partition job_ptr) 0 with
    | Some _ => ∀ q, q ∈ gs_part_list s' → settled s' q
    | None => s' = s
    end.
Proof.
  intros Hready Hok Hne. unfold gs_job_fini, bind, _find_gs_part, gets.
  destruct (_find_gs_part_from (gs_part_list s) (jr_partition job_ptr) 0)
    as [p|] eqn:Hfind.
  - apply _find_gs_part_from_valid in Hfind.
    destruct (_remove_job_from_part_ready job_suspend (jr_job_id job_ptr) p s
                Hready Hfind) as (s1 & Hrun & Hready1 & Hshape).
    rewrite Hrun.
    destruct (_update_all_active_rows_settles job_suspend s1 Hready1
                (shape_sorted_array_ok s s1 Hshape Hok)
                (shape_parts_nonempty s s1 Hshape Hne))
      as (s' & Hall & Hready' & _ & _ & _ & Hperm & _ & Hsettled).
    exists s'. split; [exact Hall|]. split; [exact Hready'|].
    split; [intros _; exact Hperm|exact Hsettled].
  - exists s. split; [reflexivity|]. split; [exact Hready|].
    split; [exact Hok|reflexivity].
Qed.

Lemma gs_job_fini_settles_witness :
  ∃ s',
    gs_job_fini (λ _ _, 0) (mk_job_record 7 "high" JOB_COMPLETE [true; false])
      two_parts_cpu_state = Ok (tt, s') ∧
    rebuild_ready s' ∧ sorted_array_ok s' ∧
    match _find_gs_part_from (gs_part_list two_parts_cpu_state)
            (jr_partition (mk_job_record 7 "high" JOB_COMPLETE [true; false])) 0 with
    | Some _ => ∀ q, q ∈ gs_part_list s' → settled s' q
    | None => s' = two_parts_cpu_state
    end.
Proof.
  apply (gs_job_fini_settles (λ _ _, 0)
           (mk_job_record 7 "high" JOB_COMPLETE [true; false]) two_parts_cpu_state).
  - apply two_parts_cpu_state_ready.
  - intros _. reflexivity.
  - discriminate.
Defined.

(** ** Starting a job *)

(** The resmap and the CPU array are built from the granularity, the
    fast-schedule flag and the size of the resmaps. *)
Section BuiltGlobals.
Context (nodes : list node_record) (cores : Z → nat → nat → Z).
Context (s s' : gs_state).
Hypothesis Hgr : gr_type s' = gr_type s.
Hypothesis Hfs : gs_fast_schedule s' = gs_fast_schedule s.
Hypothesis Hsz : gs_resmap_size s' = gs_resmap_size s.

Lemma _get_resmap_globals (m : bitstr) (id : Z) :
  _get_resmap nodes cores s' m id = _get_resmap nodes cores s m id.
Proof.
  unfold _get_resmap. case_decide; [reflexivity|]. rewrite Hgr, Hsz.
  assert (Hloop : ∀ n i ai mi newmap,
            _get_resmap_nodes nodes cores s' m id n i ai mi newmap
            = _get_resmap_nodes nodes cores s m id n i ai mi newmap).
  { induction n as [|n IH]; intros i ai mi newmap; [reflexivity|].
    cbn [_get_resmap_nodes].
    rewrite (_compute_resources_globals nodes s s' Hgr Hfs).
    destruct (_compute_resources nodes s i true); [|reflexivity]. cbn [obind].
    destruct (bit_test m i); [|apply IH].
    destruct (_get_resmap_sockets _ _ _ _ _ _ _); [|reflexivity]. apply IH. }
  destruct (gr_type s); try reflexivity; apply Hloop.
Qed.

Lemma _load_alloc_cpus_globals (jmap m : bitstr) (id : Z) :
  _load_alloc_cpus nodes cores s' jmap m id = _load_alloc_cpus nodes cores s jmap m id.
Proof.
  unfold _load_alloc_cpus.
  assert (Hloop : ∀ n i a ai arr,
            _load_alloc_cpus_nodes nodes cores s' m id n i a ai arr
            = _load_alloc_cpus_nodes nodes cores s m id n i a ai arr).
  { induction n as [|n IH]; intros i a ai arr; [reflexivity|].
    cbn [_load_alloc_cpus_nodes].
    rewrite (_compute_resources_globals nodes s s' Hgr Hfs).
    destruct (_compute_resources nodes s i true); [|reflexivity]. cbn [obind].
    destruct (bit_test m i); [|apply IH].
    destruct (_load_alloc_cpus_sockets _ _ _ _ _ _ _); [|reflexivity]. apply IH. }
  apply Hloop.
Qed.

Lemma built_job_globals (m : bitstr) (id : Z) :
  built_job nodes cores s' m id = built_job nodes cores s m id.
Proof.
  unfold built_job. rewrite _get_resmap_globals, Hgr.
  destruct (_get_resmap nodes cores s m id); [|reflexivity]. cbn [obind].
  now rewrite _load_alloc_cpus_globals.
Qed.

End BuiltGlobals.

Section NewJobRun.
Context (nodes : list node_record) (cores : Z → nat → nat → Z).
Context (job_suspend : list suspend_msg → suspend_msg → Z).
Context (p : nat) (id : Z) (bitmap : bitstr) (q : gs_part) (s : gs_state).
Context (jmap : bitstr) (jcpus : option (list Z)).
Hypothesis Hq : gs_part_list s !! p = Some q.
Hypothesis Hfind : _find_job_index q id = None.
Hypothesis Hbuilt : built_job nodes cores s bitmap id = Ok (jmap, jcpus).

Lemma built_job_parts (t : gs_state) :
  gr_type t = gr_type s → gs_fast_schedule t = gs_fast_schedule s →
  gs_resmap_size t = gs_resmap_size s →
  _get_resmap nodes cores t bitmap id = Ok jmap ∧
  ∀ t', match gr_type t with
        | GS_CORE | GS_CPU =>
            arr <- lift (_load_alloc_cpus nodes cores t jmap bitmap id) ;;
            ret (Some arr)
        | GS_NODE | GS_SOCKET => ret None
        end t' = Ok (jcpus, t').
Proof.
  intros Hgr Hfs Hsz.
  rewrite (_get_resmap_globals nodes cores s t Hgr Hfs Hsz).
  rewrite (_load_alloc_cpus_globals nodes cores s t Hgr Hfs), Hgr.
  unfold built_job in Hbuilt.
  destruct (_get_resmap nodes cores s bitmap id) as [m|]; [|discriminate].
  cbn [obind] in Hbuilt.
  destruct (gr_type s);
    try (injection Hbuilt as -> <-; split; [reflexivity|intros t'; reflexivity]);
    destruct (_load_alloc_cpus nodes cores s m bitmap id) as [arr|] eqn:Harr;
    try discriminate; cbn [obind] in Hbuilt; injection Hbuilt as -> <-;
    (split; [reflexivity|]); intros t'; unfold bind, lift; rewrite Harr; reflexivity.
Qed.

(** The run of [_add_job_to_part] for a new job, up to the place where
    the job stands at the end of the job list. *)
Lemma _add_job_to_part_appended :
  let j := mk_gs_job (next_job_addr s) id GS_RESUME GS_NO_ACTIVE jmap jcpus in
  let s1 := set_next_job_addr (S (next_job_addr s)) s in
  let s2 := set_part_list
              (<[p:=set_job_list (job_list q ++ [j]) q]> (gs_part_list s)) s1 in
  _add_job_to_part nodes cores job_suspend p id bitmap s
  = (fits <- job_fits j p ;;
     (if (fits : bool) then
        add_active j p ;;;
        modify_job p (num_jobs q) (set_row_state GS_FILLER) ;;;
        p' <- get_part p ;;
        _cast_shadow (job_addr j) (priority p')
      else
        _signal_job job_suspend (job_id j) GS_SUSPEND ;;;
        modify_job p (num_jobs q) (set_sig_state GS_SUSPEND)) ;;;
     j' <- get_job p (num_jobs q) ;;
     ret (sig_state j')) s2.
Proof.
  intros j s1 s2.
  destruct (built_job_parts s1 eq_refl eq_refl eq_refl) as [Hmap Hcpus].
  unfold _add_job_to_part.
  unfold bind at 1. unfold get_part at 1. rewrite Hq, Hfind.
  unfold bind at 1. unfold ret at 1.
  assert (Hx : xmalloc_job s = Ok (next_job_addr s, s1)) by reflexivity.
  unfold bind at 1. rewrite Hx.
  unfold bind at 1. unfold get_state at 1.
  unfold bind at 1. unfold lift at 1. rewrite Hmap.
  unfold bind at 1. rewrite Hcpus.
  unfold bind at 1. unfold get_part at 1.
  change (gs_part_list s1) with (gs_part_list s). rewrite Hq.
  unfold bind at 1. unfold put_part, modify at 1.
  reflexivity.
Qed.

End NewJobRun.

Lemma _job_fits_in_active_row_jobs (s : gs_state) (j : gs_job) (l : list gs_job)
    (q : gs_part) :
  _job_fits_in_active_row s j (set_job_list l q) = _job_fits_in_active_row s j q.
Proof. reflexivity. Qed.

Lemma _add_job_to_active_jobs (s : gs_state) (j : gs_job) (l : list gs_job)
    (q q3 : gs_part) :
  _add_job_to_active s j q = Ok q3 →
  _add_job_to_active s j (set_job_list l q) = Ok (set_job_list l q3).
Proof.
  unfold _add_job_to_active. cbn [set_job_list active_resmap jobs_active active_cpus
                                  part_name priority job_list shadow]. cbv zeta.
  destruct (match gr_type s with
            | GS_CPU | GS_CORE => _
            | _ => _
            end) as [acpus|]; [|discriminate].
  cbn [obind]. now intros [= <-].
Qed.

Section NewJobCases.
Context (nodes : list node_record) (cores : Z → nat → nat → Z).
Context (job_suspend : list suspend_msg → suspend_msg → Z).
Context (p : nat) (id : Z) (bitmap : bitstr) (q : gs_part) (s : gs_state).
Context (jmap : bitstr) (jcpus : option (list Z)).
Hypothesis Hq : gs_part_list s !! p = Some q.
Hypothesis Hfind : _find_job_index q id = None.
Hypothesis Hbuilt : built_job nodes cores s bitmap id = Ok (jmap, jcpus).

Lemma appended_lookup (x : gs_job) :
  (job_list q ++ [x]) !! num_jobs q = Some x.
Proof. unfold num_jobs. now rewrite list_lookup_middle. Qed.

Lemma appended_insert (x y : gs_job) :
  <[num_jobs q:=y]> (job_list q ++ [x]) = job_list q ++ [y].
Proof.
  unfold num_jobs. rewrite insert_app_r_alt by lia. now rewrite Nat.sub_diag.
Qed.

Lemma new_job_not_fitting :
  let j := mk_gs_job (next_job_addr s) id GS_RESUME GS_NO_ACTIVE jmap jcpus in
  _job_fits_in_active_row s j q = Ok false →
  ∃ s',
    _add_job_to_part nodes cores job_suspend p id bitmap s = Ok (GS_SUSPEND, s') ∧
    gs_part_list s'
    = <[p:=set_job_list (job_list q ++ [set_sig_state GS_SUSPEND j]) q]>
        (gs_part_list s) ∧
    core s' = core s ∧ next_job_addr s' = S (next_job_addr s) ∧
    shape s' = shape s.
Proof.
  intros j Hfits. pose proof (lookup_lt_Some _ _ _ Hq) as Hp.
  rewrite (_add_job_to_part_appended nodes cores job_suspend p id bitmap q s
             jmap jcpus Hq Hfind Hbuilt).
  fold j.
  set (q2 := set_job_list (job_list q ++ [j]) q).
  set (s2 := set_part_list (<[p:=q2]> (gs_part_list s))
               (set_next_job_addr (S (next_job_addr s)) s)).
  assert (Hq2 : gs_part_list s2 !! p = Some q2)
    by (cbn; now apply list_lookup_insert_eq).
  assert (Hfits2 : _job_fits_in_active_row s2 j q2 = Ok false).
  { rewrite <- _job_fits_in_active_row_core. unfold q2.
    rewrite _job_fits_in_active_row_jobs.
    change (core s2) with (core s). now rewrite _job_fits_in_active_row_core. }
  unfold bind at 1. unfold job_fits, bind at 1. unfold get_part at 1.
  rewrite Hq2. unfold bind at 1. unfold get_state at 1. unfold lift at 1.
  rewrite Hfits2.
  unfold bind at 1. unfold bind at 1.
  destruct (_signal_job job_suspend (job_id j) GS_SUSPEND s2) as [[[] s3]|] eqn:Hsig;
    [|discriminate Hsig].
  apply _signal_job_Ok in Hsig as (msgs & errs & [= ->]).
  unfold modify_job, bind at 1. unfold get_part at 1.
  change (gs_part_list (set_log msgs errs s2)) with (gs_part_list s2).
  rewrite Hq2. unfold bind at 1. unfold lift, array_get at 1.
  unfold q2 at 1. cbn [job_list set_job_list]. rewrite appended_lookup.
  unfold put_part, modify at 1.
  unfold bind at 1. unfold get_job, bind at 1. unfold get_part at 1.
  subst s2. cbn [gs_part_list set_part_list set_log set_next_job_addr].
  rewrite list_insert_insert_eq, list_lookup_insert_eq by assumption.
  unfold lift, array_get. subst q2. cbn [job_list set_job_list].
  rewrite appended_insert, appended_lookup. unfold ret.
  eexists. split; [reflexivity|]. cbn [gs_part_list set_part_list].
  split; [reflexivity|]. split; [reflexivity|]. split; [reflexivity|].
  unfold shape. cbn. now rewrite length_insert.
Qed.

Lemma new_job_fitting (q3 : gs_part) :
  let j := mk_gs_job (next_job_addr s) id GS_RESUME GS_NO_ACTIVE jmap jcpus in
  _job_fits_in_active_row s j q = Ok true →
  _add_job_to_active s j q = Ok q3 →
  ∃ s',
    _add_job_to_part nodes cores job_suspend p id bitmap s = Ok (GS_RESUME, s') ∧
    gs_part_list s'
    = map (_cast_shadow_part (next_job_addr s) (priority q3))
        (<[p:=set_job_list (job_list q ++ [set_row_state GS_FILLER j]) q3]>
           (gs_part_list s)) ∧
    core s' = core s ∧ next_job_addr s' = S (next_job_addr s) ∧
    shape s' = shape s.
Proof.
  intros j Hfits Hadd. pose proof (lookup_lt_Some _ _ _ Hq) as Hp.
  rewrite (_add_job_to_part_appended nodes cores job_suspend p id bitmap q s
             jmap jcpus Hq Hfind Hbuilt).
  fold j.
  set (l2 := job_list q ++ [j]).
  set (q2 := set_job_list l2 q).
  set (s2 := set_part_list (<[p:=q2]> (gs_part_list s))
               (set_next_job_addr (S (next_job_addr s)) s)).
  assert (Hq2 : gs_part_list s2 !! p = Some q2)
    by (cbn; now apply list_lookup_insert_eq).
  assert (Hfits2 : _job_fits_in_active_row s2 j q2 = Ok true).
  { rewrite <- _job_fits_in_active_row_core. unfold q2.
    rewrite _job_fits_in_active_row_jobs.
    change (core s2) with (core s). now rewrite _job_fits_in_active_row_core. }
  assert (Hadd2 : _add_job_to_active s2 j q2 = Ok (set_job_list l2 q3)).
  { rewrite <- _add_job_to_active_core. change (core s2) with (core s).
    rewrite _add_job_to_active_core. now apply _add_job_to_active_jobs. }
  unfold bind at 1. unfold job_fits, bind at 1. unfold get_part at 1.
  rewrite Hq2. unfold bind at 1. unfold get_state at 1. unfold lift at 1.
  rewrite Hfits2.
  unfold bind at 1. unfold bind at 1.
  (* the job enters the row *)
  unfold add_active, bind at 1. unfold get_part at 1. rewrite Hq2.
  unfold bind at 1. unfold get_state at 1.
  unfold bind at 1. unfold lift at 1. rewrite Hadd2.
  unfold put_part at 1. unfold modify at 1.
  (* it is a filler *)
  unfold bind at 1. unfold modify_job, bind at 1. unfold get_part at 1.
  subst s2. cbn [gs_part_list set_part_list set_next_job_addr].
  rewrite list_insert_insert_eq, list_lookup_insert_eq by assumption.
  unfold bind at 1. unfold lift, array_get at 1.
  cbn [job_list set_job_list]. subst l2. rewrite appended_lookup.
  unfold put_part at 1. unfold modify at 1.
  cbn [gs_part_list set_part_list].
  rewrite list_insert_insert_eq, appended_insert.
  (* its shadow is cast *)
  unfold bind at 1. unfold get_part at 1. cbn [gs_part_list set_part_list].
  rewrite list_lookup_insert_eq by assumption.
  unfold _cast_shadow, modify at 1. cbn [gs_part_list set_part_list priority
                                         set_job_list job_addr].
  subst j. cbn [job_addr].
  (* the state of the job is returned *)
  unfold bind at 1. unfold get_job, bind at 1. unfold get_part at 1.
  cbn [gs_part_list set_part_list].
  rewrite lookup_map_part, list_lookup_insert_eq by assumption.
  cbn [fmap option_fmap option_map].
  rewrite _cast_shadow_part_higher by (cbn; lia).
  unfold lift, array_get. cbn [job_list set_job_list].
  rewrite appended_lookup. unfold ret. cbn [sig_state set_row_state].
  eexists. split; [reflexivity|]. cbn [gs_part_list set_part_list].
  split; [reflexivity|]. split; [reflexivity|]. split; [reflexivity|].
  unfold shape. cbn. now rewrite length_map, length_insert.
Qed.

End NewJobCases.

(** *** The state after the job was added *)

Lemma job_list_cast_shadow_part (a : nat) (prio : Z) (x : gs_part) :
  job_list (_cast_shadow_part a prio x) = job_list x ∧
  active_resmap (_cast_shadow_part a prio x) = active_resmap x ∧
  active_cpus (_cast_shadow_part a prio x) = active_cpus x.
Proof.
  unfold _cast_shadow_part. destruct (priority x >=? prio); [easy|].
  destruct (bool_decide (a ∈ shadow x)); easy.
Qed.

(** A state whose partitions hold jobs the scheduler can handle and
    active rows of the right size. *)
Lemma rebuild_ready_parts (s s' : gs_state) :
  rebuild_ready s → gs_inv s' → core s' = core s →
  Z.of_nat (next_job_addr s') < 1073741824 →
  (∀ q', q' ∈ gs_part_list s' →
     (∀ j, j ∈ job_list q' → res_ok (core s) (res_of j)) ∧ sizes_ok (core s) q') →
  rebuild_ready s'.
Proof.
  intros (_ & Hcap & _) Hinv Hcore Hnext Hparts.
  split; [exact Hinv|]. rewrite Hcore.
  split; [exact Hcap|]. split; [|split; [|exact Hnext]].
  - intros q' j Hq' Hj. now apply (Hparts q' Hq').
  - intros q' Hq'. now apply (Hparts q' Hq').
Qed.

Lemma sizes_ok_same_row (g : gs_state) (q q' : gs_part) :
  active_resmap q' = active_resmap q → active_cpus q' = active_cpus q →
  sizes_ok g q → sizes_ok g q'.
Proof. unfold sizes_ok. now intros -> ->. Qed.

Lemma seated_res_snoc_unseated (l : list gs_job) (x : gs_job) :
  row_state x = GS_NO_ACTIVE → seated_res (l ++ [x]) = seated_res l.
Proof.
  intros Hx. unfold seated_res, row_res.
  rewrite !list.filter_app, !filter_cons, !filter_nil, Hx.
  rewrite !decide_False by discriminate. now rewrite !app_nil_r.
Qed.

(** The jobs behind the shadows are found as before when a job is
    appended to a job list. *)
Lemma shadow_res_appended (s s' : gs_state) (p : nat) (q qf : gs_part)
    (q0 : gs_part) :
  gs_inv s → well_formed s' →
  gs_part_list s !! p = Some q →
  gs_part_list s' = <[p:=qf]> (gs_part_list s) →
  (∀ x, x ∈ job_list q → x ∈ job_list qf) →
  q0 ∈ gs_part_list s →
  shadow_res (gs_part_list s') (shadow q0)
  = shadow_res (gs_part_list s) (shadow q0).
Proof.
  intros [Hwf Hown] Hwf' Hq Hparts Hsub Hq0. unfold shadow_res.
  apply list_fmap_ext. intros k a Ha.
  apply list_elem_of_lookup_1 in Hq0 as [p0 Hp0].
  destruct (Hown p0 q0 a Hp0 (list_elem_of_lookup_2 _ _ _ Ha))
    as (po & qo & Hqo & Hin & _).
  apply list_elem_of_fmap in Hin as (j0 & -> & Hj0).
  rewrite (find_job_addr_owner s po qo j0 Hwf Hqo Hj0).
  destruct (decide (po = p)) as [->|Hne].
  - replace qo with q in * by congruence.
    rewrite (find_job_addr_owner s' p qf j0 Hwf'); [reflexivity| |now apply Hsub].
    rewrite Hparts. apply list_lookup_insert_eq. now apply lookup_lt_Some in Hq.
  - rewrite (find_job_addr_owner s' po qo j0 Hwf'); [reflexivity| |exact Hj0].
    rewrite Hparts. now rewrite list_lookup_insert_ne by congruence.
Qed.

Lemma present_appended (parts : list gs_part) (p : nat) (q qf : gs_part)
    (prio : Z) (a : nat) :
  parts !! p = Some q → shadow qf = shadow q → priority qf = priority q →
  present parts prio a → present (<[p:=qf]> parts) prio a.
Proof.
  intros Hq Hsh Hprio Hpres q' Hq' Hlt.
  apply elem_of_insert_inv in Hq' as [-> | Hq'].
  - rewrite Hsh. apply Hpres; [now apply list_elem_of_lookup_2 in Hq|congruence].
  - now apply Hpres.
Qed.

(** A job that does not fit is appended: every partition stays settled. *)
Lemma settled_appended (s s' : gs_state) (p : nat) (q : gs_part) (x : gs_job) :
  gs_inv s → well_formed s' → core s' = core s →
  gs_part_list s !! p = Some q →
  gs_part_list s' = <[p:=set_job_list (job_list q ++ [x]) q]> (gs_part_list s) →
  row_state x = GS_NO_ACTIVE →
  ¬ fits_on (core s)
      (shadow_res (gs_part_list s) (shadow q) ++ seated_res (job_list q))
      (res_of x) →
  (∀ q0, q0 ∈ gs_part_list s → settled s q0) →
  ∀ q', q' ∈ gs_part_list s' → settled s' q'.
Proof.
  intros Hinv Hwf' Hcore Hq Hparts Hx Hnofit Hall q' Hq'.
  set (qf := set_job_list (job_list q ++ [x]) q) in *.
  assert (Hsub : ∀ y, y ∈ job_list q → y ∈ job_list qf).
  { intros y Hy. cbn. apply elem_of_app. now left. }
  assert (Hqin : q ∈ gs_part_list s) by now apply list_elem_of_lookup_2 in Hq.
  assert (Hpres : ∀ prio a, present (gs_part_list s) prio a →
                            present (gs_part_list s') prio a).
  { intros prio a. rewrite Hparts. now apply (present_appended _ p q). }
  unfold settled. rewrite Hcore. rewrite Hparts in Hq'.
  apply elem_of_insert_inv in Hq' as [-> | Hq'].
  - change (shadow qf) with (shadow q).
    rewrite (shadow_res_appended s s' p q qf q) by assumption.
    destruct (Hall q Hqin) as (Hrepr & Hadm & Hno & Hin).
    unfold settled_by. cbv zeta.
    change (job_list qf) with (job_list q ++ [x]).
    rewrite seated_res_snoc_unseated by assumption.
    split; [now apply (repr_same_row _ _ q)|]. split; [exact Hadm|]. split.
    + intros y Hy Hrow. apply elem_of_app in Hy as [Hy|Hy]; [now apply Hno|].
      apply list_elem_of_singleton in Hy as ->. exact Hnofit.
    + intros y Hy Hrow. apply elem_of_app in Hy as [Hy|Hy].
      * apply Hpres. now apply Hin.
      * apply list_elem_of_singleton in Hy as ->. rewrite Hx in Hrow.
        destruct Hrow; discriminate.
  - rewrite (shadow_res_appended s s' p q qf q') by assumption.
    destruct (Hall q' Hq') as (Hrepr & Hadm & Hno & Hin).
    split; [exact Hrepr|]. split; [exact Hadm|]. split; [exact Hno|].
    intros y Hy Hrow. apply Hpres. now apply Hin.
Qed.

Lemma settled_bound (s : gs_state) (p : nat) (q : gs_part) :
  rebuild_ready s → gs_part_list s !! p = Some q →
  Z.of_nat (length (shadow_res (gs_part_list s) (shadow q) ++
                    seated_res (job_list q))) + 1 < 4294967296.
Proof.
  intros (Hinv & _ & _ & _ & Hnext) Hq.
  destruct (part_sizes s p q Hinv Hq) as [Hs Hj].
  unfold num_shadows, num_jobs in *.
  rewrite length_app. unfold shadow_res, seated_res, row_res.
  rewrite length_fmap, length_app, !length_fmap.
  pose proof (length_filter (λ j, row_state j = GS_ACTIVE) (job_list q)).
  pose proof (length_filter (λ j, row_state j = GS_FILLER) (job_list q)).
  lia.
Qed.

(** X17: [gs_job_start] keeps the scheduler settled. From a state the
    rebuild is made for in which every partition is settled, for a job that
    is new in its partition and for which [_add_job_to_part] builds a
    resmap and a CPU array that the scheduler can handle, [gs_job_start]
    returns and leaves a state the rebuild is made for in which every
    partition is settled again; for a job of a partition that the
    scheduler does not know it leaves the state as it is. *)
Theorem gs_job_start_settles (nodes : list node_record)
    (select_g_get_job_cores : Z → nat → nat → Z)
    (job_suspend : list suspend_msg → suspend_msg → Z)
    (job_ptr : job_record) (s : gs_state) :
  rebuild_ready s → sorted_array_ok s →
  (∀ q, q ∈ gs_part_list s → settled s q) →
  new_job s job_ptr →
  (∃ r, built_job nodes select_g_get_job_cores s (jr_node_bitmap job_ptr)
          (jr_job_id job_ptr) = Ok r ∧ res_ok s r) →
  Z.of_nat (S (next_job_addr s)) < 1073741824 →
  ∃ s',
    gs_job_start nodes select_g_get_job_cores job_suspend job_ptr s = Ok (tt, s') ∧
    rebuild_ready s' ∧ sorted_array_ok s' ∧
    (∀ q, q ∈ gs_part_list s' → settled s' q) ∧
    (_find_gs_part_from (gs_part_list s) (jr_partition job_ptr) 0 = None → s' = s).
Proof.
  intros Hready Hsorted Hall Hnew ([jmap jcpus] & Hbuilt & Hres) Hbound.
  unfold gs_job_start, bind at 1. unfold _find_gs_part, gets.
  destruct (_find_gs_part_from (gs_part_list s) (jr_partition job_ptr) 0)
    as [p|] eqn:Hpart.
  2:{ exists s. split; [reflexivity|]. split; [exact Hready|].
      split; [exact Hsorted|]. split; [exact Hall|reflexivity]. }
  pose proof (_find_gs_part_from_valid _ _ _ Hpart) as Hp.
  destruct (lookup_lt_is_Some_2 _ _ Hp) as [q Hq].
  pose proof (Hnew p q Hpart Hq) as Hfind.
  assert (Hne : gs_part_list s ≠ []).
  { intros Hnil. rewrite Hnil in Hp. cbn in Hp. lia. }
  assert (Hqin : q ∈ gs_part_list s) by now apply list_elem_of_lookup_2 in Hq.
  pose proof Hready as (Hinv & Hcap & Hjobs & Hsizes & _).
  set (j := mk_gs_job (next_job_addr s) (jr_job_id job_ptr) GS_RESUME GS_NO_ACTIVE
              jmap jcpus).
  set (J := shadow_res (gs_part_list s) (shadow q) ++ seated_res (job_list q)).
  destruct (Hall q Hqin) as (Hrepr & _). fold J in Hrepr.
  assert (Hokj : res_ok (core s) (res_of j)) by exact Hres.
  destruct (_job_fits_repr (core s) J j q Hcap Hokj Hrepr) as (b & Hb & Hiff).
  rewrite _job_fits_in_active_row_core in Hb.
  destruct b.
  - (* the job fits and runs *)
    destruct (_add_job_to_active_repr (core s) J j q Hcap Hokj Hrepr
                (settled_bound s p q Hready Hq))
      as (q3 & Hadd & Hrepr3 & _ & _ & _ & _ & _).
    rewrite _add_job_to_active_core in Hadd.
    destruct (new_job_fitting nodes select_g_get_job_cores job_suspend p
                (jr_job_id job_ptr) (jr_node_bitmap job_ptr) q s jmap jcpus
                Hq Hfind Hbuilt q3 Hb Hadd)
      as (s1 & Hrun & Hparts & Hcore & Hnext & Hshape).
    unfold bind at 1. rewrite Hrun. rewrite decide_True by reflexivity.
    assert (Hready1 : rebuild_ready s1).
    { apply (rebuild_ready_parts s s1 Hready); try assumption.
      - apply (keeps__add_job_to_part nodes select_g_get_job_cores job_suspend p
                 (jr_job_id job_ptr) (jr_node_bitmap job_ptr) s GS_RESUME s1 Hinv Hrun).
      - rewrite Hnext. exact Hbound.
      - intros q' Hq'. rewrite Hparts in Hq'.
        apply list_elem_of_fmap in Hq' as (x & -> & Hx).
        destruct (job_list_cast_shadow_part (next_job_addr s) (priority q3) x)
          as (Hl & Hm & Hc).
        rewrite Hl.
        apply elem_of_insert_inv in Hx as [-> | Hx].
        + split.
          * intros y Hy. cbn in Hy. apply elem_of_app in Hy as [Hy|Hy].
            -- now apply (Hjobs q y).
            -- apply list_elem_of_singleton in Hy as ->. exact Hokj.
          * apply (sizes_ok_same_row _ q3); [exact Hm|exact Hc|].
            now destruct Hrepr3 as (_ & Hs3 & _).
        + split; [intros y Hy; now apply (Hjobs x y)|].
          apply (sizes_ok_same_row _ x); [exact Hm|exact Hc|now apply Hsizes]. }
    destruct (_update_all_active_rows_settles job_suspend s1 Hready1
                (shape_sorted_array_ok s s1 Hshape Hsorted)
                (shape_parts_nonempty s s1 Hshape Hne))
      as (s' & Hall' & Hready' & _ & _ & _ & Hperm & _ & Hsettled).
    exists s'. split; [exact Hall'|]. split; [exact Hready'|].
    split; [intros _; exact Hperm|]. split; [exact Hsettled|discriminate].
  - (* the job does not fit and is suspended *)
    destruct (new_job_not_fitting nodes select_g_get_job_cores job_suspend p
                (jr_job_id job_ptr) (jr_node_bitmap job_ptr) q s jmap jcpus
                Hq Hfind Hbuilt Hb)
      as (s1 & Hrun & Hparts & Hcore & Hnext & Hshape).
    unfold bind at 1. rewrite Hrun. rewrite decide_False by discriminate.
    assert (Hinv1 : gs_inv s1).
    { apply (keeps__add_job_to_part nodes select_g_get_job_cores job_suspend p
               (jr_job_id job_ptr) (jr_node_bitmap job_ptr) s GS_SUSPEND s1 Hinv Hrun). }
    exists s1. split; [reflexivity|]. split; [|split; [|split; [|discriminate]]].
    + apply (rebuild_ready_parts s s1 Hready); try assumption.
      * rewrite Hnext. exact Hbound.
      * intros q' Hq'. rewrite Hparts in Hq'.
        apply elem_of_insert_inv in Hq' as [-> | Hq'].
        -- split.
           ++ intros y Hy. cbn in Hy. apply elem_of_app in Hy as [Hy|Hy].
              ** now apply (Hjobs q y).
              ** apply list_elem_of_singleton in Hy as ->. exact Hokj.
           ++ apply (sizes_ok_same_row _ q); [reflexivity|reflexivity|].
              now apply Hsizes.
        -- split; [intros y Hy; now apply (Hjobs q' y)|now apply Hsizes].
    + now apply (shape_sorted_array_ok s s1).
    + apply (settled_appended s s1 p q (set_sig_state GS_SUSPEND j));
        try assumption.
      * now destruct Hinv1.
      * reflexivity.
      * intros Hfits. fold J in Hfits.
        assert (Htrue : false = true) by now apply Hiff. discriminate Htrue.
Qed.

Lemma two_empty_parts_state_settled :
  rebuild_ready two_empty_parts_state ∧
  ∀ q, q ∈ gs_part_list two_empty_parts_state → settled two_empty_parts_state q.
Proof.
  split.
  - split; [apply two_empty_parts_state_inv|].
    split; [intros Hb; discriminate Hb|]. split; [|split; [|reflexivity]].
    + intros q j Hq Hj. simpl in Hq. rewrite !elem_of_cons, elem_of_nil in Hq.
      destruct Hq as [-> | [-> | []]]; inversion Hj.
    + intros q Hq. simpl in Hq. rewrite !elem_of_cons, elem_of_nil in Hq.
      destruct Hq as [-> | [-> | []]]; (split; [intros m [=]|intros arr [=]]).
  - intros q Hq. simpl in Hq. rewrite !elem_of_cons, elem_of_nil in Hq.
    destruct Hq as [-> | [-> | []]].
    all: split; [split; [reflexivity|]; split;
                 [split; [intros m [=]|intros arr [=]]|intros H; now contradict H]|].
    all: split; [apply admissible_nil|].
    all: split; intros x Hx; inversion Hx.
Qed.

Lemma gs_job_start_settles_witness :
  ∃ s',
    gs_job_start S1.nodes (λ _ _ _, 1) (λ _ _, 0)
      (mk_job_record 7 "high" JOB_RUNNING [true; false]) two_empty_parts_state
    = Ok (tt, s') ∧
    rebuild_ready s' ∧ sorted_array_ok s' ∧
    (∀ q, q ∈ gs_part_list s' → settled s' q) ∧
    (_find_gs_part_from (gs_part_list two_empty_parts_state)
       (jr_partition (mk_job_record 7 "high" JOB_RUNNING [true; false])) 0 = None →
     s' = two_empty_parts_state).
Proof.
  apply (gs_job_start_settles S1.nodes (λ _ _ _, 1) (λ _ _, 0)
           (mk_job_record 7 "high" JOB_RUNNING [true; false]) two_empty_parts_state).
  - apply two_empty_parts_state_settled.
  - intros H. discriminate H.
  - apply two_empty_parts_state_settled.
  - intros [|[|p]] q Hp Hq; simpl in Hp; try discriminate Hp.
    simpl in Hq. injection Hq as <-. reflexivity.
  - exists ([true; false], None). split; [reflexivity|].
    split; [reflexivity|intros Hb; discriminate Hb].
  - vm_compute. reflexivity.
Defined.

(** ** A time slice without contention *)

(** X18: when the active row of every partition holds all its jobs and
    shadows, a turn of the time slicer sorts the array of the partitions
    and does nothing else: no job list and no active row changes, and no
    job is suspended or resumed. *)
Theorem timeslicer_turn_no_contention
    (job_suspend : list suspend_msg → suspend_msg → Z) (s : gs_state) :
  gs_part_list s ≠ [] → sorted_array_ok s →
  (∀ q, q ∈ gs_part_list s →
        to_uint32 (Z.of_nat (num_jobs q) + Z.of_nat (num_shadows q))
        ≤ jobs_active q) →
  ∃ sorted,
    _timeslicer_turn job_suspend s
    = Ok (tt, set_part_sorted sorted (length (gs_part_list s)) s) ∧
    sorted ≡ₚ seq 0 (length (gs_part_list s)) ∧
    priority_descending (gs_part_list s) sorted.
Proof.
  intros Hne Hok Hfull.
  destruct (_sort_partitions_spec s Hne Hok) as (sorted & Hsort & Hperm & Hdesc).
  exists sorted. split; [|now split].
  unfold _timeslicer_turn. unfold bind at 1. rewrite Hsort.
  unfold bind at 1. unfold gets at 1. cbn [num_sorted_part set_part_sorted].
  unfold for_index. apply for_each_same. intros i Hi.
  apply elem_of_seq in Hi.
  assert (Hlen : length sorted = length (gs_part_list s))
    by now rewrite Hperm, length_seq.
  destruct (lookup_lt_is_Some_2 sorted i ltac:(lia)) as [p Hp].
  assert (Hvalid : (p < length (gs_part_list s))%nat).
  { apply list_elem_of_lookup_2 in Hp. rewrite Hperm in Hp.
    apply elem_of_seq in Hp. lia. }
  destruct (lookup_lt_is_Some_2 _ _ Hvalid) as [q Hq].
  unfold bind at 1. unfold gets at 1. cbn [gs_part_sorted set_part_sorted].
  unfold bind at 1. unfold lift, array_get. rewrite Hp.
  unfold bind at 1. unfold get_part. cbn [gs_part_list set_part_sorted].
  rewrite Hq.
  specialize (Hfull q ltac:(now apply list_elem_of_lookup_2 in Hq)).
  destruct (Z.ltb_spec (jobs_active q)
              (to_uint32 (Z.of_nat (num_jobs q) + Z.of_nat (num_shadows q))));
    [lia|reflexivity].
Qed.

(** A state with seated jobs, where "low" stands before "high": the turn
    only puts "high" first in the sorted array. The guard is what keeps
    the rest: the cycle of partition "low", which the turn leaves out,
    would seat job 9 again as GS_ACTIVE. *)
Lemma timeslicer_turn_no_contention_witness :
  (∃ sorted,
     _timeslicer_turn (λ _ _, 0) two_parts_full_state
     = Ok (tt, set_part_sorted sorted (length (gs_part_list two_parts_full_state))
                 two_parts_full_state) ∧
     sorted ≡ₚ seq 0 (length (gs_part_list two_parts_full_state)) ∧
     priority_descending (gs_part_list two_parts_full_state) sorted) ∧
  _timeslicer_turn (λ _ _, 0) two_parts_full_state
  = Ok (tt, set_part_sorted [1%nat; 0%nat] 2 two_parts_full_state) ∧
  ∃ s2 q2,
    _cycle_job_list (λ _ _, 0) 0 two_parts_full_state = Ok (tt, s2) ∧
    gs_part_list s2 !! 0%nat = Some q2 ∧
    row_state <$> job_list q2 = [GS_ACTIVE].
Proof.
  split; [|split; [vm_compute; reflexivity|]].
  - apply (timeslicer_turn_no_contention (λ _ _, 0) two_parts_full_state).
    + discriminate.
    + intros _. reflexivity.
    + intros q Hq. simpl in Hq. rewrite !elem_of_cons, elem_of_nil in Hq.
      destruct Hq as [-> | [-> | []]]; vm_compute; discriminate.
  - do 2 eexists. split; [vm_compute; reflexivity|]. now split.
Defined.
